(* ===== verification/_CoqProject ===== *)
-Q . S2P
Prelude.v
GoStd.v
Sha256.v
Regex.v
Model.v
RateLimit.v
Paths.v
Mux.v
Iface.v
Gorm.v
Sql.v
Mongo.v
Storage.v
Prog.v
World.v
MongoWorld.v
Auth.v
Authz.v
ModuleApi.v
UploadApi.v
OwnerApi.v
RestApi.v
Server.v
Routes.v
Panics.v
Config.v
Access.v
Instances.v
Scenario.v
Discipline.v
Integrity.v
References.v
Keys.v
Owners.v
Session.v
Content.v
Privacy.v
Limits.v
Work.v
Answers.v
Process.v
Batches.v
Witnesses.v
