(* ===== verification/Prelude.v ===== *)
(** * OpenBSR: a verification development

    OpenBSR is a self-hosted Protobuf schema registry written in Go: clients push
    sets of .proto files to modules and pull them back, over the Connect protocol
    of the [buf] command line and over a REST API.  The server keeps metadata
    (users, organizations, modules, commits, labels, tokens) in a SQL database or
    in MongoDB, and the pushed archives in a blob store.

    ** How the program is put together, and where it is modelled

    A request passes the rate limiter (internal/auth/ratelimit.go: file RateLimit),
    the authentication middleware (internal/auth/middleware.go: Auth), the
    [http.ServeMux] with the patterns of cmd/bsr/main.go and of the REST
    [Register] methods (Mux, Routes), for Connect services the interceptor
    (internal/auth/interceptor.go: Auth), and then a handler:
    - internal/api/module: ModuleApi (module.go, resolve.go, commit.go, label.go)
      and UploadApi (upload.go, download.go, fds.go);
    - internal/api/owner and internal/api/authn: OwnerApi;
    - internal/api/rest: RestApi.
    Handlers ask the authorizer (internal/authz, Casbin: Authz), the repositories
    (internal/db/iface: Iface; SQL in internal/db/sql: Gorm, Sql; MongoDB in
    internal/db/mongo: Mongo) and the blob store (internal/storage: Paths, Storage).
    internal/config and the start-up half of main are Config; [ensureAdmin] and the
    set of served handlers are Server; the rest of main - the goroutine that
    listens, the interrupt, the shutdown and the ways the process ends - is Process,
    a state machine over the limiter, the requests in flight and the stored data.
    Records are Model; the pieces of the Go
    library in use are GoStd, Sha256, Regex, Paths and Mux.

    ** How handlers are modelled

    Every access of a handler to its surroundings is one operation of the signature
    [Iface.eff]: a repository method, a blob put or get, the clock, a fresh UUID, a
    bcrypt hash, a compilation.  A handler is a finite tree of operations
    ([Prog.prog]), written in the source's order with its guards and early returns;
    its [outcome] is a value, an error response, or a nil-pointer panic.  Programs
    have no loops but over lists of the request, so every handler terminates.
    Definitions keep the names of the Go functions; methods of different
    receivers get the receiver as prefix (Sql.UserStore_Create), and one iteration of a loop that
    deserves a name is the function's name with a suffix (GetCommits_ref).

    [Iface.eff_spec] says what an operation may answer and do to the abstract state
    (tables and blobs).  It is relative to a [mode]: [strict] backends enforce the
    SQL schema's unique keys (MongoDB does not), [live] backends do not fail on
    their own, the clock shows no time before [since] nor, if it is given, after
    [until], and fresh identifiers are among those the generator [draws].  A program
    is read in four ways: [run] executes it in an environment, [awp] is a weakest
    precondition over [eff_spec], [rgwp] allows other requests' operations between
    any two of its own, and [Access.aw] also demands that each operation be allowed.

    Third-party code is a parameter with documented laws: gorm ([GormOk]), the
    MongoDB driver ([MongoOk]), the S3 client ([S3ClientOk]), Casbin ([CasbinOk]),
    archive formats ([ZipOk]), bcrypt ([Bcrypt]; it refuses passwords of more than 72
    bytes), JSON decoding ([Json_decoder]), and the generated Connect code that reads
    which method a request calls and its message ([Connect_decoder]); which Go method
    then runs, or which stub, is [Routes.rpc].  World, MongoWorld and Instances hold executable instances of each, on which the witnesses run.

    ** The theorems

    - The process ([Process]): shutting down is orderly, an interrupt ends it in every
      run that is fair to its goroutines, and the data stays sound through any number
      of processes - all of it over a blob store with atomic writes, the references
      and keys also when a kill cuts a local file short.
    - The registry as a whole: [Integrity] (whatever interleaves and fails, labels
      point at commits, commits have blobs, blobs match their digests), [References]
      (rows point at stored users, organizations and modules), [Keys]
      (unique keys are invariant), the first two by the method of [Discipline]; [Access] (every operation of a
      request that runs by itself is authorized for the user the token identifies), [Panics], [Privacy] (private modules are
      indistinguishable from missing ones over REST), [Routes] (every HTTP request
      is one of these; documented URLs reach their handlers; patterns do not
      conflict), [Work] (requests in flight finish, within a number of operations
      their messages and the listed rows bound), [Answers] (the type of every REST
      answer, and that the web client reads no more).
    - Refinements of interfaces: the SQL and MongoDB stores implement the
      repositories ([Sql], [Mongo]), files, rows and S3 objects implement the blob
      store ([Storage]), the authorizer implements the README's permission table
      ([Authz]).
    - What operations do: pushes, pulls and browsing ([Content]), reference resolution
      ([ModuleApi]), listings of modules ([Privacy]), and, on a SQL backend that does
      not fail, logins, registrations and revocations ([Session]), REST writes
      ([Owners]), Connect writes value by value ([Batches]); authentication ([Auth]),
      the admin account ([Owners]), start-up ([Config]).
    - Pure parts: upload validation, archive round trip and decompression bounds
      ([UploadApi]), rate limiting ([RateLimit]), name patterns ([Regex], [Owners]),
      regular-expression escaping ([Mongo]), percent encoding ([Mux]).
    [Limits] holds runs that show what the code does not guarantee; [Scenario] is the
    small registry the witnesses of [Witnesses] run on.

    ** Bounds and fuel

    No definition needs fuel: programs are finite trees, and the recursive functions
    are structural (regular expressions use derivatives, SHA-256 recurses over
    blocks).  [Work.within] bounds the operations of a handler by a budget that is
    proved for every handler, not chosen.  Integers are [Z]; where Go's [int] could wrap around (the running
    totals of upload and unzip) the wrap-around is written out ([int64]).  Times are
    nanoseconds since Go's zero time.

    ** Not modelled

    Wire formats (HTTP framing, JSON and Protobuf encodings, the zip byte format)
    and logging; TLS handshakes and sockets (of net/http, [Process] takes what
    [ListenAndServe] returns and when [Shutdown] does as documented, and that goroutines
    which can act again and again do act is the assumption [fair_run]); operations a
    request still tries between [dbClose] and the end of the process; the ten
    seconds of the start-up context, past which operations of [ensureAdmin] fail
    as operations may; signals other than an interrupt and a fatal one; what opening
    a connection or migrating a schema does ([Config.Drivers] says whether it works);
    PostgreSQL's rounding of instants to microseconds, and its blob table, which the
    code cannot use ([Storage.DBStore_Get]); symbolic links and
    permissions in the local store; a database that loses an acknowledged write; the embedded web client (internal/web, web/), of which only
    the URLs it requests appear (Routes); deployment files and tests. *)
From stdpp Require Export base tactics list gmap sets strings option numbers sorting.
From Stdlib Require Export ZArith Lia.
#[global] Set Default Goal Selector "!".
#[global] Open Scope Z_scope.

(** ** Byte strings

    A Go [string] and a Go [[]byte] are both sequences of bytes; both are a
    Rocq [string] here.  Lengths are compared as [Z], as the program compares
    them with machine integers far too large for unary arithmetic. *)
Abbreviation bytes := string (only parsing).

Definition slen (s : string) : Z := Z.of_nat (String.length s).

(** The string's bytes in order, and back. *)
Fixpoint chars (s : string) : list Ascii.ascii :=
  match s with
  | EmptyString => []
  | String c s => c :: chars s
  end.

Fixpoint of_chars (l : list Ascii.ascii) : string :=
  match l with
  | [] => EmptyString
  | c :: l => String c (of_chars l)
  end.

Lemma of_chars_chars s : of_chars (chars s) = s.
Proof. induction s; simpl; congruence. Qed.

Lemma chars_of_chars l : chars (of_chars l) = l.
Proof. induction l; simpl; congruence. Qed.

Lemma chars_app s t : chars (s +:+ t) = (chars s ++ chars t)%list.
Proof.
  induction s as [|c s IH]; [done|].
  change (String c s +:+ t) with (String c (s +:+ t)). simpl. by f_equal.
Qed.

Lemma length_chars s : length (chars s) = String.length s.
Proof. induction s; simpl; congruence. Qed.

#[export] Instance chars_inj : Inj (=) (=) chars.
Proof. intros s t H. by rewrite <- (of_chars_chars s), H, of_chars_chars. Qed.

Lemma string_app_length s t : String.length (s +:+ t) = (String.length s + String.length t)%nat.
Proof. by rewrite <- !length_chars, chars_app, length_app. Qed.

Lemma string_app_assoc s t u : (s +:+ t) +:+ u = s +:+ (t +:+ u).
Proof. apply (inj chars). by rewrite !chars_app, app_assoc. Qed.

Lemma string_app_nil_r s : s +:+ "" = s.
Proof. apply (inj chars). rewrite chars_app. apply app_nil_r. Qed.

Lemma slen_nonneg s : 0 <= slen s.
Proof. unfold slen; lia. Qed.

Lemma slen_app s t : slen (s +:+ t) = slen s + slen t.
Proof. unfold slen. rewrite string_app_length. lia. Qed.

(** Boolean equality of strings, as the code's [==]. *)
Definition streq (s t : string) : bool := bool_decide (s = t).

Lemma streq_true s t : streq s t = true <-> s = t.
Proof. unfold streq. by rewrite bool_decide_eq_true. Qed.

Lemma streq_false s t : streq s t = false <-> s <> t.
Proof. unfold streq. by rewrite bool_decide_eq_false. Qed.

Lemma streq_refl s : streq s s = true.
Proof. by apply streq_true. Qed.

(** ** Maps seen through a partial renaming of their keys *)
Definition reindex {K1 K2 A} `{Countable K1, Countable K2} (f : K1 -> option K2) (m : gmap K1 A) : gmap K2 A :=
  list_to_map (omap (fun kv => k ← f kv.1; Some (k, kv.2)) (map_to_list m)).

Section Reindex.
Context {K1 K2 A : Type} `{Countable K1, Countable K2} (f : K1 -> option K2).
Hypothesis f_inj : forall k1 k2 k, f k1 = Some k -> f k2 = Some k -> k1 = k2.
Implicit Type m : gmap K1 A.

Lemma elem_reindex m k v :
  (k, v) ∈ omap (fun kv => k ← f kv.1; Some (k, kv.2)) (map_to_list m) <->
  exists k1, f k1 = Some k /\ m !! k1 = Some v.
Proof using f.
  rewrite list_elem_of_omap. split.
  - intros ([k1 v1] & Hin & E). apply elem_of_map_to_list in Hin. simpl in E.
    destruct (f k1) as [k'|] eqn:Ef; simplify_eq/=. eauto.
  - intros (k1 & Ef & Hk). exists (k1, v). split; [by apply elem_of_map_to_list|]. simpl. by rewrite Ef.
Qed.

Lemma lookup_reindex m k v : reindex f m !! k = Some v <-> exists k1, f k1 = Some k /\ m !! k1 = Some v.
Proof using f_inj.
  rewrite <- elem_reindex. unfold reindex. split; [apply elem_of_list_to_map_2|].
  intros Hin. apply elem_of_list_to_map_1'; [|done]. intros v'.
  apply elem_reindex in Hin as (k1 & E1 & Hk1). rewrite elem_reindex. intros (k2 & E2 & Hk2).
  rewrite (f_inj _ _ _ E1 E2) in Hk1. congruence.
Qed.

Lemma reindex_insert m k1 k v : f k1 = Some k -> reindex f (<[k1 := v]> m) = <[k := v]> (reindex f m).
Proof using f_inj.
  intros Ef. apply map_eq. intros i. apply option_eq. intros v'.
  rewrite lookup_reindex, lookup_insert_Some, lookup_reindex. split.
  - intros (k2 & E2 & Hk). apply lookup_insert_Some in Hk as [[<- <-]|[Hne Hk]]; [left; by simplify_eq|].
    right. split; [|eauto]. intros <-. by apply Hne, (f_inj _ _ k).
  - intros [[<- <-]|[Hne (k2 & E2 & Hk)]]; [exists k1; by rewrite lookup_insert_eq|].
    exists k2. split; [done|]. rewrite lookup_insert_ne; [done|]. congruence.
Qed.

Lemma reindex_None m k1 k : f k1 = Some k -> reindex f m !! k = None <-> m !! k1 = None.
Proof using f_inj.
  intros Ef. rewrite !eq_None_not_Some. unfold is_Some. setoid_rewrite lookup_reindex. split.
  - intros Hn [v Hv]. apply Hn. eauto.
  - intros Hn (v & k2 & E2 & Hv). rewrite (f_inj _ _ _ E2 Ef) in Hv. eauto.
Qed.
End Reindex.

(** ** State-passing methods *)

(** What a method's answer and the state it leaves satisfy. *)
Definition post {A W} (p : A * W) (Q : A -> W -> Prop) : Prop := let '(x, w) := p in Q x w.

Lemma post_mono {A W} (p : A * W) (Q Q' : A -> W -> Prop) :
  post p Q -> (forall x w, Q x w -> Q' x w) -> post p Q'.
Proof. destruct p; simpl; auto. Qed.

Create HintDb bsr.
Create HintDb reads.
#[export] Hint Resolve slen_nonneg streq_refl : bsr.


(** ** Shared tactics *)

(** Case analysis on the booleans and options that guard a branch. *)
Ltac split_guard :=
  match goal with
  | |- context [if ?b then _ else _] => destruct b eqn:?
  | H : context [if ?b then _ else _] |- _ => destruct b eqn:?
  end.

(** Turn boolean string and list tests among the hypotheses into propositions. *)
Ltac bool_facts :=
  repeat match goal with
  | H : streq _ _ = true |- _ => apply streq_true in H
  | H : streq _ _ = false |- _ => apply streq_false in H
  | H : negb _ = true |- _ => apply negb_true_iff in H
  | H : negb _ = false |- _ => apply negb_false_iff in H
  | H : _ && _ = true |- _ => apply andb_true_iff in H as [? ?]
  | H : _ || _ = false |- _ => apply orb_false_iff in H as [? ?]
  | H : (_ <? _) = true |- _ => apply Z.ltb_lt in H
  | H : (_ <? _) = false |- _ => apply Z.ltb_ge in H
  | H : (_ <=? _) = true |- _ => apply Z.leb_le in H
  | H : (_ <=? _) = false |- _ => apply Z.leb_gt in H
  | H : (_ =? _) = true |- _ => apply Z.eqb_eq in H
  | H : (_ =? _) = false |- _ => apply Z.eqb_neq in H
  end.
