(* ===== verification/GoStd.v ===== *)
(** * The Go standard library, as far as the registry uses it

    Byte-string functions of [strings], [encoding/hex], [encoding/base64],
    [crypto/sha256], the fragment of [regexp] the name patterns are written in,
    and the Unix half of [path/filepath].  The definitions are executable;
    the digests and encodings are checked against published vectors. *)
From S2P Require Import Prelude.
From Stdlib Require Import Ascii.

(** ** strings *)
Fixpoint HasPrefix (s prefix : string) : bool :=
  match prefix, s with
  | EmptyString, _ => true
  | String p ps, String c cs => bool_decide (p = c) && HasPrefix cs ps
  | String _ _, EmptyString => false
  end.

Fixpoint drop_bytes (n : nat) (s : string) : string :=
  match n, s with
  | S n, String _ s => drop_bytes n s
  | _, _ => s
  end.

Fixpoint take_bytes (n : nat) (s : string) : string :=
  match n, s with
  | S n, String c s => String c (take_bytes n s)
  | _, _ => EmptyString
  end.

Definition TrimPrefix (s prefix : string) : string :=
  if HasPrefix s prefix then drop_bytes (String.length prefix) s else s.

Definition HasSuffix (s suffix : string) : bool :=
  let n := (String.length s - String.length suffix)%nat in
  (String.length suffix <=? String.length s)%nat && streq (drop_bytes n s) suffix.

Fixpoint Contains (s sub : string) : bool :=
  HasPrefix s sub || match s with EmptyString => false | String _ s => Contains s sub end.

(** [strings.Split] by a one-byte separator. *)
Fixpoint Split (sep : ascii) (s : string) : list string :=
  match s with
  | EmptyString => [EmptyString]
  | String c s =>
      if bool_decide (c = sep) then EmptyString :: Split sep s
      else match Split sep s with
           | [] => [String c EmptyString]
           | w :: ws => String c w :: ws
           end
  end.

(** [strings.Split] by a non-empty separator; [skip] bytes of a separator just
    seen are still to be dropped. *)
Fixpoint split_str (sep s : string) (skip : nat) : list string :=
  match s with
  | EmptyString => [EmptyString]
  | String c r =>
      match skip with
      | S skip => split_str sep r skip
      | O =>
          if HasPrefix s sep then EmptyString :: split_str sep r (String.length sep - 1)
          else match split_str sep r O with
               | [] => [String c EmptyString]
               | w :: ws => String c w :: ws
               end
      end
  end.
Definition SplitStr (s sep : string) : list string := split_str sep s 0.

(** [strings.Join]. *)
Fixpoint Join (l : list string) (sep : string) : string :=
  match l with
  | [] => EmptyString
  | [w] => w
  | w :: l => w +:+ sep +:+ Join l sep
  end.

(** [strings.ToLower] on ASCII text: bytes from 0x80 up are left as they are. *)
Definition lower_ascii (c : ascii) : ascii :=
  let n := N_of_ascii c in
  if (N.leb 65 n && N.leb n 90)%bool then ascii_of_N (n + 32) else c.

Definition ToLower (s : string) : string := of_chars (lower_ascii <$> chars s).

Definition is_space (c : ascii) : bool :=
  let n := N_of_ascii c in
  ((N.leb 9 n && N.leb n 13) || N.eqb n 32)%bool.

Fixpoint trim_left (l : list ascii) : list ascii :=
  match l with
  | [] => []
  | c :: r => if is_space c then trim_left r else l
  end.

(** [strings.TrimSpace] on ASCII text. *)
Definition TrimSpace (s : string) : string :=
  of_chars (rev (trim_left (rev (trim_left (chars s))))).

Lemma HasPrefix_app s t : HasPrefix (s +:+ t) s = true.
Proof.
  induction s as [|c s IH]; [by destruct t|].
  change (String c s +:+ t) with (String c (s +:+ t)). simpl.
  by rewrite bool_decide_eq_true_2, IH.
Qed.

Lemma HasPrefix_inv s p : HasPrefix s p = true -> s = p +:+ drop_bytes (String.length p) s.
Proof.
  revert s; induction p as [|c p IH]; intros s H; [by destruct s|].
  destruct s as [|d s]; [done|]. simpl in H.
  apply andb_true_iff in H as [->%bool_decide_eq_true H].
  change (String d p +:+ drop_bytes (String.length (String d p)) (String d s))
    with (String d (p +:+ drop_bytes (String.length p) s)).
  by rewrite <- IH.
Qed.

Lemma HasPrefix_spec s p : HasPrefix s p = true <-> exists t, s = p +:+ t.
Proof.
  split; [intros H%HasPrefix_inv; eauto|]. intros [t ->]. apply HasPrefix_app.
Qed.

Lemma drop_bytes_app s t : drop_bytes (String.length s) (s +:+ t) = t.
Proof. induction s as [|c s IH]; [by destruct t|]. apply IH. Qed.

Lemma TrimPrefix_app s t : TrimPrefix (s +:+ t) s = t.
Proof. unfold TrimPrefix. by rewrite HasPrefix_app, drop_bytes_app. Qed.

Lemma Contains_spec s sub :
  Contains s sub = true <-> exists a b, s = a +:+ (sub +:+ b).
Proof.
  split.
  - induction s as [|c s IH]; simpl; rewrite orb_true_iff; intros [H|H]; try done.
    + destruct sub; [by exists "", ""|done].
    + change (HasPrefix (String c s) sub = true) in H.
      apply HasPrefix_spec in H as [t ->]. by exists "", t.
    + destruct (IH H) as (a & b & ->). by exists (String c a), b.
  - intros (a & b & ->). induction a as [|c a IH].
    + change ("" +:+ (sub +:+ b)) with (sub +:+ b). pose proof (HasPrefix_app sub b) as H.
      destruct (sub +:+ b); cbn [Contains]; by rewrite H.
    + change (String c a +:+ (sub +:+ b)) with (String c (a +:+ (sub +:+ b))).
      simpl. rewrite IH. apply orb_true_r.
Qed.

Lemma Join_Split sep s : Join (Split sep s) (String sep EmptyString) = s.
Proof.
  induction s as [|c s IH]; [done|]. simpl. case_bool_decide as Hc.
  - subst. destruct (Split sep s) as [|w ws] eqn:E.
    + destruct s; simpl in E; [done|]. case_bool_decide; [done|]. by destruct (Split sep s).
    + by rewrite <- IH.
  - destruct (Split sep s) as [|w ws]; [by rewrite <- IH|].
    rewrite <- IH. by destruct ws.
Qed.

(** ** encoding/hex *)
Definition hex_digit (n : Z) : ascii :=
  ascii_of_N (Z.to_N (if n <? 10 then 48 + n else 87 + n)).

(** [hex.EncodeToString] of a list of byte values. *)
Fixpoint EncodeToString (l : list Z) : string :=
  match l with
  | [] => EmptyString
  | b :: l => String (hex_digit (b / 16)) (String (hex_digit (b mod 16)) (EncodeToString l))
  end.

Definition is_hex_digit (c : ascii) : bool :=
  let n := Z.of_N (N_of_ascii c) in
  ((48 <=? n) && (n <=? 57)) || ((97 <=? n) && (n <=? 102)).

Lemma EncodeToString_length l : String.length (EncodeToString l) = (2 * length l)%nat.
Proof. induction l as [|b l IH]; [done|]. simpl. rewrite IH. lia. Qed.

Lemma hex_digit_code n : 0 <= n < 16 ->
  N_of_ascii (hex_digit n) = Z.to_N (if n <? 10 then 48 + n else 87 + n).
Proof. intros H. unfold hex_digit. apply N_ascii_embedding. destruct (n <? 10) eqn:E; lia. Qed.

Lemma hex_digit_inj m n : 0 <= m < 16 -> 0 <= n < 16 -> hex_digit m = hex_digit n -> m = n.
Proof.
  intros Hm Hn E. apply (f_equal N_of_ascii) in E. rewrite !hex_digit_code in E by done.
  destruct (m <? 10) eqn:?, (n <? 10) eqn:?; lia.
Qed.

Lemma hex_digit_is_hex n : 0 <= n < 16 -> is_hex_digit (hex_digit n) = true.
Proof. intros H. 
  unfold is_hex_digit. rewrite hex_digit_code by done. cbv zeta.
  rewrite orb_true_iff, !andb_true_iff, !Z.leb_le. destruct (n <? 10) eqn:?; lia.
Qed.

Definition is_byte (b : Z) : Prop := 0 <= b < 256.

Lemma byte_nibbles b : is_byte b -> 0 <= b / 16 < 16 /\ 0 <= b mod 16 < 16.
Proof.
  unfold is_byte. intros H. split; [|by apply Z.mod_pos_bound].
  split; [apply Z.div_pos; lia|apply Z.div_lt_upper_bound; lia].
Qed.

Lemma EncodeToString_inj l1 l2 :
  Forall is_byte l1 -> Forall is_byte l2 -> EncodeToString l1 = EncodeToString l2 -> l1 = l2.
Proof.
  intros H1; revert l2; induction H1 as [|a l1 Ha H1 IH]; intros l2 H2 E;
    destruct H2 as [|b l2 Hb H2]; try done.
  simpl in E. injection E as E1 E2 E3.
  destruct (byte_nibbles a Ha), (byte_nibbles b Hb).
  apply hex_digit_inj in E1; [|done..]. apply hex_digit_inj in E2; [|done..].
  f_equal; [|by apply IH]. rewrite (Z.div_mod a 16), (Z.div_mod b 16) by lia. lia.
Qed.

Lemma EncodeToString_hex l :
  Forall is_byte l -> Forall (fun c => is_hex_digit c = true) (chars (EncodeToString l)).
Proof.
  induction 1 as [|b l Hb _ IH]; simpl; [constructor|].
  destruct (byte_nibbles b Hb). repeat constructor; try apply hex_digit_is_hex; done.
Qed.

(** ** Machine integers *)

(** Go's [int] (64-bit) arithmetic wraps around. *)
Definition int64 (x : Z) : Z := (x + 2^63) mod 2^64 - 2^63.

Lemma int64_id x : -2^63 <= x < 2^63 -> int64 x = x.
Proof. intros Hx. unfold int64. rewrite Z.mod_small; lia. Qed.

(** ** Prefixes of byte strings *)
Lemma take_bytes_all n s : (String.length s <= n)%nat -> take_bytes n s = s.
Proof.
  revert s; induction n as [|n IH]; intros [|c s]; simpl; try done; [lia|].
  intros. rewrite IH; [done|lia].
Qed.

Lemma take_bytes_length n s : String.length (take_bytes n s) = Nat.min n (String.length s).
Proof. revert s; induction n as [|n IH]; intros [|c s]; simpl; try done. by rewrite IH. Qed.

(** ** encoding/base64 *)
Definition b64_char (n : Z) : ascii :=
  ascii_of_N (Z.to_N (if n <? 26 then 65 + n else if n <? 52 then 71 + n
                      else if n <? 62 then n - 4 else if n =? 62 then 43 else 47)).

Definition byte_val (c : ascii) : Z := Z.of_N (N_of_ascii c).

(** [base64.StdEncoding.EncodeToString]. *)
Fixpoint b64_chars (l : list ascii) : list ascii :=
  match l with
  | a :: b :: c :: l =>
      let n := byte_val a * 65536 + byte_val b * 256 + byte_val c in
      [b64_char (n / 262144); b64_char (n / 4096 mod 64); b64_char (n / 64 mod 64); b64_char (n mod 64)]
        ++ b64_chars l
  | [a; b] =>
      let n := byte_val a * 65536 + byte_val b * 256 in
      [b64_char (n / 262144); b64_char (n / 4096 mod 64); b64_char (n / 64 mod 64); "="%char]
  | [a] =>
      let n := byte_val a * 65536 in
      [b64_char (n / 262144); b64_char (n / 4096 mod 64); "="%char; "="%char]
  | [] => []
  end.

Definition Base64 (s : string) : string := of_chars (b64_chars (chars s)).

Example base64_foobar : Base64 "foobar" = "Zm9vYmFy" /\ Base64 "fooba" = "Zm9vYmE=" /\ Base64 "foob" = "Zm9vYg==".
Proof. by vm_compute. Qed.

(** ** time: [t.Format("2006-01-02T15:04:05Z")]

    [t] is in nanoseconds since the zero time, 0001-01-01T00:00:00Z. *)
Fixpoint dec_digits (width : nat) (n : Z) : string :=
  match width with
  | O => ""
  | S w => String (ascii_of_N (Z.to_N (48 + n / 10 ^ Z.of_nat w mod 10))) (dec_digits w n)
  end.

(** Year, month and day of a count of days since 0001-01-01. *)
Definition civil (days : Z) : Z * Z * Z :=
  let z := days + 306 in
  let era := z / 146097 in
  let doe := z mod 146097 in
  let yoe := (doe - doe / 1460 + doe / 36524 - doe / 146096) / 365 in
  let doy := doe - (365 * yoe + yoe / 4 - yoe / 100) in
  let mp := (5 * doy + 2) / 153 in
  let d := doy - (153 * mp + 2) / 5 + 1 in
  let m := if mp <? 10 then mp + 3 else mp - 9 in
  (yoe + era * 400 + (if m <=? 2 then 1 else 0), m, d).

Definition FormatTime (t : Z) : string :=
  let secs := t / 1000000000 in
  let '(y, m, d) := civil (secs / 86400) in
  let s := secs mod 86400 in
  dec_digits 4 y +:+ "-" +:+ dec_digits 2 m +:+ "-" +:+ dec_digits 2 d +:+ "T" +:+
  dec_digits 2 (s / 3600) +:+ ":" +:+ dec_digits 2 (s / 60 mod 60) +:+ ":" +:+ dec_digits 2 (s mod 60) +:+ "Z".

Example format_zero : FormatTime 0 = "0001-01-01T00:00:00Z".
Proof. by vm_compute. Qed.
Example format_unix_1e9 : FormatTime ((62135596800 + 1000000000) * 1000000000) = "2001-09-09T01:46:40Z".
Proof. by vm_compute. Qed.
