(* ===== verification/Sha256.v ===== *)
(** * crypto/sha256

    FIPS 180-4 over lists of byte values, with 32-bit words as [Z] reduced
    modulo [2^32].  [Sum256] is what token hashes and commit identifiers are
    made of; it is executable and checked against the standard's vectors. *)
From S2P Require Import Prelude GoStd.
From Stdlib Require Import Ascii.

Definition w32 (x : Z) : Z := x mod 2^32.
Definition rotr (n x : Z) : Z := Z.lor (Z.shiftr x n) (w32 (Z.shiftl x (32 - n))).
Definition ch (x y z : Z) : Z := Z.lxor (Z.land x y) (Z.land (2^32 - 1 - x) z).
Definition maj (x y z : Z) : Z := Z.lxor (Z.lxor (Z.land x y) (Z.land x z)) (Z.land y z).
Definition bsig0 (x : Z) : Z := Z.lxor (Z.lxor (rotr 2 x) (rotr 13 x)) (rotr 22 x).
Definition bsig1 (x : Z) : Z := Z.lxor (Z.lxor (rotr 6 x) (rotr 11 x)) (rotr 25 x).
Definition ssig0 (x : Z) : Z := Z.lxor (Z.lxor (rotr 7 x) (rotr 18 x)) (Z.shiftr x 3).
Definition ssig1 (x : Z) : Z := Z.lxor (Z.lxor (rotr 17 x) (rotr 19 x)) (Z.shiftr x 10).

(** The round constants and the initial state are the first 32 bits of the
    fractional parts of the cube roots and the square roots of the primes. *)
Definition is_prime (n : nat) : bool :=
  forallb (fun d => negb (Nat.eqb (Nat.modulo n d) 0)) (seq 2 (n - 2)).

Definition primes (count bound : nat) : list Z :=
  take count (Z.of_nat <$> filter (fun n => is_prime n = true) (seq 2 bound)).

(** The largest [r + k] with [k < 2^bits] whose cube is at most [n]. *)
Fixpoint cube_root (bits : nat) (r n : Z) : Z :=
  match bits with
  | O => r
  | S b =>
      let r' := r + 2 ^ Z.of_nat b in
      cube_root b (if r' * r' * r' <=? n then r' else r) n
  end.

Definition sha_k : list Z := Eval vm_compute in
  (fun p => cube_root 36 0 (p * 2^96) mod 2^32) <$> primes 64 312.

Definition sha_iv : list Z := Eval vm_compute in
  (fun p => Z.sqrt (p * 2^64) mod 2^32) <$> primes 8 20.

(** Big-endian bytes. *)
Fixpoint be_bytes (n : nat) (x : Z) : list Z :=
  match n with
  | O => []
  | S n => (Z.shiftr x (8 * Z.of_nat n)) mod 256 :: be_bytes n x
  end.

Fixpoint be_words (l : list Z) : list Z :=
  match l with
  | a :: b :: c :: d :: l => a * 2^24 + b * 2^16 + c * 2^8 + d :: be_words l
  | _ => []
  end.

Definition sha_pad (msg : list Z) : list Z :=
  let n := Z.of_nat (length msg) in
  (msg ++ [0x80] ++ replicate (Z.to_nat ((55 - n) mod 64)) 0 ++ be_bytes 8 (8 * n))%list.

(** The message schedule, kept newest first. *)
Fixpoint schedule (fuel : nat) (w : list Z) : list Z :=
  match fuel with
  | O => w
  | S fuel =>
      let at_ i := nth i w 0 in
      schedule fuel (w32 (ssig1 (at_ 1%nat) + at_ 6%nat + ssig0 (at_ 14%nat) + at_ 15%nat) :: w)
  end.

Definition sha_round (h : list Z) (kw : Z * Z) : list Z :=
  match h with
  | [a; b; c; d; e; f; g; hh] =>
      let t1 := hh + bsig1 e + ch e f g + fst kw + snd kw in
      let t2 := bsig0 a + maj a b c in
      [w32 (t1 + t2); a; b; c; w32 (d + t1); e; f; g]
  | _ => h
  end.

Definition sha_block (h : list Z) (block : list Z) : list Z :=
  let w := rev (schedule 48 (rev (be_words block))) in
  zip_with (fun x y => w32 (x + y)) h (foldl sha_round h (zip sha_k w)).

(** Consume the padded message 64 bytes at a time. *)
Fixpoint sha_blocks (fuel : nat) (h msg : list Z) : list Z :=
  match fuel with
  | O => h
  | S fuel =>
      match msg with
      | [] => h
      | _ => sha_blocks fuel (sha_block h (take 64 msg)) (drop 64 msg)
      end
  end.

Definition sum_bytes (msg : list Z) : list Z :=
  let p := sha_pad msg in
  mjoin (be_bytes 4 <$> sha_blocks (length p) sha_iv p).

Definition byte_values (s : string) : list Z := (fun c => Z.of_N (N_of_ascii c)) <$> chars s.

(** [sha256.Sum256([]byte(s))], as 32 byte values. *)
Definition Sum256 (s : string) : list Z := sum_bytes (byte_values s).

Lemma be_bytes_length n x : length (be_bytes n x) = n.
Proof. induction n; simpl; congruence. Qed.

Lemma be_bytes_byte n x : Forall is_byte (be_bytes n x).
Proof. induction n; simpl; constructor; [|done]. by apply Z.mod_pos_bound. Qed.

Lemma sha_round_length h kw : length (sha_round h kw) = length h.
Proof. by destruct h as [|? [|? [|? [|? [|? [|? [|? [|? [|]]]]]]]]]. Qed.

Lemma sha_rounds_length kws h : length (foldl sha_round h kws) = length h.
Proof. revert h; induction kws as [|kw kws IH]; intros h; [done|]. simpl. by rewrite IH, sha_round_length. Qed.

Lemma sha_block_length h b : length (sha_block h b) = length h.
Proof. unfold sha_block. rewrite length_zip_with, sha_rounds_length. lia. Qed.

Lemma sha_blocks_length fuel h msg : length (sha_blocks fuel h msg) = length h.
Proof.
  revert h msg; induction fuel as [|fuel IH]; intros h msg; [done|].
  simpl. destruct msg; [done|]. by rewrite IH, sha_block_length.
Qed.

Lemma mjoin_be_bytes_length l : length (mjoin (be_bytes 4 <$> l)) = (4 * length l)%nat.
Proof.
  induction l as [|x l IH]; [done|].
  change (length (be_bytes 4 x ++ mjoin (be_bytes 4 <$> l))%list = (4 * S (length l))%nat).
  rewrite length_app, be_bytes_length. lia.
Qed.

(** A digest is 32 bytes. *)
Lemma Sum256_length s : length (Sum256 s) = 32%nat.
Proof. unfold Sum256, sum_bytes. rewrite mjoin_be_bytes_length, sha_blocks_length. done. Qed.

Lemma Sum256_bytes s : Forall is_byte (Sum256 s).
Proof.
  unfold Sum256, sum_bytes. induction (sha_blocks _ _ _) as [|x l IH]; [constructor|].
  change (Forall is_byte (be_bytes 4 x ++ mjoin (be_bytes 4 <$> l))%list).
  apply Forall_app; split; [apply be_bytes_byte|apply IH].
Qed.

(** The padded message is a whole number of blocks, and the fuel consumes all of it. *)
Lemma sha_pad_blocks msg : Z.of_nat (length (sha_pad msg)) mod 64 = 0.
Proof.
  unfold sha_pad. rewrite !length_app, length_replicate, be_bytes_length. cbn [length].
  rewrite !Nat2Z.inj_add, Z2Nat.id by (apply Z.mod_pos_bound; lia).
  set (n := Z.of_nat (length msg)).
  replace (n + (Z.of_nat 1 + ((55 - n) mod 64 + Z.of_nat 8)))
    with (n + 9 + (55 - n) mod 64) by lia.
  rewrite Zplus_mod_idemp_r. replace (n + 9 + (55 - n)) with 64 by lia. done.
Qed.

Example sum256_empty :
  EncodeToString (Sum256 "") = "e3b0c44298fc1c149afbf4c8996fb92427ae41e4649b934ca495991b7852b855".
Proof. vm_compute. reflexivity. Qed.

Example sum256_abc :
  EncodeToString (Sum256 "abc") = "ba7816bf8f01cfea414140de5dae2223b00361a396177a9cb410ff61f20015ad".
Proof. vm_compute. reflexivity. Qed.

Example sum256_two_blocks :
  EncodeToString (Sum256 "abcdbcdecdefdefgefghfghighijhijkijkljklmklmnlmnomnopnopq")
  = "248d6a61d20638b8e5c026930c3e6039a33ce45964ff2167f6ecedd419db06c1".
Proof. vm_compute. reflexivity. Qed.

(** The digest as lower-case hexadecimal: 64 characters. *)
Definition sha256_hex (s : string) : string := EncodeToString (Sum256 s).

Lemma sha256_hex_length s : String.length (sha256_hex s) = 64%nat.
Proof. unfold sha256_hex. by rewrite EncodeToString_length, Sum256_length. Qed.

Lemma sha256_hex_digits s : Forall (fun c => is_hex_digit c = true) (chars (sha256_hex s)).
Proof. apply EncodeToString_hex, Sum256_bytes. Qed.

#[global] Opaque Sum256.
