(* ===== verification/Regex.v ===== *)
(** * regexp: anchored patterns over byte classes

    The registry's three name patterns are anchored at both ends and built from
    character classes, concatenation and bounded repetition.  [MatchString]
    decides such a pattern with derivatives; [lang] is the meaning it is proved
    equivalent to. *)
From S2P Require Import Prelude GoStd.
From Stdlib Require Import Ascii.

Inductive regex :=
| Nothing
| Eps
| Class (p : ascii -> bool)
| Cat (r s : regex)
| Alt (r s : regex).

Fixpoint times (r : regex) (n : nat) : regex :=
  match n with O => Eps | S n => Cat r (times r n) end.

Fixpoint upto (r : regex) (n : nat) : regex :=
  match n with O => Eps | S n => Alt Eps (Cat r (upto r n)) end.

(** [r{lo,hi}]. *)
Definition Repeat (r : regex) (lo hi : nat) : regex := Cat (times r lo) (upto r (hi - lo)).

(** Character classes. *)
Definition in_range (lo hi : ascii) (c : ascii) : bool :=
  (N.leb (N_of_ascii lo) (N_of_ascii c) && N.leb (N_of_ascii c) (N_of_ascii hi))%bool.
Definition cls_alnum (c : ascii) : bool := in_range "a" "z" c || in_range "0" "9" c.
Definition cls_alnum_dash (c : ascii) : bool := cls_alnum c || bool_decide (c = "-"%char).

Fixpoint nullable (r : regex) : bool :=
  match r with
  | Nothing => false
  | Eps => true
  | Class _ => false
  | Cat r s => nullable r && nullable s
  | Alt r s => nullable r || nullable s
  end.

Fixpoint deriv (c : ascii) (r : regex) : regex :=
  match r with
  | Nothing => Nothing
  | Eps => Nothing
  | Class p => if p c then Eps else Nothing
  | Cat r s =>
      if nullable r then Alt (Cat (deriv c r) s) (deriv c s) else Cat (deriv c r) s
  | Alt r s => Alt (deriv c r) (deriv c s)
  end.

Fixpoint match_chars (r : regex) (l : list ascii) : bool :=
  match l with
  | [] => nullable r
  | c :: l => match_chars (deriv c r) l
  end.

(** [regexp.MustCompile(`^r$`).MatchString(s)]. *)
Definition MatchString (r : regex) (s : string) : bool := match_chars r (chars s).

Fixpoint lang (r : regex) (l : list ascii) : Prop :=
  match r with
  | Nothing => False
  | Eps => l = []
  | Class p => exists c, l = [c] /\ p c = true
  | Cat r s => exists l1 l2, l = l1 ++ l2 /\ lang r l1 /\ lang s l2
  | Alt r s => lang r l \/ lang s l
  end.

Lemma nullable_lang r : nullable r = true <-> lang r [].
Proof.
  induction r as [| |p|r IHr s IHs|r IHr s IHs]; simpl.
  - done.
  - done.
  - split; [done|]. by intros (c & ? & _).
  - rewrite andb_true_iff, IHr, IHs. split; [intros []; by exists [], []|].
    intros (l1 & l2 & E & ? & ?). symmetry in E. apply app_nil in E as [-> ->]. done.
  - by rewrite orb_true_iff, IHr, IHs.
Qed.

Lemma deriv_lang c r l : lang (deriv c r) l <-> lang r (c :: l).
Proof.
  revert l; induction r as [| |p|r IHr s IHs|r IHr s IHs]; intros l; simpl.
  - done.
  - by split.
  - split.
    + destruct (p c) eqn:Hp; simpl; [intros ->; eauto|done].
    + intros (d & E & Hd). simplify_eq. by rewrite Hd.
  - assert (forall l', lang (Cat (deriv c r) s) l' <->
       exists l1 l2, l' = l1 ++ l2 /\ lang r (c :: l1) /\ lang s l2) as Hcat.
    { intros l'; simpl. setoid_rewrite IHr. done. }
    assert ((exists l1 l2, c :: l = l1 ++ l2 /\ lang r l1 /\ lang s l2) <->
       lang (Cat (deriv c r) s) l \/ (lang r [] /\ lang s (c :: l))) as Hsplit.
    { rewrite Hcat. split.
      - intros ([|d l1] & l2 & E & Hr & Hs); simplify_eq/=; [by right|].
        left. by exists l1, l2.
      - intros [(l1 & l2 & -> & Hr & Hs)|[Hr Hs]]; [by exists (c :: l1), l2|by exists [], (c :: l)]. }
    rewrite Hsplit, <- nullable_lang, <- IHs.
    destruct (nullable r); simpl; intuition discriminate.
  - by rewrite IHr, IHs.
Qed.

Lemma match_chars_lang r l : match_chars r l = true <-> lang r l.
Proof.
  revert r; induction l as [|c l IH]; intros r; simpl; [apply nullable_lang|].
  by rewrite IH, deriv_lang.
Qed.

(** Repetition of a byte class is a bound on the length and a condition on every byte. *)
Lemma lang_times p n l :
  lang (times (Class p) n) l <-> length l = n /\ Forall (fun c => p c = true) l.
Proof.
  revert l; induction n as [|n IH]; intros l; simpl.
  - split; [by intros ->|]. intros [?%nil_length_inv _]. done.
  - split.
    + intros (l1 & l2 & -> & (c & -> & Hc) & [Hl Hf]%IH). simpl. auto with lia.
    + intros [Hl Hf]. destruct Hf as [|c l Hc Hf]; [done|].
      exists [c], l. split; [done|]. split; [eauto|]. apply IH. simpl in Hl. auto with lia.
Qed.

Lemma lang_upto p n l :
  lang (upto (Class p) n) l <-> (length l <= n)%nat /\ Forall (fun c => p c = true) l.
Proof.
  revert l; induction n as [|n IH]; intros l; simpl.
  - split; [by intros ->|]. intros [? _]. destruct l; simpl in *; [done|lia].
  - split.
    + intros [->|(l1 & l2 & -> & (c & -> & Hc) & [Hl Hf]%IH)]; simpl; [auto with lia|].
      auto with lia.
    + intros [Hl Hf]. destruct Hf as [|c l Hc Hf]; [by left|]. right.
      exists [c], l. split; [done|]. split; [eauto|]. apply IH. simpl in Hl. auto with lia.
Qed.

Lemma lang_repeat p lo hi l : (lo <= hi)%nat ->
  lang (Repeat (Class p) lo hi) l <->
  (lo <= length l <= hi)%nat /\ Forall (fun c => p c = true) l.
Proof.
  intros Hle. unfold Repeat. simpl. split.
  - intros (l1 & l2 & -> & [? ?]%lang_times & [? ?]%lang_upto).
    rewrite length_app, Forall_app. split; [lia|done].
  - intros [Hl Hf]. exists (take lo l), (drop lo l).
    rewrite take_drop, lang_times, lang_upto, length_take, length_drop.
    repeat split; [lia|by apply Forall_take|lia|by apply Forall_drop].
Qed.

(** The shape shared by the name patterns: [^[a-z0-9][a-z0-9-]{lo,hi}[a-z0-9]$]. *)
Definition name_pattern (lo hi : nat) : regex :=
  Cat (Class cls_alnum) (Cat (Repeat (Class cls_alnum_dash) lo hi) (Class cls_alnum)).

(** What such a pattern accepts, without the pattern: a length, a character
    class for every byte, and no dash at either end. *)
Definition is_name (minlen maxlen : Z) (s : string) : Prop :=
  minlen <= slen s <= maxlen /\
  Forall (fun c => cls_alnum_dash c = true) (chars s) /\
  (exists c l, chars s = c :: l /\ cls_alnum c = true) /\
  (exists l c, chars s = l ++ [c] /\ cls_alnum c = true).

Lemma alnum_dash c : cls_alnum c = true -> cls_alnum_dash c = true.
Proof. unfold cls_alnum_dash. by intros ->. Qed.

Lemma name_pattern_spec lo hi s : (lo <= hi)%nat ->
  MatchString (name_pattern lo hi) s = true <->
  is_name (2 + Z.of_nat lo) (2 + Z.of_nat hi) s.
Proof.
  intros Hle. unfold MatchString, is_name, slen. rewrite match_chars_lang, <- length_chars.
  unfold name_pattern. cbn [lang]. setoid_rewrite (lang_repeat _ _ _ _ Hle). split.
  - intros (? & ? & E & (c & -> & Hc) & lm & ? & -> & [Hl Hf] & (d & -> & Hd)).
    rewrite E. cbn [app length]. rewrite length_app. cbn [length]. repeat split.
    + lia.
    + lia.
    + constructor; [by apply alnum_dash|]. apply Forall_app; split; [done|].
      constructor; [by apply alnum_dash|constructor].
    + eauto.
    + by exists (c :: lm), d.
  - intros (Hl & Hf & (c & l & E & Hc) & (l' & d & E' & Hd)).
    rewrite E in *. destruct l' as [|c' lm]; simplify_eq/=; [simpl in Hl; lia|].
    exists [c'], (lm ++ [d]). split; [done|]. split; [eauto|].
    exists lm, [d]. split; [done|]. split; [|eauto].
    apply Forall_cons in Hf as [_ Hf]. apply Forall_app in Hf as [Hf _].
    rewrite length_app in Hl. simpl in Hl. split; [lia|done].
Qed.
