(* ===== verification/Model.v ===== *)
(** * The registry's records (internal/model/model.go)

    Identifiers, names, hashes and keys are byte strings.  A [time.Time] is an
    instant in nanoseconds since Go's zero time (year 1, UTC); the registry
    stores, compares, shifts and prints instants.  [Visibility], [OrgRole] and [OwnerType] are string types in the
    code, so a value read from a database need not be one of the constants. *)
From S2P Require Import Prelude.

Abbreviation Time := Z (only parsing).

Definition Visibility := string.
Definition VisibilityPublic : Visibility := "public".
Definition VisibilityPrivate : Visibility := "private".

Definition OrgRole := string.
Definition OrgRoleAdmin : OrgRole := "admin".
Definition OrgRoleMember : OrgRole := "member".

Definition OwnerType := string.
Definition OwnerTypeUser : OwnerType := "user".
Definition OwnerTypeOrg : OwnerType := "org".

Record User := mkUser {
  User_ID : string;
  User_Username : string;
  User_PasswordHash : string;
  User_CreatedAt : Time }.

Record Org := mkOrg {
  Org_ID : string;
  Org_Name : string;
  Org_CreatedAt : Time }.

Record OrgMember := mkOrgMember {
  OrgMember_OrgID : string;
  OrgMember_UserID : string;
  OrgMember_Role : OrgRole }.

(** [model.Module]; the bare name is a Rocq keyword. *)
Record Mod := mkMod {
  Mod_ID : string;
  Mod_OwnerName : string;
  Mod_OwnerType : OwnerType;
  Mod_Name : string;
  Mod_Visibility : Visibility;
  Mod_CreatedAt : Time }.

Record Commit := mkCommit {
  Commit_ID : string;
  Commit_ModuleID : string;
  Commit_StorageKey : string;
  Commit_Manifest : string;
  Commit_CreatedByUserID : string;
  Commit_CreatedAt : Time }.

Record Label := mkLabel {
  Label_ID : string;
  Label_ModuleID : string;
  Label_Name : string;
  Label_CommitID : string;
  Label_CreatedAt : Time;
  Label_UpdatedAt : Time }.

(** [ExpiresAt] is a pointer: [None] never expires. *)
Record Token := mkToken {
  Token_ID : string;
  Token_UserID : string;
  Token_Hash : string;
  Token_Note : string;
  Token_ExpiresAt : option Time;
  Token_CreatedAt : Time }.

#[export] Instance User_eq_dec : EqDecision User. Proof. solve_decision. Defined.
#[export] Instance Org_eq_dec : EqDecision Org. Proof. solve_decision. Defined.
#[export] Instance OrgMember_eq_dec : EqDecision OrgMember. Proof. solve_decision. Defined.
#[export] Instance Mod_eq_dec : EqDecision Mod. Proof. solve_decision. Defined.
#[export] Instance Commit_eq_dec : EqDecision Commit. Proof. solve_decision. Defined.
#[export] Instance Label_eq_dec : EqDecision Label. Proof. solve_decision. Defined.
#[export] Instance Token_eq_dec : EqDecision Token. Proof. solve_decision. Defined.

(** The zero values Go gives a declared but unassigned record. *)
Definition zero_User : User := mkUser "" "" "" 0.
Definition zero_Org : Org := mkOrg "" "" 0.
Definition zero_OrgMember : OrgMember := mkOrgMember "" "" "".
Definition zero_Mod : Mod := mkMod "" "" "" "" "" 0.
Definition zero_Commit : Commit := mkCommit "" "" "" "" "" 0.
Definition zero_Label : Label := mkLabel "" "" "" "" 0 0.
Definition zero_Token : Token := mkToken "" "" "" "" None 0.
