(* ===== verification/RateLimit.v ===== *)
(** * Rate limiting (internal/auth/ratelimit.go)

    The limiter counts requests per remote address in a map that a ticker
    empties.  The mutex makes [allow] and the ticker's reset atomic, so the
    limiter is a state machine whose steps are those two operations. *)
From S2P Require Import Prelude.

Record rateLimiter := mkRateLimiter {
  rl_tokens : gmap string Z;
  rl_max : Z;
  rl_interval : Z }.

Definition newRateLimiter (max interval : Z) : rateLimiter := mkRateLimiter ∅ max interval.

(** The bound on the number of tracked addresses. *)
Definition max_tracked : Z := 100000.

Definition allow (rl : rateLimiter) (key : string) : bool * rateLimiter :=
  if max_tracked <? Z.of_nat (size (rl_tokens rl)) then (false, rl)
  else
    let count := default 0 (rl_tokens rl !! key) in
    if rl_max rl <=? count then (false, rl)
    else (true, mkRateLimiter (<[key := count + 1]> (rl_tokens rl)) (rl_max rl) (rl_interval rl)).

(** What the ticker does each time it fires. *)
Definition cleanup (rl : rateLimiter) : rateLimiter :=
  mkRateLimiter ∅ (rl_max rl) (rl_interval rl).

(** The middleware answers 429 itself or calls the wrapped handler. *)
Definition RateLimitMiddleware {Req Resp} (tooMany : Resp) (next : Req -> Resp)
    (rl : rateLimiter) (remoteAddr : string) (r : Req) : Resp * rateLimiter :=
  let '(ok, rl') := allow rl remoteAddr in
  if ok then (next r, rl') else (tooMany, rl').

(** ** The limiter as a state machine *)
Inductive rl_event :=
| Request (key : string) (granted : bool)
| Tick.

Inductive rl_step : rateLimiter -> rl_event -> rateLimiter -> Prop :=
| step_request rl key ok rl' :
    allow rl key = (ok, rl') -> rl_step rl (Request key ok) rl'
| step_tick rl : rl_step rl Tick (cleanup rl).

Inductive rl_steps : rateLimiter -> list rl_event -> rateLimiter -> Prop :=
| steps_nil rl : rl_steps rl [] rl
| steps_cons rl e rl' es rl'' :
    rl_step rl e rl' -> rl_steps rl' es rl'' -> rl_steps rl (e :: es) rl''.

Fixpoint granted (key : string) (es : list rl_event) : Z :=
  match es with
  | [] => 0
  | Request k true :: es => (if bool_decide (k = key) then 1 else 0) + granted key es
  | _ :: es => granted key es
  end.

Fixpoint requested (key : string) (es : list rl_event) : Z :=
  match es with
  | [] => 0
  | Request k _ :: es => (if bool_decide (k = key) then 1 else 0) + requested key es
  | _ :: es => requested key es
  end.

(** The addresses that made a request. *)
Fixpoint keys_of (es : list rl_event) : gset string :=
  match es with
  | [] => ∅
  | Request k _ :: es => {[k]} ∪ keys_of es
  | _ :: es => keys_of es
  end.

Definition is_tick (e : rl_event) : bool := match e with Tick => true | _ => false end.
Definition one_window (es : list rl_event) : Prop := Forall (fun e => is_tick e = false) es.

(** ** Lemmas on one step *)
Definition count_of (rl : rateLimiter) (key : string) : Z := default 0 (rl_tokens rl !! key).

Lemma allow_max rl key ok rl' : allow rl key = (ok, rl') -> rl_max rl' = rl_max rl.
Proof. unfold allow. intros H. repeat split_guard; by simplify_eq. Qed.

Lemma allow_denied rl key rl' : allow rl key = (false, rl') -> rl' = rl.
Proof. unfold allow. intros H. repeat split_guard; by simplify_eq. Qed.

Lemma allow_granted rl key rl' :
  allow rl key = (true, rl') ->
  count_of rl key < rl_max rl /\ Z.of_nat (size (rl_tokens rl)) <= max_tracked /\
  rl_tokens rl' = <[key := count_of rl key + 1]> (rl_tokens rl).
Proof.
  unfold allow, count_of. intros H. repeat split_guard; simplify_eq. bool_facts. auto.
Qed.

Lemma count_insert rl rl' key key' :
  rl_tokens rl' = <[key := count_of rl key + 1]> (rl_tokens rl) ->
  count_of rl' key' = count_of rl key' + (if bool_decide (key = key') then 1 else 0).
Proof.
  intros E. unfold count_of in *. rewrite E. case_bool_decide as Hk.
  - subst. by rewrite lookup_insert_eq.
  - rewrite lookup_insert_ne by done. lia.
Qed.

Lemma size_insert_le (m : gmap string Z) k v : (size (<[k := v]> m) <= S (size m))%nat.
Proof.
  destruct (m !! k) eqn:E; [rewrite map_size_insert_Some by eauto; lia|].
  by rewrite map_size_insert_None.
Qed.

(** ** Reachable limiters *)
Definition rl_inv (rl : rateLimiter) : Prop :=
  Z.of_nat (size (rl_tokens rl)) <= max_tracked + 1 /\
  forall key c, rl_tokens rl !! key = Some c -> 1 <= c <= rl_max rl.

Lemma step_inv rl e rl' : rl_step rl e rl' -> rl_inv rl -> rl_inv rl' /\ rl_max rl' = rl_max rl.
Proof.
  intros [? key [] ? Ha|?] [Hs Hc]; [|by apply allow_denied in Ha as ->|].
  - pose proof (allow_max _ _ _ _ Ha) as Hm.
    apply allow_granted in Ha as (Hlt & Hsz & E). split; [|done]. split.
    + rewrite E. pose proof (size_insert_le (rl_tokens rl0) key (count_of rl0 key + 1)). lia.
    + intros k c. rewrite E, Hm. intros [[<- <-]|[_ Hk]]%lookup_insert_Some; [|by eapply Hc].
      unfold count_of in *. destruct (rl_tokens rl0 !! key) as [c'|] eqn:Hk; simpl in *; [|lia].
      specialize (Hc _ _ Hk). lia.
  - unfold cleanup, rl_inv; simpl. repeat split; rewrite ?map_size_empty; unfold max_tracked; try lia; by simplify_map_eq.
Qed.

(** Whatever the traffic and the ticks, the limiter's map never holds more than
    100001 addresses, and every counter it holds is between 1 and [max]. *)
Theorem rate_limiter_bounded max interval es rl :
  rl_steps (newRateLimiter max interval) es rl ->
  Z.of_nat (size (rl_tokens rl)) <= 100001 /\
  (forall key c, rl_tokens rl !! key = Some c -> 1 <= c <= max).
Proof.
  intros H.
  enough (forall rl0 es rl, rl_steps rl0 es rl -> rl_inv rl0 -> rl_inv rl /\ rl_max rl = rl_max rl0) as Hinv.
  { destruct (Hinv _ _ _ H) as [[Hs Hc] Hm].
    - split; simpl; [rewrite map_size_empty; unfold max_tracked; lia|by intros; simplify_map_eq].
    - simpl in Hm. rewrite Hm in Hc. unfold max_tracked in Hs. split; [lia|done]. }
  clear. induction 1 as [|rl e rl' es rl'' He _ IH]; [done|]. intros Hi.
  destruct (step_inv _ _ _ He Hi) as [Hi' Hm]. destruct (IH Hi') as [? E]. by rewrite E, Hm.
Qed.

(** ** Accounting within one window *)
Lemma requested_nonneg key es : 0 <= requested key es.
Proof. induction es as [|[k g|] es IH]; simpl; [lia| |done]. case_bool_decide; lia. Qed.

Lemma granted_nonneg key es : 0 <= granted key es.
Proof. induction es as [|[k []|] es IH]; simpl; try done. case_bool_decide; lia. Qed.

Lemma window_upper rl es rl' key :
  rl_steps rl es rl' -> one_window es -> count_of rl key <= rl_max rl ->
  granted key es + count_of rl key <= rl_max rl.
Proof.
  induction 1 as [|rl e rl1 es rl2 He _ IH]; intros Hw Hc; simpl; [lia|].
  apply Forall_cons in Hw as [Ht Hw]. destruct He as [rl k ok rl1 Ha|]; [|done].
  pose proof (allow_max _ _ _ _ Ha) as Hm. destruct ok.
  - apply allow_granted in Ha as (Hlt & _ & E).
    pose proof (count_insert _ _ _ key E) as Hci. rewrite Hm in IH. specialize (IH Hw).
    simpl. case_bool_decide; subst; lia.
  - apply allow_denied in Ha as ->. auto.
Qed.

Lemma allow_room rl key :
  Z.of_nat (size (rl_tokens rl)) <= max_tracked -> count_of rl key < rl_max rl ->
  (allow rl key).1 = true.
Proof.
  intros Hs Hc. unfold allow, count_of in *.
  destruct (max_tracked <? _) eqn:E; bool_facts; [lia|].
  destruct (rl_max rl <=? _) eqn:E2; bool_facts; [lia|done].
Qed.

Lemma allow_dom rl key ok rl' :
  allow rl key = (ok, rl') -> dom (rl_tokens rl') ⊆ {[key]} ∪ dom (rl_tokens rl).
Proof.
  destruct ok.
  - intros (_ & _ & ->)%allow_granted. rewrite dom_insert_L. done.
  - intros ->%allow_denied. set_solver.
Qed.

Lemma window_exact rl es rl' key :
  rl_steps rl es rl' -> one_window es -> count_of rl key <= rl_max rl ->
  Z.of_nat (size (dom (rl_tokens rl) ∪ keys_of es)) <= max_tracked ->
  granted key es = Z.min (requested key es) (rl_max rl - count_of rl key).
Proof.
  induction 1 as [|rl e rl1 es rl2 He _ IH]; intros Hw Hc Hs; simpl; [lia|].
  apply Forall_cons in Hw as [Ht Hw]. destruct He as [rl k ok rl1 Ha|]; [|done].
  simpl in Hs. pose proof (allow_max _ _ _ _ Ha) as Hm. rewrite Hm in IH.
  assert (Z.of_nat (size (dom (rl_tokens rl1) ∪ keys_of es)) <= max_tracked) as Hs1.
  { etrans; [|exact Hs]. apply inj_le, subseteq_size. pose proof (allow_dom _ _ _ _ Ha). set_solver. }
  assert (Z.of_nat (size (rl_tokens rl)) <= max_tracked) as Hs0.
  { etrans; [|exact Hs]. rewrite <- size_dom. apply inj_le, subseteq_size. set_solver. }
  pose proof (requested_nonneg key es). destruct ok.
  - pose proof Ha as (Hlt & _ & E)%allow_granted. pose proof (count_insert _ _ _ key E).
    case_bool_decide; subst; rewrite IH by (done || lia); lia.
  - assert (rl_max rl <= count_of rl k) as Hfull.
    { destruct (Z.lt_ge_cases (count_of rl k) (rl_max rl)) as [Hlt|]; [|done].
      pose proof (allow_room _ _ Hs0 Hlt) as Hr. by rewrite Ha in Hr. }
    apply allow_denied in Ha as ->. rewrite IH by done. case_bool_decide; subst; lia.
Qed.

(** In a window (the time between two ticks) an address is granted at most
    [max] requests; and while the window's traffic comes from at most 100000
    addresses, it is granted exactly the first [max] of the requests it makes. *)
Theorem rate_limit_window rl0 es rl key :
  0 <= rl_max rl0 -> rl_steps (cleanup rl0) es rl -> one_window es ->
  granted key es <= rl_max rl0 /\
  (Z.of_nat (size (keys_of es)) <= 100000 ->
   granted key es = Z.min (requested key es) (rl_max rl0)).
Proof.
  intros Hmax Hs Hw. assert (count_of (cleanup rl0) key = 0) as H0 by done.
  split.
  - pose proof (window_upper _ _ _ key Hs Hw). simpl in *. lia.
  - intros Hk. rewrite (window_exact _ _ _ key Hs Hw); simpl; rewrite ?H0; [lia|done|].
    by rewrite dom_empty_L, (left_id_L ∅ (∪)).
Qed.

(** C39. What the limiter guarantees.  Whatever the traffic and the ticks, its map never
    holds more than 100001 addresses, with counters between 1 and [max]; and in a
    window, from one tick to the next, an address is granted at most [max] requests,
    and exactly the first [max] it makes while the window's traffic comes from at
    most 100000 addresses. *)
Theorem rate_limiter_limits max interval es rl :
  0 <= max -> rl_steps (newRateLimiter max interval) es rl ->
  (Z.of_nat (size (rl_tokens rl)) <= 100001 /\ forall key c, rl_tokens rl !! key = Some c -> 1 <= c <= max) /\
  (forall window rl' key, rl_steps (cleanup rl) window rl' -> one_window window ->
     granted key window <= max /\
     (Z.of_nat (size (keys_of window)) <= 100000 -> granted key window = Z.min (requested key window) max)).
Proof.
  intros Hmax Hs. split; [by eapply rate_limiter_bounded|]. intros window rl' key Hw Hone.
  assert (rl_max rl = max) as Em.
  { clear Hw Hone. enough (forall rl0 es rl, rl_steps rl0 es rl -> rl_max rl = rl_max rl0) as He by by rewrite (He _ _ _ Hs).
    clear. induction 1 as [|rl e rl' es rl'' He _ IH]; [done|]. rewrite IH.
    destruct He as [? ? ? ? Ha|]; [by eapply allow_max|done]. }
  rewrite <- Em. eapply rate_limit_window; [by rewrite Em|exact Hw|done].
Qed.

(** Once the map is over its bound every request is refused, even from an
    address that has made none, until the next tick. *)
Lemma overflow_refuses rl key :
  max_tracked < Z.of_nat (size (rl_tokens rl)) -> allow rl key = (false, rl).
Proof. intros H. unfold allow. destruct (_ <? _) eqn:E; bool_facts; [done|lia]. Qed.

(** ** Witnesses *)
Definition rl_example : list rl_event :=
  [Request "a" true; Request "b" true; Request "a" true; Request "a" false].

Lemma rl_example_steps : exists rl, rl_steps (cleanup (newRateLimiter 2 60)) rl_example rl.
Proof.
  eexists. unfold rl_example.
  repeat (eapply steps_cons; [apply step_request; vm_compute; reflexivity|]). apply steps_nil.
Defined.

(** Two requests and a tick, then the window of [rl_example]. *)
Lemma rate_limiter_limits_witness :
  exists rl rl', rl_steps (newRateLimiter 2 60) [Request "a" true; Tick; Request "b" true] rl /\
  rl_steps (cleanup rl) rl_example rl' /\
  Z.of_nat (size (rl_tokens rl)) <= 100001 /\ granted "a" rl_example = 2.
Proof.
  assert (rl_steps (newRateLimiter 2 60) [Request "a" true; Tick; Request "b" true]
    (mkRateLimiter {["b" := 1]} 2 60)) as Hs.
  { eapply steps_cons; [apply step_request; vm_compute; reflexivity|].
    eapply steps_cons; [apply step_tick|].
    eapply steps_cons; [apply step_request; vm_compute; reflexivity|]. apply steps_nil. }
  destruct rl_example_steps as [rl' Hw].
  assert (Hone : one_window rl_example) by (repeat constructor).
  destruct (rate_limiter_limits 2 60 _ _ ltac:(lia) Hs) as [[Hb _] Hg].
  eexists _, rl'. split; [exact Hs|]. split; [exact Hw|]. split; [exact Hb|].
  refine (proj2 (Hg rl_example rl' "a" Hw Hone) _). vm_compute. discriminate.
Defined.
