(* ===== verification/Paths.v ===== *)
(** * path/filepath on Unix

    [Clean], [Join], [Abs] and [Dir], as executable functions on the components
    of a path, with the facts the local store's containment check needs: a clean
    absolute path is [canonical], cleaning a path twice changes nothing, and a
    textual prefix of canonical paths is a prefix of their components. *)
From S2P Require Import Prelude GoStd.
From Stdlib Require Import Ascii.

Definition slash : ascii := "/"%char.

(** One component of a path: empty and [.] vanish, [..] goes up where it can. *)
Definition clean_step (rooted : bool) (stack : list string) (c : string) : list string :=
  if streq c "" || streq c "." then stack
  else if streq c ".." then
    match stack with
    | [] => if rooted then [] else [".."]
    | top :: rest => if streq top ".." then ".." :: stack else rest
    end
  else c :: stack.

Definition clean_stack (rooted : bool) (stack : list string) (p : string) : list string :=
  foldl (clean_step rooted) stack (Split slash p).

(** The absolute path of these components. *)
Definition canonical (l : list string) : string := "/" +:+ Join l "/".

Definition IsAbs (p : string) : bool := HasPrefix p "/".

Definition Clean (p : string) : string :=
  if IsAbs p then canonical (rev (clean_stack true [] p))
  else match rev (clean_stack false [] p) with
       | [] => "."
       | l => Join l "/"
       end.

(** [filepath.Join]: leading empty elements are skipped, the others joined and cleaned. *)
Fixpoint JoinPath (elems : list string) : string :=
  match elems with
  | [] => ""
  | e :: rest => if streq e "" then JoinPath rest else Clean (Join elems "/")
  end.

(** [filepath.Abs] in a process whose working directory is [cwd] ([None]: it is
    not available). *)
Definition Abs (cwd : option string) (p : string) : option string :=
  if IsAbs p then Some (Clean p)
  else cwd ← cwd; Some (JoinPath [cwd; p]).

(** Everything up to the last slash, that slash included. *)
Fixpoint upto_last_slash (l : list ascii) : list ascii :=
  match l with
  | [] => []
  | c :: r =>
      match upto_last_slash r with
      | [] => if bool_decide (c = slash) then [c] else []
      | u => c :: u
      end
  end.

Definition Dir (p : string) : string := Clean (of_chars (upto_last_slash (chars p))).

(** ** Components *)

(** A component of a clean path. *)
Definition good (c : string) : Prop := c <> "" /\ c <> "." /\ c <> ".." /\ slash ∉ chars c.

Lemma Split_nonempty s : Split slash s <> [].
Proof.
  destruct s as [|c s]; [done|]. simpl. case_bool_decide; [done|]. by destruct (Split slash s).
Qed.

Lemma Split_app_slash s t : Split slash (s +:+ String slash t) = (Split slash s ++ Split slash t)%list.
Proof.
  induction s as [|c s IH].
  - done.
  - change (String c s +:+ String slash t) with (String c (s +:+ String slash t)). simpl.
    rewrite IH. case_bool_decide; [done|].
    pose proof (Split_nonempty s). by destruct (Split slash s).
Qed.

Lemma Split_no_slash s : Forall (fun c => slash ∉ chars c) (Split slash s).
Proof.
  induction s as [|c s IH]; simpl; [repeat constructor; set_solver|].
  case_bool_decide as Hc; [constructor; [set_solver|done]|].
  destruct (Split slash s) as [|w ws]; [repeat constructor; set_solver|].
  inversion IH; subst. constructor; [set_solver|done].
Qed.

Lemma Split_word w : slash ∉ chars w -> Split slash w = [w].
Proof.
  induction w as [|c w IH]; [done|]. intros Hn. simpl in *.
  rewrite bool_decide_eq_false_2 by set_solver. rewrite IH by set_solver. done.
Qed.

Lemma Split_Join l : l <> [] -> Forall (fun c => slash ∉ chars c) l -> Split slash (Join l "/") = l.
Proof.
  intros Hne Hl. induction Hl as [|w l Hw Hl IH]; [done|]. destruct l as [|v l].
  - by apply Split_word.
  - change (Join (w :: v :: l) "/") with (w +:+ String slash (Join (v :: l) "/")).
    rewrite Split_app_slash, Split_word by done. by rewrite IH.
Qed.

Lemma clean_step_good rooted stack c : good c -> clean_step rooted stack c = c :: stack.
Proof.
  intros (H1 & H2 & H3 & _). unfold clean_step. by rewrite !(proj2 (streq_false _ _)).
Qed.

Lemma foldl_good rooted stack l : Forall good l -> foldl (clean_step rooted) stack l = (rev l ++ stack)%list.
Proof.
  intros Hl. revert stack. induction Hl as [|c l Hc _ IH]; intros stack; simpl; [done|].
  rewrite clean_step_good, IH by done. by rewrite <- app_assoc.
Qed.

(** In a rooted path nothing but good components stays on the stack. *)
Lemma clean_stack_good stack p : Forall good stack -> Forall good (clean_stack true stack p).
Proof.
  unfold clean_stack. pose proof (Split_no_slash p) as Hs. revert stack.
  induction Hs as [|c l Hc _ IH]; intros stack Hg; simpl; [done|]. apply IH.
  unfold clean_step. destruct (streq c "" || streq c ".") eqn:E1; [done|]. bool_facts.
  destruct (streq c "..") eqn:E2; bool_facts.
  - destruct Hg as [|t r Ht Hr]; [constructor|]. destruct (streq t "..") eqn:E3; bool_facts; [|done].
    by destruct Ht as (_ & _ & ? & _).
  - constructor; [|done]. by split_and!.
Qed.

Lemma Split_canonical l : l <> [] -> Forall good l -> Split slash (canonical l) = "" :: l.
Proof.
  intros Hne Hl. change (canonical l) with ("" +:+ String slash (Join l "/")).
  rewrite Split_app_slash. simpl. f_equal. apply Split_Join; [done|].
  eapply Forall_impl; [exact Hl|]. by intros c (_ & _ & _ & ?).
Qed.

Lemma clean_stack_canonical l stack : Forall good l -> clean_stack true stack (canonical l) = (rev l ++ stack)%list.
Proof.
  intros Hl. unfold clean_stack. destruct (decide (l = [])) as [->|Hne]; [done|].
  rewrite Split_canonical by done. simpl. by apply foldl_good.
Qed.

Lemma Clean_canonical l : Forall good l -> Clean (canonical l) = canonical l.
Proof.
  intros Hl. unfold Clean, IsAbs, canonical at 1. rewrite HasPrefix_app.
  rewrite clean_stack_canonical, app_nil_r by done. by rewrite rev_involutive.
Qed.

Lemma canonical_inj l1 l2 : Forall good l1 -> Forall good l2 -> canonical l1 = canonical l2 -> l1 = l2.
Proof.
  intros H1 H2 E. apply (f_equal (clean_stack true [])) in E.
  rewrite !clean_stack_canonical, !app_nil_r in E by done.
  apply (f_equal (@rev string)) in E. by rewrite !rev_involutive in E.
Qed.

Lemma IsAbs_Clean p : IsAbs p = true -> exists l, Clean p = canonical l /\ Forall good l.
Proof.
  intros Hp. unfold Clean. rewrite Hp. eexists; split; [done|].
  apply Forall_rev, clean_stack_good. constructor.
Qed.

(** ** Relative paths *)

(** What a relative clean path is made of: good components and [..]. *)
Definition plain (c : string) : Prop := c <> "" /\ c <> "." /\ slash ∉ chars c.

Lemma clean_fold_plain stack cs : Forall (fun c => slash ∉ chars c) cs ->
  Forall plain stack -> Forall plain (foldl (clean_step false) stack cs).
Proof.
  intros Hs. revert stack. induction Hs as [|c l Hc _ IH]; intros stack Hg; simpl; [done|]. apply IH.
  assert (plain "..") as Hdots by (split_and!; [done|done|by vm_compute; set_solver]).
  unfold clean_step. destruct (streq c "" || streq c ".") eqn:E1; [done|]. bool_facts.
  destruct (streq c "..") eqn:E2; bool_facts.
  - destruct Hg as [|t r Ht Hr]; [by apply Forall_singleton|]. destruct (streq t ".."); [|done].
    by repeat (apply Forall_cons; split).
  - constructor; [|done]. by split_and!.
Qed.

(** A component treated relatively and then absolutely is treated absolutely. *)
Lemma clean_step_twice st S c :
  Forall plain S ->
  foldl (clean_step true) st (rev (clean_step false S c)) = clean_step true (foldl (clean_step true) st (rev S)) c.
Proof.
  intros HS. unfold clean_step at 2. destruct (streq c "" || streq c ".") eqn:E0.
  { unfold clean_step. by rewrite E0. }
  destruct (streq c "..") eqn:E1; [|simpl; by rewrite foldl_app].
  bool_facts. subst c. destruct HS as [|top rest (Ht1 & Ht2 & _) _]; [done|].
  destruct (streq top "..") eqn:E2; [simpl; by rewrite !foldl_app|].
  simpl. rewrite foldl_app. simpl. set (s := foldl _ st (rev rest)).
  unfold clean_step at 2. rewrite !(proj2 (streq_false _ _)) by done. simpl. rewrite E2.
  unfold clean_step. simpl. by rewrite E2.
Qed.

(** Cleaning a relative path first does not change where it leads. *)
Lemma clean_twice st cs : Forall (fun c => slash ∉ chars c) cs ->
  foldl (clean_step true) st (rev (foldl (clean_step false) [] cs)) = foldl (clean_step true) st cs.
Proof.
  intros Hcs. induction cs as [|c cs IH] using rev_ind; [done|].
  apply Forall_app in Hcs as [Hcs _]. rewrite !foldl_app. simpl. rewrite <- IH by done.
  by apply clean_step_twice, clean_fold_plain.
Qed.

Lemma Clean_relative p : IsAbs p = false ->
  IsAbs (Clean p) = false /\ forall st, clean_stack true st (Clean p) = clean_stack true st p.
Proof.
  intros Hp. unfold Clean. rewrite Hp. unfold clean_stack at 1 3.
  assert (Forall plain (rev (foldl (clean_step false) [] (Split slash p)))) as Hpl
    by (apply Forall_rev, clean_fold_plain; [apply Split_no_slash|constructor]).
  pose proof (fun st => clean_twice st _ (Split_no_slash p)) as Ht.
  destruct (rev _) as [|c l].
  { split; [done|]. intros st. exact (Ht st). }
  split.
  - apply Forall_cons in Hpl as [(Hc & _ & Hs) _].
    destruct c as [|a c]; [done|]. simpl in Hs. unfold IsAbs. destruct l; simpl.
    + rewrite bool_decide_eq_false_2; [done|]. intros E. apply Hs. rewrite <- E. by left.
    + rewrite bool_decide_eq_false_2; [done|]. intros E. apply Hs. rewrite <- E. by left.
  - intros st. unfold clean_stack. rewrite Split_Join; [apply Ht|done|].
    eapply Forall_impl; [exact Hpl|]. by intros ? (_ & _ & ?).
Qed.

(** ** Absolute paths *)

(** The components of a path's absolute form, last first. *)
Definition abs_stack (cwd p : string) : list string :=
  clean_stack true (if IsAbs p then [] else clean_stack true [] cwd) p.

Lemma clean_stack_app rooted stack p q :
  clean_stack rooted stack (p +:+ String slash q) = clean_stack rooted (clean_stack rooted stack p) q.
Proof. unfold clean_stack. by rewrite Split_app_slash, foldl_app. Qed.

Lemma IsAbs_app p q : IsAbs p = true -> IsAbs (p +:+ q) = true.
Proof. unfold IsAbs. rewrite !HasPrefix_spec. intros [t ->]. exists (t +:+ q). apply string_app_assoc. Qed.

Lemma IsAbs_cons a r : IsAbs (String a r) = bool_decide (slash = a).
Proof. unfold IsAbs. simpl. destruct r; apply andb_true_r. Qed.

Lemma abs_stack_good cwd p : Forall good (abs_stack cwd p).
Proof.
  apply clean_stack_good. destruct (IsAbs p); [constructor|]. by apply clean_stack_good.
Qed.

Lemma Join_two a b : Join [a; b] "/" = a +:+ String slash b.
Proof. done. Qed.

Lemma Abs_stack cwd p : IsAbs cwd = true -> Abs (Some cwd) p = Some (canonical (rev (abs_stack cwd p))).
Proof.
  intros Hc. unfold Abs, abs_stack. destruct (IsAbs p) eqn:Hp.
  - unfold Clean. by rewrite Hp.
  - simpl. destruct (streq cwd "") eqn:E; bool_facts; [by subst|].
    change (cwd +:+ "/" +:+ p) with (cwd +:+ String slash p).
    unfold Clean. rewrite IsAbs_app by done. by rewrite clean_stack_app.
Qed.

(** Joining a relative key to a root leads to the key under the root. *)
Lemma abs_stack_join cwd root key : IsAbs key = false ->
  abs_stack cwd (JoinPath [root; key]) = clean_stack true (abs_stack cwd root) key.
Proof.
  intros Hk. simpl. destruct (streq root "") eqn:Er; bool_facts.
  - subst root. destruct (streq key "") eqn:Ek; bool_facts.
    + subst key. by unfold abs_stack.
    + destruct (Clean_relative key Hk) as [Ha Hs]. unfold abs_stack. by rewrite Ha, Hs.
  - change (root +:+ "/" +:+ key) with (root +:+ String slash key). unfold abs_stack.
    destruct (IsAbs root) eqn:Ea.
    + unfold Clean. rewrite IsAbs_app by done. rewrite clean_stack_app.
      unfold canonical at 1. unfold IsAbs. rewrite HasPrefix_app.
      rewrite clean_stack_canonical, app_nil_r, rev_involutive; [done|].
      apply Forall_rev. by do 2 apply clean_stack_good.
    + assert (IsAbs (root +:+ String slash key) = false) as Hn by (destruct root as [|a root]; [done|rewrite IsAbs_cons in Ea;
        change (String a root +:+ String slash key) with (String a (root +:+ String slash key)); by rewrite IsAbs_cons]).
      destruct (Clean_relative _ Hn) as [Ha Hs]. by rewrite Ha, Hs, clean_stack_app.
Qed.

(** ** Prefixes *)
Lemma Join_app l c r : l <> [] -> Join (l ++ c :: r) "/" = Join l "/" +:+ String slash (Join (c :: r) "/").
Proof.
  intros Hne. induction l as [|w l IH]; [done|]. destruct l as [|v l]; [done|].
  change ((w :: v :: l) ++ c :: r)%list with (w :: (v :: l) ++ c :: r)%list.
  change (Join (w :: v :: l) "/") with (w +:+ String slash (Join (v :: l) "/")).
  change (Join (w :: ((v :: l) ++ c :: r)%list) "/") with (w +:+ String slash (Join ((v :: l) ++ c :: r) "/")).
  rewrite IH by done. by rewrite string_app_assoc.
Qed.

(** A textual prefix up to a separator is a prefix of the components; below the
    root directory itself the test never succeeds. *)
Lemma prefix_components l r : Forall good l -> Forall good r ->
  HasPrefix (canonical l) (canonical r +:+ "/") = true <-> r <> [] /\ exists m, m <> [] /\ l = (r ++ m)%list.
Proof.
  intros Hl Hr. rewrite HasPrefix_spec. split.
  - intros [t E]. rewrite string_app_assoc in E. change ("/" +:+ t) with (String slash t) in E.
    pose proof (Split_nonempty t) as Ht. destruct (decide (r = [])) as [->|Hne].
    + apply (f_equal (drop_bytes 1)) in E. change (Join l "/" = String slash t) in E. destruct (decide (l = [])) as [->|Hl0]; [done|].
      apply (f_equal (Split slash)) in E. rewrite Split_Join in E; [|done|].
      2: { eapply Forall_impl; [exact Hl|]. by intros ? (_ & _ & _ & ?). }
      simpl in E. subst l. by apply Forall_cons in Hl as [[? _] _].
    + split; [done|]. apply (f_equal (Split slash)) in E. rewrite Split_app_slash, (Split_canonical r) in E by done.
      destruct (decide (l = [])) as [->|Hl0].
      * apply (f_equal length) in E. rewrite length_app in E. simpl in E.
        destruct r; [done|]. destruct (Split slash t); [done|]. simpl in E. lia.
      * rewrite Split_canonical in E by done. simplify_list_eq. by exists (Split slash t).
  - intros (Hne & m & Hm & ->). destruct m as [|c m]; [done|]. exists (Join (c :: m) "/").
    unfold canonical. rewrite Join_app by done. by rewrite !string_app_assoc.
Qed.

(** ** Directories *)
Lemma upto_last_slash_app l w : slash ∉ w -> upto_last_slash (l ++ slash :: w) = (l ++ [slash])%list.
Proof.
  intros Hw. assert (upto_last_slash w = []) as Enil.
  { induction w as [|c w IH]; [done|]. simpl. rewrite IH by set_solver.
    rewrite bool_decide_eq_false_2; [done|set_solver]. }
  induction l as [|c l IH]; simpl.
  - by rewrite Enil.
  - rewrite IH. by destruct l.
Qed.

Lemma Dir_canonical l c : l <> [] -> Forall good l -> good c -> Dir (canonical (l ++ [c])) = canonical l.
Proof.
  intros Hne Hl (_ & _ & _ & Hc). unfold Dir, canonical at 1. rewrite Join_app by done. simpl Join.
  rewrite <- string_app_assoc. fold (canonical l). rewrite chars_app.
  change (chars (String slash c)) with (slash :: chars c). rewrite upto_last_slash_app by done.
  change [slash] with (chars "/"). rewrite <- chars_app, of_chars_chars.
  unfold Clean. rewrite IsAbs_app by (unfold IsAbs, canonical; apply HasPrefix_app).
  change (canonical l +:+ "/") with (canonical l +:+ String slash "").
  rewrite clean_stack_app, clean_stack_canonical, app_nil_r by done.
  change (clean_stack true (rev l) "") with (rev l). by rewrite rev_involutive.
Qed.
