(* ===== verification/Mux.v ===== *)
(** * net/http: URLs and request routing

    [ServeMux] as of Go 1.22: patterns with a method, literal segments,
    one-segment wildcards and a trailing slash, searched segment by segment with
    literals before wildcards before trailing slashes.  [pathUnescape] decodes
    a segment and [ParseQuery] a query string; [encodeURIComponent] is what the web
    client encodes either with. *)
From S2P Require Import Prelude GoStd Paths.
From Stdlib Require Import Ascii.

(** ** Percent encoding *)

(** The value of a hexadecimal digit, of either case. *)
Definition unhex (c : ascii) : option Z :=
  let n := byte_val c in
  if (48 <=? n) && (n <=? 57) then Some (n - 48)
  else if (97 <=? n) && (n <=? 102) then Some (n - 87)
  else if (65 <=? n) && (n <=? 70) then Some (n - 55)
  else None.

Definition byte_char (n : Z) : ascii := ascii_of_N (Z.to_N n).

Fixpoint unescape_chars (l : list ascii) : option (list ascii) :=
  match l with
  | [] => Some []
  | c :: l =>
      if bool_decide (c = "%"%char) then
        match l with
        | a :: b :: l =>
            x ← unhex a; y ← unhex b; l ← unescape_chars l; Some (byte_char (16 * x + y) :: l)
        | _ => None
        end
      else l ← unescape_chars l; Some (c :: l)
  end.

(** net/http's [pathUnescape]: a segment that does not decode stays as it is. *)
Definition pathUnescape (s : string) : string :=
  match unescape_chars (chars s) with Some l => of_chars l | None => s end.

(** Letters, digits and [-_.!~*'()] stand for themselves. *)
Definition unreserved (c : ascii) : bool :=
  let n := byte_val c in
  ((48 <=? n) && (n <=? 57)) || ((65 <=? n) && (n <=? 90)) || ((97 <=? n) && (n <=? 122)) ||
  bool_decide (c ∈ chars "-_.!~*'()").

Definition upper_hex (n : Z) : ascii := byte_char (if n <? 10 then 48 + n else 55 + n).

Definition encode_char (c : ascii) : list ascii :=
  if unreserved c then [c] else ["%"%char; upper_hex (byte_val c / 16); upper_hex (byte_val c mod 16)].

(** JavaScript's [encodeURIComponent], on the UTF-8 bytes of a string. *)
Definition encodeURIComponent (s : string) : string := of_chars (flat_map encode_char (chars s)).

(** A fact about every byte, checked on all 256. *)
Definition all_ascii : list ascii := (fun n => ascii_of_nat n) <$> seq 0 256.

Lemma ascii_forall (P : ascii -> bool) : forallb P all_ascii = true -> forall c, P c = true.
Proof.
  rewrite forallb_forall. intros HP c. apply HP. unfold all_ascii. apply in_map_iff.
  exists (nat_of_ascii c). split; [apply ascii_nat_embedding|]. apply in_seq.
  pose proof (nat_ascii_bounded c). lia.
Qed.

Lemma encode_char_ok c :
  match encode_char c with
  | [d] => d = c /\ c <> "%"%char
  | [p; a; b] => p = "%"%char /\ exists x y, unhex a = Some x /\ unhex b = Some y /\ byte_char (16 * x + y) = c
  | _ => False
  end /\ Forall (fun d => d <> slash) (encode_char c).
Proof.
  assert (forall c, match encode_char c with
    | [d] => bool_decide (d = c /\ c <> "%"%char)
    | [p; a; b] => bool_decide (p = "%"%char) && match unhex a, unhex b with
                     | Some x, Some y => bool_decide (byte_char (16 * x + y) = c)
                     | _, _ => false
                     end
    | _ => false
    end && bool_decide (Forall (fun d => d <> slash) (encode_char c)) = true) as Hall
    by (apply ascii_forall; by vm_compute).
  specialize (Hall c). apply andb_true_iff in Hall as [H1 H2%bool_decide_eq_true]. split; [|done].
  destruct (encode_char c) as [|p [|a [|b [|]]]]; try done.
  - by apply bool_decide_eq_true in H1.
  - apply andb_true_iff in H1 as [Hp%bool_decide_eq_true H1]. split; [done|].
    destruct (unhex a) as [x|], (unhex b) as [y|]; try done. exists x, y. split_and!; [done|done|].
    by apply bool_decide_eq_true in H1.
Qed.

Lemma unescape_encode l : unescape_chars (flat_map encode_char l) = Some l.
Proof.
  induction l as [|c l IH]; [done|]. cbn [flat_map].
  destruct (encode_char_ok c) as [Hc _]. destruct (encode_char c) as [|p [|a [|b [|]]]]; try done.
  - destruct Hc as [-> Hne]. cbn [app unescape_chars]. rewrite bool_decide_eq_false_2 by done.
    by rewrite IH.
  - destruct Hc as (-> & x & y & Hx & Hy & Hxy). cbn [app unescape_chars].
    rewrite bool_decide_eq_true_2 by done. rewrite Hx, Hy. rewrite IH. simpl. by rewrite Hxy.
Qed.

(** What a client encodes, the mux decodes. *)
Lemma pathUnescape_encode s : pathUnescape (encodeURIComponent s) = s.
Proof.
  unfold pathUnescape, encodeURIComponent. by rewrite chars_of_chars, unescape_encode, of_chars_chars.
Qed.

Lemma encode_no_slash s : slash ∉ chars (encodeURIComponent s).
Proof.
  unfold encodeURIComponent. rewrite chars_of_chars. induction (chars s) as [|c l IH]; [set_solver|].
  cbn [flat_map]. rewrite elem_of_app. intros [Hc|Hc]; [|done].
  destruct (encode_char_ok c) as [_ Hs]. rewrite Forall_forall in Hs. by apply (Hs slash).
Qed.

(** An argument that survives as one segment of a path. *)
Definition segment_ok (s : string) : Prop := s <> "" /\ s <> "." /\ s <> ".." /\ s <> "/".

Lemma encode_good s : segment_ok s -> good (encodeURIComponent s).
Proof.
  intros (H1 & H2 & H3 & _).
  assert (forall t, pathUnescape t = t -> s <> t -> encodeURIComponent s <> t) as Hne.
  { intros t Ht Hst E. apply Hst. by rewrite <- (pathUnescape_encode s), E. }
  split_and!; [apply Hne..|apply encode_no_slash]; done.
Qed.

(** ** Query strings *)

(** [strings.Cut] at the first occurrence of a byte. *)
Fixpoint cut (sep : ascii) (s : string) : string * string :=
  match s with
  | EmptyString => ("", "")
  | String c s => if bool_decide (c = sep) then ("", s) else let '(a, b) := cut sep s in (String c a, b)
  end.

(** [url.QueryUnescape]: [+] is a space, and what does not decode is an error. *)
Definition plus_space (c : ascii) : ascii := if bool_decide (c = "+"%char) then " "%char else c.
Definition QueryUnescape (s : string) : option string := of_chars <$> unescape_chars (plus_space <$> chars s).

(** [url.ParseQuery], its errors ignored as [Query()] does: a part that holds a
    semicolon or does not decode is dropped. *)
Definition parse_pair (part : string) : option (string * string) :=
  if streq part "" || bool_decide (";"%char ∈ chars part) then None
  else
    let '(k, v) := cut "=" part in
    k ← QueryUnescape k; v ← QueryUnescape v; Some (k, v).
Definition ParseQuery (query : string) : list (string * string) := omap parse_pair (Split "&" query).

(** Bytes that have a meaning in a query. *)
Definition query_special : list ascii := ["&"; ";"; "="; "+"]%char.

Lemma encode_char_plain c : Forall (fun d => d ∉ query_special) (encode_char c).
Proof.
  assert (forall c, bool_decide (Forall (fun d => d ∉ query_special) (encode_char c)) = true) as Hall
    by (apply ascii_forall; by vm_compute).
  exact (bool_decide_eq_true_1 _ (Hall c)).
Qed.

Lemma encode_plain s : Forall (fun d => d ∉ query_special) (chars (encodeURIComponent s)).
Proof.
  unfold encodeURIComponent. rewrite chars_of_chars. induction (chars s) as [|c l IH]; [constructor|].
  cbn [flat_map]. apply Forall_app. split; [apply encode_char_plain|done].
Qed.

Lemma unescape_plain s : Forall (fun d => d ∉ query_special) (chars s) -> QueryUnescape s = of_chars <$> unescape_chars (chars s).
Proof.
  intros Hs. unfold QueryUnescape. do 2 f_equal. rewrite <- (list_fmap_id (chars s)) at 2.
  apply list_fmap_ext. intros i c Hc. unfold plus_space. rewrite bool_decide_eq_false_2; [done|]. intros ->.
  rewrite Forall_forall in Hs. apply (Hs "+"%char); [by eapply list_elem_of_lookup_2|]. vm_compute. set_solver.
Qed.

Lemma QueryUnescape_encode s : QueryUnescape (encodeURIComponent s) = Some s.
Proof.
  rewrite unescape_plain by apply encode_plain. unfold encodeURIComponent.
  rewrite chars_of_chars, unescape_encode. simpl. by rewrite of_chars_chars.
Qed.

Lemma cut_app sep k v : sep ∉ chars k -> cut sep (k +:+ String sep v) = (k, v).
Proof.
  induction k as [|c k IH]; intros Hk.
  - change ("" +:+ String sep v) with (String sep v). simpl. by rewrite bool_decide_eq_true_2.
  - change (String c k +:+ String sep v) with (String c (k +:+ String sep v)). cbn [chars] in Hk. simpl.
    rewrite bool_decide_eq_false_2 by set_solver. rewrite IH by set_solver. done.
Qed.

Lemma Split_one sep s : sep ∉ chars s -> Split sep s = [s].
Proof.
  induction s as [|c s IH]; intros Hs; [done|]. cbn [chars] in Hs. simpl.
  rewrite bool_decide_eq_false_2 by set_solver. by rewrite IH by set_solver.
Qed.

(** One argument, encoded by the client, is parsed back. *)
Lemma ParseQuery_encode k v :
  k <> "" -> Forall (fun d => d ∉ query_special) (chars k) -> unescape_chars (chars k) = Some (chars k) ->
  ParseQuery (k +:+ String "=" (encodeURIComponent v)) = [(k, v)].
Proof.
  intros Hk Hp Hu. pose proof (encode_plain v) as Hv. rewrite Forall_forall in Hp, Hv.
  assert (forall d, d ∈ query_special -> d <> "="%char -> d ∉ chars (k +:+ String "=" (encodeURIComponent v))) as Hno.
  { intros d Hd Hne. rewrite chars_app. cbn [chars]. rewrite elem_of_app, elem_of_cons.
    intros [Hin|[->|Hin]]; [by apply (Hp d)|done|by apply (Hv d)]. }
  unfold ParseQuery. rewrite Split_one by (apply Hno; [vm_compute; set_solver|done]).
  cbn [omap list_omap]. unfold parse_pair. rewrite (bool_decide_eq_false_2 (";"%char ∈ _)) by (apply Hno; [vm_compute; set_solver|done]).
  rewrite (proj2 (streq_false _ _)) by (by destruct k). cbn [orb].
  rewrite cut_app by (intros Hin; apply (Hp _ Hin); vm_compute; set_solver).
  rewrite QueryUnescape_encode, unescape_plain by (by apply Forall_forall). rewrite Hu. simpl. by rewrite of_chars_chars.
Qed.

(** ** Patterns *)
Inductive segment := Lit (s : string) | Wild (name : string) | Multi.
Record pattern := mkPattern { pat_method : string; pat_segs : list segment }.

#[export] Instance segment_eq_dec : EqDecision segment. Proof. solve_decision. Defined.
#[export] Instance pattern_eq_dec : EqDecision pattern. Proof. solve_decision. Defined.

Definition parse_segment (s : string) : segment :=
  if HasPrefix s "{" && HasSuffix s "}" then Wild (take_bytes (String.length s - 2) (drop_bytes 1 s))
  else Lit (pathUnescape s).

(** The segments after the first slash; nothing after the last slash is [Multi]. *)
Fixpoint parse_segments (l : list string) : list segment :=
  match l with
  | [] => []
  | [s] => [if streq s "" then Multi else parse_segment s]
  | s :: l => parse_segment s :: parse_segments l
  end.

(** [METHOD /path] or [/path]; [None] is a panic at registration. *)
Definition parse_pattern (s : string) : option pattern :=
  let parse method path :=
    match Split slash path with
    | "" :: l => Some (mkPattern method (parse_segments l))
    | _ => None
    end in
  match Split " " s with
  | [path] => parse "" path
  | [method; path] => parse method path
  | _ => None
  end.

(** The segments of a request path: a trailing slash is the segment ["/"]. *)
Fixpoint path_segments (l : list string) : list string :=
  match l with
  | [] => []
  | [s] => [if streq s "" then "/" else pathUnescape s]
  | s :: l => pathUnescape s :: path_segments l
  end.

Definition split_path (path : string) : list string :=
  match Split slash path with "" :: l => path_segments l | _ => [] end.

(** ** The search *)
Section Search.
Context {A : Type}.

(** The patterns that go on after a literal segment, after a wildcard, and the one
    that ends with a slash here. *)
Definition lit_children (seg : string) (pats : list (list segment * A)) : list (list segment * A) :=
  omap (fun p => match p.1 with Lit s :: l => if streq s seg then Some (l, p.2) else None | _ => None end) pats.
Definition wild_children (pats : list (list segment * A)) : list (list segment * A) :=
  omap (fun p => match p.1 with Wild _ :: l => Some (l, p.2) | _ => None end) pats.
Fixpoint multi_child (pats : list (list segment * A)) : option A :=
  match pats with
  | [] => None
  | ([Multi], a) :: _ => Some a
  | _ :: pats => multi_child pats
  end.
Fixpoint leaf (pats : list (list segment * A)) : option A :=
  match pats with
  | [] => None
  | ([], a) :: _ => Some a
  | _ :: pats => leaf pats
  end.

Definition or_else {B} (x y : option B) : option B := match x with Some _ => x | None => y end.

(** [routingNode.matchPath]: the values are those of the wildcards passed. *)
Fixpoint matchPath (segs : list string) (pats : list (list segment * A)) (vals : list string)
    : option (A * list string) :=
  match segs with
  | [] => a ← leaf pats; Some (a, vals)
  | seg :: rest =>
      or_else (matchPath rest (lit_children seg pats) vals)
        (or_else (if streq seg "/" then None else matchPath rest (wild_children pats) (vals ++ [seg])%list)
           (a ← multi_child pats; Some (a, vals)))
  end.
End Search.

Section ServeMux.
Context {A : Type} (routes : list (pattern * A)).

Definition with_method (method : string) : list (list segment * (pattern * A)) :=
  omap (fun r => if streq (pat_method r.1) method then Some (pat_segs r.1, r) else None) routes.

(** [matchMethodAndPath]: [HEAD] is served by [GET] patterns; patterns without a
    method come last. *)
Definition match_ (method path : string) : option ((pattern * A) * list string) :=
  let segs := split_path path in
  or_else (matchPath segs (with_method method) [])
    (or_else (if streq method "HEAD" then matchPath segs (with_method "GET") [] else None)
       (matchPath segs (with_method "") [])).

(** [exactMatch]: a trailing-slash pattern is matched exactly by its own path only. *)
Definition exactMatch (n : option ((pattern * A) * list string)) (path : string) : bool :=
  match n with
  | None => false
  | Some ((p, _), _) =>
      if bool_decide (last (pat_segs p) = Some Multi) then
        HasSuffix path "/" && (length (pat_segs p) =? length (Split slash path) - 1)%nat
      else true
  end.

(** [cleanPath]: [path.Clean], with a trailing slash put back. *)
Definition cleanPath (p : string) : string :=
  if streq p "" then "/"
  else
    let p := if HasPrefix p "/" then p else "/" +:+ p in
    let np := Clean p in
    if HasSuffix p "/" && negb (streq np "/") then np +:+ "/" else np.

(** What the mux does with a request: it moves a client to a canonical path, runs a
    handler with the values of its wildcards, or answers 405 or 404 itself. *)
Inductive dispatched :=
| Moved (location : string)
| Found (a : A) (values : list (string * string))
| NotAllowed
| NoPattern.

Definition wild_names (p : pattern) : list string :=
  omap (fun s => match s with Wild n => Some n | _ => None end) (pat_segs p).

(** [findHandler], on the escaped path of a request URL. *)
Definition ServeMux_handler (method escapedPath : string) : dispatched :=
  let path := if streq method "CONNECT" then escapedPath else cleanPath escapedPath in
  let n := match_ method path in
  if negb (exactMatch n path) && negb (HasSuffix path "/") && exactMatch (match_ method (path +:+ "/")) (path +:+ "/")
  then Moved (path +:+ "/")
  else if negb (streq path escapedPath) then Moved path
  else match n with
       | Some ((p, a), vals) => Found a (zip (wild_names p) vals)
       | None => if existsb (fun r => bool_decide (is_Some (matchPath (split_path path) [(pat_segs r.1, ())] []))) routes
                 then NotAllowed else NoPattern
       end.
End ServeMux.
#[global] Arguments Moved {A} _.
#[global] Arguments Found {A} _ _.
#[global] Arguments NotAllowed {A}.
#[global] Arguments NoPattern {A}.

(** ** Lemmas on the search *)
Section SearchLemmas.
Context {A : Type}.
Implicit Types pats : list (list segment * A).

Lemma omap_in {X Y} (f : X -> option Y) (l : list X) y : y ∈ omap f l -> exists x, x ∈ l /\ f x = Some y.
Proof. intros (x & Hx & Hf)%list_elem_of_omap. eauto. Qed.

Lemma multi_child_in pats a : multi_child pats = Some a -> exists l, (l, a) ∈ pats.
Proof.
  induction pats as [|[l b] pats IH]; [done|]. simpl. intros Hm.
  assert ((l = [Multi] /\ b = a) \/ multi_child pats = Some a) as [[-> ->]|Hr]
    by (destruct l as [|[] [|]]; naive_solver).
  - eexists. by left.
  - destruct (IH Hr) as [l' ?]. exists l'. by right.
Qed.

Lemma leaf_in pats a : leaf pats = Some a -> exists l, (l, a) ∈ pats.
Proof.
  induction pats as [|[l b] pats IH]; [done|]. simpl. intros Hm.
  destruct l; [injection Hm as ->; eexists; by left|].
  destruct (IH Hm) as [l' ?]. exists l'. by right.
Qed.

(** What the search finds was registered. *)
Lemma matchPath_in segs pats vals a v : matchPath segs pats vals = Some (a, v) -> exists l, (l, a) ∈ pats.
Proof.
  revert pats vals; induction segs as [|seg segs IH]; intros pats vals; cbn [matchPath].
  - destruct (leaf pats) as [b|] eqn:E; [|done]. simpl. intros [= -> _]. by eapply leaf_in.
  - unfold or_else. destruct (matchPath segs (lit_children seg pats) vals) as [[b w]|] eqn:E1.
    { intros [= -> ->]. apply IH in E1 as (l & Hl). apply omap_in in Hl as ([l' b] & Hin & Hf). simpl in Hf.
      destruct l' as [|[] ?]; try done. destruct (streq _ _); [|done]. injection Hf as -> ->. eauto. }
    destruct (if streq seg "/" then None else _) as [[b w]|] eqn:E2.
    { destruct (streq seg "/"); [done|]. intros [= -> ->]. apply IH in E2 as (l & Hl).
      apply omap_in in Hl as ([l' b] & Hin & Hf). simpl in Hf.
      destruct l' as [|[] ?]; try done. injection Hf as -> ->. eauto. }
    destruct (multi_child pats) as [b|] eqn:E3; [|done]. simpl. intros [= -> _]. by eapply multi_child_in.
Qed.

Lemma or_else_some {B} (x y : option B) : is_Some x \/ is_Some y -> is_Some (or_else x y).
Proof. destruct x as [b|]; simpl; [intros _; by exists b|]. intros [[b ?]|?]; done. Qed.

(** The steps of a search. *)
Lemma matchPath_nil segs vals : matchPath segs ([] : list (list segment * A)) vals = None.
Proof.
  revert vals; induction segs as [|seg segs IH]; intros vals; [done|]. cbn [matchPath].
  change (lit_children seg ([] : list (list segment * A))) with ([] : list (list segment * A)).
  change (wild_children ([] : list (list segment * A))) with ([] : list (list segment * A)).
  rewrite !IH. by destruct (streq seg "/").
Qed.

Lemma match_leaf pats vals a : leaf pats = Some a -> matchPath [] pats vals = Some (a, vals).
Proof. intros E. cbn [matchPath]. by rewrite E. Qed.

Lemma match_lit seg segs pats vals x :
  matchPath segs (lit_children seg pats) vals = Some x -> matchPath (seg :: segs) pats vals = Some x.
Proof. intros E. cbn [matchPath]. by rewrite E. Qed.

Lemma match_wild seg segs pats vals x :
  lit_children seg pats = [] -> seg <> "/" ->
  matchPath segs (wild_children pats) (vals ++ [seg])%list = Some x -> matchPath (seg :: segs) pats vals = Some x.
Proof.
  intros E Hs Hm. cbn [matchPath]. rewrite E, matchPath_nil. by rewrite (proj2 (streq_false _ _) Hs), Hm.
Qed.

End SearchLemmas.

(** ** Clean paths *)
Lemma last_slash l t : Forall good l -> l <> [] -> canonical l <> t +:+ "/".
Proof.
  intros Hl Hne E. pose proof (Split_canonical l Hne Hl) as Hs. rewrite E in Hs.
  change "/" with (String slash "") in Hs. rewrite Split_app_slash in Hs.
  change (Split slash "") with [""] in Hs. destruct (Split slash t) as [|w ws] eqn:Et; [by apply Split_nonempty in Et|].
  injection Hs as _ Hs. rewrite <- Hs in Hl. apply Forall_app in Hl as [_ [(H1 & _) _]%Forall_cons]. done.
Qed.

Lemma HasSuffix_slash s : HasSuffix s "/" = true -> exists t, s = t +:+ "/".
Proof.
  unfold HasSuffix. simpl String.length. rewrite andb_true_iff, Nat.leb_le. intros [Hl E]. bool_facts.
  exists (take_bytes (String.length s - 1) s). rewrite <- E. generalize (String.length s - 1)%nat as n. clear.
  intros n. revert n; induction s as [|c s IH]; intros [|n]; try done.
  cbn [take_bytes drop_bytes]. change (String c s = String c (take_bytes n s +:+ drop_bytes n s)). by rewrite <- IH.
Qed.

Lemma suffix_canonical l : Forall good l -> l <> [] -> HasSuffix (canonical l) "/" = false.
Proof.
  intros Hl Hne. destruct (HasSuffix (canonical l) "/") eqn:E; [|done].
  apply HasSuffix_slash in E as [t E]. by destruct (last_slash l t).
Qed.

Lemma cleanPath_canonical l : Forall good l -> l <> [] -> cleanPath (canonical l) = canonical l.
Proof.
  intros Hl Hne. unfold cleanPath. destruct (streq (canonical l) "") eqn:E; bool_facts; [done|].
  assert (HasPrefix (canonical l) "/" = true) as Hp by (unfold canonical; apply HasPrefix_app).
  cbv zeta. by rewrite Hp, Clean_canonical, suffix_canonical.
Qed.

Lemma split_canonical l : Forall good l -> l <> [] -> split_path (canonical l) = pathUnescape <$> l.
Proof.
  intros Hl Hne. unfold split_path. rewrite Split_canonical by done. clear Hne.
  induction Hl as [|s l Hs Hl IH]; [done|]. destruct l as [|s' l].
  - cbn. destruct (streq s "") eqn:E; bool_facts; [by destruct Hs|done].
  - cbn [path_segments fmap list_fmap]. f_equal. exact IH.
Qed.

(** ** Lemmas on the mux *)
Section MuxLemmas.
Context {A : Type}.
Implicit Types routes : list (pattern * A).

Lemma match_in routes method path p a v : match_ routes method path = Some ((p, a), v) -> (p, a) ∈ routes.
Proof.
  assert (forall m segs v, matchPath segs (with_method routes m) [] = Some ((p, a), v) -> (p, a) ∈ routes) as Hin.
  { intros m segs w (l & Hl)%matchPath_in. apply omap_in in Hl as ([p' a'] & Hr & Hf). simpl in Hf.
    destruct (streq _ _); [|done]. by injection Hf as _ -> ->. }
  unfold match_, or_else. destruct (matchPath _ (with_method routes method) []) as [[[] ]|] eqn:E1;
    [intros [= -> -> ->]; eauto|].
  destruct (streq method "HEAD"); [|eauto].
  destruct (matchPath _ (with_method routes "GET") []) as [[[] ]|] eqn:E2; [intros [= -> -> ->]; eauto|eauto].
Qed.

Lemma found_in routes method path a v : ServeMux_handler routes method path = Found a v ->
  exists p, (p, a) ∈ routes.
Proof.
  unfold ServeMux_handler. cbv zeta. set (q := if streq method "CONNECT" then path else cleanPath path).
  destruct (_ && _); [done|]. destruct (negb (streq q path)); [done|].
  destruct (match_ routes method q) as [[[p b] w]|] eqn:E; [|by destruct (existsb _ _)].
  intros [= -> _]. exists p. by eapply match_in.
Qed.

(** The pattern [/] leaves no path unmatched. *)
Lemma match_total routes method path a :
  (mkPattern "" [Multi], a) ∈ routes -> split_path path <> [] -> is_Some (match_ routes method path).
Proof.
  intros Hin Hs. unfold match_. cbv zeta. destruct (split_path path) as [|seg segs]; [done|].
  assert (([Multi], (mkPattern "" [Multi], a)) ∈ with_method routes "") as Hw.
  { apply list_elem_of_omap. eexists. split; [exact Hin|]. done. }
  assert (is_Some (multi_child (with_method routes ""))) as [b Hb].
  { revert Hw. generalize (with_method routes "") as l. induction l as [|[l0 c] l IH]; [by intros ?%elem_of_nil|].
    intros [[= <- <-]|Hl]%elem_of_cons; [by eexists|]. destruct (IH Hl) as [d Hd]. simpl.
    destruct l0 as [|[] [|]]; eauto. }
  apply or_else_some. right. apply or_else_some. right. cbn [matchPath].
  apply or_else_some. right. apply or_else_some. right. rewrite Hb. by eexists.
Qed.

(** A clean path that a pattern without a trailing slash matches is dispatched there. *)
Lemma dispatch_canonical routes method l p a v :
  Forall good l -> l <> [] -> method <> "CONNECT" ->
  matchPath (pathUnescape <$> l) (with_method routes method) [] = Some ((p, a), v) ->
  last (pat_segs p) <> Some Multi ->
  ServeMux_handler routes method (canonical l) = Found a (zip (wild_names p) v).
Proof.
  intros Hl Hne Hm Hmatch Hlast. unfold ServeMux_handler.
  rewrite (proj2 (streq_false _ _) Hm), cleanPath_canonical by done. cbv zeta.
  assert (match_ routes method (canonical l) = Some ((p, a), v)) as ->.
  { unfold match_. cbv zeta. rewrite split_canonical by done. by rewrite Hmatch. }
  assert (exactMatch (Some ((p, a), v)) (canonical l) = true) as ->.
  { unfold exactMatch. by rewrite bool_decide_eq_false_2. }
  by rewrite streq_refl.
Qed.
End MuxLemmas.

(** ** When two patterns conflict

    Registration panics on two patterns that match a common request while neither
    is more specific than the other. *)
Fixpoint matches (p : list segment) (segs : list string) : bool :=
  match p, segs with
  | [], [] => true
  | Multi :: _, _ :: _ => true
  | Lit s :: p, seg :: segs => streq s seg && matches p segs
  | Wild _ :: p, seg :: segs => negb (streq seg "/") && matches p segs
  | _, _ => false
  end.

Definition accepts_method (p method : string) : bool :=
  streq p "" || streq p method || (streq p "GET" && streq method "HEAD").

Definition pattern_matches (p : pattern) (method : string) (segs : list string) : bool :=
  accepts_method (pat_method p) method && matches (pat_segs p) segs.

(** [p] matches a part of what [q] matches. *)
Definition more_specific (p q : pattern) : Prop :=
  (forall m segs, pattern_matches p m segs = true -> pattern_matches q m segs = true) /\
  exists m segs, pattern_matches q m segs = true /\ pattern_matches p m segs = false.

Definition no_conflict (p q : pattern) : Prop :=
  (forall m segs, pattern_matches p m segs = true -> pattern_matches q m segs = false) \/
  more_specific p q \/ more_specific q p.

(** Deciding it. *)
Fixpoint covers (q p : list segment) : bool :=
  match q, p with
  | [], [] => true
  | Multi :: _, _ :: _ => true
  | Lit s :: q, Lit t :: p => streq s t && covers q p
  | Wild _ :: q, Lit t :: p => negb (streq t "/") && covers q p
  | Wild _ :: q, Wild _ :: p => covers q p
  | _, _ => false
  end.

Fixpoint meets (p q : list segment) : bool :=
  match p, q with
  | [], [] => true
  | Multi :: _, _ :: _ | _ :: _, Multi :: _ => true
  | Lit s :: p, Lit t :: q => streq s t && meets p q
  | _ :: p, _ :: q => meets p q
  | _, _ => false
  end.

Definition covers_method (q p : string) : bool :=
  streq q "" || (streq q p || (streq q "GET" && streq p "HEAD")) && negb (streq p "").

Definition meets_method (p q : string) : bool :=
  streq p "" || streq q "" || streq p q || (streq p "GET" && streq q "HEAD") || (streq q "GET" && streq p "HEAD").

(** A request the pattern matches, and narrower patterns do not. *)
Definition sample (p : pattern) : string * list string :=
  (if streq (pat_method p) "" then "OPTIONS" else pat_method p,
   (fun s => match s with Lit s => s | _ => "?" end) <$> pat_segs p).

Definition specific_b (p q : pattern) : bool :=
  covers_method (pat_method q) (pat_method p) && covers (pat_segs q) (pat_segs p) &&
  pattern_matches q (sample q).1 (sample q).2 && negb (pattern_matches p (sample q).1 (sample q).2).

Definition no_conflict_b (p q : pattern) : bool :=
  negb (meets_method (pat_method p) (pat_method q) && meets (pat_segs p) (pat_segs q)) ||
  specific_b p q || specific_b q p.

Lemma covers_sound q p segs : covers q p = true -> matches p segs = true -> matches q segs = true.
Proof.
  revert p segs; induction q as [|s q IH]; intros p segs.
  { destruct p; [done|done]. }
  destruct s, p as [|[] p], segs; simpl; rewrite ?andb_true_iff; try done; intros Hc Hm;
    destruct_and?; split_and?; bool_facts; subst; rewrite ?negb_true_iff, ?streq_false; eauto using streq_refl.
Qed.

Lemma meets_sound p q segs : matches p segs = true -> matches q segs = true -> meets p q = true.
Proof.
  revert q segs; induction p as [|s p IH]; intros q segs.
  { by destruct q as [|[] q], segs. }
  destruct s, q as [|[] q], segs; simpl; rewrite ?andb_true_iff; try done; intros Hp Hq;
    destruct_and?; split_and?; bool_facts; subst; rewrite ?negb_true_iff, ?streq_false; eauto using streq_refl.
Qed.

Ltac by_methods :=
  repeat match goal with |- context [streq ?a ?b] => destruct (streq a b) eqn:? end;
  bool_facts; subst; simpl; congruence.

Lemma covers_method_sound q p m : covers_method q p = true -> accepts_method p m = true -> accepts_method q m = true.
Proof. unfold covers_method, accepts_method. by_methods. Qed.

Lemma meets_method_sound p q m : accepts_method p m = true -> accepts_method q m = true -> meets_method p q = true.
Proof. unfold meets_method, accepts_method. by_methods. Qed.

Lemma specific_b_sound p q : specific_b p q = true -> more_specific p q.
Proof.
  unfold specific_b. rewrite !andb_true_iff, negb_true_iff. intros (((Hm & Hs) & Hq) & Hp). split; [|eauto].
  unfold pattern_matches. intros m segs [H1 H2]%andb_true_iff. apply andb_true_iff.
  split; [by eapply covers_method_sound|by eapply covers_sound].
Qed.

Lemma no_conflict_b_sound p q : no_conflict_b p q = true -> no_conflict p q.
Proof.
  unfold no_conflict_b. rewrite !orb_true_iff, negb_true_iff. intros [[Hm|Hs]|Hs].
  - left. intros m segs [H1 H2]%andb_true_iff. apply not_true_iff_false. intros [H3 H4]%andb_true_iff.
    by rewrite (meets_method_sound _ _ m), (meets_sound _ _ segs) in Hm.
  - right; left. by apply specific_b_sound.
  - right; right. by apply specific_b_sound.
Qed.

Fixpoint pairwise {A} (f : A -> A -> bool) (l : list A) : bool :=
  match l with [] => true | a :: l => forallb (f a) l && pairwise f l end.

Lemma pairwise_sound {A} (f : A -> A -> bool) (R : A -> A -> Prop) l :
  (forall a b, f a b = true -> R a b) -> pairwise f l = true -> List.ForallOrdPairs R l.
Proof.
  intros Hf. induction l as [|a l IH]; simpl; [constructor|]. rewrite andb_true_iff, forallb_forall.
  intros [Ha Hl]. constructor; [|auto]. apply List.Forall_forall. auto.
Qed.

Lemma split_path_abs s : HasPrefix s "/" = true -> split_path s <> [].
Proof.
  intros Hp%HasPrefix_inv. rewrite Hp. generalize (drop_bytes (String.length "/") s) as t. intros t.
  unfold split_path. change ("/" +:+ t) with ("" +:+ String slash t). rewrite Split_app_slash. simpl.
  pose proof (Split_nonempty t). by destruct (Split slash t) as [|w [|]].
Qed.

Lemma cleanPath_abs p : HasPrefix (cleanPath p) "/" = true.
Proof.
  unfold cleanPath. destruct (streq p ""); [done|]. cbv zeta.
  set (q := if HasPrefix p "/" then p else "/" +:+ p).
  assert (IsAbs q = true) as Hq by (unfold IsAbs, q; destruct (HasPrefix p "/") eqn:E; [done|apply HasPrefix_app]).
  apply IsAbs_Clean in Hq as (l & -> & _).
  destruct (_ && _); [|apply HasPrefix_app]. unfold canonical. rewrite string_app_assoc. apply HasPrefix_app.
Qed.

(** ** What handlers are does not matter to the search *)
Section Naturality.
Context {A B : Type} (f : A -> B).

Lemma omap_fmap_swap {X Y} (g : X * A -> option (Y * A)) (h : X * B -> option (Y * B)) (l : list (X * A)) :
  (forall x a, h (x, f a) = prod_map id f <$> g (x, a)) ->
  omap h (prod_map id f <$> l) = prod_map id f <$> omap g l.
Proof.
  intros Hgh. induction l as [|[x a] l IH]; [done|].
  change (omap h (prod_map id f <$> (x, a) :: l))
    with (match h (x, f a) with Some b => b :: omap h (prod_map id f <$> l) | None => omap h (prod_map id f <$> l) end).
  rewrite Hgh, IH. simpl. by destruct (g (x, a)).
Qed.

Lemma matchPath_map segs pats vals :
  matchPath segs (prod_map id f <$> pats) vals = prod_map f id <$> matchPath segs pats vals.
Proof.
  revert pats vals; induction segs as [|seg segs IH]; intros pats vals; cbn [matchPath].
  - assert (leaf (prod_map id f <$> pats) = f <$> leaf pats) as ->.
    { induction pats as [|[[|] a] pats IH]; [done|done|]. exact IH. }
    by destruct (leaf pats).
  - assert (lit_children seg (prod_map id f <$> pats) = prod_map id f <$> lit_children seg pats) as ->.
    { apply omap_fmap_swap. intros [|[] ?] a; try done. simpl. by destruct (streq _ _). }
    assert (wild_children (prod_map id f <$> pats) = prod_map id f <$> wild_children pats) as ->.
    { apply omap_fmap_swap. by intros [|[] ?] a. }
    assert (multi_child (prod_map id f <$> pats) = f <$> multi_child pats) as ->.
    { induction pats as [|[[|[] [|]] a] pats IH']; try done; exact IH'. }
    rewrite !IH. destruct (matchPath segs (lit_children seg pats) vals); [done|]. simpl.
    destruct (streq seg "/"); [by destruct (multi_child pats)|].
    destruct (matchPath segs (wild_children pats) _); [done|]. by destruct (multi_child pats).
Qed.
End Naturality.

Lemma match_routes_map {A B} (f : A -> B) (routes : list (pattern * A)) segs method p a v :
  matchPath segs (with_method routes method) [] = Some ((p, a), v) ->
  matchPath segs (with_method (prod_map id f <$> routes) method) [] = Some ((p, f a), v).
Proof.
  intros Hm. assert (with_method (prod_map id f <$> routes) method =
    prod_map id (prod_map id f) <$> with_method routes method) as ->.
  { clear Hm. unfold with_method. induction routes as [|[q b] routes IH]; [done|]. simpl.
    destruct (streq _ _); [simpl; f_equal; exact IH|exact IH]. }
  by rewrite matchPath_map, Hm.
Qed.
