(* ===== verification/Iface.v ===== *)
(** * The persistence interfaces (internal/db/iface, internal/storage)

    Every access the registry makes to its surroundings is one operation of a
    signature: a method of one of the repositories, of the blob store, the
    clock, the identifier generator, the password hasher or the Protobuf
    compiler.  Handlers are programs over this signature (file Prog); this file
    says what each operation promises about the registry's abstract state. *)
From S2P Require Import Prelude GoStd Model.
From Stdlib Require Import Ascii.

(** ** Errors and results *)

(** A repository error: [iface.ErrNotFound], or any other error with its message. *)
Inductive ierr :=
| ErrNotFound
| ErrOther (msg : string).

(** [err.Error()]. *)
Definition ierr_msg (e : ierr) : string :=
  match e with ErrNotFound => "not found" | ErrOther m => m end.

(** [errors.Is(err, iface.ErrNotFound)]. *)
Definition is_not_found (e : ierr) : bool :=
  match e with ErrNotFound => true | ErrOther _ => false end.

(** A Go result [(v *T, err error)]: both halves are present, and a backend may
    return a non-nil pointer together with an error. *)
Record goret (A : Type) := GoRet { val : option A; err : option ierr }.
Arguments GoRet {A} _ _.
Arguments val {A} _.
Arguments err {A} _.

(** Errors of a blob store ([storage.ErrNotFound], [storage.ErrInvalidPath], others). *)
Inductive serr :=
| SErrNotFound
| SErrInvalidPath
| SErrOther (msg : string).

(** ** The signature *)

(** One constructor per method of the repository interfaces. *)
Inductive repo_op : Type -> Type :=
| Users_Create (u : User) : repo_op (option ierr)
| Users_GetByUsername (username : string) : repo_op (goret User)
| Users_GetByID (id : string) : repo_op (goret User)
| Users_ListByOrg (orgID : string) : repo_op (goret (list User))
| Orgs_Create (o : Org) : repo_op (option ierr)
| Orgs_GetByName (name : string) : repo_op (goret Org)
| Orgs_GetByID (id : string) : repo_op (goret Org)
| Orgs_AddMember (orgID userID : string) (role : OrgRole) : repo_op (option ierr)
| Orgs_RemoveMember (orgID userID : string) : repo_op (option ierr)
| Orgs_ListMembers (orgID : string) : repo_op (goret (list OrgMember))
| Orgs_GetMember (orgID userID : string) : repo_op (goret OrgMember)
| Modules_Create (m : Mod) : repo_op (option ierr)
| Modules_Get (ownerName repoName : string) : repo_op (goret Mod)
| Modules_GetByID (id : string) : repo_op (goret Mod)
| Modules_List (ownerName : string) : repo_op (goret (list Mod))
| Modules_ListPublic (query : string) (limit : nat) : repo_op (goret (list Mod))
| Modules_SetVisibility (id : string) (vis : Visibility) : repo_op (option ierr)
| Modules_Delete (id : string) : repo_op (option ierr)
| Commits_Create (c : Commit) : repo_op (option ierr)
| Commits_GetByID (moduleID commitID : string) : repo_op (goret Commit)
| Commits_GetLatest (moduleID : string) : repo_op (goret Commit)
| Commits_ListByModule (moduleID : string) : repo_op (goret (list Commit))
| Labels_Upsert (l : Label) : repo_op (option ierr)
| Labels_Get (moduleID name : string) : repo_op (goret Label)
| Labels_List (moduleID : string) : repo_op (goret (list Label))
| Tokens_Create (t : Token) : repo_op (option ierr)
| Tokens_GetByHash (hash : string) : repo_op (goret Token)
| Tokens_ListByUser (userID : string) : repo_op (goret (list Token))
| Tokens_Revoke (id userID : string) : repo_op (option ierr)
| Tokens_DeleteExpired : repo_op (option ierr)
| Tokens_DeleteByUserAndNote (userID note : string) : repo_op (option ierr).

(** A compiled descriptor, as the compiler library hands it over. *)
Abbreviation FileDescriptorProto := string (only parsing).

Inductive eff : Type -> Type :=
| Repo {X} (o : repo_op X) : eff X
| StorePut (key : string) (data : bytes) : eff (option serr)
| StoreGet (key : string) : eff (serr + bytes)
| Now : eff Time
| NewUUID : eff string
| HashPassword_eff (password : string) : eff (option string)
| Compile_eff (files : list (string * string)) (names : list string)
    : eff (option (list FileDescriptorProto)).

(** ** The abstract state *)
Record Tables := mkTables {
  t_users : list User;
  t_orgs : list Org;
  t_members : list OrgMember;
  t_modules : list Mod;
  t_commits : list Commit;
  t_labels : list Label;
  t_tokens : list Token }.

Record State := mkState { tables : Tables; blobs : gmap string bytes }.

Definition empty_tables : Tables := mkTables [] [] [] [] [] [] [].
Definition empty_state : State := mkState empty_tables ∅.

Definition set_users (l : list User) (t : Tables) : Tables :=
  mkTables l (t_orgs t) (t_members t) (t_modules t) (t_commits t) (t_labels t) (t_tokens t).
Definition set_orgs (l : list Org) (t : Tables) : Tables :=
  mkTables (t_users t) l (t_members t) (t_modules t) (t_commits t) (t_labels t) (t_tokens t).
Definition set_members (l : list OrgMember) (t : Tables) : Tables :=
  mkTables (t_users t) (t_orgs t) l (t_modules t) (t_commits t) (t_labels t) (t_tokens t).
Definition set_modules (l : list Mod) (t : Tables) : Tables :=
  mkTables (t_users t) (t_orgs t) (t_members t) l (t_commits t) (t_labels t) (t_tokens t).
Definition set_commits (l : list Commit) (t : Tables) : Tables :=
  mkTables (t_users t) (t_orgs t) (t_members t) (t_modules t) l (t_labels t) (t_tokens t).
Definition set_labels (l : list Label) (t : Tables) : Tables :=
  mkTables (t_users t) (t_orgs t) (t_members t) (t_modules t) (t_commits t) l (t_tokens t).
Definition set_tokens (l : list Token) (t : Tables) : Tables :=
  mkTables (t_users t) (t_orgs t) (t_members t) (t_modules t) (t_commits t) (t_labels t) l.

(** ** What an operation promises

    What surrounds the handlers is described by a [mode].  A [strict] backend enforces the
    unique keys of the SQL schema, never returns a record next to an error and
    deletes every matching row; a backend that is not strict (MongoDB) promises
    less.  A [live] backend never fails for reasons of its own; a backend that
    is not live may fail at any operation, and then has changed nothing.  The clock
    never shows a time before [since], nor one after [until] if that is given; fresh
    identifiers are among those the generator [draws]. *)
Record mode := mkMode { strict : bool; live : bool; since : Time; until : option Time; draws : string -> Prop }.

(** A mode whose clock and generator are not restricted further. *)
Definition any_mode (strict_ live_ : bool) (since_ : Time) : mode := mkMode strict_ live_ since_ None (fun _ => True).

Definition clock (md : mode) (now : Time) : Prop := since md <= now /\ (forall t, until md = Some t -> now <= t).

Section OpSpec.
Context (md : mode).

Definition gets {R} (P : R -> Prop) (l : list R) (x : goret R) : Prop :=
  match err x with
  | None => exists r, val x = Some r /\ r ∈ l /\ P r
  | Some ErrNotFound => val x = None /\ (forall r, r ∈ l -> ~ P r)
  | Some (ErrOther _) => live md = false /\ (strict md = true -> val x = None)
  end.

Definition finds {R} (Q : list R -> Prop) (x : goret (list R)) : Prop :=
  match err x with
  | None => exists rs, val x = Some rs /\ Q rs
  | Some _ => live md = false
  end.

(** [stored r r']: the row written for the record [r] may be [r']. *)
Definition creates {R} (stored : R -> R -> Prop) (conflict : R -> R -> Prop) (r : R)
    (l l' : list R) (e : option ierr) : Prop :=
  match e with
  | None => (exists r', stored r r' /\ l' ≡ₚ r' :: l) /\
            (strict md = true -> forall r0, r0 ∈ l -> ~ conflict r r0)
  | Some _ => l' = l /\ (live md = true -> strict md = true /\ exists r0, r0 ∈ l /\ conflict r r0)
  end.

(** [all]: every matching row goes on every backend, not only on a strict one. *)
Definition deletes {R} (all : bool) (P : R -> Prop) (l l' : list R) (e : option ierr) : Prop :=
  match e with
  | None => exists gone, l ≡ₚ gone ++ l' /\ Forall P gone /\
              (all || strict md = true -> forall r, r ∈ l' -> ~ P r)
  | Some _ => l' = l /\ live md = false
  end.

(** A delete that reports [ErrNotFound] when it matched nothing. *)
Definition revokes {R} (P : R -> Prop) (l l' : list R) (e : option ierr) : Prop :=
  match e with
  | None => exists gone, gone <> [] /\ l ≡ₚ gone ++ l' /\ Forall P gone /\
              (strict md = true -> forall r, r ∈ l' -> ~ P r)
  | Some ErrNotFound => l' ≡ₚ l /\ (forall r, r ∈ l -> ~ P r)
  | Some (ErrOther _) => l' = l /\ live md = false
  end.
End OpSpec.

(** Unique keys of the schema: two rows that cannot be stored together. *)
Definition User_conflict (a b : User) : Prop :=
  User_ID a = User_ID b \/ User_Username a = User_Username b.
Definition Org_conflict (a b : Org) : Prop := Org_ID a = Org_ID b \/ Org_Name a = Org_Name b.
Definition OrgMember_conflict (a b : OrgMember) : Prop :=
  OrgMember_OrgID a = OrgMember_OrgID b /\ OrgMember_UserID a = OrgMember_UserID b.
Definition Mod_conflict (a b : Mod) : Prop :=
  Mod_ID a = Mod_ID b \/ (Mod_OwnerName a = Mod_OwnerName b /\ Mod_Name a = Mod_Name b).
Definition Commit_conflict (a b : Commit) : Prop :=
  Commit_ID a = Commit_ID b /\ Commit_ModuleID a = Commit_ModuleID b.
Definition Label_key (l : Label) : string * string := (Label_ModuleID l, Label_Name l).
Definition Token_conflict (a b : Token) : Prop := Token_ID a = Token_ID b \/ Token_Hash a = Token_Hash b.

Definition is_member (orgID userID : string) (m : OrgMember) : Prop :=
  OrgMember_OrgID m = orgID /\ OrgMember_UserID m = userID.
Definition owned_as (ownerName repoName : string) (m : Mod) : Prop :=
  Mod_OwnerName m = ownerName /\ Mod_Name m = repoName.
Definition commit_at (moduleID commitID : string) (c : Commit) : Prop :=
  Commit_ModuleID c = moduleID /\ Commit_ID c = commitID.
Definition label_at (moduleID name : string) (l : Label) : Prop :=
  Label_ModuleID l = moduleID /\ Label_Name l = name.

(** The rows an update of a label leaves: only its commit and update time move. *)
Definition move_label (l l0 : Label) : Label :=
  mkLabel (Label_ID l0) (Label_ModuleID l0) (Label_Name l0)
    (Label_CommitID l) (Label_CreatedAt l0) (Label_UpdatedAt l).

Definition with_visibility (vis : Visibility) (m : Mod) : Mod :=
  mkMod (Mod_ID m) (Mod_OwnerName m) (Mod_OwnerType m) (Mod_Name m) vis (Mod_CreatedAt m).

(** Newest first. *)
Definition newer {R} (at_ : R -> Time) (a b : R) : Prop := at_ b <= at_ a.

Definition expired_before (now : Time) (t : Token) : Prop :=
  exists e, Token_ExpiresAt t = Some e /\ e < now.

Section RepoSpec.
Context (md : mode).

(** A strict backend keeps an instant as it is given, and sets a zero creation
    or update time to the current time; another backend may round instants. *)
Definition keeps_time (t t' : Time) : Prop := strict md = true -> t <> 0 -> t' = t.

Definition stored_User (u u' : User) : Prop :=
  exists t, keeps_time (User_CreatedAt u) t /\
    u' = mkUser (User_ID u) (User_Username u) (User_PasswordHash u) t.
Definition stored_Org (o o' : Org) : Prop :=
  exists t, keeps_time (Org_CreatedAt o) t /\ o' = mkOrg (Org_ID o) (Org_Name o) t.
Definition stored_OrgMember (m m' : OrgMember) : Prop := m' = m.
Definition stored_Mod (m m' : Mod) : Prop :=
  exists t vis, keeps_time (Mod_CreatedAt m) t /\
    (vis = Mod_Visibility m \/ (Mod_Visibility m = "" /\ vis = VisibilityPrivate)) /\
    m' = mkMod (Mod_ID m) (Mod_OwnerName m) (Mod_OwnerType m) (Mod_Name m) vis t.
Definition stored_Commit (c c' : Commit) : Prop :=
  exists t, keeps_time (Commit_CreatedAt c) t /\
    c' = mkCommit (Commit_ID c) (Commit_ModuleID c) (Commit_StorageKey c) (Commit_Manifest c)
           (Commit_CreatedByUserID c) t.
Definition stored_Label (l l' : Label) : Prop :=
  exists t u, keeps_time (Label_CreatedAt l) t /\ keeps_time (Label_UpdatedAt l) u /\
    l' = mkLabel (Label_ID l) (Label_ModuleID l) (Label_Name l) (Label_CommitID l) t u.
Definition stored_Token (k k' : Token) : Prop :=
  exists t e, keeps_time (Token_CreatedAt k) t /\
    (strict md = true -> e = Token_ExpiresAt k) /\ (is_Some e <-> is_Some (Token_ExpiresAt k)) /\
    k' = mkToken (Token_ID k) (Token_UserID k) (Token_Hash k) (Token_Note k) e t.

(** After an upsert the label's key carries its commit; on a strict backend the
    existing row of that key moves, or the label is added. *)
Definition upserts (l : Label) (ls ls' : list Label) (e : option ierr) : Prop :=
  match e with
  | None =>
      (forall x, x ∈ ls' -> x ∈ ls \/ (Label_key x = Label_key l /\ Label_CommitID x = Label_CommitID l)) /\
      (exists x, x ∈ ls' /\ Label_key x = Label_key l /\ Label_CommitID x = Label_CommitID l) /\
      (forall x, x ∈ ls -> Label_key x <> Label_key l -> x ∈ ls') /\
      (strict md = true -> exists l1, stored_Label l l1 /\
       ls' ≡ₚ if decide (Exists (fun x => Label_key x = Label_key l) ls)
              then (fun x => if decide (Label_key x = Label_key l) then move_label l1 x else x) <$> ls
              else l1 :: ls)
  | Some _ =>
      ls' = ls /\
      (live md = true -> strict md = true /\ exists x, x ∈ ls /\ Label_ID x = Label_ID l)
  end.

Definition sets_visibility (id : string) (vis : Visibility) (ms ms' : list Mod) (e : option ierr) : Prop :=
  match e with
  | None =>
      exists ms2, ms' ≡ₚ ms2 /\
        Forall2 (fun m m2 => m2 = m \/ (Mod_ID m = id /\ m2 = with_visibility vis m)) ms ms2 /\
        (strict md = true ->
         ms2 = (fun m => if decide (Mod_ID m = id) then with_visibility vis m else m) <$> ms)
  | Some _ => ms' = ms /\ live md = false
  end.

(** Public modules, newest first, cut at the limit (MongoDB reads a limit of 0 as
    none); which of them a non-empty
    query selects is the backend's own pattern language. *)
Definition lists_public (query : string) (limit : nat) (ms : list Mod) (res : list Mod) : Prop :=
  exists sel, (forall m, m ∈ sel -> m ∈ ms /\ Mod_Visibility m = VisibilityPublic) /\
    (query = "" -> sel ≡ₚ filter (fun m => Mod_Visibility m = VisibilityPublic) ms) /\
    StronglySorted (newer Mod_CreatedAt) sel /\
    (res = take limit sel \/ (strict md = false /\ limit = O /\ res = sel)).

Definition lists_by_org (orgID : string) (t : Tables) (us : list User) : Prop :=
  (forall u, u ∈ us -> u ∈ t_users t /\ exists m, m ∈ t_members t /\ is_member orgID (User_ID u) m) /\
  (strict md = true ->
   us ≡ₚ mjoin ((fun m => filter (fun u => User_ID u = OrgMember_UserID m) (t_users t)) <$>
                filter (fun m => OrgMember_OrgID m = orgID) (t_members t))).

(** What each repository method promises: [t] before, [x] returned, [t'] after. *)
Definition repo_spec {X} (o : repo_op X) (t : Tables) : X -> Tables -> Prop :=
  match o in repo_op X return X -> Tables -> Prop with
  | Users_Create u => fun e t' =>
      exists l', t' = set_users l' t /\ creates md stored_User User_conflict u (t_users t) l' e
  | Users_GetByUsername n => fun x t' => t' = t /\ gets md (fun u => User_Username u = n) (t_users t) x
  | Users_GetByID i => fun x t' => t' = t /\ gets md (fun u => User_ID u = i) (t_users t) x
  | Users_ListByOrg o => fun x t' => t' = t /\ finds md (lists_by_org o t) x
  | Orgs_Create o => fun e t' =>
      exists l', t' = set_orgs l' t /\ creates md stored_Org Org_conflict o (t_orgs t) l' e
  | Orgs_GetByName n => fun x t' => t' = t /\ gets md (fun o => Org_Name o = n) (t_orgs t) x
  | Orgs_GetByID i => fun x t' => t' = t /\ gets md (fun o => Org_ID o = i) (t_orgs t) x
  | Orgs_AddMember o u r => fun e t' =>
      exists l', t' = set_members l' t /\
        creates md stored_OrgMember OrgMember_conflict (mkOrgMember o u r) (t_members t) l' e
  | Orgs_RemoveMember o u => fun e t' =>
      exists l', t' = set_members l' t /\ deletes md false (is_member o u) (t_members t) l' e
  | Orgs_ListMembers o => fun x t' =>
      t' = t /\ finds md (fun rs => rs ≡ₚ filter (fun m => OrgMember_OrgID m = o) (t_members t)) x
  | Orgs_GetMember o u => fun x t' => t' = t /\ gets md (is_member o u) (t_members t) x
  | Modules_Create m => fun e t' =>
      exists l', t' = set_modules l' t /\ creates md stored_Mod Mod_conflict m (t_modules t) l' e
  | Modules_Get o n => fun x t' => t' = t /\ gets md (owned_as o n) (t_modules t) x
  | Modules_GetByID i => fun x t' => t' = t /\ gets md (fun m => Mod_ID m = i) (t_modules t) x
  | Modules_List o => fun x t' =>
      t' = t /\ finds md (fun rs => rs ≡ₚ filter (fun m => Mod_OwnerName m = o) (t_modules t)) x
  | Modules_ListPublic q n => fun x t' => t' = t /\ finds md (lists_public q n (t_modules t)) x
  | Modules_SetVisibility i v => fun e t' =>
      exists l', t' = set_modules l' t /\ sets_visibility i v (t_modules t) l' e
  | Modules_Delete i => fun e t' =>
      exists l', t' = set_modules l' t /\ deletes md false (fun m => Mod_ID m = i) (t_modules t) l' e
  | Commits_Create c => fun e t' =>
      exists l', t' = set_commits l' t /\ creates md stored_Commit Commit_conflict c (t_commits t) l' e
  | Commits_GetByID m c => fun x t' => t' = t /\ gets md (commit_at m c) (t_commits t) x
  | Commits_GetLatest m => fun x t' =>
      t' = t /\ gets md (fun c => Commit_ModuleID c = m /\
        (forall c', c' ∈ t_commits t -> Commit_ModuleID c' = m -> newer Commit_CreatedAt c c')) (t_commits t) x
  | Commits_ListByModule m => fun x t' =>
      t' = t /\ finds md (fun rs => rs ≡ₚ filter (fun c => Commit_ModuleID c = m) (t_commits t) /\
                                    StronglySorted (newer Commit_CreatedAt) rs) x
  | Labels_Upsert l => fun e t' =>
      exists l', t' = set_labels l' t /\ upserts l (t_labels t) l' e
  | Labels_Get m n => fun x t' => t' = t /\ gets md (label_at m n) (t_labels t) x
  | Labels_List m => fun x t' =>
      t' = t /\ finds md (fun rs => rs ≡ₚ filter (fun l => Label_ModuleID l = m) (t_labels t)) x
  | Tokens_Create k => fun e t' =>
      exists l', t' = set_tokens l' t /\ creates md stored_Token Token_conflict k (t_tokens t) l' e
  | Tokens_GetByHash h => fun x t' => t' = t /\ gets md (fun k => Token_Hash k = h) (t_tokens t) x
  | Tokens_ListByUser u => fun x t' =>
      t' = t /\ finds md (fun rs => rs ≡ₚ filter (fun k => Token_UserID k = u) (t_tokens t)) x
  | Tokens_Revoke i u => fun e t' =>
      exists l', t' = set_tokens l' t /\
        revokes md (fun k => Token_ID k = i /\ Token_UserID k = u) (t_tokens t) l' e
  | Tokens_DeleteExpired => fun e t' =>
      exists l' now, t' = set_tokens l' t /\ deletes md true (expired_before now) (t_tokens t) l' e
  | Tokens_DeleteByUserAndNote u n => fun e t' =>
      exists l', t' = set_tokens l' t /\
        deletes md true (fun k => Token_UserID k = u /\ Token_Note k = n) (t_tokens t) l' e
  end.
End RepoSpec.

(** ** The other operations *)

(** A path component the blob stores can use as it is: not empty, and made of
    hexadecimal digits and dashes. *)
Definition is_id_char (c : ascii) : bool := is_hex_digit c || bool_decide (c = "-"%char).
Definition is_id (s : string) : Prop :=
  s <> "" /\ Forall (fun c => is_id_char c = true) (chars s).

(** A storage key of two such components. *)
Definition valid_key (k : string) : Prop := exists a b, is_id a /\ is_id b /\ k = a +:+ "/" +:+ b.

(** The storage key of a commit. *)
Definition key_of (moduleID commitID : string) : string := moduleID +:+ "/" +:+ commitID.

Lemma is_id_no_slash a : is_id a -> "/"%char ∉ chars a.
Proof.
  intros [_ Hf] Hin. rewrite Forall_forall in Hf. specialize (Hf _ Hin).
  vm_compute in Hf. done.
Qed.

Lemma split_at_slash (l1 l2 r1 r2 : list ascii) :
  "/"%char ∉ l1 -> "/"%char ∉ l2 -> (l1 ++ "/"%char :: r1 = l2 ++ "/"%char :: r2)%list -> l1 = l2 /\ r1 = r2.
Proof.
  revert l2; induction l1 as [|c l1 IH]; intros [|d l2] H1 H2 E; simplify_list_eq.
  - done.
  - set_solver.
  - set_solver.
  - destruct (IH l2) as [-> ->]; [set_solver|set_solver|done|done].
Qed.

Lemma key_of_inj a b a' b' : is_id a -> is_id a' -> key_of a b = key_of a' b' -> a = a' /\ b = b'.
Proof.
  intros Ha Ha' E. apply (f_equal chars) in E. unfold key_of in E.
  rewrite !chars_app in E. cbn [chars app] in E.
  apply split_at_slash in E as [?%(inj chars) ?%(inj chars)]; [done|by apply is_id_no_slash..].
Qed.

(** No row of the tables uses [id] as its identifier. *)
Definition unused_id (id : string) (t : Tables) : Prop :=
  (forall u, u ∈ t_users t -> User_ID u <> id) /\
  (forall o, o ∈ t_orgs t -> Org_ID o <> id) /\
  (forall m, m ∈ t_modules t -> Mod_ID m <> id) /\
  (forall l, l ∈ t_labels t -> Label_ID l <> id) /\
  (forall k, k ∈ t_tokens t -> Token_ID k <> id).

(** bcrypt.  The salted hash is drawn by an operation; the comparison is a
    function.  The library documents that a password matches its own hash, and that
    passwords of more than 72 bytes, and only those, are refused. *)
Definition max_password : Z := 72.

Class Bcrypt := { CompareHashAndPassword : string -> string -> bool }.

(** What each operation promises.  A fresh identifier is well formed and not in
    use; the blob store is a map on the keys of the form [valid_key]. *)
Definition eff_spec `{Bcrypt} (md : mode) {X} (e : eff X) (s : State) : X -> State -> Prop :=
  match e in eff X return X -> State -> Prop with
  | Repo o => fun x s' => repo_spec md o (tables s) x (tables s') /\ blobs s' = blobs s
  | StorePut k d => fun r s' =>
      tables s' = tables s /\
      (valid_key k -> match r with
                      | None => blobs s' = <[k := d]> (blobs s)
                      | Some _ => blobs s' = blobs s /\ live md = false
                      end)
  | StoreGet k => fun r s' =>
      s' = s /\
      (valid_key k -> match r with
                      | inr d => blobs s !! k = Some d
                      | inl SErrNotFound => blobs s !! k = None
                      | inl _ => live md = false
                      end)
  | Now => fun now s' => s' = s /\ clock md now
  | NewUUID => fun id s' => s' = s /\ is_id id /\ unused_id id (tables s) /\ draws md id
  | HashPassword_eff pw => fun r s' =>
      s' = s /\
      match r with
      | Some h => slen pw <= max_password /\ CompareHashAndPassword h pw = true
      | None => live md = true -> max_password < slen pw
      end
  | Compile_eff _ _ => fun _ s' => s' = s
  end.
