(* ===== verification/Gorm.v ===== *)
(** * The object-relational mapper behind the SQL stores (gorm.io/gorm)

    gorm is a library: its handle and its operations are parameters ([Gorm]) and
    what it documents about them are laws ([GormOk]).  A condition is the SQL
    text the code passes to [Where], over the columns it names; the schema is
    what the struct tags say (primary keys, unique indexes, defaults). *)
From S2P Require Import Prelude Model.

(** ** Conditions *)

(** The conditions the stores write.  A column is a field of the row. *)
Inductive cond (R : Type) :=
| col_eq (col : R -> string) (v : string)           (* col = ? *)
| col_before (col : R -> option Time) (t : Time)    (* col < ?, false on NULL *)
| lower_like (col : R -> string) (pattern : string) (* LOWER(col) LIKE ? *)
| cond_and (a b : cond R)
| cond_or (a b : cond R).
Arguments col_eq {R}. Arguments col_before {R}. Arguments lower_like {R}.
Arguments cond_and {R}. Arguments cond_or {R}.

(** [like pattern text]: SQL's pattern matching, with [LOWER] applied to the text. *)
Fixpoint holds (like : string -> string -> bool) {R} (c : cond R) (r : R) : bool :=
  match c with
  | col_eq col v => streq (col r) v
  | col_before col t => match col r with Some e => e <? t | None => false end
  | lower_like col p => like p (col r)
  | cond_and a b => holds like a r && holds like b r
  | cond_or a b => holds like a r || holds like b r
  end.

(** ** Schemas *)

(** A database's tables, indexed by the struct their rows decode to. *)
Class Schema (tbl : Type -> Type) := {
  tag : forall {R}, tbl R -> nat;
  (** the primary key and each unique index, as lists of columns *)
  unique_indexes : forall {R}, tbl R -> list (R -> list string);
  (** what [Create] writes for a struct: zero [CreatedAt] and [UpdatedAt] fields
      take the current time, zero fields with a default take the default *)
  defaults : forall {R}, tbl R -> Time -> R -> R }.

Definition conflicts `{Schema tbl} {R} (t : tbl R) (r r' : R) : bool :=
  existsb (fun key => bool_decide (key r = key r')) (unique_indexes t).

(** ** Operations *)
Inductive gorm_error :=
| ErrRecordNotFound
| GormError (msg : string).

Class Gorm (tbl : Type -> Type) := {
  handle : Type;
  like : string -> string -> bool;
  rows : forall {R}, tbl R -> handle -> list R;
  Create : forall {R}, tbl R -> R -> handle -> option gorm_error * handle;
  (** [Clauses(OnConflict{Columns: cols, DoUpdates: assign}).Create(r)] *)
  Upsert : forall {R}, tbl R -> (R -> list string) -> (R -> R -> R) -> R -> handle -> option gorm_error * handle;
  (** [Where(c).First], [Where(c).Order("col DESC").First] *)
  First : forall {R}, tbl R -> cond R -> option (R -> Time) -> handle -> (gorm_error + R) * handle;
  (** [Where(c).Order(...).Limit(...).Find] *)
  Find : forall {R}, tbl R -> cond R -> option (R -> Time) -> option nat -> handle ->
    (gorm_error + list R) * handle;
  (** [Joins("JOIN s ON on").Where(c on s).Find] *)
  FindJoin : forall {R S}, tbl R -> tbl S -> (R -> S -> bool) -> cond S -> handle ->
    (gorm_error + list R) * handle;
  (** [Where(c).Update(col, v)] *)
  Update : forall {R}, tbl R -> cond R -> (R -> R) -> handle -> option gorm_error * handle;
  (** [Where(c).Delete], with [RowsAffected] *)
  Delete : forall {R}, tbl R -> cond R -> handle -> (gorm_error + Z) * handle }.

Section Laws.
Context `{Schema tbl} `{Gorm tbl}.

Definition same_rows (d d' : handle) : Prop := forall R (t : tbl R), rows t d' = rows t d.
Definition others_same {R} (t : tbl R) (d d' : handle) : Prop :=
  forall R' (t' : tbl R'), tag t' <> tag t -> rows t' d' = rows t' d.

Definition sorted_by {R} (order : option (R -> Time)) (l : list R) : Prop :=
  match order with None => True | Some at_ => StronglySorted (fun a b => at_ b <= at_ a) l end.

(** gorm's documented behaviour on one statement, in its own transaction: a
    statement that fails changes nothing, and when [live] fails only for a
    reason the statement itself gives. *)
Class GormOk (live : bool) : Prop := {
  create_ok {R} (t : tbl R) r d :
    let '(e, d') := Create t r d in
    match e with
    | None => others_same t d d' /\
        (exists now, rows t d' ≡ₚ defaults t now r :: rows t d) /\
        (forall r0, r0 ∈ rows t d -> conflicts t r r0 = false)
    | Some e => same_rows d d' /\ (live = true -> exists r0, r0 ∈ rows t d /\ conflicts t r r0 = true)
    end;
  upsert_ok {R} (t : tbl R) cols before after assign r d :
    (unique_indexes t = before ++ cols :: after)%list ->
    let '(e, d') := Upsert t cols assign r d in
    match e with
    | None => others_same t d d' /\ exists now, rows t d' ≡ₚ
        if existsb (fun x => bool_decide (cols x = cols r)) (rows t d)
        then (fun x => if bool_decide (cols x = cols r) then assign (defaults t now r) x else x) <$> rows t d
        else defaults t now r :: rows t d
    | Some e => same_rows d d' /\ (live = true -> exists r0 key, r0 ∈ rows t d /\
        key ∈ (before ++ after)%list /\ key r = key r0)
    end;
  first_ok {R} (t : tbl R) c order d :
    let '(x, d') := First t c order d in same_rows d d' /\
    match x with
    | inr r => r ∈ rows t d /\ holds like c r = true /\
        match order with
        | None => True
        | Some at_ => forall r', r' ∈ rows t d -> holds like c r' = true -> at_ r' <= at_ r
        end
    | inl ErrRecordNotFound => forall r, r ∈ rows t d -> holds like c r = false
    | inl (GormError _) => live = false
    end;
  find_ok {R} (t : tbl R) c order limit d :
    let '(x, d') := Find t c order limit d in same_rows d d' /\
    match x with
    | inr rs => exists sel, sel ≡ₚ filter (fun r => holds like c r = true) (rows t d) /\
        sorted_by order sel /\ rs = match limit with None => sel | Some n => take n sel end
    | inl _ => live = false
    end;
  find_join_ok {R S} (t : tbl R) (s : tbl S) on c d :
    let '(x, d') := FindJoin t s on c d in same_rows d d' /\
    match x with
    | inr rs => rs ≡ₚ mjoin ((fun m => filter (fun r => on r m = true) (rows t d)) <$>
                             filter (fun m => holds like c m = true) (rows s d))
    | inl _ => live = false
    end;
  update_ok {R} (t : tbl R) c assign d :
    let '(e, d') := Update t c assign d in
    match e with
    | None => others_same t d d' /\
        rows t d' ≡ₚ (fun r => if holds like c r then assign r else r) <$> rows t d
    | Some _ => same_rows d d' /\ live = false
    end;
  delete_ok {R} (t : tbl R) c d :
    let '(x, d') := Delete t c d in
    match x with
    | inr n => others_same t d d' /\ rows t d' ≡ₚ filter (fun r => holds like c r = false) (rows t d) /\
        n = Z.of_nat (length (filter (fun r => holds like c r = true) (rows t d)))
    | inl _ => same_rows d d' /\ live = false
    end }.
End Laws.
