(* ===== verification/Sql.v ===== *)
(** * The SQL repositories (internal/db/sql)

    The row structs with their tags, the converters to and from the model's
    records, and the six stores over a gorm handle.  The refinement theorem says
    the stores implement the repository interface (Iface.repo_spec) strictly. *)
From S2P Require Import Prelude GoStd Model Iface Gorm.

Create HintDb stores.

(** ** models.go: the rows *)
Record UserRow := mkUserRow {
  u_ID : string; u_Username : string; u_PasswordHash : string; u_CreatedAt : Time }.
Record OrgRow := mkOrgRow { o_ID : string; o_Name : string; o_CreatedAt : Time }.
Record OrgMemberRow := mkOrgMemberRow { om_OrgID : string; om_UserID : string; om_Role : string }.
Record ModuleRow := mkModuleRow {
  m_ID : string; m_OwnerName : string; m_OwnerType : string; m_Name : string;
  m_Visibility : string; m_CreatedAt : Time }.
Record CommitRow := mkCommitRow {
  c_ID : string; c_ModuleID : string; c_StorageKey : string; c_Manifest : string;
  c_CreatedByUserID : string; c_CreatedAt : Time }.
Record LabelRow := mkLabelRow {
  l_ID : string; l_ModuleID : string; l_Name : string; l_CommitID : string;
  l_CreatedAt : Time; l_UpdatedAt : Time }.
Record TokenRow := mkTokenRow {
  t_ID : string; t_UserID : string; t_Hash : string; t_Note : string;
  t_ExpiresAt : option Time; t_CreatedAt : Time }.

(** The tables [AutoMigrate] creates. *)
Inductive sql_table : Type -> Type :=
| users : sql_table UserRow
| orgs : sql_table OrgRow
| org_members : sql_table OrgMemberRow
| modules : sql_table ModuleRow
| commits : sql_table CommitRow
| labels : sql_table LabelRow
| tokens : sql_table TokenRow.

Definition sql_tag {R} (t : sql_table R) : nat :=
  match t with
  | users => 0 | orgs => 1 | org_members => 2 | modules => 3 | commits => 4 | labels => 5 | tokens => 6
  end.

(** [primaryKey], [uniqueIndex] and the composite indexes of the struct tags. *)
Definition sql_unique_indexes {R} (t : sql_table R) : list (R -> list string) :=
  match t with
  | users => [fun u => [u_ID u]; fun u => [u_Username u]]
  | orgs => [fun o => [o_ID o]; fun o => [o_Name o]]
  | org_members => [fun m => [om_OrgID m; om_UserID m]]
  | modules => [fun m => [m_ID m]; fun m => [m_OwnerName m; m_Name m]]
  | commits => [fun c => [c_ID c; c_ModuleID c]]
  | labels => [fun l => [l_ID l]; fun l => [l_ModuleID l; l_Name l]]
  | tokens => [fun t => [t_ID t]; fun t => [t_Hash t]]
  end.

Definition auto_time (now t : Time) : Time := if t =? 0 then now else t.

(** The automatic timestamps and [default:private]. *)
Definition sql_defaults {R} (t : sql_table R) (now : Time) : R -> R :=
  match t in sql_table R return R -> R with
  | users => fun u => mkUserRow (u_ID u) (u_Username u) (u_PasswordHash u) (auto_time now (u_CreatedAt u))
  | orgs => fun o => mkOrgRow (o_ID o) (o_Name o) (auto_time now (o_CreatedAt o))
  | org_members => fun m => m
  | modules => fun m => mkModuleRow (m_ID m) (m_OwnerName m) (m_OwnerType m) (m_Name m)
      (if streq (m_Visibility m) "" then "private" else m_Visibility m) (auto_time now (m_CreatedAt m))
  | commits => fun c => mkCommitRow (c_ID c) (c_ModuleID c) (c_StorageKey c) (c_Manifest c)
      (c_CreatedByUserID c) (auto_time now (c_CreatedAt c))
  | labels => fun l => mkLabelRow (l_ID l) (l_ModuleID l) (l_Name l) (l_CommitID l)
      (auto_time now (l_CreatedAt l)) (auto_time now (l_UpdatedAt l))
  | tokens => fun t => mkTokenRow (t_ID t) (t_UserID t) (t_Hash t) (t_Note t) (t_ExpiresAt t)
      (auto_time now (t_CreatedAt t))
  end.

#[export] Instance sql_schema : Schema sql_table :=
  {| tag := @sql_tag; unique_indexes := @sql_unique_indexes; defaults := @sql_defaults |}.

(** ** models.go: converters *)
Definition userToModel (u : UserRow) : User := mkUser (u_ID u) (u_Username u) (u_PasswordHash u) (u_CreatedAt u).
Definition userFromModel (u : User) : UserRow :=
  mkUserRow (User_ID u) (User_Username u) (User_PasswordHash u) (User_CreatedAt u).
Definition orgToModel (o : OrgRow) : Org := mkOrg (o_ID o) (o_Name o) (o_CreatedAt o).
Definition orgFromModel (o : Org) : OrgRow := mkOrgRow (Org_ID o) (Org_Name o) (Org_CreatedAt o).
Definition orgMemberToModel (m : OrgMemberRow) : OrgMember := mkOrgMember (om_OrgID m) (om_UserID m) (om_Role m).
Definition moduleToModel (m : ModuleRow) : Mod :=
  mkMod (m_ID m) (m_OwnerName m) (m_OwnerType m) (m_Name m) (m_Visibility m) (m_CreatedAt m).
Definition moduleFromModel (m : Mod) : ModuleRow :=
  mkModuleRow (Mod_ID m) (Mod_OwnerName m) (Mod_OwnerType m) (Mod_Name m) (Mod_Visibility m) (Mod_CreatedAt m).
Definition commitToModel (c : CommitRow) : Commit :=
  mkCommit (c_ID c) (c_ModuleID c) (c_StorageKey c) (c_Manifest c) (c_CreatedByUserID c) (c_CreatedAt c).
Definition commitFromModel (c : Commit) : CommitRow :=
  mkCommitRow (Commit_ID c) (Commit_ModuleID c) (Commit_StorageKey c) (Commit_Manifest c)
    (Commit_CreatedByUserID c) (Commit_CreatedAt c).
Definition labelToModel (l : LabelRow) : Label :=
  mkLabel (l_ID l) (l_ModuleID l) (l_Name l) (l_CommitID l) (l_CreatedAt l) (l_UpdatedAt l).
Definition labelFromModel (l : Label) : LabelRow :=
  mkLabelRow (Label_ID l) (Label_ModuleID l) (Label_Name l) (Label_CommitID l) (Label_CreatedAt l) (Label_UpdatedAt l).
Definition tokenToModel (t : TokenRow) : Token :=
  mkToken (t_ID t) (t_UserID t) (t_Hash t) (t_Note t) (t_ExpiresAt t) (t_CreatedAt t).
Definition tokenFromModel (t : Token) : TokenRow :=
  mkTokenRow (Token_ID t) (Token_UserID t) (Token_Hash t) (Token_Note t) (Token_ExpiresAt t) (Token_CreatedAt t).

(** ** sql.go *)
Definition gorm_msg (e : gorm_error) : string :=
  match e with ErrRecordNotFound => "record not found" | GormError m => m end.

(** The error as it is: gorm's not-found error is not [iface.ErrNotFound]. *)
Definition plain_error (e : gorm_error) : ierr := ErrOther (gorm_msg e).

Definition mapNotFound (e : gorm_error) : ierr :=
  match e with ErrRecordNotFound => ErrNotFound | GormError _ => plain_error e end.

Section Stores.
Context `{Gorm sql_table}.

(** A method on a store: it moves the database handle. *)
Definition M (A : Type) : Type := handle -> A * handle.
#[local] Instance M_ret : MRet M := fun A a d => (a, d).
#[local] Instance M_bind : MBind M := fun A B f p d => let '(a, d') := p d in f a d'.

(** [var r Row; if err := ...First(&r).Error; err != nil { return nil, mapNotFound(err) }; return conv(&r), nil]. *)
Definition first_as {R A} (t : sql_table R) (c : cond R) (order : option (R -> Time)) (conv : R -> A) : M (goret A) :=
  x ← (First t c order : M (gorm_error + R));
  mret (match x with
        | inl e => GoRet None (Some (mapNotFound e))
        | inr r => GoRet (Some (conv r)) None
        end).

(** The listing methods' error check and conversion loop. *)
Definition list_as {R A} (find : M (gorm_error + list R)) (conv : R -> A) : M (goret (list A)) :=
  x ← find;
  mret (match x with
        | inl e => GoRet None (Some (plain_error e))
        | inr rs => GoRet (Some (conv <$> rs)) None
        end).

Definition error_of (p : handle -> option gorm_error * handle) : M (option ierr) :=
  e ← (p : M (option gorm_error)); mret (plain_error <$> e).

(** [s.db.Where(...).Delete(...).Error]. *)
Definition delete_error (p : handle -> (gorm_error + Z) * handle) : M (option ierr) :=
  x ← (p : M (gorm_error + Z)); mret (match x with inl e => Some (plain_error e) | inr _ => None end).

Definition UserStore_Create (u : User) : M (option ierr) := error_of (Create users (userFromModel u)).
Definition UserStore_GetByUsername (username : string) : M (goret User) :=
  first_as users (col_eq u_Username username) None userToModel.
Definition UserStore_GetByID (id : string) : M (goret User) :=
  first_as users (col_eq u_ID id) None userToModel.
Definition UserStore_ListByOrg (orgID : string) : M (goret (list User)) :=
  list_as (FindJoin users org_members (fun u m => streq (om_UserID m) (u_ID u)) (col_eq om_OrgID orgID))
    userToModel.

Definition OrgStore_Create (o : Org) : M (option ierr) := error_of (Create orgs (orgFromModel o)).
Definition OrgStore_GetByName (name : string) : M (goret Org) :=
  first_as orgs (col_eq o_Name name) None orgToModel.
Definition OrgStore_GetByID (id : string) : M (goret Org) :=
  first_as orgs (col_eq o_ID id) None orgToModel.
Definition OrgStore_AddMember (orgID userID : string) (role : OrgRole) : M (option ierr) :=
  error_of (Create org_members (mkOrgMemberRow orgID userID role)).
Definition OrgStore_RemoveMember (orgID userID : string) : M (option ierr) :=
  delete_error (Delete org_members (cond_and (col_eq om_OrgID orgID) (col_eq om_UserID userID))).
Definition OrgStore_ListMembers (orgID : string) : M (goret (list OrgMember)) :=
  list_as (Find org_members (col_eq om_OrgID orgID) None None) orgMemberToModel.
Definition OrgStore_GetMember (orgID userID : string) : M (goret OrgMember) :=
  first_as org_members (cond_and (col_eq om_OrgID orgID) (col_eq om_UserID userID)) None orgMemberToModel.

Definition ModuleStore_Create (m : Mod) : M (option ierr) := error_of (Create modules (moduleFromModel m)).
Definition ModuleStore_Get (ownerName repoName : string) : M (goret Mod) :=
  first_as modules (cond_and (col_eq m_OwnerName ownerName) (col_eq m_Name repoName)) None moduleToModel.
Definition ModuleStore_GetByID (id : string) : M (goret Mod) :=
  first_as modules (col_eq m_ID id) None moduleToModel.
Definition ModuleStore_List (ownerName : string) : M (goret (list Mod)) :=
  list_as (Find modules (col_eq m_OwnerName ownerName) None None) moduleToModel.
Definition ModuleStore_ListPublic (query : string) (limit : nat) : M (goret (list Mod)) :=
  let tx := col_eq m_Visibility "public" in
  let tx := if streq query "" then tx
            else
              let q := "%" +:+ ToLower query +:+ "%" in
              cond_and tx (cond_or (lower_like m_Name q) (lower_like m_OwnerName q)) in
  list_as (Find modules tx (Some m_CreatedAt) (Some limit)) moduleToModel.
Definition ModuleStore_SetVisibility (id : string) (vis : Visibility) : M (option ierr) :=
  error_of (Update modules (col_eq m_ID id)
    (fun m => mkModuleRow (m_ID m) (m_OwnerName m) (m_OwnerType m) (m_Name m) vis (m_CreatedAt m))).
Definition ModuleStore_Delete (id : string) : M (option ierr) :=
  delete_error (Delete modules (col_eq m_ID id)).

Definition CommitStore_Create (c : Commit) : M (option ierr) := error_of (Create commits (commitFromModel c)).
Definition CommitStore_GetByID (moduleID commitID : string) : M (goret Commit) :=
  first_as commits (cond_and (col_eq c_ModuleID moduleID) (col_eq c_ID commitID)) None commitToModel.
Definition CommitStore_GetLatest (moduleID : string) : M (goret Commit) :=
  first_as commits (col_eq c_ModuleID moduleID) (Some c_CreatedAt) commitToModel.
Definition CommitStore_ListByModule (moduleID : string) : M (goret (list Commit)) :=
  list_as (Find commits (col_eq c_ModuleID moduleID) (Some c_CreatedAt) None) commitToModel.

(** [ON CONFLICT (module_id, name) DO UPDATE SET commit_id, updated_at]. *)
Definition LabelStore_Upsert (l : Label) : M (option ierr) :=
  error_of (Upsert labels (fun l => [l_ModuleID l; l_Name l])
    (fun new old => mkLabelRow (l_ID old) (l_ModuleID old) (l_Name old) (l_CommitID new)
                      (l_CreatedAt old) (l_UpdatedAt new)) (labelFromModel l)).
Definition LabelStore_Get (moduleID name : string) : M (goret Label) :=
  first_as labels (cond_and (col_eq l_ModuleID moduleID) (col_eq l_Name name)) None labelToModel.
Definition LabelStore_List (moduleID : string) : M (goret (list Label)) :=
  list_as (Find labels (col_eq l_ModuleID moduleID) None None) labelToModel.

Definition TokenStore_Create (t : Token) : M (option ierr) := error_of (Create tokens (tokenFromModel t)).
Definition TokenStore_GetByHash (hash : string) : M (goret Token) :=
  first_as tokens (col_eq t_Hash hash) None tokenToModel.
Definition TokenStore_ListByUser (userID : string) : M (goret (list Token)) :=
  list_as (Find tokens (col_eq t_UserID userID) None None) tokenToModel.
Definition TokenStore_Revoke (id userID : string) : M (option ierr) :=
  res ← (Delete tokens (cond_and (col_eq t_ID id) (col_eq t_UserID userID)) : M (gorm_error + Z));
  mret (match res with
        | inl e => Some (plain_error e)
        | inr rowsAffected => if rowsAffected =? 0 then Some ErrNotFound else None
        end).
Definition TokenStore_DeleteExpired (now : Time) : M (option ierr) :=
  delete_error (Delete tokens (col_before t_ExpiresAt now)).
Definition TokenStore_DeleteByUserAndNote (userID note : string) : M (option ierr) :=
  delete_error (Delete tokens (cond_and (col_eq t_UserID userID) (col_eq t_Note note))).

(** [Repos()]: which store method implements which interface method. *)
Definition Repos (now : Time) {X} (o : repo_op X) : M X :=
  match o in repo_op X return M X with
  | Users_Create u => UserStore_Create u
  | Users_GetByUsername n => UserStore_GetByUsername n
  | Users_GetByID i => UserStore_GetByID i
  | Users_ListByOrg o => UserStore_ListByOrg o
  | Orgs_Create o => OrgStore_Create o
  | Orgs_GetByName n => OrgStore_GetByName n
  | Orgs_GetByID i => OrgStore_GetByID i
  | Orgs_AddMember o u r => OrgStore_AddMember o u r
  | Orgs_RemoveMember o u => OrgStore_RemoveMember o u
  | Orgs_ListMembers o => OrgStore_ListMembers o
  | Orgs_GetMember o u => OrgStore_GetMember o u
  | Modules_Create m => ModuleStore_Create m
  | Modules_Get o n => ModuleStore_Get o n
  | Modules_GetByID i => ModuleStore_GetByID i
  | Modules_List o => ModuleStore_List o
  | Modules_ListPublic q n => ModuleStore_ListPublic q n
  | Modules_SetVisibility i v => ModuleStore_SetVisibility i v
  | Modules_Delete i => ModuleStore_Delete i
  | Commits_Create c => CommitStore_Create c
  | Commits_GetByID m c => CommitStore_GetByID m c
  | Commits_GetLatest m => CommitStore_GetLatest m
  | Commits_ListByModule m => CommitStore_ListByModule m
  | Labels_Upsert l => LabelStore_Upsert l
  | Labels_Get m n => LabelStore_Get m n
  | Labels_List m => LabelStore_List m
  | Tokens_Create t => TokenStore_Create t
  | Tokens_GetByHash h => TokenStore_GetByHash h
  | Tokens_ListByUser u => TokenStore_ListByUser u
  | Tokens_Revoke i u => TokenStore_Revoke i u
  | Tokens_DeleteExpired => TokenStore_DeleteExpired now
  | Tokens_DeleteByUserAndNote u n => TokenStore_DeleteByUserAndNote u n
  end.

(** ** The abstract state of a database *)
Definition sql_tables (d : handle) : Tables :=
  mkTables (userToModel <$> rows users d) (orgToModel <$> rows orgs d)
    (orgMemberToModel <$> rows org_members d) (moduleToModel <$> rows modules d)
    (commitToModel <$> rows commits d) (labelToModel <$> rows labels d)
    (tokenToModel <$> rows tokens d).
End Stores.

(** ** Refinement *)
Section Refine.
Context `{Gorm sql_table} (live_ : bool) (since_ : Time) (until_ : option Time) (draws_ : string -> Prop) `{!GormOk live_}.
Abbreviation md := (mkMode true live_ since_ until_ draws_).

Lemma same_others {R} (t : sql_table R) d d' : same_rows d d' -> others_same t d d'.
Proof. intros Hs R' t' _. apply Hs. Qed.

Lemma same_tables d d' : same_rows d d' -> sql_tables d' = sql_tables d.
Proof. intros Hs. unfold sql_tables. by rewrite !Hs. Qed.

(** A statement on one table moves that table only. *)
Lemma others_users d d' : others_same users d d' ->
  sql_tables d' = set_users (userToModel <$> rows users d') (sql_tables d).
Proof. intros Ho. unfold sql_tables, set_users; simpl. f_equal; by rewrite Ho. Qed.
Lemma others_orgs d d' : others_same orgs d d' ->
  sql_tables d' = set_orgs (orgToModel <$> rows orgs d') (sql_tables d).
Proof. intros Ho. unfold sql_tables, set_orgs; simpl. f_equal; by rewrite Ho. Qed.
Lemma others_members d d' : others_same org_members d d' ->
  sql_tables d' = set_members (orgMemberToModel <$> rows org_members d') (sql_tables d).
Proof. intros Ho. unfold sql_tables, set_members; simpl. f_equal; by rewrite Ho. Qed.
Lemma others_modules d d' : others_same modules d d' ->
  sql_tables d' = set_modules (moduleToModel <$> rows modules d') (sql_tables d).
Proof. intros Ho. unfold sql_tables, set_modules; simpl. f_equal; by rewrite Ho. Qed.
Lemma others_commits d d' : others_same commits d d' ->
  sql_tables d' = set_commits (commitToModel <$> rows commits d') (sql_tables d).
Proof. intros Ho. unfold sql_tables, set_commits; simpl. f_equal; by rewrite Ho. Qed.
Lemma others_labels d d' : others_same labels d d' ->
  sql_tables d' = set_labels (labelToModel <$> rows labels d') (sql_tables d).
Proof. intros Ho. unfold sql_tables, set_labels; simpl. f_equal; by rewrite Ho. Qed.
Lemma others_tokens d d' : others_same tokens d d' ->
  sql_tables d' = set_tokens (tokenToModel <$> rows tokens d') (sql_tables d).
Proof. intros Ho. unfold sql_tables, set_tokens; simpl. f_equal; by rewrite Ho. Qed.

Lemma filter_conv {R A} (conv : R -> A) (b : R -> bool) (P : A -> Prop) `{!forall a, Decision (P a)} (l : list R) :
  (forall r, b r = true <-> P (conv r)) ->
  conv <$> filter (fun r => b r = true) l = filter P (conv <$> l).
Proof.
  intros Hb. induction l as [|r l IH]; [done|]. rewrite fmap_cons, !filter_cons, <- IH.
  destruct (decide (b r = true)) as [E|E].
  - by rewrite decide_True by (by apply Hb).
  - by rewrite decide_False by (by rewrite <- Hb).
Qed.

(** The four shapes of a store method. *)
Lemma first_as_gets {R A} (t : sql_table R) c order (conv : R -> A) (P : A -> Prop) d :
  (forall r, r ∈ rows t d -> holds like c r = true ->
     match order with
     | None => True
     | Some at_ => forall r', r' ∈ rows t d -> holds like c r' = true -> at_ r' <= at_ r
     end -> P (conv r)) ->
  (forall r, r ∈ rows t d -> P (conv r) -> holds like c r = true) ->
  post (first_as t c order conv d) (fun x d' =>
  sql_tables d' = sql_tables d /\ gets md P (conv <$> rows t d) x).
Proof.
  intros Hto Hfrom. unfold post, first_as, mbind, M_bind, mret, M_ret.
  pose proof (first_ok t c order d) as Hf. destruct (First t c order d) as [[[|msg]|r] d'];
    destruct Hf as [Hs Hf]; (split; [by apply same_tables|]); unfold gets; simpl.
  - split; [done|]. intros a (r & -> & Hr)%list_elem_of_fmap HP. specialize (Hf r Hr).
    by rewrite (Hfrom r Hr HP) in Hf.
  - done.
  - destruct Hf as (Hr & Hh & Ho). exists (conv r). split; [done|].
    split; [by apply list_elem_of_fmap_2|]. by apply Hto.
Qed.

Lemma list_as_finds {R A} (t : sql_table R) c order limit (conv : R -> A) (Q : list A -> Prop) d :
  (forall sel, sel ≡ₚ filter (fun r => holds like c r = true) (rows t d) -> sorted_by order sel ->
     Q (conv <$> match limit with None => sel | Some n => take n sel end)) ->
  post (list_as (Find t c order limit) conv d) (fun x d' =>
  sql_tables d' = sql_tables d /\ finds md Q x).
Proof.
  intros HQ. unfold post, list_as, mbind, M_bind, mret, M_ret.
  pose proof (find_ok t c order limit d) as Hf. destruct (Find t c order limit d) as [[e|rs] d'];
    destruct Hf as [Hs Hf]; (split; [by apply same_tables|]); unfold finds; simpl; [done|].
  destruct Hf as (sel & Hp & Ho & ->). eexists; split; [done|]. auto.
Qed.

(** A listing without order or limit. *)
Lemma list_as_filter {R A} (t : sql_table R) c (conv : R -> A) (P : A -> Prop) `{!forall a, Decision (P a)} d :
  (forall r, holds like c r = true <-> P (conv r)) ->
  post (list_as (Find t c None None) conv d) (fun x d' =>
  sql_tables d' = sql_tables d /\ finds md (fun rs => rs ≡ₚ filter P (conv <$> rows t d)) x).
Proof.
  intros Hc. apply list_as_finds. intros sel Hp _. rewrite Hp. by rewrite (filter_conv _ _ P).
Qed.

Lemma create_as_creates {R A} (t : sql_table R) (conv : R -> A) stored conflict (a : A) r d :
  (forall now, stored a (conv (sql_defaults t now r))) ->
  (forall r0, conflicts t r r0 = true <-> conflict a (conv r0)) ->
  post (error_of (Create t r) d) (fun e d' =>
  others_same t d d' /\ creates md stored conflict a (conv <$> rows t d) (conv <$> rows t d') e).
Proof.
  intros Hst Hc. unfold post, error_of, mbind, M_bind, mret, M_ret.
  pose proof (create_ok t r d) as Hf. destruct (Create t r d) as [[e|] d']; unfold creates; simpl.
  - destruct Hf as [Hs Hf]. split; [by apply same_others|]. split; [by rewrite Hs|].
    intros Hl. split; [done|]. destruct (Hf Hl) as (r0 & Hr & E). exists (conv r0).
    split; [by apply list_elem_of_fmap_2|by apply Hc].
  - destruct Hf as (Ho & (now & Hp) & Hn). split; [done|]. split.
    + eexists; split; [apply (Hst now)|]. by rewrite Hp.
    + intros _ a0 (r0 & -> & Hr)%list_elem_of_fmap Ha. apply Hc in Ha. by rewrite Hn in Ha.
Qed.

Lemma delete_as_deletes {R A} (t : sql_table R) c (conv : R -> A) (P : A -> Prop) all d :
  (forall r, holds like c r = true <-> P (conv r)) ->
  post (delete_error (Delete t c) d) (fun e d' =>
  others_same t d d' /\ deletes md all P (conv <$> rows t d) (conv <$> rows t d') e).
Proof.
  intros Hc. unfold post, delete_error, mbind, M_bind, mret, M_ret.
  pose proof (delete_ok t c d) as Hf. destruct (Delete t c d) as [[e|n] d']; unfold deletes; simpl.
  - destruct Hf as [Hs Hf]. split; [by apply same_others|]. split; [by rewrite Hs|done].
  - destruct Hf as (Ho & Hp & _). split; [done|].
    exists (conv <$> filter (fun r => holds like c r = true) (rows t d)). split; [|split].
    + rewrite Hp, <- fmap_app. apply fmap_Permutation.
      rewrite (list_filter_iff (fun r => holds like c r = false) (fun r => ~ holds like c r = true))
        by (intros r; by rewrite not_true_iff_false).
      by rewrite filter_app_complement.
    + apply Forall_fmap, Forall_forall. intros r [Hr _]%list_elem_of_filter. by apply Hc.
    + intros _ a (r & -> & Hr)%list_elem_of_fmap HP. rewrite Hp in Hr.
      apply list_elem_of_filter in Hr as [Hr _]. apply Hc in HP. congruence.
Qed.

Lemma auto_time_keeps now t : keeps_time md t (auto_time now t).
Proof. intros _ Ht. unfold auto_time. by rewrite (proj2 (Z.eqb_neq _ _) Ht). Qed.

(** Columns and conflicts of the concrete tables. *)
Ltac columns :=
  intros; unfold stored_OrgMember, is_member, owned_as, commit_at, label_at in *; simpl in *;
  rewrite ?andb_true_iff, ?streq_true in *; naive_solver.
Ltac keys_tac :=
  intros ?; unfold conflicts; simpl; rewrite ?orb_false_r, ?orb_true_iff, !bool_decide_eq_true;
  unfold User_conflict, Org_conflict, OrgMember_conflict, Mod_conflict, Commit_conflict, Token_conflict;
  simpl; naive_solver congruence.
Ltac kept := intros ?; repeat (eexists; try (split; [apply auto_time_keeps|])); try done.

Definition implements {X} (o : repo_op X) (m : M X) : Prop :=
  forall d, post (m d) (fun x d' => repo_spec md o (sql_tables d) x (sql_tables d')).

Ltac by_create others :=
  intros d; eapply post_mono;
  [eapply create_as_creates
  |intros e d' [Ho Hc]; eexists; split; [apply others, Ho|exact Hc]]; [kept|keys_tac].
Ltac by_first :=
  intros d; eapply post_mono;
  [apply first_as_gets|intros x d' [Et Hx]; split; [exact Et|exact Hx]]; columns.
Ltac by_list P :=
  intros d; eapply post_mono;
  [apply (list_as_filter _ _ _ P)|intros x d' [Et Hx]; split; [exact Et|exact Hx]]; columns.
Ltac by_delete others :=
  intros d; eapply post_mono;
  [eapply delete_as_deletes
  |intros e d' [Ho Hc]; eexists; split; [apply others, Ho|exact Hc]]; columns.

Lemma UserStore_Create_ok u : implements (Users_Create u) (UserStore_Create u).
Proof. by_create others_users. Qed.
Lemma UserStore_GetByUsername_ok n : implements (Users_GetByUsername n) (UserStore_GetByUsername n).
Proof. by_first. Qed.
Lemma UserStore_GetByID_ok i : implements (Users_GetByID i) (UserStore_GetByID i).
Proof. by_first. Qed.
Lemma OrgStore_Create_ok o : implements (Orgs_Create o) (OrgStore_Create o).
Proof. by_create others_orgs. Qed.
Lemma OrgStore_GetByName_ok n : implements (Orgs_GetByName n) (OrgStore_GetByName n).
Proof. by_first. Qed.
Lemma OrgStore_GetByID_ok i : implements (Orgs_GetByID i) (OrgStore_GetByID i).
Proof. by_first. Qed.
Lemma OrgStore_AddMember_ok o u r : implements (Orgs_AddMember o u r) (OrgStore_AddMember o u r).
Proof. by_create others_members. Qed.
Lemma OrgStore_RemoveMember_ok o u : implements (Orgs_RemoveMember o u) (OrgStore_RemoveMember o u).
Proof. by_delete others_members. Qed.
Lemma OrgStore_ListMembers_ok o : implements (Orgs_ListMembers o) (OrgStore_ListMembers o).
Proof. by_list (fun m => OrgMember_OrgID m = o). Qed.
Lemma OrgStore_GetMember_ok o u : implements (Orgs_GetMember o u) (OrgStore_GetMember o u).
Proof. by_first. Qed.
Lemma ModuleStore_Create_ok m : implements (Modules_Create m) (ModuleStore_Create m).
Proof. intros d; eapply post_mono;
  [eapply create_as_creates
  |intros e d' [Ho Hc]; eexists; split; [apply others_modules, Ho|exact Hc]]; [intros now|keys_tac].
  eexists _, _. split; [apply auto_time_keeps|]. split; [|reflexivity].
  simpl. destruct (streq _ _) eqn:E; bool_facts; auto.
Qed.
Lemma ModuleStore_Get_ok o n : implements (Modules_Get o n) (ModuleStore_Get o n).
Proof. by_first. Qed.
Lemma ModuleStore_GetByID_ok i : implements (Modules_GetByID i) (ModuleStore_GetByID i).
Proof. by_first. Qed.
Lemma ModuleStore_List_ok o : implements (Modules_List o) (ModuleStore_List o).
Proof. by_list (fun m => Mod_OwnerName m = o). Qed.
Lemma ModuleStore_Delete_ok i : implements (Modules_Delete i) (ModuleStore_Delete i).
Proof. by_delete others_modules. Qed.
Lemma CommitStore_Create_ok c : implements (Commits_Create c) (CommitStore_Create c).
Proof. by_create others_commits. Qed.
Lemma CommitStore_GetByID_ok m c : implements (Commits_GetByID m c) (CommitStore_GetByID m c).
Proof. by_first. Qed.
Lemma LabelStore_Get_ok m n : implements (Labels_Get m n) (LabelStore_Get m n).
Proof. by_first. Qed.
Lemma LabelStore_List_ok m : implements (Labels_List m) (LabelStore_List m).
Proof. by_list (fun l => Label_ModuleID l = m). Qed.
Lemma TokenStore_Create_ok k : implements (Tokens_Create k) (TokenStore_Create k).
Proof. intros d; eapply post_mono;
  [eapply create_as_creates
  |intros e d' [Ho Hc]; eexists; split; [apply others_tokens, Ho|exact Hc]]; [intros now|keys_tac].
  eexists _, _. split; [apply auto_time_keeps|]. split; [|split]; [..|reflexivity]; done.
Qed.
Lemma TokenStore_GetByHash_ok h : implements (Tokens_GetByHash h) (TokenStore_GetByHash h).
Proof. by_first. Qed.
Lemma TokenStore_ListByUser_ok u : implements (Tokens_ListByUser u) (TokenStore_ListByUser u).
Proof. by_list (fun k => Token_UserID k = u). Qed.
Lemma TokenStore_DeleteByUserAndNote_ok u n : implements (Tokens_DeleteByUserAndNote u n) (TokenStore_DeleteByUserAndNote u n).
Proof. by_delete others_tokens. Qed.

Lemma UserStore_ListByOrg_ok o : implements (Users_ListByOrg o) (UserStore_ListByOrg o).
Proof.
  intros d. unfold post, UserStore_ListByOrg, list_as, mbind, M_bind, mret, M_ret.
  pose proof (find_join_ok users org_members (fun u m => streq (om_UserID m) (u_ID u)) (col_eq om_OrgID o) d) as Hf.
  destruct (FindJoin _ _ _ _ d) as [[e|rs] d']; destruct Hf as [Hs Hf]; (split; [by apply same_tables|]);
    unfold finds; simpl; [done|].
  eexists; split; [done|].
  assert (forall l, userToModel <$> mjoin ((fun m => filter (fun r => streq (om_UserID m) (u_ID r) = true) (rows users d)) <$> l)
    = mjoin ((fun m => filter (fun u => User_ID u = OrgMember_UserID m) (userToModel <$> rows users d)) <$>
             (orgMemberToModel <$> l))) as Hj.
  { induction l as [|m l IH]; [done|]. simpl. rewrite fmap_app. f_equal; [|exact IH].
    apply filter_conv. intros r. rewrite streq_true. by simpl. }
  assert (userToModel <$> rs ≡ₚ
    mjoin ((fun m => filter (fun u => User_ID u = OrgMember_UserID m) (userToModel <$> rows users d)) <$>
           filter (fun m => OrgMember_OrgID m = o) (orgMemberToModel <$> rows org_members d))) as Hp.
  { rewrite Hf, Hj. rewrite (filter_conv orgMemberToModel _ (fun m => OrgMember_OrgID m = o)); [done|]. intros r. simpl. apply streq_true. }
  split; [|done]. intros u. rewrite Hp. intros (l & Hu & (m & -> & Hm)%list_elem_of_fmap)%list_elem_of_join.
  apply list_elem_of_filter in Hu as [E Hu], Hm as [Eo Hm]. split; [done|]. exists m. by split.
Qed.

Lemma CommitStore_GetLatest_ok m : implements (Commits_GetLatest m) (CommitStore_GetLatest m).
Proof.
  intros d. eapply post_mono; [apply first_as_gets|intros x d' [Et Hx]; split; [exact Et|exact Hx]]; simpl.
  - intros r _ Hm%streq_true Hmax. split; [done|].
    intros c' (r' & -> & Hr')%list_elem_of_fmap E. apply Hmax; [done|]. by apply streq_true.
  - intros r _ [E _]. by apply streq_true.
Qed.

Lemma sorted_conv {R A} (conv : R -> A) (at_ : R -> Time) (at' : A -> Time) (l : list R) :
  (forall r, at' (conv r) = at_ r) -> sorted_by (Some at_) l -> StronglySorted (newer at') (conv <$> l).
Proof.
  intros Ha. induction 1 as [|r l Hl IH Hr]; simpl; constructor; [done|].
  apply Forall_fmap. eapply Forall_impl; [exact Hr|]. intros r' Hle. unfold newer; simpl. by rewrite !Ha.
Qed.

Lemma CommitStore_ListByModule_ok m : implements (Commits_ListByModule m) (CommitStore_ListByModule m).
Proof.
  intros d. eapply post_mono; [apply list_as_finds|intros x d' [Et Hx]; split; [exact Et|exact Hx]].
  intros sel Hp Ho. split; [|by eapply sorted_conv].
  rewrite Hp. rewrite (filter_conv _ _ (fun c => Commit_ModuleID c = m)); [done|]. columns.
Qed.

Lemma ModuleStore_ListPublic_ok q n : implements (Modules_ListPublic q n) (ModuleStore_ListPublic q n).
Proof.
  intros d. eapply post_mono; [apply list_as_finds|intros x d' [Et Hx]; split; [exact Et|exact Hx]].
  intros sel Hp Ho. exists (moduleToModel <$> sel). split_and!.
  - intros a (r & -> & Hr)%list_elem_of_fmap. rewrite Hp in Hr. apply list_elem_of_filter in Hr as [Hh Hr].
    split; [by apply list_elem_of_fmap_2|]. cbv zeta in Hh. destruct (streq q ""); simpl in Hh; bool_facts; done.
  - intros ->. rewrite Hp. rewrite (filter_conv _ _ (fun m => Mod_Visibility m = VisibilityPublic)); [done|]. columns.
  - by eapply sorted_conv.
  - left. by rewrite fmap_take.
Qed.

Lemma ModuleStore_SetVisibility_ok i v : implements (Modules_SetVisibility i v) (ModuleStore_SetVisibility i v).
Proof.
  intros d. unfold post, ModuleStore_SetVisibility, error_of, mbind, M_bind, mret, M_ret.
  pose proof (update_ok modules (col_eq m_ID i)
    (fun m => mkModuleRow (m_ID m) (m_OwnerName m) (m_OwnerType m) (m_Name m) v (m_CreatedAt m)) d) as Hf.
  destruct (Update _ _ _ d) as [[e|] d']; simpl.
  - destruct Hf as [Hs Hl]. eexists; split; [by apply others_modules, same_others|]. by rewrite Hs.
  - destruct Hf as [Ho Hp]. eexists; split; [by apply others_modules|].
    exists ((fun m => if decide (Mod_ID m = i) then with_visibility v m else m) <$> (moduleToModel <$> rows modules d)).
    split_and!; [|apply Forall2_fmap_r, Forall_Forall2_diag, Forall_true; intros m; simpl; case_decide; auto|done].
    rewrite Hp, <- !list_fmap_compose. erewrite list_fmap_ext; [done|]. intros _ r _. simpl.
    destruct (streq (m_ID r) i) eqn:E; bool_facts; by case_decide.
Qed.

Lemma TokenStore_DeleteExpired_ok now : implements Tokens_DeleteExpired (TokenStore_DeleteExpired now).
Proof.
  intros d. eapply post_mono; [eapply (delete_as_deletes _ _ tokenToModel (expired_before now))|].
  - intros r. unfold expired_before. simpl. destruct (t_ExpiresAt r) as [e|].
    + rewrite Z.ltb_lt. split; [eauto|by intros (e' & E & Hlt); simplify_eq].
    + split; [done|by intros (? & ? & _)].
  - intros e d' [Ho Hc]. eexists _, now. split; [apply others_tokens, Ho|exact Hc].
Qed.

Lemma TokenStore_Revoke_ok i u : implements (Tokens_Revoke i u) (TokenStore_Revoke i u).
Proof.
  intros d. set (c := cond_and (col_eq t_ID i) (col_eq t_UserID u)).
  assert (forall r, holds like c r = true <-> Token_ID (tokenToModel r) = i /\ Token_UserID (tokenToModel r) = u) as Hc.
  { columns. }
  unfold post, TokenStore_Revoke, mbind, M_bind, mret, M_ret. fold c.
  pose proof (delete_ok tokens c d) as Hf. destruct (Delete tokens c d) as [[e|n] d'].
  { destruct Hf as [Hs Hl]. eexists; split; [by apply others_tokens, same_others|]. by rewrite Hs. }
  destruct Hf as (Ho & Hp & ->). set (hit := filter (fun r => holds like c r = true) (rows tokens d)).
  assert (rows tokens d ≡ₚ hit ++ rows tokens d')%list as Hall.
  { rewrite Hp. symmetry. rewrite (list_filter_iff (fun r => holds like c r = false) (fun r => ~ holds like c r = true))
      by (intros r; by rewrite not_true_iff_false). apply filter_app_complement. }
  eexists; split; [by apply others_tokens|].
  destruct (Z.of_nat (length hit) =? 0) eqn:E; bool_facts.
  - assert (hit = []) as Enil by (apply length_zero_iff_nil; lia). simpl. split.
    + by rewrite Hall, Enil.
    + intros a (r & -> & Hr)%list_elem_of_fmap HP. apply Hc in HP.
      assert (r ∈ hit) as Hin by (by apply list_elem_of_filter). rewrite Enil in Hin. by apply elem_of_nil in Hin.
  - exists (tokenToModel <$> hit). split_and!.
    + intros Enil%fmap_nil_inv. by rewrite Enil in E.
    + rewrite <- fmap_app. by apply fmap_Permutation.
    + apply Forall_fmap, Forall_forall. intros r [Hr _]%list_elem_of_filter. by apply Hc.
    + intros _ a (r & -> & Hr)%list_elem_of_fmap HP. rewrite Hp in Hr.
      apply list_elem_of_filter in Hr as [Hr _]. apply Hc in HP. congruence.
Qed.

Definition label_cols (l : LabelRow) : list string := [l_ModuleID l; l_Name l].

(** The strict upsert entails what every backend promises of one. *)
Lemma upserted l l1 ls ls' (hit : bool) :
  stored_Label md l l1 -> (hit = true <-> Exists (fun x => Label_key x = Label_key l) ls) ->
  ls' ≡ₚ (if hit then (fun x => if decide (Label_key x = Label_key l) then move_label l1 x else x) <$> ls
          else l1 :: ls) ->
  upserts md l ls ls' None.
Proof.
  intros Hst Hhit Hp.
  assert (Label_key l1 = Label_key l /\ Label_CommitID l1 = Label_CommitID l) as [Ek Ec].
  { by destruct Hst as (t & u & _ & _ & ->). }
  split_and!.
  - intros x. rewrite Hp. destruct hit.
    + intros (y & -> & Hy)%list_elem_of_fmap. case_decide; [right|by left]. by split.
    + intros [->|?]%elem_of_cons; [by right|by left].
  - destruct hit eqn:Eh.
    + apply proj1 in Hhit. destruct (proj1 (Exists_exists _ _) (Hhit eq_refl)) as (y & Hy & E).
      exists (move_label l1 y). split; [|by split]. rewrite Hp. apply list_elem_of_fmap. exists y.
      by rewrite decide_True.
    + exists l1. rewrite Hp. split; [by left|by split].
  - intros x Hx Hne. rewrite Hp. destruct hit; [|by right]. apply list_elem_of_fmap. exists x.
    by rewrite decide_False.
  - intros _. exists l1. split; [done|]. rewrite Hp. destruct (decide (Exists _ ls)) as [He|He].
    + by rewrite (proj2 Hhit He).
    + destruct hit; [|done]. by destruct He; apply Hhit.
Qed.

(** The rows an upsert leaves, as labels. *)
Lemma LabelStore_Upsert_ok l : implements (Labels_Upsert l) (LabelStore_Upsert l).
Proof.
  intros d. unfold post, LabelStore_Upsert, error_of, mbind, M_bind, mret, M_ret.
  set (assign := fun new old : LabelRow => mkLabelRow (l_ID old) _ _ _ _ _).
  pose proof (upsert_ok labels label_cols [fun l => [l_ID l]] [] assign (labelFromModel l) d eq_refl) as Hf.
  unfold label_cols in Hf. destruct (Upsert _ _ _ _ d) as [[e|] d'].
  { destruct Hf as [Hs Hl]. eexists; split; [by apply others_labels, same_others|]. simpl.
    split; [by rewrite Hs|]. intros E. split; [done|]. destruct (Hl E) as (r0 & key & Hr & Hk & Ek).
    apply list_elem_of_singleton in Hk as ->. exists (labelToModel r0).
    split; [by apply list_elem_of_fmap_2|]. simpl in *. congruence. }
  destruct Hf as (Ho & now & Hp). eexists; split; [by apply others_labels|].
  set (l1 := labelToModel (sql_defaults labels now (labelFromModel l))).
  assert (stored_Label md l l1) as Hst by (eexists _, _; split_and!; [apply auto_time_keeps..|done]).
  set (hit := existsb _ (rows labels d)) in Hp.
  assert (labelToModel <$> rows labels d' ≡ₚ
    if hit then (fun x => if decide (Label_key x = Label_key l) then move_label l1 x else x) <$> (labelToModel <$> rows labels d)
    else l1 :: (labelToModel <$> rows labels d)) as Hrows.
  { rewrite Hp. destruct hit; [|done]. rewrite <- !list_fmap_compose. erewrite list_fmap_ext; [done|].
    intros _ r _. unfold Label_key; simpl. case_bool_decide as E1; case_decide as E2; try done; exfalso; congruence. }
  assert (hit = true <-> Exists (fun x => Label_key x = Label_key l) (labelToModel <$> rows labels d)) as Hhit.
  { unfold hit. rewrite existsb_exists, Exists_exists. setoid_rewrite bool_decide_eq_true. split.
    - intros (r & Hr%list_elem_of_In & E). exists (labelToModel r). split; [by apply list_elem_of_fmap_2|].
      unfold Label_key; simpl in *. congruence.
    - intros (x & (r & -> & Hr)%list_elem_of_fmap & E). exists r. split; [by apply list_elem_of_In|].
      unfold Label_key in E; simpl in *. congruence. }
  by apply (upserted l l1 _ _ hit).
Qed.

Hint Resolve UserStore_Create_ok UserStore_GetByUsername_ok UserStore_GetByID_ok UserStore_ListByOrg_ok
  OrgStore_Create_ok OrgStore_GetByName_ok OrgStore_GetByID_ok OrgStore_AddMember_ok OrgStore_RemoveMember_ok
  OrgStore_ListMembers_ok OrgStore_GetMember_ok ModuleStore_Create_ok ModuleStore_Get_ok
  ModuleStore_GetByID_ok ModuleStore_List_ok ModuleStore_ListPublic_ok ModuleStore_SetVisibility_ok
  ModuleStore_Delete_ok CommitStore_Create_ok CommitStore_GetByID_ok CommitStore_GetLatest_ok
  CommitStore_ListByModule_ok LabelStore_Upsert_ok LabelStore_Get_ok LabelStore_List_ok TokenStore_Create_ok
  TokenStore_GetByHash_ok TokenStore_ListByUser_ok TokenStore_Revoke_ok TokenStore_DeleteExpired_ok
  TokenStore_DeleteByUserAndNote_ok : stores.

Lemma sql_repos now X (o : repo_op X) : implements o (Repos now o).
Proof. destruct o; simpl; auto 2 with stores. Qed.

(** C13. The SQL stores implement the repository interface strictly: over gorm's
    documented behaviour, each method moves the tables and answers as the
    interface says, unique keys, not-found errors and faults included. *)
Theorem sql_implements_repositories now X (o : repo_op X) d :
  let '(x, d') := Repos now o d in repo_spec md o (sql_tables d) x (sql_tables d').
Proof. exact (sql_repos now X o d). Qed.
End Refine.
