(* ===== verification/Mongo.v ===== *)
(** * The MongoDB repositories (internal/db/mongo)

    The six stores over the MongoDB driver.  The driver is a library: its
    database and operations are parameters ([MongoDriver]) and what it documents
    of them are laws ([MongoOk]).  The collections have no unique indexes, a
    delete of one document removes one, and a decoding failure comes back next
    to a non-nil record; the refinement theorem says what still holds: the
    stores implement the repository interface, not strictly. *)
From S2P Require Import Prelude GoStd Model Iface.
From Stdlib Require Import Ascii.

(** ** The driver *)

(** The filters the stores build; a field is read off the decoded document. *)
Inductive bson (D : Type) :=
| field_eq (field : D -> string) (v : string)         (* {field: v} *)
| field_lt (field : D -> option Time) (t : Time)      (* {field: {$lt: t}}, false on null *)
| field_regex (field : D -> string) (re : string)     (* {field: {$regex: re, $options: "i"}} *)
| both (a b : bson D)
| either (a b : bson D).                              (* $or *)
Arguments field_eq {D}. Arguments field_lt {D}. Arguments field_regex {D}.
Arguments both {D}. Arguments either {D}.

Fixpoint selects (regex_i : string -> string -> bool) {D} (f : bson D) (d : D) : bool :=
  match f with
  | field_eq field v => streq (field d) v
  | field_lt field t => match field d with Some e => e <? t | None => false end
  | field_regex field re => regex_i re (field d)
  | both a b => selects regex_i a d && selects regex_i b d
  | either a b => selects regex_i a d || selects regex_i b d
  end.

(** The collections, by the record their documents decode to. *)
Inductive collection : Type -> Type :=
| users : collection User
| orgs : collection Org
| org_members : collection OrgMember
| modules : collection Mod
| commits : collection Commit
| labels : collection Label
| tokens : collection Token.

Definition col_tag {D} (c : collection D) : nat :=
  match c with
  | users => 0 | orgs => 1 | org_members => 2 | modules => 3 | commits => 4 | labels => 5 | tokens => 6
  end.

(** [FindOne(...).Decode(&d)]: the variable keeps what was decoded when decoding fails. *)
Inductive decoded (D : Type) :=
| ErrNoDocuments
| DecodeError (partial : D) (msg : string)
| Decoded (d : D).
Arguments ErrNoDocuments {D}. Arguments DecodeError {D}. Arguments Decoded {D}.

Class MongoDriver := {
  database : Type;
  regex_i : string -> string -> bool;
  (** a BSON date keeps an instant to the millisecond *)
  datetime : Time -> Time;
  docs : forall {D}, collection D -> database -> list D;
  InsertOne : forall {D}, collection D -> D -> database -> option string * database;
  FindOne : forall {D}, collection D -> bson D -> option (D -> Time) -> database -> decoded D * database;
  (** [Find], and [cursor.All] on its cursor; the sort is descending *)
  Find : forall {D}, collection D -> bson D -> option (D -> Time) -> option nat -> database ->
    (string + (string + list D)) * database;
  (** [UpdateOne(filter, {$set: ...})] *)
  UpdateOne : forall {D}, collection D -> bson D -> (D -> D) -> database -> option string * database;
  (** [UpdateOne(filter, {$set: d}, upsert)] *)
  UpsertOne : forall {D}, collection D -> bson D -> D -> database -> option string * database;
  (** with [DeletedCount] *)
  DeleteOne : forall {D}, collection D -> bson D -> database -> (string + Z) * database;
  DeleteMany : forall {D}, collection D -> bson D -> database -> (string + Z) * database }.

(** The document a record is stored as, decoded again. *)
Definition bson_with (datetime : Time -> Time) {D} (c : collection D) : D -> D :=
  match c in collection D return D -> D with
  | users => fun u => mkUser (User_ID u) (User_Username u) (User_PasswordHash u) (datetime (User_CreatedAt u))
  | orgs => fun o => mkOrg (Org_ID o) (Org_Name o) (datetime (Org_CreatedAt o))
  | org_members => fun m => m
  | modules => fun m => mkMod (Mod_ID m) (Mod_OwnerName m) (Mod_OwnerType m) (Mod_Name m) (Mod_Visibility m)
      (datetime (Mod_CreatedAt m))
  | commits => fun c => mkCommit (Commit_ID c) (Commit_ModuleID c) (Commit_StorageKey c) (Commit_Manifest c)
      (Commit_CreatedByUserID c) (datetime (Commit_CreatedAt c))
  | labels => fun l => mkLabel (Label_ID l) (Label_ModuleID l) (Label_Name l) (Label_CommitID l)
      (datetime (Label_CreatedAt l)) (datetime (Label_UpdatedAt l))
  | tokens => fun t => mkToken (Token_ID t) (Token_UserID t) (Token_Hash t) (Token_Note t)
      (datetime <$> Token_ExpiresAt t) (datetime (Token_CreatedAt t))
  end.
Definition bson_of `{MongoDriver} {D} (c : collection D) : D -> D := bson_with datetime c.

Section Laws.
Context `{MongoDriver}.

Definition same_docs (d d' : database) : Prop := forall D (c : collection D), docs c d' = docs c d.
Definition others_same {D} (c : collection D) (d d' : database) : Prop :=
  forall D' (c' : collection D'), col_tag c' <> col_tag c -> docs c' d' = docs c' d.
Abbreviation sel f := (fun x => selects regex_i f x = true).

Definition sorted_by {D} (order : option (D -> Time)) (l : list D) : Prop :=
  match order with None => True | Some at_ => StronglySorted (fun a b => at_ b <= at_ a) l end.

(** What the driver documents of one operation on one collection: it fails only
    for reasons of its own ([live = false]), and then has changed nothing. *)
Class MongoOk (live : bool) : Prop := {
  insert_ok {D} (c : collection D) x d :
    let '(e, d') := InsertOne c x d in
    match e with
    | None => others_same c d d' /\ docs c d' ≡ₚ bson_of c x :: docs c d
    | Some _ => same_docs d d' /\ live = false
    end;
  find_one_ok {D} (c : collection D) f order d :
    let '(r, d') := FindOne c f order d in same_docs d d' /\
    match r with
    | Decoded x => x ∈ docs c d /\ sel f x /\
        match order with
        | None => True
        | Some at_ => forall y, y ∈ docs c d -> sel f y -> at_ y <= at_ x
        end
    | ErrNoDocuments => forall x, x ∈ docs c d -> ~ sel f x
    | DecodeError _ _ => live = false
    end;
  find_ok {D} (c : collection D) f order limit d :
    let '(r, d') := Find c f order limit d in same_docs d d' /\
    match r with
    | inr (inr xs) => exists l, l ≡ₚ filter (fun x => selects regex_i f x = true) (docs c d) /\
        sorted_by order l /\
        xs = match limit with Some (S n) => take (S n) l | _ => l end
    | _ => live = false
    end;
  update_ok {D} (c : collection D) f assign d :
    let '(e, d') := UpdateOne c f assign d in
    match e with
    | None => others_same c d d' /\
        ((exists x rest, docs c d ≡ₚ x :: rest /\ sel f x /\ docs c d' ≡ₚ assign x :: rest) \/
         ((forall x, x ∈ docs c d -> ~ sel f x) /\ docs c d' ≡ₚ docs c d))
    | Some _ => same_docs d d' /\ live = false
    end;
  upsert_ok {D} (c : collection D) f x d :
    let '(e, d') := UpsertOne c f x d in
    match e with
    | None => others_same c d d' /\
        ((exists y rest, docs c d ≡ₚ y :: rest /\ sel f y /\ docs c d' ≡ₚ bson_of c x :: rest) \/
         ((forall y, y ∈ docs c d -> ~ sel f y) /\ docs c d' ≡ₚ bson_of c x :: docs c d))
    | Some _ => same_docs d d' /\ live = false
    end;
  delete_one_ok {D} (c : collection D) f d :
    let '(r, d') := DeleteOne c f d in
    match r with
    | inr n => others_same c d d' /\
        ((n = 1 /\ exists x, sel f x /\ docs c d ≡ₚ x :: docs c d') \/
         (n = 0 /\ (forall x, x ∈ docs c d -> ~ sel f x) /\ docs c d' ≡ₚ docs c d))
    | inl _ => same_docs d d' /\ live = false
    end;
  delete_many_ok {D} (c : collection D) f d :
    let '(r, d') := DeleteMany c f d in
    match r with
    | inr _ => others_same c d d' /\ docs c d' ≡ₚ filter (fun x => selects regex_i f x = false) (docs c d)
    | inl _ => same_docs d d' /\ live = false
    end }.
End Laws.

(** ** mongo.go *)

(** [escapeRegex]: a backslash before every metacharacter. *)
Definition special : list ascii := chars "\.+*?^$()[]{}|".
Definition backslash : ascii := "\"%char.

Fixpoint escape_chars (l : list ascii) : list ascii :=
  match l with
  | [] => []
  | c :: l => (if bool_decide (c ∈ special) then [backslash] else []) ++ c :: escape_chars l
  end%list.

Definition escapeRegex (s : string) : string := of_chars (escape_chars (chars s)).

Section Stores.
Context `{MongoDriver}.

Definition M (A : Type) : Type := database -> A * database.
#[local] Instance M_ret : MRet M := fun A a d => (a, d).
#[local] Instance M_bind : MBind M := fun A B f p d => let '(a, d') := p d in f a d'.

(** [err := ...FindOne(...).Decode(&x); if errors.Is(err, ErrNoDocuments) { return nil, ErrNotFound };
    return &x, err]. *)
Definition find_one {D} (c : collection D) (f : bson D) (order : option (D -> Time)) : M (goret D) :=
  r ← (FindOne c f order : M (decoded D));
  mret (match r with
        | ErrNoDocuments => GoRet None (Some ErrNotFound)
        | DecodeError partial msg => GoRet (Some partial) (Some (ErrOther msg))
        | Decoded x => GoRet (Some x) None
        end).

(** [cursor, err := ...Find(...); ...; cursor.All(ctx, &xs)]. *)
Definition find_all {D} (c : collection D) (f : bson D) (order : option (D -> Time)) (limit : option nat)
    : M (goret (list D)) :=
  r ← (Find c f order limit : M (string + (string + list D)));
  mret (match r with
        | inl msg => GoRet None (Some (ErrOther msg))
        | inr (inl msg) => GoRet None (Some (ErrOther msg))
        | inr (inr xs) => GoRet (Some xs) None
        end).

(** [_, err := ...; return err]. *)
Definition error_of (p : database -> option string * database) : M (option ierr) :=
  e ← (p : M (option string)); mret (ErrOther <$> e).

Definition delete_error (p : database -> (string + Z) * database) : M (option ierr) :=
  r ← (p : M (string + Z)); mret (match r with inl msg => Some (ErrOther msg) | inr _ => None end).

Definition UserStore_Create (u : User) : M (option ierr) := error_of (InsertOne users u).
Definition UserStore_GetByUsername (username : string) : M (goret User) :=
  find_one users (field_eq User_Username username) None.
Definition UserStore_GetByID (id : string) : M (goret User) := find_one users (field_eq User_ID id) None.

(** A member whose user cannot be read is skipped. *)
Fixpoint members_users (members : list OrgMember) : M (list User) :=
  match members with
  | [] => mret []
  | m :: members =>
      r ← (FindOne users (field_eq User_ID (OrgMember_UserID m)) None : M (decoded User));
      rest ← members_users members;
      mret (match r with Decoded u => u :: rest | _ => rest end)
  end.

Definition UserStore_ListByOrg (orgID : string) : M (goret (list User)) :=
  r ← (Find org_members (field_eq OrgMember_OrgID orgID) None None : M (string + (string + list OrgMember)));
  match r with
  | inl msg => mret (GoRet None (Some (ErrOther msg)))
  | inr (inl msg) => mret (GoRet None (Some (ErrOther msg)))
  | inr (inr members) => us ← members_users members; mret (GoRet (Some us) None)
  end.

Definition TokenStore_Create (t : Token) : M (option ierr) := error_of (InsertOne tokens t).
Definition TokenStore_GetByHash (hash : string) : M (goret Token) := find_one tokens (field_eq Token_Hash hash) None.
Definition TokenStore_ListByUser (userID : string) : M (goret (list Token)) :=
  find_all tokens (field_eq Token_UserID userID) None None.
Definition TokenStore_DeleteExpired (now : Time) : M (option ierr) :=
  delete_error (DeleteMany tokens (field_lt Token_ExpiresAt (datetime now))).
Definition TokenStore_DeleteByUserAndNote (userID note : string) : M (option ierr) :=
  delete_error (DeleteMany tokens (both (field_eq Token_UserID userID) (field_eq Token_Note note))).
Definition TokenStore_Revoke (id userID : string) : M (option ierr) :=
  res ← (DeleteOne tokens (both (field_eq Token_ID id) (field_eq Token_UserID userID)) : M (string + Z));
  mret (match res with
        | inl msg => Some (ErrOther msg)
        | inr deletedCount => if deletedCount =? 0 then Some ErrNotFound else None
        end).

Definition OrgStore_Create (o : Org) : M (option ierr) := error_of (InsertOne orgs o).
Definition OrgStore_GetByName (name : string) : M (goret Org) := find_one orgs (field_eq Org_Name name) None.
Definition OrgStore_GetByID (id : string) : M (goret Org) := find_one orgs (field_eq Org_ID id) None.
Definition OrgStore_AddMember (orgID userID : string) (role : OrgRole) : M (option ierr) :=
  error_of (InsertOne org_members (mkOrgMember orgID userID role)).
Definition OrgStore_RemoveMember (orgID userID : string) : M (option ierr) :=
  delete_error (DeleteOne org_members (both (field_eq OrgMember_OrgID orgID) (field_eq OrgMember_UserID userID))).
Definition OrgStore_ListMembers (orgID : string) : M (goret (list OrgMember)) :=
  find_all org_members (field_eq OrgMember_OrgID orgID) None None.
Definition OrgStore_GetMember (orgID userID : string) : M (goret OrgMember) :=
  find_one org_members (both (field_eq OrgMember_OrgID orgID) (field_eq OrgMember_UserID userID)) None.

Definition ModuleStore_Create (m : Mod) : M (option ierr) := error_of (InsertOne modules m).
Definition ModuleStore_Get (ownerName repoName : string) : M (goret Mod) :=
  find_one modules (both (field_eq Mod_OwnerName ownerName) (field_eq Mod_Name repoName)) None.
Definition ModuleStore_GetByID (id : string) : M (goret Mod) := find_one modules (field_eq Mod_ID id) None.
Definition ModuleStore_List (ownerName : string) : M (goret (list Mod)) :=
  find_all modules (field_eq Mod_OwnerName ownerName) None None.
Definition ModuleStore_ListPublic (query : string) (limit : nat) : M (goret (list Mod)) :=
  let filter := field_eq Mod_Visibility "public" in
  let filter := if streq query "" then filter
                else
                  let escaped := escapeRegex query in
                  both filter (either (field_regex Mod_Name escaped) (field_regex Mod_OwnerName escaped)) in
  find_all modules filter (Some Mod_CreatedAt) (Some limit).
Definition ModuleStore_SetVisibility (id : string) (vis : Visibility) : M (option ierr) :=
  error_of (UpdateOne modules (field_eq Mod_ID id) (with_visibility vis)).
Definition ModuleStore_Delete (id : string) : M (option ierr) :=
  delete_error (DeleteOne modules (field_eq Mod_ID id)).

Definition CommitStore_Create (c : Commit) : M (option ierr) := error_of (InsertOne commits c).
Definition CommitStore_GetByID (moduleID commitID : string) : M (goret Commit) :=
  find_one commits (both (field_eq Commit_ModuleID moduleID) (field_eq Commit_ID commitID)) None.
Definition CommitStore_GetLatest (moduleID : string) : M (goret Commit) :=
  find_one commits (field_eq Commit_ModuleID moduleID) (Some Commit_CreatedAt).
Definition CommitStore_ListByModule (moduleID : string) : M (goret (list Commit)) :=
  find_all commits (field_eq Commit_ModuleID moduleID) (Some Commit_CreatedAt) None.

(** [$set] of the whole record: an existing label takes the new identifier and times too. *)
Definition LabelStore_Upsert (l : Label) : M (option ierr) :=
  error_of (UpsertOne labels (both (field_eq Label_ModuleID (Label_ModuleID l)) (field_eq Label_Name (Label_Name l))) l).
Definition LabelStore_Get (moduleID name : string) : M (goret Label) :=
  find_one labels (both (field_eq Label_ModuleID moduleID) (field_eq Label_Name name)) None.
Definition LabelStore_List (moduleID : string) : M (goret (list Label)) :=
  find_all labels (field_eq Label_ModuleID moduleID) None None.

(** [Repos()]. *)
Definition Repos (now : Time) {X} (o : repo_op X) : M X :=
  match o in repo_op X return M X with
  | Users_Create u => UserStore_Create u
  | Users_GetByUsername n => UserStore_GetByUsername n
  | Users_GetByID i => UserStore_GetByID i
  | Users_ListByOrg o => UserStore_ListByOrg o
  | Orgs_Create o => OrgStore_Create o
  | Orgs_GetByName n => OrgStore_GetByName n
  | Orgs_GetByID i => OrgStore_GetByID i
  | Orgs_AddMember o u r => OrgStore_AddMember o u r
  | Orgs_RemoveMember o u => OrgStore_RemoveMember o u
  | Orgs_ListMembers o => OrgStore_ListMembers o
  | Orgs_GetMember o u => OrgStore_GetMember o u
  | Modules_Create m => ModuleStore_Create m
  | Modules_Get o n => ModuleStore_Get o n
  | Modules_GetByID i => ModuleStore_GetByID i
  | Modules_List o => ModuleStore_List o
  | Modules_ListPublic q n => ModuleStore_ListPublic q n
  | Modules_SetVisibility i v => ModuleStore_SetVisibility i v
  | Modules_Delete i => ModuleStore_Delete i
  | Commits_Create c => CommitStore_Create c
  | Commits_GetByID m c => CommitStore_GetByID m c
  | Commits_GetLatest m => CommitStore_GetLatest m
  | Commits_ListByModule m => CommitStore_ListByModule m
  | Labels_Upsert l => LabelStore_Upsert l
  | Labels_Get m n => LabelStore_Get m n
  | Labels_List m => LabelStore_List m
  | Tokens_Create t => TokenStore_Create t
  | Tokens_GetByHash h => TokenStore_GetByHash h
  | Tokens_ListByUser u => TokenStore_ListByUser u
  | Tokens_Revoke i u => TokenStore_Revoke i u
  | Tokens_DeleteExpired => TokenStore_DeleteExpired now
  | Tokens_DeleteByUserAndNote u n => TokenStore_DeleteByUserAndNote u n
  end.

(** The abstract state of a database. *)
Definition mongo_tables (d : database) : Tables :=
  mkTables (docs users d) (docs orgs d) (docs org_members d) (docs modules d)
    (docs commits d) (docs labels d) (docs tokens d).
End Stores.

(** ** Refinement *)
Create HintDb mongo.

Section Refine.
Context `{MongoDriver} (live_ : bool) (since_ : Time) (until_ : option Time) (draws_ : string -> Prop) `{!MongoOk live_}.
Abbreviation md := (mkMode false live_ since_ until_ draws_).

Lemma unmoved_others {D} (c : collection D) d d' : same_docs d d' -> others_same c d d'.
Proof. intros Hs D' c' _. apply Hs. Qed.

Lemma unmoved_tables d d' : same_docs d d' -> mongo_tables d' = mongo_tables d.
Proof. intros Hs. unfold mongo_tables. by rewrite !Hs. Qed.

Lemma only_users d d' : others_same users d d' -> mongo_tables d' = set_users (docs users d') (mongo_tables d).
Proof. intros Ho. unfold mongo_tables, set_users; simpl. f_equal; by rewrite Ho. Qed.
Lemma only_orgs d d' : others_same orgs d d' -> mongo_tables d' = set_orgs (docs orgs d') (mongo_tables d).
Proof. intros Ho. unfold mongo_tables, set_orgs; simpl. f_equal; by rewrite Ho. Qed.
Lemma only_members d d' : others_same org_members d d' ->
  mongo_tables d' = set_members (docs org_members d') (mongo_tables d).
Proof. intros Ho. unfold mongo_tables, set_members; simpl. f_equal; by rewrite Ho. Qed.
Lemma only_modules d d' : others_same modules d d' -> mongo_tables d' = set_modules (docs modules d') (mongo_tables d).
Proof. intros Ho. unfold mongo_tables, set_modules; simpl. f_equal; by rewrite Ho. Qed.
Lemma only_commits d d' : others_same commits d d' -> mongo_tables d' = set_commits (docs commits d') (mongo_tables d).
Proof. intros Ho. unfold mongo_tables, set_commits; simpl. f_equal; by rewrite Ho. Qed.
Lemma only_labels d d' : others_same labels d d' -> mongo_tables d' = set_labels (docs labels d') (mongo_tables d).
Proof. intros Ho. unfold mongo_tables, set_labels; simpl. f_equal; by rewrite Ho. Qed.
Lemma only_tokens d d' : others_same tokens d d' -> mongo_tables d' = set_tokens (docs tokens d') (mongo_tables d).
Proof. intros Ho. unfold mongo_tables, set_tokens; simpl. f_equal; by rewrite Ho. Qed.

(** The shapes of a store method. *)
Lemma find_one_gets {D} (c : collection D) f order (P : D -> Prop) d :
  (forall x, x ∈ docs c d -> selects regex_i f x = true ->
     match order with
     | None => True
     | Some at_ => forall y, y ∈ docs c d -> selects regex_i f y = true -> at_ y <= at_ x
     end -> P x) ->
  (forall x, x ∈ docs c d -> P x -> selects regex_i f x = true) ->
  post (find_one c f order d) (fun r d' => mongo_tables d' = mongo_tables d /\ gets md P (docs c d) r).
Proof.
  intros Hto Hfrom. unfold post, find_one, mbind, M_bind, mret, M_ret.
  pose proof (find_one_ok c f order d) as Hf. destruct (FindOne c f order d) as [[|x msg|x] d'];
    destruct Hf as [Hs Hf]; (split; [by apply unmoved_tables|]); unfold gets; simpl.
  - split; [done|]. intros x Hx HP. apply (Hf x Hx). by apply Hfrom.
  - by split.
  - destruct Hf as (Hx & Hsel & Ho). exists x. split; [done|]. split; [done|]. by apply Hto.
Qed.

Lemma find_all_finds {D} (c : collection D) f order limit (Q : list D -> Prop) d :
  (forall l, l ≡ₚ filter (fun x => selects regex_i f x = true) (docs c d) -> sorted_by order l ->
     Q (match limit with Some (S n) => take (S n) l | _ => l end)) ->
  post (find_all c f order limit d) (fun r d' => mongo_tables d' = mongo_tables d /\ finds md Q r).
Proof.
  intros HQ. unfold post, find_all, mbind, M_bind, mret, M_ret.
  pose proof (find_ok c f order limit d) as Hf. destruct (Find c f order limit d) as [[e|[e|xs]] d'];
    destruct Hf as [Hs Hf]; (split; [by apply unmoved_tables|]); unfold finds; simpl; [done|done|].
  destruct Hf as (l & Hp & Ho & ->). eexists; split; [done|]. auto.
Qed.

Lemma find_all_filter {D} (c : collection D) f (P : D -> Prop) `{!forall x, Decision (P x)} d :
  (forall x, selects regex_i f x = true <-> P x) ->
  post (find_all c f None None d) (fun r d' =>
    mongo_tables d' = mongo_tables d /\ finds md (fun xs => xs ≡ₚ filter P (docs c d)) r).
Proof.
  intros Hc. apply find_all_finds. intros l Hp _. rewrite Hp. by rewrite (list_filter_iff _ P).
Qed.

Lemma insert_creates {D} (c : collection D) stored conflict x d :
  stored x (bson_of c x) ->
  post (error_of (InsertOne c x) d) (fun e d' =>
    others_same c d d' /\ creates md stored conflict x (docs c d) (docs c d') e).
Proof.
  intros Hst. unfold post, error_of, mbind, M_bind, mret, M_ret.
  pose proof (insert_ok c x d) as Hf. destruct (InsertOne c x d) as [[e|] d']; unfold creates; simpl.
  - destruct Hf as [Hs Hf]. split; [by apply unmoved_others|]. split; [apply Hs|]. congruence.
  - destruct Hf as [Ho Hp]. split; [done|]. split; [by exists (bson_of c x)|done].
Qed.

Lemma delete_one_deletes {D} (c : collection D) f (P : D -> Prop) d :
  (forall x, selects regex_i f x = true -> P x) ->
  post (delete_error (DeleteOne c f) d) (fun e d' =>
    others_same c d d' /\ deletes md false P (docs c d) (docs c d') e).
Proof.
  intros Hc. unfold post, delete_error, mbind, M_bind, mret, M_ret.
  pose proof (delete_one_ok c f d) as Hf. destruct (DeleteOne c f d) as [[e|n] d']; unfold deletes; simpl.
  - destruct Hf as [Hs Hl]. split; [by apply unmoved_others|]. split; [apply Hs|done].
  - destruct Hf as [Ho [(_ & x & Hx & Hp)|(_ & _ & Hp)]]; (split; [done|]).
    + exists [x]. split; [done|]. split; [by repeat constructor; apply Hc|done].
    + exists []. by rewrite Hp.
Qed.

Lemma delete_many_deletes {D} (c : collection D) f (P : D -> Prop) d :
  (forall x, selects regex_i f x = true <-> P x) ->
  post (delete_error (DeleteMany c f) d) (fun e d' =>
    others_same c d d' /\ deletes md true P (docs c d) (docs c d') e).
Proof.
  intros Hc. unfold post, delete_error, mbind, M_bind, mret, M_ret.
  pose proof (delete_many_ok c f d) as Hf. destruct (DeleteMany c f d) as [[e|n] d']; unfold deletes; simpl.
  - destruct Hf as [Hs Hl]. split; [by apply unmoved_others|]. split; [apply Hs|done].
  - destruct Hf as [Ho Hp]. split; [done|]. exists (filter (fun x => selects regex_i f x = true) (docs c d)).
    split; [|split].
    + rewrite Hp. rewrite (list_filter_iff (fun r => selects regex_i f r = false) (fun r => ~ selects regex_i f r = true))
        by (intros r; by rewrite not_true_iff_false). by rewrite filter_app_complement.
    + apply Forall_forall. intros x [Hx _]%list_elem_of_filter. by apply Hc.
    + intros _ x Hx HP. rewrite Hp in Hx. apply list_elem_of_filter in Hx as [Hx _]. apply Hc in HP. congruence.
Qed.

Lemma rounds t : keeps_time md t (datetime t).
Proof. done. Qed.

Definition implements {X} (o : repo_op X) (m : M X) : Prop :=
  forall d, post (m d) (fun x d' => repo_spec md o (mongo_tables d) x (mongo_tables d')).

Ltac fields :=
  intros; unfold is_member, owned_as, commit_at, label_at in *; simpl in *;
  rewrite ?andb_true_iff, ?streq_true in *; naive_solver.
Ltac by_insert others :=
  intros d; eapply post_mono;
  [apply insert_creates|intros e d' [Ho Hc]; eexists; split; [apply others, Ho|exact Hc]];
  repeat (eexists; try (split; [exact (rounds _)|])); done.
Ltac by_one :=
  intros d; eapply post_mono;
  [apply find_one_gets|intros x d' [Et Hx]; split; [exact Et|exact Hx]]; fields.
Ltac by_all P :=
  intros d; eapply post_mono;
  [apply (find_all_filter _ _ P)|intros x d' [Et Hx]; split; [exact Et|exact Hx]]; fields.
Ltac by_delete lemma others :=
  intros d; eapply post_mono;
  [eapply lemma|intros e d' [Ho Hc]; eexists; split; [apply others, Ho|exact Hc]]; fields.

Lemma users_create u : implements (Users_Create u) (UserStore_Create u).
Proof. by_insert only_users. Qed.
Lemma users_by_name n : implements (Users_GetByUsername n) (UserStore_GetByUsername n).
Proof. by_one. Qed.
Lemma users_by_id i : implements (Users_GetByID i) (UserStore_GetByID i).
Proof. by_one. Qed.
Lemma orgs_create o : implements (Orgs_Create o) (OrgStore_Create o).
Proof. by_insert only_orgs. Qed.
Lemma orgs_by_name n : implements (Orgs_GetByName n) (OrgStore_GetByName n).
Proof. by_one. Qed.
Lemma orgs_by_id i : implements (Orgs_GetByID i) (OrgStore_GetByID i).
Proof. by_one. Qed.
Lemma orgs_add o u r : implements (Orgs_AddMember o u r) (OrgStore_AddMember o u r).
Proof. by_insert only_members. Qed.
Lemma orgs_remove o u : implements (Orgs_RemoveMember o u) (OrgStore_RemoveMember o u).
Proof. by_delete @delete_one_deletes only_members. Qed.
Lemma orgs_members o : implements (Orgs_ListMembers o) (OrgStore_ListMembers o).
Proof. by_all (fun m => OrgMember_OrgID m = o). Qed.
Lemma orgs_member o u : implements (Orgs_GetMember o u) (OrgStore_GetMember o u).
Proof. by_one. Qed.
Lemma modules_create m : implements (Modules_Create m) (ModuleStore_Create m).
Proof.
  intros d; eapply post_mono;
  [apply insert_creates|intros e d' [Ho Hc]; eexists; split; [apply only_modules, Ho|exact Hc]].
  eexists _, _. split; [exact (rounds _)|]. split; [by left|done].
Qed.
Lemma modules_get o n : implements (Modules_Get o n) (ModuleStore_Get o n).
Proof. by_one. Qed.
Lemma modules_by_id i : implements (Modules_GetByID i) (ModuleStore_GetByID i).
Proof. by_one. Qed.
Lemma modules_list o : implements (Modules_List o) (ModuleStore_List o).
Proof. by_all (fun m => Mod_OwnerName m = o). Qed.
Lemma modules_delete i : implements (Modules_Delete i) (ModuleStore_Delete i).
Proof. by_delete @delete_one_deletes only_modules. Qed.
Lemma commits_create c : implements (Commits_Create c) (CommitStore_Create c).
Proof. by_insert only_commits. Qed.
Lemma commits_by_id m c : implements (Commits_GetByID m c) (CommitStore_GetByID m c).
Proof. by_one. Qed.
Lemma labels_get m n : implements (Labels_Get m n) (LabelStore_Get m n).
Proof. by_one. Qed.
Lemma labels_list m : implements (Labels_List m) (LabelStore_List m).
Proof. by_all (fun l => Label_ModuleID l = m). Qed.
Lemma tokens_create k : implements (Tokens_Create k) (TokenStore_Create k).
Proof.
  intros d; eapply post_mono;
  [apply insert_creates|intros e d' [Ho Hc]; eexists; split; [apply only_tokens, Ho|exact Hc]].
  exists (datetime (Token_CreatedAt k)), (datetime <$> Token_ExpiresAt k).
  split; [exact (rounds _)|]. split; [done|]. split; [apply fmap_is_Some|done].
Qed.
Lemma tokens_by_hash h : implements (Tokens_GetByHash h) (TokenStore_GetByHash h).
Proof. by_one. Qed.
Lemma tokens_list u : implements (Tokens_ListByUser u) (TokenStore_ListByUser u).
Proof. by_all (fun k => Token_UserID k = u). Qed.
Lemma tokens_delete u n : implements (Tokens_DeleteByUserAndNote u n) (TokenStore_DeleteByUserAndNote u n).
Proof. by_delete @delete_many_deletes only_tokens. Qed.

(** Listings in order, and the methods with loops or counts of their own. *)
Lemma sorted_newer {D} (at_ : D -> Time) (l : list D) : sorted_by (Some at_) l -> StronglySorted (newer at_) l.
Proof. done. Qed.

Lemma commits_latest m : implements (Commits_GetLatest m) (CommitStore_GetLatest m).
Proof.
  intros d. eapply post_mono; [apply find_one_gets|intros x d' [Et Hx]; split; [exact Et|exact Hx]]; simpl.
  - intros c Hc E%streq_true Hmax. split; [done|]. intros c' Hc' E'. by apply Hmax; [|apply streq_true].
  - intros c Hc [E _]. by apply streq_true.
Qed.

Lemma commits_list m : implements (Commits_ListByModule m) (CommitStore_ListByModule m).
Proof.
  intros d. eapply post_mono; [apply find_all_finds|intros x d' [Et Hx]; split; [exact Et|exact Hx]].
  intros l Hp Ho. split; [|by apply sorted_newer]. rewrite Hp.
  by rewrite (list_filter_iff _ (fun c => Commit_ModuleID c = m)) by fields.
Qed.

Lemma modules_public q n : implements (Modules_ListPublic q n) (ModuleStore_ListPublic q n).
Proof.
  intros d. eapply post_mono; [apply find_all_finds|intros x d' [Et Hx]; split; [exact Et|exact Hx]].
  intros l Hp Ho. exists l. split_and!.
  - intros m Hm. rewrite Hp in Hm. apply list_elem_of_filter in Hm as [Hh Hm]. split; [done|].
    cbv zeta in Hh. destruct (streq q ""); simpl in Hh; bool_facts; done.
  - intros ->. rewrite Hp. by rewrite (list_filter_iff _ (fun m => Mod_Visibility m = VisibilityPublic)) by fields.
  - by apply sorted_newer.
  - destruct n; [by right|by left].
Qed.

Lemma modules_visibility i v : implements (Modules_SetVisibility i v) (ModuleStore_SetVisibility i v).
Proof.
  intros d. unfold post, ModuleStore_SetVisibility, error_of, mbind, M_bind, mret, M_ret.
  pose proof (update_ok modules (field_eq Mod_ID i) (with_visibility v) d) as Hf.
  destruct (UpdateOne _ _ _ d) as [[e|] d']; simpl.
  - destruct Hf as [Hs Hl]. eexists; split; [by apply only_modules, unmoved_others|]. by rewrite Hs.
  - assert (forall l : list Mod, Forall2 (fun m m2 => m2 = m \/ (Mod_ID m = i /\ m2 = with_visibility v m)) l l) as Hrefl.
    { intros l. apply Forall_Forall2_diag, Forall_true. auto. }
    destruct Hf as [Ho [(x & rest & Hp & Hx & Hp')|[_ Hp']]]; (eexists; split; [by apply only_modules|]).
    + apply streq_true in Hx. symmetry in Hp.
      assert (Forall2 (fun m m2 => m2 = m \/ (Mod_ID m = i /\ m2 = with_visibility v m)) (x :: rest)
        (with_visibility v x :: rest)) as HF by (constructor; [by right|apply Hrefl]).
      destruct (Permutation_Forall2 Hp HF) as (l & Hl & HF').
      exists l. split; [by rewrite Hp'|done].
    + exists (docs modules d). done.
Qed.

Lemma labels_upsert l : implements (Labels_Upsert l) (LabelStore_Upsert l).
Proof.
  intros d. unfold post, LabelStore_Upsert, error_of, mbind, M_bind, mret, M_ret.
  set (f := both _ _). pose proof (upsert_ok labels f l d) as Hf.
  assert (forall x, selects regex_i f x = true <-> Label_key x = Label_key l) as Hkey.
  { intros x. unfold f, Label_key. simpl. rewrite andb_true_iff, !streq_true. naive_solver congruence. }
  destruct (UpsertOne labels f l d) as [[e|] d']; simpl.
  { destruct Hf as [Hs Hl]. eexists; split; [by apply only_labels, unmoved_others|]. split; [apply Hs|congruence]. }
  destruct Hf as [Ho [(y & rest & Hp & Hy%Hkey & Hp')|[Hn Hp']]]; (eexists; split; [by apply only_labels|]);
    split_and!; try done.
  - intros x. rewrite Hp', Hp, !elem_of_cons. intros [->|?]; [by right|auto].
  - exists (bson_of labels l). rewrite Hp'. split; [by left|done].
  - intros x. rewrite Hp', Hp, !elem_of_cons. intros [->|?] Hk; [done|by right].
  - intros x. rewrite Hp', elem_of_cons. intros [->|?]; [by right|auto].
  - exists (bson_of labels l). rewrite Hp'. split; [by left|done].
  - intros x Hx _. rewrite Hp'. by right.
Qed.

Lemma tokens_expired now : implements Tokens_DeleteExpired (TokenStore_DeleteExpired now).
Proof.
  intros d. eapply post_mono; [apply (delete_many_deletes _ _ (expired_before (datetime now)))|].
  - intros k. unfold expired_before. simpl. destruct (Token_ExpiresAt k) as [e|].
    + rewrite Z.ltb_lt. split; [eauto|by intros (e' & E & Hlt); simplify_eq].
    + split; [done|by intros (? & ? & _)].
  - intros e d' [Ho Hc]. eexists _, (datetime now). split; [apply only_tokens, Ho|exact Hc].
Qed.

Lemma tokens_revoke i u : implements (Tokens_Revoke i u) (TokenStore_Revoke i u).
Proof.
  intros d. unfold post, TokenStore_Revoke, mbind, M_bind, mret, M_ret. set (f := both _ _).
  assert (forall k, selects regex_i f k = true <-> Token_ID k = i /\ Token_UserID k = u) as Hf by fields.
  pose proof (delete_one_ok tokens f d) as Hd. destruct (DeleteOne tokens f d) as [[e|n] d']; simpl.
  { destruct Hd as [Hs Hl]. eexists; split; [by apply only_tokens, unmoved_others|]. by rewrite Hs. }
  destruct Hd as [Ho [(-> & x & Hx & Hp)|(-> & Hn & Hp)]]; (eexists; split; [by apply only_tokens|]); simpl.
  - exists [x]. split; [done|]. split; [done|]. split; [|done]. repeat constructor; by apply Hf.
  - split; [done|]. intros k Hk HP. by apply (Hn k), Hf.
Qed.

(** The users found for the members, some of them skipped. *)
Lemma members_users_ok members d :
  post (members_users members d) (fun us d' => same_docs d d' /\
    forall u, u ∈ us -> u ∈ docs users d /\ exists m, m ∈ members /\ User_ID u = OrgMember_UserID m).
Proof.
  revert d. induction members as [|m members IH]; intros d; unfold post; simpl; unfold mbind, M_bind, mret, M_ret.
  { split; [done|]. by intros u ?%elem_of_nil. }
  pose proof (find_one_ok users (field_eq User_ID (OrgMember_UserID m)) None d) as Hf.
  destruct (FindOne _ _ _ d) as [r d1]. destruct Hf as [Hs Hf]. specialize (IH d1). unfold post in IH.
  destruct (members_users members d1) as [us d2]. destruct IH as [Hs2 IH]. rewrite (Hs _ users) in IH.
  split; [intros D c; by rewrite Hs2, Hs|].
  assert (forall u, u ∈ us -> u ∈ docs users d /\ exists m0, m0 ∈ m :: members /\ User_ID u = OrgMember_UserID m0) as Hus.
  { intros u Hu. destruct (IH u Hu) as (? & m0 & ? & ?). split; [done|]. exists m0. split; [by right|done]. }
  destruct r as [|x msg|x]; [done|done|]. destruct Hf as (Hx & E%streq_true & _).
  intros u [->|Hu]%elem_of_cons; [|by apply Hus]. split; [done|]. exists m. split; [by left|done].
Qed.

Lemma users_by_org o : implements (Users_ListByOrg o) (UserStore_ListByOrg o).
Proof.
  intros d. unfold post, UserStore_ListByOrg, mbind, M_bind, mret, M_ret.
  pose proof (find_ok org_members (field_eq OrgMember_OrgID o) None None d) as Hf.
  destruct (Find _ _ _ _ d) as [[e|[e|members]] d1]; destruct Hf as [Hs Hf]; [by split; [apply unmoved_tables|]..|].
  destruct Hf as (l & Hp & _ & ->). pose proof (members_users_ok l d1) as Hm. unfold post in Hm.
  destruct (members_users l d1) as [us d2]. destruct Hm as [Hs2 Hm].
  split; [apply unmoved_tables; intros D c; by rewrite Hs2, Hs|]. exists us. split; [done|]. split; [|done].
  intros u Hu. destruct (Hm u Hu) as (Hu2 & m & Hml & E). rewrite (Hs _ users) in Hu2. split; [done|].
  rewrite Hp in Hml. apply list_elem_of_filter in Hml as [Eo Hml]. apply streq_true in Eo. by exists m.
Qed.

Hint Resolve users_create users_by_name users_by_id users_by_org orgs_create orgs_by_name orgs_by_id orgs_add
  orgs_remove orgs_members orgs_member modules_create modules_get modules_by_id modules_list modules_public
  modules_visibility modules_delete commits_create commits_by_id commits_latest commits_list labels_upsert
  labels_get labels_list tokens_create tokens_by_hash tokens_list tokens_revoke tokens_expired tokens_delete : mongo.

Lemma mongo_repos now X (o : repo_op X) : implements o (Repos now o).
Proof. destruct o; simpl; auto 2 with mongo. Qed.

(** C32. The MongoDB stores implement the repository interface, without its strict
    half: lookups, listings and deletions mean what they say and faults change
    nothing, but unique keys are not enforced, a delete of one row is a delete of
    one document, instants come back to the millisecond, and an error may come
    with a record. *)
Theorem mongo_implements_repositories now X (o : repo_op X) d :
  let '(x, d') := Repos now o d in repo_spec md o (mongo_tables d) x (mongo_tables d').
Proof. exact (mongo_repos now X o d). Qed.


(** Without unique keys, a member added twice survives a removal: after it, the
    membership lookup that authorization relies on still finds the member. *)
Theorem mongo_duplicate_member_survives orgID userID r r' d :
  live_ = true ->
  let '(e1, d1) := OrgStore_AddMember orgID userID r d in
  let '(e2, d2) := OrgStore_AddMember orgID userID r' d1 in
  let '(e3, d3) := OrgStore_RemoveMember orgID userID d2 in
  let '(x, _) := OrgStore_GetMember orgID userID d3 in
  e1 = None /\ e2 = None /\ e3 = None /\ err x = None /\ is_Some (val x).
Proof.
  intros Hl. unfold OrgStore_AddMember, OrgStore_RemoveMember, OrgStore_GetMember, error_of, delete_error, find_one,
    mbind, M_bind, mret, M_ret. set (f := both _ _).
  assert (forall m, selects regex_i f m = true <-> is_member orgID userID m) as Hf by fields.
  pose proof (insert_ok org_members (mkOrgMember orgID userID r) d) as H1.
  destruct (InsertOne _ _ d) as [[e|] d1]; [destruct H1; congruence|]. destruct H1 as [_ H1].
  pose proof (insert_ok org_members (mkOrgMember orgID userID r') d1) as H2.
  destruct (InsertOne _ _ d1) as [[e|] d2]; [destruct H2; congruence|]. destruct H2 as [_ H2]. rewrite H1 in H2.
  pose proof (delete_one_ok org_members f d2) as H3.
  destruct (DeleteOne _ f d2) as [[e|n] d3]; [destruct H3; congruence|].
  assert (exists m, m ∈ docs org_members d3 /\ selects regex_i f m = true) as (m & Hm & Hsel).
  { destruct H3 as [_ [(_ & x & _ & Hp)|(_ & Hn & _)]].
    - assert (mkOrgMember orgID userID r' ∈ x :: docs org_members d3 /\
              mkOrgMember orgID userID r ∈ x :: docs org_members d3) as [Ha Hb]
        by (rewrite <- Hp, H2; simpl; split; set_solver).
      apply elem_of_cons in Ha as [Ea|Ha]; [|eexists; split; [exact Ha|by apply Hf]].
      apply elem_of_cons in Hb as [Eb|Hb]; [|eexists; split; [exact Hb|by apply Hf]].
      rewrite H2 in Hp. cbn [bson_of bson_with] in Hp. rewrite Ea, Eb in Hp. apply Permutation_cons_inv in Hp.
      exists x. split; [rewrite <- Hp; by left|]. rewrite <- Ea. by apply Hf.
    - exfalso. apply (Hn (mkOrgMember orgID userID r')); [rewrite H2; by left|by apply Hf]. }
  pose proof (find_one_ok org_members f None d3) as H4.
  destruct (FindOne _ f None d3) as [[|x msg|x] d4]; destruct H4 as [_ H4].
  - by destruct (H4 m Hm).
  - congruence.
  - simpl. eauto 10.
Qed.
End Refine.

(** ** The search pattern *)

(** A pattern read as a sequence of literal characters: a backslash quotes the
    next character, and any other metacharacter is no literal. *)
Fixpoint read_literals (l : list ascii) : option (list ascii) :=
  match l with
  | [] => Some []
  | c :: l =>
      if bool_decide (c = backslash) then
        match l with
        | [] => None
        | c :: l => r ← read_literals l; Some (c :: r)
        end
      else if bool_decide (c ∈ special) then None
      else r ← read_literals l; Some (c :: r)
  end.

Lemma read_escape l : read_literals (escape_chars l) = Some l.
Proof.
  induction l as [|c l IH]; [done|]. cbn [escape_chars]. case_bool_decide as Hs; cbn [app read_literals].
  - rewrite bool_decide_true by done. by rewrite IH.
  - rewrite bool_decide_false.
    + by rewrite bool_decide_false, IH.
    + intros ->. apply Hs. unfold special. by left.
Qed.

(** A search query is matched literally: the escaped pattern has no live
    metacharacter, and the literals it is made of spell the query. *)
Theorem escapeRegex_literal query : read_literals (chars (escapeRegex query)) = Some (chars query).
Proof. unfold escapeRegex. rewrite chars_of_chars. apply read_escape. Qed.
