(* ===== verification/Storage.v ===== *)
(** * Blob stores (internal/storage)

    The [Store] interface and what it promises ([StoreOk]: on well-formed keys a
    store is a map), and its three implementations: files under a root directory
    (storage.go), rows of a SQL table (dbstore.go) and objects of an S3 bucket
    (s3.go).  The file system is modelled as a tree of nodes by absolute path,
    with a schedule of faults: a system call that is refused, or a write that
    stops midway. *)
From S2P Require Import Prelude GoStd Paths Model Iface Gorm.
From Stdlib Require Import Ascii.

(** ** The interface *)
Class Store (W : Type) := {
  Put : string -> bytes -> W -> option serr * W;
  Get : string -> W -> (serr + bytes) * W;
  blobs_of : W -> gmap string bytes }.

(** On keys of two identifiers, while [wf] holds, a store is a map that fails only
    if it is not [live]. *)
Class StoreOk (live : bool) (W : Type) `{Store W} (wf : W -> Prop) : Prop := {
  put_ok k d w : wf w -> valid_key k ->
    let '(e, w') := Put k d w in
    wf w' /\ match e with
             | None => blobs_of w' = <[k := d]> (blobs_of w)
             | Some _ => blobs_of w' = blobs_of w /\ live = false
             end;
  get_ok k w : wf w -> valid_key k ->
    let '(r, w') := Get k w in
    wf w' /\ blobs_of w' = blobs_of w /\
    match r with
    | inr d => blobs_of w !! k = Some d
    | inl SErrNotFound => blobs_of w !! k = None
    | inl _ => live = false
    end }.

(** ** The file system (package os) *)
Inductive node := DirNode | FileNode (data : bytes).
Inductive fault := NoFault | Refused | Cut (n : nat).
Record os := mkOs { nodes : gmap (list string) node; faults : list fault }.

Definition next_fault (w : os) : fault * os :=
  match faults w with
  | [] => (NoFault, w)
  | f :: fs => (f, mkOs (nodes w) fs)
  end.

(** The components of a clean absolute path. *)
Definition path_of (p : string) : list string := rev (clean_stack true [] p).

Definition node_at (w : os) (l : list string) : option node :=
  match l with [] => Some DirNode | _ => nodes w !! l end.

(** [os.MkdirAll]: every missing directory on the way, from the top. *)
Fixpoint mkdir_all (done todo : list string) (w : os) : option serr * os :=
  match todo with
  | [] => (None, w)
  | c :: todo =>
      let l := (done ++ [c])%list in
      match node_at w l with
      | Some DirNode => mkdir_all l todo w
      | Some (FileNode _) => (Some (SErrOther "not a directory"), w)
      | None => mkdir_all l todo (mkOs (<[l := DirNode]> (nodes w)) (faults w))
      end
  end.

Definition MkdirAll (p : string) (w : os) : option serr * os :=
  let '(f, w) := next_fault w in
  match f with
  | NoFault => mkdir_all [] (path_of p) w
  | _ => (Some (SErrOther "mkdir"), w)
  end.

(** [os.WriteFile]: opening truncates the file, then the bytes are written. *)
Definition WriteFile (p : string) (data : bytes) (w : os) : option serr * os :=
  let l := path_of p in
  let '(f, w) := next_fault w in
  match f, node_at w (removelast l), node_at w l with
  | Refused, _, _ => (Some (SErrOther "open"), w)
  | _, Some DirNode, Some DirNode => (Some (SErrOther "is a directory"), w)
  | NoFault, Some DirNode, _ => (None, mkOs (<[l := FileNode data]> (nodes w)) (faults w))
  | Cut n, Some DirNode, _ =>
      (Some (SErrOther "write"), mkOs (<[l := FileNode (take_bytes n data)]> (nodes w)) (faults w))
  | _, _, _ => (Some (SErrOther "no such directory"), w)
  end.

(** Some proper prefix of the path is a file, so the path cannot be looked up. *)
Fixpoint blocked (done todo : list string) (w : os) : bool :=
  match todo with
  | [] | [_] => false
  | c :: todo =>
      let l := (done ++ [c])%list in
      match node_at w l with
      | Some (FileNode _) => true
      | _ => blocked l todo w
      end
  end.

(** [os.ReadFile]; [SErrNotFound] stands for an error that is [os.ErrNotExist]. *)
Definition ReadFile (p : string) (w : os) : (serr + bytes) * os :=
  let l := path_of p in
  let '(f, w) := next_fault w in
  match f with
  | NoFault =>
      if blocked [] l w then (inl (SErrOther "not a directory"), w)
      else match node_at w l with
           | Some (FileNode d) => (inr d, w)
           | Some DirNode => (inl (SErrOther "is a directory"), w)
           | None => (inl SErrNotFound, w)
           end
  | _ => (inl (SErrOther "open"), w)
  end.

(** ** storage.go *)
Record LocalStore := mkLocalStore { ls_root : string }.
Definition NewLocalStore (root : string) : LocalStore := mkLocalStore root.

Section Local.
(** The process's working directory. *)
Context (cwd : option string).

Definition safePath (s : LocalStore) (key : string) : serr + string :=
  let p := JoinPath [ls_root s; key] in
  match Abs cwd p with
  | None => inl SErrInvalidPath
  | Some abs =>
      match Abs cwd (ls_root s) with
      | None => inl SErrInvalidPath
      | Some root =>
          if negb (HasPrefix abs (root +:+ "/")) && negb (streq abs root) then inl SErrInvalidPath
          else inr abs
      end
  end.

Definition LocalStore_Put (s : LocalStore) (key : string) (data : bytes) (w : os) : option serr * os :=
  match safePath s key with
  | inl e => (Some e, w)
  | inr p =>
      match MkdirAll (Dir p) w with
      | (Some e, w) => (Some e, w)
      | (None, w) => WriteFile p data w
      end
  end.

Definition LocalStore_Get (s : LocalStore) (key : string) (w : os) : (serr + bytes) * os :=
  match safePath s key with
  | inl e => (inl e, w)
  | inr p =>
      match ReadFile p w with
      | (inl SErrNotFound, w) => (inl SErrNotFound, w)
      | r => r
      end
  end.
End Local.

(** ** dbstore.go *)
Record Blob := mkBlob { Blob_Key : string; Blob_Data : bytes; Blob_CreatedAt : Time }.

Inductive blob_table : Type -> Type := blob_rows : blob_table Blob.

#[export] Instance blob_schema : Schema blob_table := {|
  tag _ _ := 0%nat;
  unique_indexes R t := match t in blob_table R return list (R -> list string) with
                        | blob_rows => [fun b => [Blob_Key b]]
                        end;
  defaults R t now := match t in blob_table R return R -> R with
                      | blob_rows => fun b => mkBlob (Blob_Key b) (Blob_Data b)
                          (if Blob_CreatedAt b =? 0 then now else Blob_CreatedAt b)
                      end |}.

Section DB.
Context `{Gorm blob_table}.

Definition store_error (e : gorm_error) : serr :=
  match e with ErrRecordNotFound => SErrOther "record not found" | GormError m => SErrOther m end.

Definition DBStore_Put (now : Time) (key : string) (data : bytes) (d : handle) : option serr * handle :=
  let blob := mkBlob key data now in
  let '(e, d) := Upsert blob_rows (fun b => [Blob_Key b])
    (fun new old => mkBlob (Blob_Key old) (Blob_Data new) (Blob_CreatedAt new)) blob d in
  (store_error <$> e, d).

(** The condition quotes its column with backticks, which SQLite reads as quotes
    ([backticks]) and PostgreSQL rejects as a syntax error. *)
Definition DBStore_Get (backticks : bool) (key : string) (d : handle) : (serr + bytes) * handle :=
  if negb backticks then (inl (SErrOther "syntax error"), d)
  else
    let '(x, d) := First blob_rows (col_eq Blob_Key key) None d in
    (match x with
     | inl ErrRecordNotFound => inl SErrNotFound
     | inl e => inl (store_error e)
     | inr blob => inr (Blob_Data blob)
     end, d).
End DB.

(** ** s3.go *)
Inductive s3_error := NoSuchKey | S3Error (msg : string).

(** The client's two calls: [PutObject] and [GetObject] with its body read. *)
Class S3Client := {
  bucket_state : Type;
  PutObject : string -> string -> bytes -> bucket_state -> option s3_error * bucket_state;
  GetObject : string -> string -> bucket_state -> (s3_error + bytes) * bucket_state;
  objects : bucket_state -> string -> gmap string bytes }.

(** S3's documented behaviour: a bucket maps keys to objects. *)
Class S3ClientOk (live : bool) `{S3Client} : Prop := {
  put_object_ok bucket key data w :
    let '(e, w') := PutObject bucket key data w in
    match e with
    | None => objects w' bucket = <[key := data]> (objects w bucket)
    | Some _ => objects w' bucket = objects w bucket /\ live = false
    end;
  get_object_ok bucket key w :
    let '(r, w') := GetObject bucket key w in
    objects w' bucket = objects w bucket /\
    match r with
    | inr d => objects w bucket !! key = Some d
    | inl NoSuchKey => objects w bucket !! key = None
    | inl (S3Error _) => live = false
    end }.

Record S3Store := mkS3Store { s3_bucket : string; s3_prefix : string }.

Section S3.
Context `{S3Client}.

Definition S3Store_key (s : S3Store) (k : string) : string :=
  if negb (streq (s3_prefix s) "") then s3_prefix s +:+ k else k.

Definition S3Store_Put (s : S3Store) (key : string) (data : bytes) (w : bucket_state) : option serr * bucket_state :=
  let '(e, w) := PutObject (s3_bucket s) (S3Store_key s key) data w in
  ((fun _ => SErrOther "s3") <$> e, w).

Definition S3Store_Get (s : S3Store) (key : string) (w : bucket_state) : (serr + bytes) * bucket_state :=
  let '(r, w) := GetObject (s3_bucket s) (S3Store_key s key) w in
  (match r with
   | inl NoSuchKey => inl SErrNotFound
   | inl (S3Error m) => inl (SErrOther m)
   | inr d => inr d
   end, w).
End S3.

(** ** The S3 store is a map *)
Section S3Ok.
Context `{S3Client} (s : S3Store).

Definition strip_prefix (k : string) : option string :=
  if HasPrefix k (s3_prefix s) then Some (TrimPrefix k (s3_prefix s)) else None.

Lemma strip_key k : strip_prefix (S3Store_key s k) = Some k.
Proof using.
  unfold strip_prefix, S3Store_key. destruct (streq (s3_prefix s) "") eqn:E; bool_facts; simpl.
  - rewrite E. by destruct k.
  - by rewrite HasPrefix_app, TrimPrefix_app.
Qed.

Lemma strip_inj k1 k2 k : strip_prefix k1 = Some k -> strip_prefix k2 = Some k -> k1 = k2.
Proof using.
  unfold strip_prefix, TrimPrefix. destruct (HasPrefix k1 _) eqn:E1; [|done].
  destruct (HasPrefix k2 _) eqn:E2; [|done]. intros [= <-] [= E].
  rewrite (HasPrefix_inv _ _ E1), (HasPrefix_inv _ _ E2). congruence.
Qed.

(** The blobs are the objects under the store's prefix, seen without it. *)
#[local] Instance s3_Store : Store bucket_state := {|
  Put := S3Store_Put s;
  Get := S3Store_Get s;
  blobs_of w := reindex strip_prefix (objects w (s3_bucket s)) |}.

(** C35. Over an S3 service that keeps its documented behaviour the store is a map,
    whatever other objects the bucket holds outside the prefix. *)
Theorem s3store_is_map live_ : S3ClientOk live_ -> StoreOk live_ bucket_state (fun _ => True).
Proof using.
  intros Hok. constructor; intros; unfold Put, Get, blobs_of, s3_Store, S3Store_Put, S3Store_Get.
  - pose proof (put_object_ok (s3_bucket s) (S3Store_key s k) d w) as Hp.
    destruct (PutObject _ _ _ w) as [[e|] w']; simpl; (split; [done|]).
    + by destruct Hp as [-> ?].
    + rewrite Hp. apply reindex_insert; [apply strip_inj|apply strip_key].
  - pose proof (get_object_ok (s3_bucket s) (S3Store_key s k) w) as Hg.
    destruct (GetObject _ _ w) as [[[|m]|d] w']; simpl; destruct Hg as [-> Hg];
      (split; [done|]); (split; [done|]).
    + by apply (reindex_None _ strip_inj _ _ _ (strip_key k)).
    + done.
    + apply lookup_reindex; [apply strip_inj|]. eauto using strip_key.
Qed.
End S3Ok.

(** ** The database store is a map *)
Section DBOk.
Context `{Gorm blob_table} (now : Time).

Definition blob_map (l : list Blob) : gmap string bytes :=
  list_to_map ((fun b => (Blob_Key b, Blob_Data b)) <$> l).

#[local] Instance db_Store : Store handle := {|
  Put := DBStore_Put now;
  Get := DBStore_Get true;
  blobs_of d := blob_map (rows blob_rows d) |}.

(** The primary key: no two rows of one key. *)
Definition one_row_per_key (d : handle) : Prop := NoDup (Blob_Key <$> rows blob_rows d).

Lemma blob_map_lookup l k v : NoDup (Blob_Key <$> l) ->
  blob_map l !! k = Some v <-> exists b, b ∈ l /\ Blob_Key b = k /\ Blob_Data b = v.
Proof using.
  intros Hnd. unfold blob_map. rewrite <- elem_of_list_to_map by (by rewrite <- list_fmap_compose).
  rewrite list_elem_of_fmap. naive_solver.
Qed.

Lemma blob_map_none l k : blob_map l !! k = None <-> forall b, b ∈ l -> Blob_Key b <> k.
Proof using.
  unfold blob_map. rewrite <- not_elem_of_list_to_map, <- list_fmap_compose, list_elem_of_fmap. simpl. naive_solver.
Qed.

Definition overwrite (k : string) (d : bytes) (t : Time) (l : list Blob) : list Blob :=
  (fun b => if bool_decide ([Blob_Key b] = [k]) then mkBlob (Blob_Key b) d t else b) <$> l.

Lemma overwrite_keys k d t l : Blob_Key <$> overwrite k d t l = Blob_Key <$> l.
Proof using.
  unfold overwrite. rewrite <- list_fmap_compose. apply list_fmap_ext. intros _ b _. simpl.
  by case_bool_decide.
Qed.

Lemma overwrite_map k d t l : NoDup (Blob_Key <$> l) -> (exists b, b ∈ l /\ Blob_Key b = k) ->
  blob_map (overwrite k d t l) = <[k := d]> (blob_map l).
Proof using.
  intros Hnd (b0 & Hb0 & E0). apply map_eq. intros i. apply option_eq. intros v.
  rewrite blob_map_lookup by (by rewrite overwrite_keys).
  rewrite lookup_insert_Some, blob_map_lookup by done. unfold overwrite. setoid_rewrite list_elem_of_fmap. split.
  - intros (b & (b' & -> & Hb') & Ek & Ev). case_bool_decide as E; simplify_eq/=; [by left|].
    right. split; [congruence|eauto].
  - intros [[<- <-]|(Hne & b & Hb & Ek & Ev)].
    + exists (mkBlob k d t). split; [|done]. exists b0. split; [|done].
      rewrite bool_decide_eq_true_2 by congruence. by rewrite E0.
    + exists b. split; [|done]. exists b. split; [|done]. rewrite bool_decide_eq_false_2; [done|congruence].
Qed.

(** C36. Over gorm on SQLite, the table is a map: a put replaces the row of its key. *)
Theorem dbstore_is_map live_ : GormOk live_ -> StoreOk live_ handle one_row_per_key.
Proof using.
  intros Hok. constructor; intros; unfold Put, Get, blobs_of, db_Store, DBStore_Put, DBStore_Get; cbn [negb].
  - set (blob := mkBlob k d now). set (assign := fun new old : Blob => mkBlob (Blob_Key old) _ _).
    pose proof (upsert_ok blob_rows (fun b => [Blob_Key b]) [] [] assign blob w eq_refl) as Hp.
    destruct (Upsert _ _ _ blob w) as [[e|] w']; simpl.
    { destruct Hp as [Hs Hl]. unfold one_row_per_key. rewrite Hs. split; [done|]. split; [done|].
      destruct live_; [|done]. destruct (Hl eq_refl) as (? & ? & _ & Hin & _). by apply elem_of_nil in Hin. }
    destruct Hp as (_ & t & Hp). unfold one_row_per_key in *.
    destruct (existsb _ _) eqn:Ex in Hp.
    + apply existsb_exists in Ex as (b & Hb%list_elem_of_In & E%bool_decide_eq_true).
      match type of Hp with _ ≡ₚ ?l => assert (exists t', l = overwrite k d t' (rows blob_rows w)) as [t' El] by (by eexists) end.
      rewrite El in Hp. assert (Blob_Key b = k) as Ek by (simpl in E; congruence). split.
      * rewrite Hp. by rewrite overwrite_keys.
      * rewrite <- (overwrite_map k d t') by eauto. unfold blob_map. apply list_to_map_proper.
        -- rewrite <- list_fmap_compose. change (fst ∘ _) with Blob_Key. rewrite Hp. by rewrite overwrite_keys.
        -- by rewrite Hp.
    + simpl in Hp. set (b := mkBlob k d _) in Hp.
      assert (k ∉ Blob_Key <$> rows blob_rows w) as Hfresh.
      { intros (b' & E & Hb')%list_elem_of_fmap. apply not_true_iff_false in Ex. apply Ex, existsb_exists.
        exists b'. split; [by apply list_elem_of_In|]. apply bool_decide_eq_true. simpl. congruence. }
      assert (NoDup (Blob_Key <$> rows blob_rows w')) as Hnd by (rewrite Hp; by constructor).
      split; [done|]. change (<[k:=d]> _) with (blob_map (b :: rows blob_rows w)).
      unfold blob_map. apply list_to_map_proper; [by rewrite <- list_fmap_compose|by rewrite Hp].
  - pose proof (first_ok blob_rows (col_eq Blob_Key k) None w) as Hf.
    destruct (First _ _ _ w) as [[[|m]|b] w']; destruct Hf as [Hs Hf]; unfold one_row_per_key;
      rewrite Hs; (split; [done|]); (split; [done|]); simpl in *.
    + apply blob_map_none. intros b Hb. by apply streq_false, Hf.
    + done.
    + apply blob_map_lookup; [done|]. destruct Hf as (Hb & Hk%streq_true & _). eauto.
Qed.
End DBOk.

(** ** The local store stays under its root *)
Lemma path_of_canonical l : Forall good l -> path_of (canonical l) = l.
Proof. intros Hl. unfold path_of. by rewrite clean_stack_canonical, app_nil_r, rev_involutive. Qed.


Section LocalPaths.
Context (cwd : string) (Hcwd : IsAbs cwd = true) (s : LocalStore).

(** The components of the root directory's absolute path. *)
Definition root_path : list string := rev (abs_stack cwd (ls_root s)).

Lemma root_good : Forall good root_path.
Proof using. apply Forall_rev, abs_stack_good. Qed.

(** C34. Whatever key is asked for - relative, absolute, with [..] or doubled
    slashes - a path the store accepts is the root directory or lies below it,
    without [..]; every other key is refused as an invalid path. *)
Theorem safePath_contained key :
  match safePath (Some cwd) s key with
  | inr p => exists below, p = canonical (root_path ++ below) /\ Forall good below
  | inl e => e = SErrInvalidPath
  end.
Proof using Hcwd.
  unfold safePath. rewrite !Abs_stack by done. fold root_path.
  set (l := rev (abs_stack cwd (JoinPath [ls_root s; key]))).
  assert (Forall good l) as Hl by apply Forall_rev, abs_stack_good.
  destruct (HasPrefix _ _) eqn:Hp; simpl.
  - apply prefix_components in Hp as (_ & m & _ & E); [|done|apply root_good].
    rewrite E in Hl |- *. apply Forall_app in Hl as [_ Hm]. eauto.
  - destruct (streq _ _) eqn:E; simpl; [|done]. bool_facts. exists [].
    rewrite app_nil_r. by split.
Qed.

Lemma is_id_good a : is_id a -> good a.
Proof using.
  intros Ha. pose proof (is_id_no_slash _ Ha) as Hs. destruct Ha as [Hne Hf].
  assert (forall w, Forall (fun c => is_id_char c = true) (chars w) -> "."%char ∈ chars w -> False) as Hdot.
  { intros w Hw Hin. rewrite Forall_forall in Hw. by specialize (Hw _ Hin). }
  split_and!; [done| | |done]; intros ->; apply (Hdot _ Hf); by left.
Qed.

Lemma key_stack a b stack : is_id a -> is_id b -> clean_stack true stack (key_of a b) = b :: a :: stack.
Proof using.
  intros Ha Hb. unfold clean_stack, key_of. change (a +:+ "/" +:+ b) with (a +:+ String slash b).
  rewrite Split_app_slash, !Split_word by (by apply is_id_no_slash). simpl.
  by rewrite !clean_step_good by (by apply is_id_good).
Qed.

Lemma key_relative a b : is_id a -> IsAbs (key_of a b) = false.
Proof using.
  intros [Hne Hf]. destruct a as [|c a]; [done|].
  change (key_of (String c a) b) with (String c (a +:+ "/" +:+ b)). rewrite IsAbs_cons.
  apply bool_decide_eq_false. intros <-. by apply Forall_cons in Hf as [Hf _].
Qed.

(** The keys the registry stores under are accepted, unless the root is the
    root directory itself: then every key is refused. *)
Lemma safePath_key a b : is_id a -> is_id b ->
  safePath (Some cwd) s (key_of a b) =
    match root_path with
    | [] => inl SErrInvalidPath
    | _ => inr (canonical (root_path ++ [a; b]))
    end.
Proof using Hcwd.
  intros Ha Hb. unfold safePath. rewrite !Abs_stack by done.
  rewrite abs_stack_join by (by apply key_relative). rewrite key_stack by done.
  simpl. rewrite <- app_assoc. simpl. fold root_path. pose proof root_good as Hr.
  assert (Forall good (root_path ++ [a; b])) as Hl.
  { apply Forall_app; split; [done|]. repeat constructor; by apply is_id_good. }
  set (root := root_path) in *. clearbody root.
  destruct (HasPrefix _ _) eqn:Hp; simpl.
  - apply prefix_components in Hp as [Hne _]; [|done|done]. by destruct root.
  - destruct (streq _ _) eqn:E; simpl; bool_facts.
    + apply canonical_inj in E; [|done|done]. apply (f_equal length) in E.
      rewrite length_app in E. simpl in E. lia.
    + destruct root as [|c root]; [done|]. apply not_true_iff_false in Hp. destruct Hp.
      apply prefix_components; [done|done|]. split; [done|]. by exists [a; b].
Qed.
End LocalPaths.

(** ** The local store is a map *)
#[export] Instance is_id_dec a : Decision (is_id a).
Proof. unfold is_id. apply _. Defined.

Fixpoint strip (l p : list string) : option (list string) :=
  match l, p with
  | [], _ => Some p
  | c :: l, d :: p => if streq c d then strip l p else None
  | _ :: _, [] => None
  end.

Lemma strip_spec l p q : strip l p = Some q <-> p = (l ++ q)%list.
Proof.
  revert p; induction l as [|c l IH]; intros p; simpl; [naive_solver|]. destruct p as [|d p]; [done|].
  destruct (streq c d) eqn:E; bool_facts; [rewrite IH|]; naive_solver.
Qed.

Definition node_data (n : node) : option bytes := match n with FileNode d => Some d | DirNode => None end.

Section LocalOk.
Context (cwd : string) (Hcwd : IsAbs cwd = true) (s : LocalStore).
Abbreviation root := (root_path cwd s).
Context (Hroot : root <> []).

(** The key of the file at a path, if it is a blob's. *)
Definition local_key (p : list string) : option string :=
  match strip root p with
  | Some [a; b] => if decide (is_id a /\ is_id b) then Some (key_of a b) else None
  | _ => None
  end.

Lemma local_key_spec p k : local_key p = Some k <->
  exists a b, p = (root ++ [a; b])%list /\ is_id a /\ is_id b /\ k = key_of a b.
Proof using.
  unfold local_key. split.
  - destruct (strip root p) as [[|a [|b [|]]]|] eqn:E; try done. case_decide as Hd; [|done].
    intros [= <-]. apply strip_spec in E. naive_solver.
  - intros (a & b & -> & Ha & Hb & ->). rewrite (proj2 (strip_spec root _ [a; b])) by done.
    by rewrite decide_True.
Qed.

Lemma local_key_inj p q k : local_key p = Some k -> local_key q = Some k -> p = q.
Proof using.
  intros (a & b & -> & Ha & _ & ->)%local_key_spec (a' & b' & -> & Ha' & _ & E)%local_key_spec.
  by apply key_of_inj in E as [-> ->].
Qed.

Definition local_blobs (w : os) : gmap string bytes := reindex local_key (omap node_data (nodes w)).

#[local] Instance local_Store : Store os := {|
  Put := LocalStore_Put (Some cwd) s;
  Get := LocalStore_Get (Some cwd) s;
  blobs_of := local_blobs |}.

(** Directories may be added anywhere and change no blob. *)
Definition more_dirs (w w' : os) : Prop :=
  faults w' = faults w /\
  forall p, nodes w' !! p = nodes w !! p \/ (nodes w !! p = None /\ nodes w' !! p = Some DirNode).

Lemma mkdir_all_more done todo w : let '(e, w') := mkdir_all done todo w in more_dirs w w'.
Proof using.
  revert done w; induction todo as [|c todo IH]; intros done w; simpl; [by split; [|left]|].
  destruct (node_at w (done ++ [c])) as [[|d]|] eqn:En; [apply IH|by split; [|left]|].
  specialize (IH (done ++ [c])%list (mkOs (<[(done ++ [c])%list := DirNode]> (nodes w)) (faults w))).
  destruct (mkdir_all _ _ _) as [e w']. destruct IH as [Hf Hn]. split; [done|]. intros p.
  destruct (decide (p = (done ++ [c])%list)) as [->|Hne].
  - right. assert (nodes w !! (done ++ [c])%list = None) as Hnone by (unfold node_at in En; by destruct done).
    split; [done|]. destruct (Hn (done ++ [c])%list) as [E|[E _]]; simpl in E; rewrite lookup_insert_eq in E; done.
  - specialize (Hn p). simpl in Hn. by rewrite lookup_insert_ne in Hn.
Qed.

Lemma more_dirs_blobs w w' : more_dirs w w' -> local_blobs w' = local_blobs w.
Proof using.
  intros [_ Hn]. unfold local_blobs. f_equal. apply map_eq. intros p. rewrite !lookup_omap.
  by destruct (Hn p) as [->|[-> ->]].
Qed.

(** Without a write cut short, a failed put leaves the blobs as they are and a
    successful one adds its own. *)
Definition no_cut (w : os) : Prop := forall n, Cut n ∉ faults w.

Lemma next_no_cut w : no_cut w -> let '(f, w') := next_fault w in
  no_cut w' /\ nodes w' = nodes w /\ (forall n, f <> Cut n).
Proof using.
  unfold next_fault, no_cut. destruct (faults w) as [|f fs] eqn:E; intros Hn; [by rewrite E|]. simpl.
  split; [|split]; [|done|].
  - intros n Hin. apply (Hn n). by right.
  - intros n ->. apply (Hn n). by left.
Qed.

Lemma write_blob w a b d : is_id a -> is_id b ->
  local_blobs (mkOs (<[(root ++ [a; b])%list := FileNode d]> (nodes w)) (faults w)) =
  <[key_of a b := d]> (local_blobs w).
Proof using.
  intros Ha Hb. unfold local_blobs. simpl. erewrite omap_insert_Some by done.
  apply reindex_insert; [apply local_key_inj|]. apply local_key_spec. eauto 10.
Qed.

Lemma root_file_good a b : is_id a -> is_id b -> Forall good (root ++ [a; b]).
Proof using.
  intros Ha Hb. apply Forall_app; split; [apply root_good|]. repeat constructor; by apply is_id_good.
Qed.

(** A put of a key, on the node tree. *)
Lemma put_key a b d w : is_id a -> is_id b ->
  LocalStore_Put (Some cwd) s (key_of a b) d w =
  let p := canonical (root ++ [a; b]) in
  match MkdirAll (canonical (root ++ [a])) w with
  | (Some e, w) => (Some e, w)
  | (None, w) => WriteFile p d w
  end.
Proof using Hcwd Hroot.
  intros Ha Hb. unfold LocalStore_Put. rewrite safePath_key by done.
  destruct root as [|c r] eqn:Er; [done|]. rewrite <- Er in *. cbv zeta.
  replace (root ++ [a; b])%list with ((root ++ [a]) ++ [b])%list by (by rewrite <- app_assoc).
  pose proof (root_file_good a b Ha Hb) as Hg. rewrite (app_assoc root [a] [b] : root ++ [a; b] = _)%list in Hg.
  apply Forall_app in Hg as [Hg1 Hg2]. rewrite Dir_canonical; [done| |done|by inversion Hg2].
  by destruct root.
Qed.

Lemma removelast_key a b : removelast (root ++ [a; b]) = (root ++ [a])%list.
Proof using.
  replace (root ++ [a; b])%list with ((root ++ [a]) ++ [b])%list by (by rewrite <- app_assoc). apply removelast_last.
Qed.

Lemma local_map : StoreOk false os no_cut.
Proof using Hcwd Hroot.
  constructor.
  - intros k d w Hw (a & b & Ha & Hb & ->). fold (key_of a b). unfold Put, blobs_of, local_Store.
    rewrite put_key by done. cbv zeta. unfold MkdirAll. pose proof (next_no_cut w Hw) as H1.
    destruct (next_fault w) as [f w1]. destruct H1 as (Hw1 & En1 & Hf1).
    assert (local_blobs w1 = local_blobs w) as Eb1 by (unfold local_blobs; by rewrite En1).
    destruct f; [|by rewrite Eb1|by destruct (Hf1 n)].
    pose proof (mkdir_all_more [] (path_of (canonical (root ++ [a]))) w1) as Hm.
    destruct (mkdir_all _ _ w1) as [e w2]. pose proof (more_dirs_blobs _ _ Hm) as Eb2.
    assert (no_cut w2) as Hw2 by (unfold no_cut; by rewrite (proj1 Hm)).
    destruct e as [e|]; [by rewrite Eb2, Eb1|].
    unfold WriteFile. rewrite path_of_canonical by (by apply root_file_good).
    pose proof (next_no_cut w2 Hw2) as H3. destruct (next_fault w2) as [f w3]. destruct H3 as (Hw3 & En3 & Hf3).
    assert (local_blobs w3 = local_blobs w) as Eb3 by (rewrite <- Eb1, <- Eb2; unfold local_blobs; by rewrite En3).
    rewrite <- Eb3. destruct f; [|done|by destruct (Hf3 n)].
    destruct (node_at w3 (removelast _)) as [[|]|]; [|done..].
    destruct (node_at w3 (root ++ [a; b])) as [[|]|]; [done|..]; (split; [done|by apply write_blob]).
  - intros k w Hw (a & b & Ha & Hb & ->). fold (key_of a b). unfold Get, blobs_of, local_Store, LocalStore_Get.
    rewrite safePath_key by done. destruct root as [|c r] eqn:Er; [done|]. rewrite <- Er in *.
    unfold ReadFile. rewrite path_of_canonical by (by apply root_file_good).
    pose proof (next_no_cut w Hw) as H1. destruct (next_fault w) as [f w1]. destruct H1 as (Hw1 & En & _).
    assert (local_blobs w1 = local_blobs w) as Eb by (unfold local_blobs; by rewrite En).
    destruct f; [|by rewrite Eb..]. destruct (blocked _ _ _); [by rewrite Eb|].
    assert (local_key (root ++ [a; b]) = Some (key_of a b)) as Hk by (apply local_key_spec; eauto 10).
    assert (node_at w1 (root ++ [a; b]) = nodes w !! (root ++ [a; b])%list) as -> by (rewrite <- En; by rewrite Er).
    destruct (nodes w !! _) as [[|d]|] eqn:E; (split; [done|]); (split; [done|]); [done|..].
    + apply lookup_reindex; [apply local_key_inj|]. exists (root ++ [a; b])%list. split; [done|]. by rewrite lookup_omap, E.
    + apply (reindex_None _ local_key_inj _ _ _ Hk). by rewrite lookup_omap, E.
Qed.

(** As long as no write is cut short, files under a root are a blob store:
    refused system calls included. *)
Theorem localstore_is_map : StoreOk false os no_cut.
Proof using Hcwd Hroot. exact local_map. Qed.

(** A tree as the store itself builds it: no file where a directory belongs, no
    directory where a blob belongs. *)
Definition is_file (o : option node) : Prop := exists d, o = Some (FileNode d).
Record tree_ok (w : os) : Prop := {
  no_file_above q c r : root = (q ++ c :: r)%list -> ~ is_file (nodes w !! (q ++ [c])%list);
  no_file_at_module a : ~ is_file (nodes w !! (root ++ [a])%list);
  no_dir_at_blob a b : nodes w !! (root ++ [a; b])%list <> Some DirNode }.

Definition local_live (w : os) : Prop := faults w = [] /\ tree_ok w.

Lemma mkdir_all_ok done todo w :
  (forall q c r, todo = (q ++ c :: r)%list -> ~ is_file (nodes w !! (done ++ q ++ [c])%list)) ->
  node_at w done = Some DirNode ->
  let '(e, w') := mkdir_all done todo w in e = None /\ node_at w' (done ++ todo) = Some DirNode.
Proof using.
  revert done w; induction todo as [|c todo IH]; intros done w Hf Hd; simpl; [by rewrite app_nil_r|].
  assert (forall w : os, node_at w (done ++ [c]) = nodes w !! (done ++ [c])%list) as Hat by (by destruct done).
  pose proof (Hf [] c todo eq_refl) as Hc. simpl in Hc.
  replace (done ++ c :: todo)%list with ((done ++ [c]) ++ todo)%list by (by rewrite <- app_assoc).
  rewrite Hat. destruct (nodes w !! (done ++ [c])%list) as [[|d]|] eqn:En.
  - apply IH; [|by rewrite Hat]. intros q c' r ->. rewrite <- app_assoc. apply (Hf (c :: q) c' r eq_refl).
  - destruct Hc. by exists d.
  - apply IH; [|by rewrite Hat; simpl; rewrite lookup_insert_eq].
    intros q c' r ->. rewrite <- app_assoc. simpl. intros [d Hd2].
    apply lookup_insert_Some in Hd2 as [[_ ?]|[_ Hd2]]; [done|].
    apply (Hf (c :: q) c' r eq_refl). by exists d.
Qed.

(** Making directories does not look at the faults to come. *)
Lemma mkdir_faults done todo w w' fs :
  mkdir_all done todo w = (None, w') ->
  mkdir_all done todo (mkOs (nodes w) fs) = (None, mkOs (nodes w') fs).
Proof using.
  revert done w; induction todo as [|c todo IH]; intros done w; simpl; [by intros [= <-]|].
  change (node_at (mkOs (nodes w) fs) (done ++ [c])) with (node_at w (done ++ [c])).
  destruct (node_at w (done ++ [c])) as [[|d]|]; [apply IH|done|].
  intros Hm. apply IH in Hm. exact Hm.
Qed.

Lemma mkdir_all_short done todo w p : (length done + length todo < length p)%nat ->
  nodes (mkdir_all done todo w).2 !! p = nodes w !! p.
Proof using.
  revert done w; induction todo as [|c todo IH]; intros done w Hl; simpl in *; [done|].
  destruct (node_at w (done ++ [c])) as [[|d]|]; [|done|].
  - apply IH. rewrite length_app. simpl. lia.
  - rewrite IH by (rewrite length_app; simpl; lia). simpl. apply lookup_insert_ne.
    intros <-. rewrite length_app in Hl. simpl in Hl. lia.
Qed.

Lemma more_dirs_tree w w' : more_dirs w w' -> tree_ok w ->
  (forall a b, nodes w' !! (root ++ [a; b])%list = nodes w !! (root ++ [a; b])%list) -> tree_ok w'.
Proof using.
  intros [_ Hn] [T1 T2 T3] Hsame.
  assert (forall p, is_file (nodes w' !! p) -> is_file (nodes w !! p)) as Hfile.
  { intros p [d Hd]. destruct (Hn p) as [E|[_ E]]; [exists d; congruence|congruence]. }
  split; [intros q c r E Hf; by apply (T1 q c r E), Hfile|intros c Hf; by apply (T2 c), Hfile|].
  intros a b. rewrite Hsame. apply T3.
Qed.

(** Making a module's directory always succeeds in such a tree. *)
Lemma mkdir_module w a : is_id a -> faults w = [] -> tree_ok w ->
  exists w', MkdirAll (canonical (root ++ [a])) w = (None, w') /\ faults w' = [] /\ tree_ok w' /\
    node_at w' (root ++ [a]) = Some DirNode /\ local_blobs w' = local_blobs w.
Proof using.
  intros Ha Hf Ht. assert (Forall good (root ++ [a])) as Hg.
  { apply Forall_app; split; [apply root_good|]. constructor; [by apply is_id_good|constructor]. }
  unfold MkdirAll, next_fault. rewrite Hf, path_of_canonical by done.
  pose proof (mkdir_all_more [] (root ++ [a]) w) as Hm. pose proof (mkdir_all_ok [] (root ++ [a]) w) as Hok.
  pose proof (fun b => mkdir_all_short [] (root ++ [a]) w (root ++ b)) as Hs.
  destruct (mkdir_all _ _ w) as [e w']. destruct Hok as [-> Hd].
  - intros q c r E [d Hd]. simpl in Hd. destruct (decide (r = [])) as [->|Hr].
    + apply app_inj_tail in E as [<- <-]. apply (no_file_at_module _ Ht a). by exists d.
    + destruct (exists_last Hr) as (r' & z & ->). rewrite app_comm_cons, app_assoc in E.
      apply app_inj_tail in E as [E _]. apply (no_file_above _ Ht q c r' E). by exists d.
  - done.
  - exists w'. split; [done|]. split; [by rewrite (proj1 Hm)|]. split; [|split; [done|by apply more_dirs_blobs]].
    apply (more_dirs_tree _ _ Hm Ht). intros a' b'. apply Hs. rewrite !length_app. simpl. lia.
Qed.

Lemma write_tree w a b d : is_id a -> is_id b -> tree_ok w ->
  tree_ok (mkOs (<[(root ++ [a; b])%list := FileNode d]> (nodes w)) (faults w)).
Proof using.
  intros Ha Hb [T1 T2 T3].
  assert (forall p, length p <> length (root ++ [a; b]) ->
    <[(root ++ [a; b])%list := FileNode d]> (nodes w) !! p = nodes w !! p) as Hs.
  { intros p Hl. apply lookup_insert_ne. congruence. }
  split; simpl.
  - intros q c r E. rewrite Hs; [by apply (T1 q c r)|]. rewrite E, !length_app. simpl. lia.
  - intros c. rewrite Hs; [apply T2|]. rewrite !length_app. simpl. lia.
  - intros a' b' [[_ ?]|[_ Hd]]%lookup_insert_Some; [done|by apply (T3 a' b')].
Qed.

Lemma write_file_eq w a b d f : is_id a -> is_id b -> tree_ok w ->
  node_at w (root ++ [a]) = Some DirNode -> next_fault w = (f, w) -> f = NoFault ->
  WriteFile (canonical (root ++ [a; b])) d w =
    (None, mkOs (<[(root ++ [a; b])%list := FileNode d]> (nodes w)) (faults w)).
Proof using Hroot.
  intros Ha Hb Ht Hd Hn ->. unfold WriteFile. rewrite path_of_canonical by (by apply root_file_good).
  rewrite Hn, removelast_key, Hd.
  assert (node_at w (root ++ [a; b]) <> Some DirNode) as Hnd.
  { intros E. apply (no_dir_at_blob _ Ht a b). destruct root; [by destruct Hroot|exact E]. }
  by destruct (node_at w (root ++ [a; b])) as [[|]|].
Qed.

Lemma not_blocked done todo w :
  (forall q c r, todo = (q ++ c :: r)%list -> r <> [] -> ~ is_file (nodes w !! (done ++ q ++ [c])%list)) ->
  blocked done todo w = false.
Proof using.
  revert done; induction todo as [|c todo IH]; intros done Hf; [done|]. destruct todo as [|c' todo]; [done|].
  change (blocked done (c :: c' :: todo) w) with
    (match node_at w (done ++ [c]) with Some (FileNode _) => true | _ => blocked (done ++ [c]) (c' :: todo) w end).
  pose proof (Hf [] c (c' :: todo) eq_refl) as Hc. simpl in Hc.
  assert (blocked (done ++ [c]) (c' :: todo) w = false) as Hrest.
  { apply IH. intros q d r E Hr. rewrite <- app_assoc. apply (Hf (c :: q) d r); [by rewrite E|done]. }
  assert (node_at w (done ++ [c]) = nodes w !! (done ++ [c])%list) as -> by (by destruct done).
  destruct (nodes w !! (done ++ [c])%list) as [[|d]|]; [done|destruct Hc; [done|by exists d]|done].
Qed.

(** In a tree the store itself built, without faults, every put succeeds and
    every get answers with the blob, or with not-found when there is none. *)
Theorem localstore_live : StoreOk true os local_live.
Proof using Hcwd Hroot.
  pose proof local_map as Hmap.
  assert (forall w, local_live w -> no_cut w) as Hnc.
  { intros w [Hf _] n. rewrite Hf. apply not_elem_of_nil. }
  constructor.
  - intros k d w Hw (a & b & Ha & Hb & ->). fold (key_of a b). unfold Put, blobs_of, local_Store.
    rewrite put_key by done. destruct Hw as [Hf Ht]. 
    destruct (mkdir_module w a Ha Hf Ht) as (w1 & -> & Hf1 & Ht1 & Hd1 & <-). cbv zeta.
    rewrite (write_file_eq w1 a b d NoFault) by (try done; unfold next_fault; by rewrite Hf1).
    split; [by split; [|by apply write_tree]|by apply write_blob].
  - intros k w Hw Hk. pose proof (@get_ok _ _ _ _ Hmap k w (Hnc w Hw) Hk) as Hg. revert Hg.
    destruct Hk as (a & b & Ha & Hb & ->). fold (key_of a b). destruct Hw as [Hf Ht].
    unfold Get, blobs_of, local_Store, LocalStore_Get. rewrite safePath_key by done.
    destruct root as [|c r] eqn:Er; [done|]. rewrite <- Er in *.
    unfold ReadFile, next_fault. rewrite Hf, path_of_canonical by (by apply root_file_good).
    assert (node_at w (root ++ [a; b]) = nodes w !! (root ++ [a; b])%list) as -> by (by rewrite Er).
    assert (blocked [] (root ++ [a; b]) w = false) as ->.
    { apply not_blocked. intros q c' r' E Hr' [d Hd]. destruct (exists_last Hr') as (r2 & z & ->).
      rewrite app_comm_cons, app_assoc in E.
      replace (root ++ [a; b])%list with ((root ++ [a]) ++ [b])%list in E by (by rewrite <- app_assoc).
      apply app_inj_tail in E as [E _]. destruct (decide (r2 = [])) as [->|Hr2].
      - apply app_inj_tail in E as [<- <-]. apply (no_file_at_module _ Ht a). by exists d.
      - destruct (exists_last Hr2) as (r3 & z' & ->). rewrite app_comm_cons, app_assoc in E.
        apply app_inj_tail in E as [E _]. apply (no_file_above _ Ht q c' r3 E). by exists d. }
    pose proof (no_dir_at_blob _ Ht a b) as Hnd.
    destruct (nodes w !! _) as [[|d]|]; [done|..]; intros (_ & E & Hr); by split_and!.
Qed.

(** C33. Files under a root are a blob store.  As long as no write is cut short, refused
    system calls included, a get answers with what the last put under its key
    stored; and in a tree the store itself built, without faults, every put
    succeeds and every get answers. *)
Theorem localstore_is_store : StoreOk false os no_cut /\ StoreOk true os local_live.
Proof using Hcwd Hroot. split; [apply localstore_is_map|apply localstore_live]. Qed.

(** A put is not atomic: when its write stops after [n] bytes the put fails, yet
    the blob stored under the key before is gone, and the first [n] bytes of the
    new one are served in its place. *)
Theorem localstore_put_not_atomic a b d n w :
  is_id a -> is_id b -> tree_ok w -> faults w = [NoFault; Cut n] ->
  let '(e, w') := LocalStore_Put (Some cwd) s (key_of a b) d w in
  is_Some e /\ local_blobs w' = <[key_of a b := take_bytes n d]> (local_blobs w).
Proof using Hcwd Hroot.
  intros Ha Hb Ht Hf. set (w0 := mkOs (nodes w) []).
  assert (tree_ok w0) as Ht0 by (by destruct Ht).
  destruct (mkdir_module w0 a Ha eq_refl Ht0) as (w1 & Hm & Hf1 & Ht1 & Hd1 & Eb).
  rewrite put_key by done. cbv zeta.
  assert (MkdirAll (canonical (root ++ [a])) w = (None, mkOs (nodes w1) [Cut n])) as ->.
  { unfold MkdirAll, next_fault in *. rewrite Hf. simpl in Hm.
    apply (mkdir_faults _ _ w0 w1 [Cut n]) in Hm. exact Hm. }
  unfold WriteFile, next_fault. rewrite path_of_canonical by (by apply root_file_good). simpl.
  rewrite removelast_key.
  change (node_at (mkOs (nodes w1) []) (root ++ [a])) with (node_at w1 (root ++ [a])). rewrite Hd1.
  change (node_at (mkOs (nodes w1) []) (root ++ [a; b])) with (node_at w1 (root ++ [a; b])).
  assert (node_at w1 (root ++ [a; b]) <> Some DirNode) as Hnd.
  { intros E. apply (no_dir_at_blob _ Ht1 a b). destruct root; [by destruct Hroot|exact E]. }
  pose proof (write_blob w1 a b (take_bytes n d) Ha Hb) as Hw. rewrite Hf1, Eb in Hw.
  destruct (node_at w1 (root ++ [a; b])) as [[|]|]; [done|..]; split; try done; exact Hw.
Qed.

(** At the root directory the containment test refuses the registry's own keys. *)
Lemma localstore_root_refuses k d w : root_path cwd s = [] -> valid_key k ->
  LocalStore_Put (Some cwd) s k d w = (Some SErrInvalidPath, w).
Proof using Hcwd.
  clear Hroot. intros Hr (a & b & Ha & Hb & ->). fold (key_of a b). unfold LocalStore_Put. rewrite safePath_key by done. by rewrite Hr.
Qed.
End LocalOk.
