(* ===== verification/Prog.v ===== *)
(** * Handlers as programs over the operation signature

    A handler is a finite tree of operations ([prog]): each node performs one
    operation of [Iface.eff] and continues with its answer.  Handlers return an
    [outcome]: a value, an error returned early, or a nil-pointer panic.  The
    file gives three readings of a program: [run], which executes it in an
    environment; [awp], a weakest precondition over the specified operations;
    and [rgwp], the same with other requests interleaved between any two
    operations. *)
From S2P Require Import Prelude Model Iface.

Inductive prog (A : Type) : Type :=
| Ret (a : A)
| Vis {X : Type} (e : eff X) (k : X -> prog A).
Arguments Ret {A} a.
Arguments Vis {A X} e k.

Fixpoint pbind {A B} (p : prog A) (f : A -> prog B) : prog B :=
  match p with
  | Ret a => f a
  | Vis e k => Vis e (fun x => pbind (k x) f)
  end.

#[export] Instance prog_ret : MRet prog := @Ret.
#[export] Instance prog_bind : MBind prog := fun A B f p => pbind p f.

Definition call {X} (e : eff X) : prog X := Vis e Ret.

(** ** Go control flow *)
Inductive outcome (E A : Type) :=
| Done (a : A)
| Fail (e : E)
| Panic.
Arguments Done {E A} a.
Arguments Fail {E A} e.
Arguments Panic {E A}.

Definition H (E A : Type) : Type := prog (outcome E A).

Definition hbind {E A B} (f : A -> H E B) (p : H E A) : H E B :=
  pbind p (fun o => match o with
                    | Done a => f a
                    | Fail e => Ret (Fail e)
                    | Panic => Ret Panic
                    end).

#[export] Instance H_ret E : MRet (H E) := fun A a => Ret (Done a).
#[export] Instance H_bind E : MBind (H E) := @hbind E.

Definition perform {E X} (e : eff X) : H E X := Vis e (fun x => Ret (Done x)).
Definition repo {E X} (o : repo_op X) : H E X := perform (Repo o).
Definition lift {E A} (p : prog A) : H E A := pbind p (fun a => Ret (Done a)).

(** An early [return nil, e]. *)
Definition fail {E A} (e : E) : H E A := Ret (Fail e).

(** [x, err := ...; if err != nil { return f(err) }], then a use of [x]: a nil
    pointer without an error would panic. *)
Definition need {E A} (x : goret A) (f : ierr -> E) : H E A :=
  match err x, val x with
  | Some e, _ => Ret (Fail (f e))
  | None, Some a => Ret (Done a)
  | None, None => Ret Panic
  end.

(** [if err := ...; err != nil { return f(err) }]. *)
Definition check {E A} (x : option A) (f : A -> E) : H E unit :=
  match x with Some e => Ret (Fail (f e)) | None => Ret (Done ()) end.

(** [if !b { return e }]. *)
Definition guard_ {E} (b : bool) (e : E) : H E unit :=
  if b then Ret (Done ()) else Ret (Fail e).

(** [for _, v := range vs { body }], with the variables the body assigns threaded through. *)
Fixpoint for_range {E V Acc} (vs : list V) (acc : Acc) (body : Acc -> V -> H E Acc) : H E Acc :=
  match vs with
  | [] => Ret (Done acc)
  | v :: vs => hbind (fun acc' => for_range vs acc' body) (body acc v)
  end.

(** ** Execution *)
Class Env (W : Type) := {
  run_eff : forall X, eff X -> W -> X * W;
  view : W -> State }.
Arguments run_eff {W _ X}.

Fixpoint run {W} `{Env W} {A} (p : prog A) (w : W) : A * W :=
  match p with
  | Ret a => (a, w)
  | Vis e k => let '(x, w') := run_eff e w in run (k x) w'
  end.

(** An environment implements the specified operations. *)
Class EnvOk `{Bcrypt} (md : mode) (W : Type) `{Env W} : Prop :=
  run_eff_ok : forall X (e : eff X) w, let '(x, w') := run_eff e w in eff_spec md e (view w) x (view w').

(** ** Weakest preconditions *)
Section Wp.
Context `{Bcrypt} (md : mode).

Fixpoint awp {A} (p : prog A) (Q : A -> State -> Prop) (s : State) : Prop :=
  match p with
  | Ret a => Q a s
  | Vis e k => forall x s', eff_spec md e s x s' -> awp (k x) Q s'
  end.

Lemma awp_mono {A} (p : prog A) (Q Q' : A -> State -> Prop) s :
  awp p Q s -> (forall a s', Q a s' -> Q' a s') -> awp p Q' s.
Proof.
  revert s; induction p as [a|X e k IH]; intros s Hp HQ; simpl in *; [auto|].
  intros x s' He. eapply IH; eauto.
Qed.

Lemma awp_pbind {A B} (p : prog A) (f : A -> prog B) Q s :
  awp (pbind p f) Q s <-> awp p (fun a s' => awp (f a) Q s') s.
Proof.
  revert s; induction p as [a|X e k IH]; intros s; simpl; [done|]. by setoid_rewrite IH.
Qed.

(** The continuation of an outcome. *)
Definition after {E A B} (f : A -> H E B) (Q : outcome E B -> State -> Prop)
    (o : outcome E A) (s : State) : Prop :=
  match o with
  | Done a => awp (f a) Q s
  | Fail e => Q (Fail e) s
  | Panic => Q Panic s
  end.

Lemma awp_hbind {E A B} (p : H E A) (f : A -> H E B) Q s :
  awp (hbind f p) Q s <-> awp p (after f Q) s.
Proof.
  unfold hbind. rewrite awp_pbind. split; intros Hp; eapply awp_mono; try exact Hp.
  - intros [] ? ?; done.
  - intros [] ? ?; done.
Qed.

Lemma awp_bind {E A B} (p : H E A) (f : A -> H E B) Q s :
  awp (p ≫= f) Q s <-> awp p (after f Q) s.
Proof. apply awp_hbind. Qed.

Lemma awp_lift {E A} (p : prog A) (Q : outcome E A -> State -> Prop) s :
  awp (lift p) Q s <-> awp p (fun a s' => Q (Done a) s') s.
Proof. unfold lift. by rewrite awp_pbind. Qed.

(** A loop keeps an invariant of its accumulator and the state; what its body
    may return early is the loop's early return. *)
Lemma awp_for_range {E V Acc} (I : list V -> Acc -> State -> Prop)
    (vs : list V) (acc : Acc) (body : Acc -> V -> H E Acc) Q s :
  I vs acc s ->
  (forall v vs acc s, I (v :: vs) acc s ->
     awp (body acc v) (fun o s' => match o with
                                   | Done acc' => I vs acc' s'
                                   | Fail e => Q (Fail e) s'
                                   | Panic => Q Panic s'
                                   end) s) ->
  (forall acc s, I [] acc s -> Q (Done acc) s) ->
  awp (for_range vs acc body) Q s.
Proof.
  intros HI Hbody Hend. revert acc s HI. induction vs as [|v vs IH]; intros acc s HI; simpl; [auto|].
  rewrite awp_hbind. eapply awp_mono; [by apply Hbody|].
  intros [acc'|e|] s' Hs; simpl in *; auto.
Qed.

(** A proved precondition holds of every execution. *)
Lemma awp_run {W} `{Env W, !EnvOk md W} {A} (p : prog A) Q (w : W) :
  awp p Q (view w) -> let '(a, w') := run p w in Q a (view w').
Proof.
  revert w; induction p as [a|X e k IH]; intros w Hp; simpl in *; [done|].
  pose proof (run_eff_ok X e w) as He. destruct (run_eff e w) as [x w'] eqn:E.
  apply IH, Hp, He.
Qed.
End Wp.

(** ** Other requests in between *)
Section RelyGuarantee.
Context `{Bcrypt} (md : mode) (I : State -> Prop) (G : State -> State -> Prop) `{!PreOrder G}.

(** Before each operation, other requests may have moved the state along [G]
    to any state satisfying [I]; every operation of this program keeps [I] and
    moves along [G] too. *)
Fixpoint rgwp {A} (p : prog A) (Q : A -> State -> Prop) (s : State) : Prop :=
  match p with
  | Ret a => Q a s
  | Vis e k => forall s1, G s s1 -> I s1 -> forall x s2, eff_spec md e s1 x s2 ->
      (G s1 s2 /\ I s2) /\ rgwp (k x) Q s2
  end.

Lemma rgwp_mono {A} (p : prog A) (Q Q' : A -> State -> Prop) s :
  rgwp p Q s -> (forall a s', Q a s' -> Q' a s') -> rgwp p Q' s.
Proof.
  revert s; induction p as [a|X e k IH]; intros s Hp HQ; simpl in *; [auto|].
  intros s1 Hs Hi x s2 He. destruct (Hp _ Hs Hi _ _ He). split; [done|]. eapply IH; eauto.
Qed.

Lemma rgwp_pbind {A B} (p : prog A) (f : A -> prog B) Q s :
  rgwp p (fun a s' => rgwp (f a) Q s') s -> rgwp (pbind p f) Q s.
Proof.
  revert s; induction p as [a|X e k IH]; intros s Hp; simpl in *; [done|].
  intros s1 Hs Hi x s2 He. destruct (Hp _ Hs Hi _ _ He). auto.
Qed.

Definition rg_after {E A B} (f : A -> H E B) (Q : outcome E B -> State -> Prop)
    (o : outcome E A) (s : State) : Prop :=
  match o with
  | Done a => rgwp (f a) Q s
  | Fail e => Q (Fail e) s
  | Panic => Q Panic s
  end.

Lemma rgwp_bind {E A B} (p : H E A) (f : A -> H E B) Q s :
  rgwp p (rg_after f Q) s -> rgwp (p ≫= f) Q s.
Proof.
  intros Hp. apply (rgwp_pbind p). eapply rgwp_mono; [exact Hp|]. by intros [] ? ?.
Qed.

(** A loop keeps any property of the state that no request undoes. *)
Lemma rgwp_for_range {E V Acc} (J : State -> Prop) (vs : list V) (acc : Acc) (body : Acc -> V -> H E Acc) s :
  J s ->
  (forall v acc s, J s -> rgwp (body acc v) (fun _ s' => J s') s) ->
  rgwp (for_range vs acc body) (fun _ s' => J s') s.
Proof.
  intros HJ Hb. revert acc s HJ. induction vs as [|v vs IH]; intros acc s HJ; simpl; [done|].
  apply rgwp_bind. eapply rgwp_mono; [by apply Hb|]. intros [] ? ?; simpl; auto.
Qed.

(** A thread stays safe when others move the state. *)
Lemma rgwp_stable {A} (p : prog A) s s' :
  rgwp p (fun _ _ => True) s -> G s s' -> rgwp p (fun _ _ => True) s'.
Proof.
  destruct p as [a|X e k]; simpl; [done|]. intros Hp Hs s1 Hs1. apply Hp. by etrans.
Qed.

(** A pool of requests in flight: any one of them takes its next step, or a
    new request of the served kind arrives. *)
Context (Serves : prog () -> Prop).

Inductive pool_step : list (prog ()) * State -> list (prog ()) * State -> Prop :=
| pool_op ps1 ps2 X (e : eff X) k x s s' :
    eff_spec md e s x s' ->
    pool_step (ps1 ++ Vis e k :: ps2, s) (ps1 ++ k x :: ps2, s')
| pool_spawn ps p s : Serves p -> pool_step (ps, s) (p :: ps, s).

Hypothesis Serves_ok : forall p s, Serves p -> rgwp p (fun _ _ => True) s.

Lemma pool_step_safe ps s ps' s' :
  pool_step (ps, s) (ps', s') -> I s -> Forall (fun p => rgwp p (fun _ _ => True) s) ps ->
  G s s' /\ I s' /\ Forall (fun p => rgwp p (fun _ _ => True) s') ps'.
Proof.
  intros Hstep. remember (ps, s) as c eqn:E. remember (ps', s') as c' eqn:E'.
  revert ps s ps' s' E E'. destruct Hstep as [ps1 ps2 X e k x s s' He|ps p s Hp];
    intros qs t qs' t' [= <- <-] [= <- <-] Hi Hall.
  - apply Forall_app in Hall as [H1 [Hv H2]%Forall_cons]. simpl in Hv.
    destruct (Hv s (PreOrder_Reflexive s) Hi x s' He) as [[HG HI] Hk]. split; [done|]. split; [done|].
    apply Forall_app; split; [|constructor; [done|]].
    + eapply Forall_impl; [exact H1|]. intros p Hp. exact (rgwp_stable _ _ _ Hp HG).
    + eapply Forall_impl; [exact H2|]. intros p Hp. exact (rgwp_stable _ _ _ Hp HG).
  - split; [reflexivity|]. split; [done|]. constructor; auto.
Qed.

(** Every interleaving of served requests keeps [I] and moves along [G]. *)
Lemma pool_safe ps s ps' s' :
  rtc pool_step (ps, s) (ps', s') -> I s -> Forall (fun p => rgwp p (fun _ _ => True) s) ps ->
  G s s' /\ I s'.
Proof.
  intros Hsteps. remember (ps, s) as c eqn:E. remember (ps', s') as c' eqn:E'.
  revert ps s E. induction Hsteps as [c|c c1 c2 Hstep _ IH]; intros ps s E Hi Hall; subst.
  - simplify_eq. by split.
  - destruct c1 as [ps1 s1]. destruct (pool_step_safe _ _ _ _ Hstep Hi Hall) as (HG & Hi1 & Hall1).
    destruct (IH eq_refl ps1 s1 eq_refl Hi1 Hall1). split; [by etrans|done].
Qed.
End RelyGuarantee.

(** ** Read-only programs

    They read the tables and the clock; the blobs they leave alone altogether. *)
Definition op_reads {X} (o : repo_op X) : bool :=
  match o with
  | Users_Create _ | Orgs_Create _ | Orgs_AddMember _ _ _ | Orgs_RemoveMember _ _
  | Modules_Create _ | Modules_SetVisibility _ _ | Modules_Delete _ | Commits_Create _
  | Labels_Upsert _ | Tokens_Create _ | Tokens_Revoke _ _ | Tokens_DeleteExpired
  | Tokens_DeleteByUserAndNote _ _ => false
  | _ => true
  end.

Definition eff_reads {X} (e : eff X) : bool :=
  match e with
  | Repo o => op_reads o
  | StorePut _ _ | StoreGet _ => false
  | _ => true
  end.

Fixpoint read_only {A} (p : prog A) : Prop :=
  match p with
  | Ret _ => True
  | Vis e k => eff_reads e = true /\ (forall x, read_only (k x))
  end.

(** ** Proof rules *)
Lemma state_eq s s' : tables s' = tables s -> blobs s' = blobs s -> s' = s.
Proof. destruct s, s'; simpl; congruence. Qed.

Lemma repo_spec_read md X (o : repo_op X) t x t' :
  op_reads o = true -> repo_spec md o t x t' -> t' = t.
Proof. destruct o; simpl; try done; by intros _ [? _]. Qed.

Lemma eff_spec_read `{Bcrypt} md X (e : eff X) s x s' :
  eff_reads e = true -> eff_spec md e s x s' -> s' = s.
Proof.
  destruct e; simpl; try done; try (by intros _ [? _]); try (by intros _ ?).
  intros Ho [Hr Hb]. apply state_eq; [|done]. by eapply repo_spec_read.
Qed.

Section Rules.
Context `{Bcrypt} (md : mode).
Implicit Types s : State.

Lemma awp_ret {E A} (a : A) (Q : outcome E A -> State -> Prop) s :
  Q (Done a) s -> awp md (mret a : H E A) Q s.
Proof. done. Qed.

(** A reading repository call. *)
Lemma awp_read {E X B} (o : repo_op X) (f : X -> H E B) Q s :
  op_reads o = true ->
  (forall x, repo_spec md o (tables s) x (tables s) -> awp md (f x) Q s) ->
  awp md (repo o ≫= f) Q s.
Proof.
  intros Hr Hf. apply awp_bind. simpl. intros x s' [Hs Hb].
  pose proof (repo_spec_read _ _ _ _ _ _ Hr Hs) as E1.
  assert (s' = s) as -> by (by apply state_eq). auto.
Qed.

(** A writing repository call. *)
Lemma awp_write {E X B} (o : repo_op X) (f : X -> H E B) Q s :
  (forall x t', repo_spec md o (tables s) x t' -> awp md (f x) Q (mkState t' (blobs s))) ->
  awp md (repo o ≫= f) Q s.
Proof.
  intros Hf. apply awp_bind. simpl. intros x s' [Hs Hb].
  assert (s' = mkState (tables s') (blobs s)) as -> by (by apply state_eq). auto.
Qed.

Lemma awp_perform {E X B} (e : eff X) (f : X -> H E B) Q s :
  (forall x s', eff_spec md e s x s' -> awp md (f x) Q s') ->
  awp md (perform e ≫= f) Q s.
Proof. intros Hf. apply awp_bind. simpl. auto. Qed.

Lemma awp_need {E A B} (P : A -> Prop) (l : list A) (x : goret A) (h : ierr -> E) (f : A -> H E B) Q s :
  gets md P l x ->
  (forall a, a ∈ l -> P a -> awp md (f a) Q s) ->
  ((forall a, a ∈ l -> ~ P a) -> Q (Fail (h ErrNotFound)) s) ->
  (forall m, live md = false -> Q (Fail (h (ErrOther m))) s) ->
  awp md (need x h ≫= f) Q s.
Proof.
  intros Hx Ha Hn Ho. apply awp_bind. unfold need, gets in *.
  destruct (err x) as [[|m]|]; simpl.
  - apply Hn, Hx.
  - apply Ho, Hx.
  - destruct Hx as (a & -> & Hin & HP). simpl. auto.
Qed.

(** A listing with its error check. *)
Lemma awp_need_list {E A B} (R : list A -> Prop) (x : goret (list A)) (h : ierr -> E)
    (f : list A -> H E B) Q s :
  finds md R x ->
  (forall l, R l -> awp md (f l) Q s) ->
  (forall e, live md = false -> Q (Fail (h e)) s) ->
  awp md (need x h ≫= f) Q s.
Proof.
  intros Hx Hl Ho. apply awp_bind. unfold need, finds in *.
  destruct (err x) as [e|]; simpl; [by apply Ho|]. destruct Hx as (l & -> & HR). simpl. auto.
Qed.

Lemma awp_check {E X B} (x : option X) (h : X -> E) (f : unit -> H E B) Q s :
  (x = None -> awp md (f ()) Q s) ->
  (forall e, x = Some e -> Q (Fail (h e)) s) ->
  awp md (check x h ≫= f) Q s.
Proof. intros Hn Hs. apply awp_bind. destruct x; simpl; auto. Qed.

Lemma awp_guard {E B} (b : bool) (e : E) (f : unit -> H E B) Q s :
  (b = true -> awp md (f ()) Q s) ->
  (b = false -> Q (Fail e) s) ->
  awp md (guard_ b e ≫= f) Q s.
Proof. intros Ht Hf. apply awp_bind. destruct b; simpl; auto. Qed.

Lemma awp_fail {E A} (e : E) (Q : outcome E A -> State -> Prop) s :
  Q (Fail e) s -> awp md (fail e) Q s.
Proof. done. Qed.

(** A called program, by its own specification. *)
Lemma awp_call {E A B} (p : H E A) (P : outcome E A -> State -> Prop) (f : A -> H E B) Q s :
  awp md p P s ->
  (forall a s', P (Done a) s' -> awp md (f a) Q s') ->
  (forall e s', P (Fail e) s' -> Q (Fail e) s') ->
  (forall s', P Panic s' -> Q Panic s') ->
  awp md (p ≫= f) Q s.
Proof.
  intros Hp Hd He Hk. apply awp_bind. eapply awp_mono; [exact Hp|].
  intros [] s' HP; simpl; auto.
Qed.

Lemma awp_lift_bind {E A B} (p : prog A) (P : A -> State -> Prop) (f : A -> H E B) Q s :
  awp md p P s ->
  (forall a s', P a s' -> awp md (f a) Q s') ->
  awp md (lift p ≫= f) Q s.
Proof.
  intros Hp Hf. apply awp_bind, awp_lift. eapply awp_mono; [exact Hp|]. simpl. auto.
Qed.

(** A read-only program leaves the state as it is. *)
Lemma awp_read_only {A} (p : prog A) Q s :
  read_only p -> awp md p Q s -> awp md p (fun a s' => s' = s /\ Q a s') s.
Proof.
  revert s; induction p as [a|X e k IH]; intros s; simpl; [done|].
  intros [Hr Hk] Hq x s' He. pose proof (eff_spec_read _ _ _ _ _ _ Hr He) as ->. auto.
Qed.

Lemma awp_true {A} (p : prog A) s : awp md p (fun _ _ => True) s.
Proof. revert s; induction p as [a|X e k IH]; intros s; simpl; auto. Qed.
End Rules.

(** [wp_read] steps over a reading repository call, naming its promise [Hr]. *)
Ltac wp_read x Hr := apply awp_read; [reflexivity|intros x Hr; cbn [repo_spec] in Hr; destruct Hr as [_ Hr]].
Ltac wp_get Hr := apply (awp_need _ _ _ _ _ _ _ _ Hr).

(** On a backend that does not fail, a lookup of the only matching row finds it. *)
Lemma live_gets md {R} (P : R -> Prop) (l : list R) (x : goret R) r :
  live md = true -> gets md P l x -> r ∈ l -> P r -> (forall r', r' ∈ l -> P r' -> r' = r) ->
  err x = None /\ val x = Some r.
Proof.
  unfold gets. intros Hl Hx Hr HP Hu. destruct (err x) as [[|m]|].
  - destruct Hx as [_ Hx]. by destruct (Hx r).
  - destruct Hx; congruence.
  - destruct Hx as (r' & E & Hr' & HP'). split; [done|]. rewrite E. f_equal. auto.
Qed.

(** A lookup answers with a matching row, or with no row and a reason. *)
Lemma gets_cases md {R} (P : R -> Prop) (l : list R) (x : goret R) :
  gets md P l x ->
  (exists r, err x = None /\ val x = Some r /\ r ∈ l /\ P r) \/
  (exists e, err x = Some e /\
     (live md = true -> e = ErrNotFound /\ forall r, r ∈ l -> ~ P r)).
Proof.
  unfold gets. destruct (err x) as [[|m]|].
  - intros [_ Hn]. right. eauto.
  - intros [Hl _]. right. exists (ErrOther m). split; [done|]. congruence.
  - intros (r & ? & ? & ?). left. eauto 10.
Qed.
