(* ===== verification/World.v ===== *)
(** * An executable environment

    A gorm whose tables are lists ([mem_gorm]), and a world built from it: the
    SQL stores over it, a map of blobs, a clock that ticks and a generator of
    fresh identifiers.  Both satisfy the laws the development assumes of the
    libraries, so those laws can hold together, and every handler can be run. *)
From S2P Require Import Prelude GoStd Model Iface Gorm Sql Prog.
From Stdlib Require Import Ascii.

(** ** Lists as tables *)
Class MemTables (tbl : Type -> Type) `{Schema tbl} := {
  mem : Type;
  mem_get : forall {R}, tbl R -> mem -> list R;
  mem_put : forall {R}, tbl R -> list R -> mem -> mem;
  mem_get_put {R} (t : tbl R) l m : mem_get t (mem_put t l m) = l;
  mem_get_other {R R'} (t : tbl R) (t' : tbl R') l m : tag t' <> tag t -> mem_get t' (mem_put t l m) = mem_get t' m }.

Section MemGorm.
Context `{MemTables tbl}.

(** A substring pattern [%text%], without further wildcards. *)
Definition mem_like (pattern text : string) : bool :=
  Contains (ToLower text) (of_chars (filter (fun c => c <> "%"%char) (chars pattern))).

Definition later {R} (at_ : R -> Time) (a b : R) : Prop := at_ b <= at_ a.
#[local] Instance later_dec {R} (at_ : R -> Time) : RelDecision (later at_).
Proof. intros a b. unfold later. apply _. Defined.

Definition arrange {R} (order : option (R -> Time)) (l : list R) : list R :=
  match order with None => l | Some at_ => merge_sort (later at_) l end.

Definition mem_select {R} (t : tbl R) (c : cond R) (order : option (R -> Time)) (m : mem) : list R :=
  arrange order (filter (fun r => holds mem_like c r = true) (mem_get t m)).

Definition mem_Create {R} (t : tbl R) (r : R) (m : mem) : option gorm_error * mem :=
  if existsb (conflicts t r) (mem_get t m) then (Some (GormError "unique"), m)
  else (None, mem_put t (defaults t 1 r :: mem_get t m) m).

Definition mem_Upsert {R} (t : tbl R) (cols : R -> list string) (assign : R -> R -> R) (r : R) (m : mem)
    : option gorm_error * mem :=
  let l := mem_get t m in
  if existsb (fun x => bool_decide (cols x = cols r)) l
  then (None, mem_put t ((fun x => if bool_decide (cols x = cols r) then assign (defaults t 1 r) x else x) <$> l) m)
  else mem_Create t r m.

#[export] Instance mem_gorm : Gorm tbl := {|
  handle := mem;
  like := mem_like;
  rows R t m := mem_get t m;
  Create R := mem_Create;
  Upsert R := mem_Upsert;
  First R t c order m :=
    (match mem_select t c order m with [] => inl ErrRecordNotFound | r :: _ => inr r end, m);
  Find R t c order limit m :=
    (inr match limit with None => mem_select t c order m | Some n => take n (mem_select t c order m) end, m);
  FindJoin R S t s on c m :=
    (inr (mjoin ((fun x => filter (fun r => on r x = true) (mem_get t m)) <$> mem_select s c None m)), m);
  Update R t c assign m :=
    (None, mem_put t ((fun r => if holds mem_like c r then assign r else r) <$> mem_get t m) m);
  Delete R t c m :=
    (inr (Z.of_nat (length (filter (fun r => holds mem_like c r = true) (mem_get t m)))),
     mem_put t (filter (fun r => holds mem_like c r = false) (mem_get t m)) m) |}.

Lemma arrange_perm {R} (order : option (R -> Time)) l : arrange order l ≡ₚ l.
Proof. destruct order; simpl; [apply merge_sort_Permutation|done]. Qed.

Lemma arrange_sorted {R} (order : option (R -> Time)) (l : list R) : sorted_by order (arrange order l).
Proof.
  destruct order as [at_|]; simpl; [|done]. unshelve eapply StronglySorted_merge_sort.
  - intros a b c. unfold later. lia.
  - intros a b. unfold later. lia.
Qed.

Lemma mem_create_ok {R} (t : tbl R) r m :
  let '(e, m') := mem_Create t r m in
  match e with
  | None => others_same t m m' /\ (exists now, rows t m' ≡ₚ defaults t now r :: rows t m) /\
      (forall r0, r0 ∈ rows t m -> conflicts t r r0 = false)
  | Some e => same_rows m m' /\ (exists r0, r0 ∈ rows t m /\ conflicts t r r0 = true)
  end.
Proof.
  unfold mem_Create. destruct (existsb _ _) eqn:E.
  - split; [by intros ? ?|]. apply existsb_exists in E as (r0 & Hr%list_elem_of_In & E). eauto.
  - split_and!.
    + intros R' t' Ht. by apply mem_get_other.
    + exists 1. simpl. by rewrite mem_get_put.
    + intros r0 Hr. apply not_true_is_false. intros Hc. apply not_true_iff_false in E. apply E, existsb_exists.
      exists r0. split; [by apply list_elem_of_In|done].
Qed.

Lemma mem_upsert_ok {R} (t : tbl R) cols before after assign r m :
  (unique_indexes t = before ++ cols :: after)%list ->
  let '(e, m') := mem_Upsert t cols assign r m in
  match e with
  | None => others_same t m m' /\ exists now, rows t m' ≡ₚ
      if existsb (fun x => bool_decide (cols x = cols r)) (rows t m)
      then (fun x => if bool_decide (cols x = cols r) then assign (defaults t now r) x else x) <$> rows t m
      else defaults t now r :: rows t m
  | Some e => same_rows m m' /\ exists r0 key, r0 ∈ rows t m /\ key ∈ (before ++ after)%list /\ key r = key r0
  end.
Proof.
  intros Ei. unfold mem_Upsert. simpl. destruct (existsb _ _) eqn:E.
  - split; [intros R' t' Ht; by apply mem_get_other|]. exists 1. by rewrite mem_get_put.
  - pose proof (mem_create_ok t r m) as Hc. destruct (mem_Create t r m) as [[e|] m'].
    + destruct Hc as [Hs (r0 & Hr & Hk)]. split; [done|]. unfold conflicts in Hk. rewrite Ei in Hk.
      apply existsb_exists in Hk as (key & Hin%list_elem_of_In & Ek%bool_decide_eq_true).
      exists r0, key. split; [done|]. split; [|done].
      rewrite elem_of_app in Hin |- *. rewrite elem_of_cons in Hin. destruct Hin as [?|[->|?]]; auto.
      apply not_true_iff_false in E. destruct E. apply existsb_exists. exists r0.
      split; [by apply list_elem_of_In|]. by apply bool_decide_eq_true.
    + destruct Hc as (Ho & (now & Hp) & _). split; [done|]. exists now. exact Hp.
Qed.

(** The lists keep gorm's laws, read as those of a gorm that never fails or of
    one that may. *)
#[export] Instance mem_gorm_ok live_ : GormOk live_.
Proof.
  constructor; intros.
  - pose proof (mem_create_ok t r d) as Hc. change (Create t r d) with (mem_Create t r d).
    destruct (mem_Create t r d) as [[e|] d']; [|done]. destruct Hc as [? ?]. by split.
  - change (Upsert t cols assign r d) with (mem_Upsert t cols assign r d).
    match goal with E : unique_indexes t = _ |- _ => pose proof (mem_upsert_ok t cols before after assign r d E) as Hc end.
    destruct (mem_Upsert t cols assign r d) as [[e|] d']; [|done]. destruct Hc as [? ?]. by split.
  - simpl. split; [by intros ? ?|]. unfold mem_select.
    pose proof (arrange_perm order (filter (fun r => holds mem_like c r = true) (mem_get t d))) as Hp.
    pose proof (arrange_sorted order (filter (fun r => holds mem_like c r = true) (mem_get t d))) as Hs.
    destruct (arrange _ _) as [|r rs].
    + intros r Hr. apply not_true_is_false. intros Hh. apply Permutation_nil_l in Hp.
      assert (r ∈ filter (fun r => holds mem_like c r = true) (mem_get t d)) as Hin by (by apply list_elem_of_filter).
      rewrite <- Hp in Hin. by apply elem_of_nil in Hin.
    + assert (r ∈ filter (fun r => holds mem_like c r = true) (mem_get t d)) as Hin by (rewrite <- Hp; by left).
      apply list_elem_of_filter in Hin as [Hh Hr]. split; [done|]. split; [done|].
      destruct order as [at_|]; [|done]. intros r' Hr' Hh'.
      assert (r' ∈ r :: rs) as Hin by (rewrite Hp; by apply list_elem_of_filter).
      apply elem_of_cons in Hin as [->|Hin]; [lia|]. apply StronglySorted_inv in Hs as [_ Hs].
      rewrite Forall_forall in Hs. by apply Hs.
  - simpl. split; [by intros ? ?|]. exists (mem_select t c order d).
    split; [apply arrange_perm|]. split; [apply arrange_sorted|done].
  - simpl. split; [by intros ? ?|]. done.
  - simpl. split; [intros R' t' Ht; by apply mem_get_other|]. by rewrite mem_get_put.
  - simpl. split; [intros R' t' Ht; by apply mem_get_other|]. by rewrite mem_get_put.
Qed.
End MemGorm.

(** ** The tables of the SQL schema *)
Record sql_mem := mkSqlMem {
  mem_users : list UserRow; mem_orgs : list OrgRow; mem_members : list OrgMemberRow;
  mem_modules : list ModuleRow; mem_commits : list CommitRow; mem_labels : list LabelRow;
  mem_tokens : list TokenRow }.

Definition sql_get {R} (t : sql_table R) (m : sql_mem) : list R :=
  match t in sql_table R return list R with
  | users => mem_users m | orgs => mem_orgs m | org_members => mem_members m
  | modules => mem_modules m | commits => mem_commits m | labels => mem_labels m
  | tokens => mem_tokens m
  end.

Definition sql_put {R} (t : sql_table R) (l : list R) (m : sql_mem) : sql_mem :=
  let '(mkSqlMem us os ms mo cs ls ts) := m in
  match t in sql_table R return list R -> sql_mem with
  | users => fun l => mkSqlMem l os ms mo cs ls ts
  | orgs => fun l => mkSqlMem us l ms mo cs ls ts
  | org_members => fun l => mkSqlMem us os l mo cs ls ts
  | modules => fun l => mkSqlMem us os ms l cs ls ts
  | commits => fun l => mkSqlMem us os ms mo l ls ts
  | labels => fun l => mkSqlMem us os ms mo cs l ts
  | tokens => fun l => mkSqlMem us os ms mo cs ls l
  end l.

#[export, refine] Instance sql_mem_tables : MemTables sql_table := {|
  mem := sql_mem; mem_get := @sql_get; mem_put := @sql_put |}.
Proof.
  - intros R t l []. by destruct t.
  - intros R R' t t' l [] Ht. destruct t, t'; try done; by destruct Ht.
Defined.

(** ** The world *)
Record world := mkWorld { w_db : sql_mem; w_blobs : gmap string bytes; w_ticks : nat }.

(** The clock starts here. *)
Definition epoch : Time := 100.
Definition w_now (w : world) : Time := epoch + Z.of_nat (w_ticks w).

(** A hash that shows its password: enough for a comparison that accepts it. *)
#[export] Instance world_bcrypt : Bcrypt := {| CompareHashAndPassword h pw := streq h ("bcrypt:" +:+ pw) |}.

Fixpoint letters (n : nat) : string := match n with O => "" | S n => String "a" (letters n) end.

(** Longer than every identifier in use. *)
Definition all_ids (t : Tables) : list string :=
  (User_ID <$> t_users t) ++ (Org_ID <$> t_orgs t) ++ (Mod_ID <$> t_modules t) ++
  (Label_ID <$> t_labels t) ++ (Token_ID <$> t_tokens t).
Definition fresh_id (t : Tables) : string :=
  letters (S (foldr Nat.max 0%nat (String.length <$> all_ids t))).

Definition world_view (w : world) : State := mkState (sql_tables (w_db w)) (w_blobs w).

Definition world_eff {X} (e : eff X) (w : world) : X * world :=
  match e in eff X return X * world with
  | Repo o => let '(x, d) := Repos (w_now w) o (w_db w) in (x, mkWorld d (w_blobs w) (w_ticks w))
  | StorePut k d => (None, mkWorld (w_db w) (<[k := d]> (w_blobs w)) (w_ticks w))
  | StoreGet k => (match w_blobs w !! k with Some d => inr d | None => inl SErrNotFound end, w)
  | Now => (w_now w, mkWorld (w_db w) (w_blobs w) (S (w_ticks w)))
  | NewUUID => (fresh_id (sql_tables (w_db w)), w)
  | HashPassword_eff pw => (if slen pw <=? max_password then Some ("bcrypt:" +:+ pw) else None, w)
  | Compile_eff files names => (Some names, w)
  end.

#[export] Instance world_env : Env world := {| run_eff := @world_eff; view := world_view |}.

Lemma letters_id n : is_id (letters (S n)).
Proof.
  split; [done|]. induction n as [|n IH]; simpl; constructor; [done|constructor|done|exact IH].
Qed.

Lemma letters_length n : String.length (letters n) = n.
Proof. induction n; simpl; congruence. Qed.

Lemma fresh_id_new t i : i ∈ all_ids t -> i <> fresh_id t.
Proof.
  intros Hi ->. apply (list_elem_of_fmap_2 String.length) in Hi. unfold fresh_id in Hi at 1. rewrite letters_length in Hi.
  assert (forall n l, n ∈ l -> (n <= foldr Nat.max 0 l)%nat) as Hmax.
  { intros n l. induction 1; simpl; lia. }
  apply Hmax in Hi. lia.
Qed.

(** The world implements the specified operations, and never fails by itself. *)
#[export] Instance world_ok : EnvOk (any_mode true true epoch) world.
Proof.
  intros X e w. destruct e as [X o|k d|k| | |pw|fs ns].
  - pose proof (sql_repos true epoch None (fun _ => True) (w_now w) X o (w_db w)) as Ho. unfold post in Ho.
    cbn [run_eff world_env world_eff]. destruct (Repos _ o _) as [x d]. by split.
  - by split.
  - simpl. split; [done|]. intros _. by destruct (w_blobs w !! k) eqn:E.
  - simpl. split; [done|]. split; [simpl; unfold w_now; lia|done].
  - simpl. split; [done|]. split; [apply letters_id|]. split; [|done].
    split_and!; intros r Hr; apply fresh_id_new; unfold all_ids; rewrite !elem_of_app, !list_elem_of_fmap; eauto 10.
  - simpl. split; [done|]. destruct (slen pw <=? max_password) eqn:E; bool_facts; [|by intros _].
    split; [done|apply streq_refl].
  - done.
Qed.
