(* ===== verification/MongoWorld.v ===== *)
(** * An executable MongoDB

    Collections as lists, with a driver that keeps the laws Mongo assumes; a
    second driver, also lawful, whose reads of commits fail to decode; and the
    registry run over either. *)
From S2P Require Import Prelude GoStd Model Iface Prog Mongo.
From S2P Require World.

Record mongo_mem := mkMongoMem {
  mm_users : list User; mm_orgs : list Org; mm_members : list OrgMember; mm_modules : list Mod;
  mm_commits : list Commit; mm_labels : list Label; mm_tokens : list Token }.

Definition mm_get {D} (c : collection D) (m : mongo_mem) : list D :=
  match c in collection D return list D with
  | users => mm_users m | orgs => mm_orgs m | org_members => mm_members m | modules => mm_modules m
  | commits => mm_commits m | labels => mm_labels m | tokens => mm_tokens m
  end.

Definition mm_put {D} (c : collection D) (l : list D) (m : mongo_mem) : mongo_mem :=
  let '(mkMongoMem us os ms mo cs ls ts) := m in
  match c in collection D return list D -> mongo_mem with
  | users => fun l => mkMongoMem l os ms mo cs ls ts
  | orgs => fun l => mkMongoMem us l ms mo cs ls ts
  | org_members => fun l => mkMongoMem us os l mo cs ls ts
  | modules => fun l => mkMongoMem us os ms l cs ls ts
  | commits => fun l => mkMongoMem us os ms mo l ls ts
  | labels => fun l => mkMongoMem us os ms mo cs l ts
  | tokens => fun l => mkMongoMem us os ms mo cs ls l
  end l.

Lemma mm_get_put {D} (c : collection D) l m : mm_get c (mm_put c l m) = l.
Proof. destruct m; by destruct c. Qed.

Lemma mm_get_other {D D'} (c : collection D) (c' : collection D') l m :
  col_tag c' <> col_tag c -> mm_get c' (mm_put c l m) = mm_get c' m.
Proof. intros Ht. destruct m, c, c'; try done; by destruct Ht. Qed.

(** A substring, ignoring case and the escapes of the pattern. *)
Definition mm_regex (re text : string) : bool :=
  Contains (ToLower text) (ToLower (of_chars (filter (fun c => c <> backslash) (chars re)))).

Definition mm_select {D} (c : collection D) (f : bson D) (order : option (D -> Time)) (m : mongo_mem) : list D :=
  let l := filter (fun x => selects mm_regex f x = true) (mm_get c m) in
  match order with None => l | Some at_ => @merge_sort _ (World.later at_) (World.later_dec at_) l end.

(** The first selected document of a list, and the others. *)
Fixpoint pick {D} (p : D -> bool) (l : list D) : option (D * list D) :=
  match l with
  | [] => None
  | x :: l => if p x then Some (x, l) else match pick p l with Some (y, r) => Some (y, x :: r) | None => None end
  end.

Lemma pick_Some {D} (p : D -> bool) l x r : pick p l = Some (x, r) -> p x = true /\ l ≡ₚ x :: r.
Proof.
  revert r; induction l as [|y l IH]; intros r; simpl; [done|]. destruct (p y) eqn:Ey; [by intros [= -> ->]|].
  destruct (pick p l) as [[z s]|]; [|done]. intros [= -> <-]. destruct (IH s eq_refl) as [? Hp]. split; [done|].
  rewrite Hp. constructor.
Qed.

Lemma pick_None {D} (p : D -> bool) l : pick p l = None -> forall x, x ∈ l -> p x <> true.
Proof.
  induction l as [|y l IH]; simpl; [by intros _ x ?%elem_of_nil|]. destruct (p y) eqn:Ey; [done|].
  destruct (pick p l) as [[]|]; [done|]. intros _ x [->|Hx]%elem_of_cons; [congruence|by apply IH].
Qed.

(** [faulty]: no commit document decodes. *)
Definition mm_FindOne (faulty : bool) {D} (c : collection D) : bson D -> option (D -> Time) -> mongo_mem -> decoded D * mongo_mem :=
  match c in collection D return bson D -> option (D -> Time) -> mongo_mem -> decoded D * mongo_mem with
  | commits => fun f order m =>
      if faulty then (DecodeError (mkCommit "" "" "" "" "" 0) "decode", m)
      else (match mm_select commits f order m with [] => ErrNoDocuments | x :: _ => Decoded x end, m)
  | c => fun f order m => (match mm_select c f order m with [] => ErrNoDocuments | x :: _ => Decoded x end, m)
  end.

Definition mm_modify {D} (c : collection D) (f : bson D) (assign : D -> list D) (none : list D) (m : mongo_mem) : mongo_mem :=
  match pick (selects mm_regex f) (mm_get c m) with
  | Some (x, r) => mm_put c (assign x ++ r) m
  | None => mm_put c (none ++ mm_get c m) m
  end%list.

Definition to_millisecond (t : Time) : Time := t / 1000000 * 1000000.

Section Driver.
Context (faulty : bool).

#[export] Instance mem_mongo : MongoDriver := {|
  database := mongo_mem;
  regex_i := mm_regex;
  datetime := to_millisecond;
  docs D := mm_get;
  InsertOne D c x m := (None, mm_put c (bson_with to_millisecond c x :: mm_get c m) m);
  FindOne D := mm_FindOne faulty;
  Find D c f order limit m :=
    (inr (inr (match limit with Some (S n) => take (S n) (mm_select c f order m) | _ => mm_select c f order m end)), m);
  UpdateOne D c f assign m := (None, mm_modify c f (fun x => [assign x]) [] m);
  UpsertOne D c f x m := (None, mm_modify c f (fun _ => [bson_with to_millisecond c x]) [bson_with to_millisecond c x] m);
  DeleteOne D c f m :=
    (inr (match pick (selects mm_regex f) (mm_get c m) with Some _ => 1 | None => 0 end),
     mm_modify c f (fun _ => []) [] m);
  DeleteMany D c f m :=
    (inr (Z.of_nat (length (filter (fun x => selects mm_regex f x = true) (mm_get c m)))),
     mm_put c (filter (fun x => selects mm_regex f x = false) (mm_get c m)) m) |}.

Lemma mm_select_perm {D} (c : collection D) f order m :
  mm_select c f order m ≡ₚ filter (fun x => selects mm_regex f x = true) (mm_get c m).
Proof. unfold mm_select. destruct order; [apply merge_sort_Permutation|done]. Qed.

Lemma mm_select_sorted {D} (c : collection D) f order m : sorted_by order (mm_select c f order m).
Proof.
  unfold mm_select. destruct order as [at_|]; simpl; [|done]. unshelve eapply StronglySorted_merge_sort.
  - intros a b x. unfold World.later. lia.
  - intros a b. unfold World.later. lia.
Qed.

Lemma mm_first_ok {D} (c : collection D) f order m :
  match mm_select c f order m with
  | [] => forall x, x ∈ mm_get c m -> selects mm_regex f x <> true
  | x :: _ => x ∈ mm_get c m /\ selects mm_regex f x = true /\
      match order with
      | None => True
      | Some at_ => forall y, y ∈ mm_get c m -> selects mm_regex f y = true -> at_ y <= at_ x
      end
  end.
Proof.
  pose proof (mm_select_perm c f order m) as Hp. pose proof (mm_select_sorted c f order m) as Hs.
  destruct (mm_select c f order m) as [|x l].
  - intros x Hx Hf. assert (x ∈ filter (fun x => selects mm_regex f x = true) (mm_get c m)) as Hin
      by (by apply list_elem_of_filter). rewrite <- Hp in Hin. by apply elem_of_nil in Hin.
  - assert (x ∈ filter (fun x => selects mm_regex f x = true) (mm_get c m)) as Hin by (rewrite <- Hp; by left).
    apply list_elem_of_filter in Hin as [Hf Hx]. split; [done|]. split; [done|]. destruct order as [at_|]; [|done].
    intros y Hy Hfy. assert (y ∈ x :: l) as Hin by (rewrite Hp; by apply list_elem_of_filter).
    apply elem_of_cons in Hin as [->|Hin]; [lia|]. apply StronglySorted_inv in Hs as [_ Hs].
    rewrite Forall_forall in Hs. by apply Hs.
Qed.

Lemma mm_find_one_ok {D} (c : collection D) f order d :
  let '(r, d') := mm_FindOne faulty c f order d in d' = d /\
  match r with
  | Decoded x => x ∈ mm_get c d /\ selects mm_regex f x = true /\
      match order with
      | None => True
      | Some at_ => forall y, y ∈ mm_get c d -> selects mm_regex f y = true -> at_ y <= at_ x
      end
  | ErrNoDocuments => forall x, x ∈ mm_get c d -> selects mm_regex f x <> true
  | DecodeError _ _ => faulty = true
  end.
Proof.
  pose proof (mm_first_ok c f order d) as Hf. destruct c; simpl;
    try (destruct faulty; [done|]); (split; [done|]); by destruct (mm_select _ f order d).
Qed.

Lemma mm_modify_ok {D} (c : collection D) f assign none m :
  (forall D' (c' : collection D'), col_tag c' <> col_tag c -> mm_get c' (mm_modify c f assign none m) = mm_get c' m) /\
  ((exists x rest, mm_get c m ≡ₚ x :: rest /\ selects mm_regex f x = true /\
      mm_get c (mm_modify c f assign none m) ≡ₚ assign x ++ rest /\ is_Some (pick (selects mm_regex f) (mm_get c m))) \/
   ((forall x, x ∈ mm_get c m -> selects mm_regex f x <> true) /\
      mm_get c (mm_modify c f assign none m) ≡ₚ none ++ mm_get c m /\ pick (selects mm_regex f) (mm_get c m) = None))%list.
Proof.
  unfold mm_modify. destruct (pick _ _) as [[x r]|] eqn:E; (split; [intros; by apply mm_get_other|]).
  - left. apply pick_Some in E as [Hx Hp]. exists x, r. rewrite mm_get_put. eauto.
  - right. rewrite mm_get_put. split; [by apply pick_None|done].
Qed.

(** The laws hold; of a driver that may fail, when its commits do not decode. *)
#[export] Instance mem_mongo_ok : MongoOk (negb faulty).
Proof.
  constructor; intros.
  - simpl. split; [intros D' c' Hc; by apply mm_get_other|]. by rewrite mm_get_put.
  - pose proof (mm_find_one_ok c f order d) as Hf. simpl. destruct (mm_FindOne faulty c f order d) as [r d'].
    destruct Hf as [-> Hf]. split; [by intros ? ?|]. destruct r; [done|by rewrite Hf|done].
  - simpl. split; [by intros ? ?|]. exists (mm_select c f order d).
    split; [apply mm_select_perm|]. split; [apply mm_select_sorted|]. by destruct limit as [[|n]|].
  - simpl. destruct (mm_modify_ok c f (fun x => [assign x]) [] d) as [Ho [(x & rest & Hp & Hx & Hp' & _)|(Hn & Hp' & _)]];
      (split; [exact Ho|]); [left; eauto|by right].
  - simpl. destruct (mm_modify_ok c f (fun _ => [bson_with to_millisecond c x]) [bson_with to_millisecond c x] d)
      as [Ho [(y & rest & Hp & Hy & Hp' & _)|(Hn & Hp' & _)]]; (split; [exact Ho|]); [left; eauto|by right].
  - simpl. destruct (mm_modify_ok c f (fun _ => []) [] d) as [Ho [(x & rest & Hp & Hx & Hp' & [? E])|(Hn & Hp' & E)]];
      rewrite E; (split; [exact Ho|]).
    + left. split; [done|]. exists x. split; [done|]. by rewrite Hp, Hp'.
    + right. by split.
  - simpl. split; [intros D' c' Hc; by apply mm_get_other|]. by rewrite mm_get_put.
Qed.
End Driver.

(** ** The registry over it *)
Record mworld := mkMworld { mw_db : mongo_mem; mw_blobs : gmap string bytes; mw_ticks : nat }.

Section Registry.
Context (faulty : bool).
#[local] Existing Instance mem_mongo.
#[local] Existing Instance World.world_bcrypt.
#[local] Instance driver : MongoDriver := mem_mongo faulty.

Definition mw_view (w : mworld) : State := mkState (mongo_tables (w.(mw_db) : database)) (mw_blobs w).
Definition mw_now (w : mworld) : Time := World.epoch + Z.of_nat (mw_ticks w).

Definition mw_eff {X} (e : eff X) (w : mworld) : X * mworld :=
  match e in eff X return X * mworld with
  | Repo o => let '(x, d) := Repos (mw_now w) o (mw_db w) in (x, mkMworld d (mw_blobs w) (mw_ticks w))
  | StorePut k d => (None, mkMworld (mw_db w) (<[k := d]> (mw_blobs w)) (mw_ticks w))
  | StoreGet k => (match mw_blobs w !! k with Some d => inr d | None => inl SErrNotFound end, w)
  | Now => (mw_now w, mkMworld (mw_db w) (mw_blobs w) (S (mw_ticks w)))
  | NewUUID => (World.fresh_id (tables (mw_view w)), w)
  | HashPassword_eff pw => (if slen pw <=? max_password then Some ("bcrypt:" +:+ pw) else None, w)
  | Compile_eff files names => (Some names, w)
  end.

#[export] Instance mworld_env : Env mworld := {| run_eff := @mw_eff; view := mw_view |}.

#[export] Instance mworld_ok : EnvOk (any_mode false (negb faulty) World.epoch) mworld.
Proof.
  intros X e w. destruct e as [X o|k d|k| | |pw|fs ns].
  - pose proof (mongo_repos (negb faulty) World.epoch None (fun _ => True) (mw_now w) X o (mw_db w)) as Ho. unfold post in Ho.
    cbn [run_eff mworld_env mw_eff]. destruct (Repos _ o _) as [x d]. by split.
  - by split.
  - simpl. split; [done|]. intros _. by destruct (mw_blobs w !! k) eqn:E.
  - simpl. split; [done|]. split; [simpl; unfold mw_now; lia|done].
  - simpl. split; [done|]. split; [apply World.letters_id|]. split; [|done].
    split_and!; intros r Hr; apply World.fresh_id_new; unfold World.all_ids; rewrite !elem_of_app, !list_elem_of_fmap; eauto 10.
  - simpl. split; [done|]. destruct (slen pw <=? max_password) eqn:E; bool_facts; [|by intros _].
    split; [done|apply streq_refl].
  - done.
Qed.
End Registry.
