(* ===== verification/Auth.v ===== *)
(** * Authentication (internal/auth)

    Token hashing, the bearer header, the HTTP middleware and the Connect
    interceptor.  Both authenticators look the token's hash up, check its
    expiry, load its user and put the user in the request's context; they
    differ in what they do when that fails. *)
From S2P Require Import Prelude GoStd Sha256 Model Iface Prog.

(** ** auth.go *)
Definition HashToken (raw : string) : string := sha256_hex raw.

Definition HashPassword (password : string) : prog (option string) := call (HashPassword_eff password).

Definition CheckPassword `{Bcrypt} (hash password : string) : bool := CompareHashAndPassword hash password.

Definition ExtractBearer (authHeader : string) : string := TrimPrefix authHeader "Bearer ".

(** A request context carries at most one user. *)
Definition Ctx := option User.
Definition background : Ctx := None.
Definition ContextWithUser (ctx : Ctx) (u : User) : Ctx := Some u.
Definition UserFromContext (ctx : Ctx) : option User := ctx.

(** [t.ExpiresAt != nil && time.Now().After( *t.ExpiresAt)]; the clock is read only
    when there is an expiry. *)
Definition token_expired {E} (t : Token) : H E bool :=
  match Token_ExpiresAt t with
  | None => mret false
  | Some e => now ← perform Now; mret (e <? now)
  end.

(** ** middleware.go *)
Definition Middleware {E Resp} (authorization : string) (next : Ctx -> H E Resp) (ctx : Ctx) : H E Resp :=
  let bearer := ExtractBearer authorization in
  if streq bearer "" || streq bearer authorization then next ctx
  else
    let hash := HashToken bearer in
    r ← repo (Tokens_GetByHash hash);
    match err r, val r with
    | Some _, _ => next ctx
    | None, None => Ret Panic
    | None, Some t =>
        expired ← token_expired t;
        if expired : bool then next ctx
        else
          ru ← repo (Users_GetByID (Token_UserID t));
          match err ru, val ru with
          | Some _, _ => next ctx
          | None, None => Ret Panic
          | None, Some u => next (ContextWithUser ctx u)
          end
    end.

(** ** interceptor.go *)

(** Connect error codes the registry uses. *)
Inductive Code :=
| CodeInvalidArgument
| CodeNotFound
| CodeAlreadyExists
| CodePermissionDenied
| CodeInternal
| CodeUnimplemented
| CodeUnauthenticated.

Record ConnectError := NewError { ce_code : Code; ce_msg : string }.

#[export] Instance Code_eq_dec : EqDecision Code. Proof. solve_decision. Defined.
#[export] Instance ConnectError_eq_dec : EqDecision ConnectError. Proof. solve_decision. Defined.

Definition NewConnectInterceptor {Resp} (authorization : string)
    (next : Ctx -> H ConnectError Resp) (ctx : Ctx) : H ConnectError Resp :=
  let raw := TrimPrefix authorization "Bearer " in
  if streq raw "" || streq raw authorization then next ctx
  else
    let hash := HashToken raw in
    r ← repo (Tokens_GetByHash hash);
    t ← need r (fun e => if is_not_found e then NewError CodeUnauthenticated "invalid token"
                         else NewError CodeInternal "internal error");
    expired ← token_expired t;
    if expired : bool then fail (NewError CodeUnauthenticated "token expired")
    else
      ru ← repo (Users_GetByID (Token_UserID t));
      u ← need ru (fun _ => NewError CodeInternal "internal error");
      next (ContextWithUser ctx u).

(** A Connect request passes the HTTP middleware and then the interceptor. *)
Definition connect_request {Resp} (authorization : string) (handler : Ctx -> H ConnectError Resp)
    : H ConnectError Resp :=
  Middleware authorization (NewConnectInterceptor authorization handler) background.

(** ** What authentication means *)

(** The header presents [raw] as a bearer token. *)
Definition presents (authorization raw : string) : Prop :=
  authorization = "Bearer " +:+ raw /\ raw <> "".

Definition no_bearer (authorization : string) : Prop := forall raw, ~ presents authorization raw.

(** [authorization] identifies [u]: it presents a token whose hash is stored, that
    had not expired before [start], and that belongs to [u]. *)
Definition identifies (start : Time) (t : Tables) (authorization : string) (u : User) : Prop :=
  exists raw k, presents authorization raw /\ k ∈ t_tokens t /\ Token_Hash k = HashToken raw /\
    u ∈ t_users t /\ User_ID u = Token_UserID k /\
    (forall e, Token_ExpiresAt k = Some e -> start <= e).

Lemma bearer_cases authorization :
  (no_bearer authorization /\
   streq (ExtractBearer authorization) "" || streq (ExtractBearer authorization) authorization = true) \/
  (presents authorization (ExtractBearer authorization) /\
   streq (ExtractBearer authorization) "" || streq (ExtractBearer authorization) authorization = false).
Proof.
  unfold ExtractBearer, TrimPrefix, presents, no_bearer.
  destruct (HasPrefix authorization "Bearer ") eqn:Hp.
  - pose proof (HasPrefix_inv _ _ Hp) as E. set (raw := drop_bytes _ _) in *.
    destruct (streq raw "") eqn:Hr; bool_facts.
    + left. split; [|done]. intros raw' [E' Hne]. apply Hne.
      rewrite <- Hr. unfold raw. by rewrite E', drop_bytes_app.
    + right. split; [done|]. simpl. apply streq_false. intros E2.
      assert (String.length authorization = (7 + String.length raw)%nat) as El.
      { rewrite E at 1. by rewrite string_app_length. }
      rewrite <- E2 in El. lia.
  - left. split; [|by rewrite streq_refl, orb_true_r].
    intros raw [-> _]. by rewrite HasPrefix_app in Hp.
Qed.

(** ** Correctness of the two authenticators *)
Section AuthSpec.
Context `{Bcrypt} (md : mode).

(** The clock may show a time after the token's expiry. *)
Definition expires_within (k : Token) : Prop := exists e now, Token_ExpiresAt k = Some e /\ clock md now /\ e < now.

Lemma awp_token_expired {E B} (k : Token) (f : bool -> H E B) Q s :
  ((forall e, Token_ExpiresAt k = Some e -> since md <= e) -> awp md (f false) Q s) ->
  (expires_within k -> awp md (f true) Q s) ->
  awp md (token_expired k ≫= f) Q s.
Proof.
  intros Hf Ht. unfold token_expired, expires_within in *. apply awp_bind. destruct (Token_ExpiresAt k) as [e|]; simpl.
  - intros now s' [-> Hnow]. simpl. destruct (e <? now) eqn:Hlt; bool_facts; [apply Ht; by exists e, now|].
    apply Hf. intros e' [= <-]. destruct Hnow. lia.
  - apply Hf. done.
Qed.

Lemma middleware_sound {E Resp} authorization (next : Ctx -> H E Resp) Q s :
  awp md (next None) Q s ->
  (forall u, identifies (since md) (tables s) authorization u -> awp md (next (Some u)) Q s) ->
  awp md (Middleware authorization next None) Q s.
Proof.
  intros Hn Hu. unfold Middleware.
  destruct (bearer_cases authorization) as [[_ ->]|[Hp ->]]; [done|].
  wp_read x Hx. unfold gets in Hx.
  destruct (err x) as [e|]; [done|]. destruct Hx as (k & -> & Hk & Hh).
  apply awp_token_expired; [|done]. intros Hexp.
  wp_read y Hy. unfold gets in Hy. destruct (err y); [done|]. destruct Hy as (u & -> & Hin & Hid).
  apply Hu. exists (ExtractBearer authorization), k. auto 10.
Qed.

Lemma interceptor_sound {Resp} authorization (next : Ctx -> H ConnectError Resp) ctx Q s :
  (no_bearer authorization -> awp md (next ctx) Q s) ->
  (forall u, identifies (since md) (tables s) authorization u -> awp md (next (Some u)) Q s) ->
  (forall raw e, presents authorization raw ->
     ce_code e = CodeUnauthenticated \/ ce_code e = CodeInternal -> Q (Fail e) s) ->
  awp md (NewConnectInterceptor authorization next ctx) Q s.
Proof.
  intros Hn Hu He. unfold NewConnectInterceptor.
  destruct (bearer_cases authorization) as [[Hno E]|[Hp E]]; unfold ExtractBearer in *; rewrite E; [auto|].
  wp_read x Hx. wp_get Hx.
  - intros k Hk Hh. apply awp_token_expired; [|intros _; eapply He; [done|by left]].
    intros Hexp. wp_read y Hy. wp_get Hy.
    + intros u Hin Hid. apply Hu. exists (TrimPrefix authorization "Bearer "), k. auto 10.
    + intros _. eapply He; [done|by right].
    + intros m _. eapply He; [done|by right].
  - intros _. eapply He; [done|by left].
  - intros m _. eapply He; [done|by right].
Qed.

(** C11. The user a request runs as is one its bearer token identifies: for any
    backend, faulty or not, the handler behind the HTTP middleware and the
    interceptor is run anonymously only when the header presents no token, and
    as [u] only when the header identifies [u]; otherwise the request ends
    with [unauthenticated] or [internal]. *)
Theorem connect_request_authenticates {Resp} authorization
    (handler : Ctx -> H ConnectError Resp) Q s :
  (no_bearer authorization -> awp md (handler None) Q s) ->
  (forall u, identifies (since md) (tables s) authorization u -> awp md (handler (Some u)) Q s) ->
  (forall raw e, presents authorization raw ->
     ce_code e = CodeUnauthenticated \/ ce_code e = CodeInternal -> Q (Fail e) s) ->
  awp md (connect_request authorization handler) Q s.
Proof.
  intros Hn Hu He. unfold connect_request.
  apply middleware_sound; [by apply interceptor_sound|].
  intros u (raw & _ & Hp & _). apply interceptor_sound; [|done|done].
  intros Hno. by destruct (Hno raw).
Qed.

Section Live.
Hypothesis Hlive : live md = true.

Context (authorization raw : string) (s : State) (k : Token) (u : User).
Hypothesis (Hp : presents authorization raw)
  (Hk : k ∈ t_tokens (tables s)) (Hh : Token_Hash k = HashToken raw)
  (Hku : forall k', k' ∈ t_tokens (tables s) -> Token_Hash k' = HashToken raw -> k' = k)
  (Hu : u ∈ t_users (tables s)) (Hid : User_ID u = Token_UserID k)
  (Huu : forall u', u' ∈ t_users (tables s) -> User_ID u' = Token_UserID k -> u' = u).

Lemma presents_bearer :
  ExtractBearer authorization = raw /\
  streq (ExtractBearer authorization) "" || streq (ExtractBearer authorization) authorization = false.
Proof using Hp.
  destruct (bearer_cases authorization) as [[Hno _]|[_ E]]; [by destruct (Hno raw)|].
  split; [|done]. destruct Hp as [E' _]. unfold ExtractBearer. rewrite E'. apply TrimPrefix_app.
Qed.

Lemma middleware_complete {E Resp} (next : Ctx -> H E Resp) Q :
  awp md (next (Some u)) Q s ->
  (expires_within k -> awp md (next None) Q s) ->
  awp md (Middleware authorization next None) Q s.
Proof using All.
  intros Hn Hexp. unfold Middleware. destruct presents_bearer as [E1 E2]. rewrite E2, E1.
  wp_read x Hx. destruct (live_gets _ _ _ _ _ Hlive Hx Hk Hh Hku) as [-> ->].
  apply awp_token_expired; [|done]. intros _.
  wp_read y Hy. destruct (live_gets _ _ _ _ _ Hlive Hy Hu Hid Huu) as [-> ->]. done.
Qed.

Lemma interceptor_complete {Resp} (next : Ctx -> H ConnectError Resp) ctx Q :
  awp md (next (Some u)) Q s ->
  (expires_within k -> Q (Fail (NewError CodeUnauthenticated "token expired")) s) ->
  awp md (NewConnectInterceptor authorization next ctx) Q s.
Proof using All.
  intros Hn Hexp. unfold NewConnectInterceptor. destruct presents_bearer as [E1 E2].
  unfold ExtractBearer in *. rewrite E2, E1.
  wp_read x Hx. destruct (live_gets _ _ _ _ _ Hlive Hx Hk Hh Hku) as [Ex Ev].
  unfold need. rewrite Ex, Ev. apply awp_bind. cbn [awp after].
  apply awp_token_expired; [|by intros Hne; apply awp_fail, Hexp]. intros _.
  wp_read y Hy. destruct (live_gets _ _ _ _ _ Hlive Hy Hu Hid Huu) as [Ey Eu].
  rewrite Ey, Eu. apply awp_bind. done.
Qed.

(** A token the clock cannot outlive always runs the handler. *)
Lemma connect_request_runs {Resp} (handler : Ctx -> H ConnectError Resp) Q :
  ~ expires_within k -> awp md (handler (Some u)) Q s -> awp md (connect_request authorization handler) Q s.
Proof using All.
  intros Hn Hr. unfold connect_request.
  apply middleware_complete; [|intros He; by destruct Hn]; apply interceptor_complete; (done || intros He; by destruct Hn).
Qed.

(** C24. Conversely, over Connect and when the backend does not fail, a request that
    presents a stored token runs its handler as the token's owner; the only other
    ending is [token expired], and only if the clock may show a time after the
    token's expiry.  (Over REST, behind the middleware alone, a request with an
    expired token runs anonymously.) *)
Theorem connect_request_complete {Resp} (handler : Ctx -> H ConnectError Resp) Q :
  awp md (handler (Some u)) Q s ->
  (expires_within k -> Q (Fail (NewError CodeUnauthenticated "token expired")) s) ->
  awp md (connect_request authorization handler) Q s.
Proof using All.
  intros Hn Hexp. unfold connect_request.
  apply middleware_complete; [|intros _]; by apply interceptor_complete.
Qed.
End Live.
End AuthSpec.
