(* ===== verification/Authz.v ===== *)
(** * Authorization (internal/authz)

    The authorizer resolves the caller's role from the database and asks the
    Casbin enforcer whether the embedded policy lets that role act.  The file
    states what the five checks are meant to allow ([may_read] ... in terms of
    the stored users, organizations and members), the interface handlers rely
    on ([Authorizer], [AuthorizerOk]), and proves the authorizer implements it. *)
From S2P Require Import Prelude GoStd Model Iface Prog.
From Stdlib Require Import Ascii.

(** ** The interface (iface.Authorizer) *)
Class Authorizer := {
  CanReadModule : forall {E}, string -> Mod -> H E bool;
  CanWriteModule : forall {E}, string -> Mod -> H E bool;
  CanAdminModule : forall {E}, string -> Mod -> H E bool;
  CanCreateModule : forall {E}, string -> string -> H E bool;
  CanManageOrgMembers : forall {E}, string -> string -> H E bool }.

(** ** What the checks mean *)
Section Meaning.
Context (t : Tables) (uid : string).

Definition is_user (name : string) : Prop :=
  exists u, u ∈ t_users t /\ User_ID u = uid /\ User_Username u = name.

(** [uid] is a member of the organization named [name], with a role in [P]. *)
Definition in_org (name : string) (P : OrgRole -> Prop) : Prop :=
  exists o m, o ∈ t_orgs t /\ Org_Name o = name /\
    m ∈ t_members t /\ is_member (Org_ID o) uid m /\ P (OrgMember_Role m).

Definition is_admin (r : OrgRole) : Prop := r = OrgRoleAdmin.

Definition is_owner (m : Mod) : Prop := Mod_OwnerType m = OwnerTypeUser /\ is_user (Mod_OwnerName m).
Definition is_org_owned (m : Mod) : Prop := Mod_OwnerType m <> OwnerTypeUser.

Definition may_write (m : Mod) : Prop :=
  uid <> "" /\ (is_owner m \/ (is_org_owned m /\ in_org (Mod_OwnerName m) (fun _ => True))).
Definition may_read (m : Mod) : Prop := Mod_Visibility m = VisibilityPublic \/ may_write m.
Definition may_admin (m : Mod) : Prop :=
  uid <> "" /\ (is_owner m \/ (is_org_owned m /\ in_org (Mod_OwnerName m) is_admin)).
Definition may_create (ownerName : string) : Prop :=
  uid <> "" /\ (is_user ownerName \/ in_org ownerName is_admin).
Definition may_manage (orgID : string) : Prop :=
  uid <> "" /\ exists m, m ∈ t_members t /\ is_member orgID uid m /\ is_admin (OrgMember_Role m).
End Meaning.

(** Rows of a table that share a unique key are the same row. *)
Definition unique_on {R} (conflict : R -> R -> Prop) (l : list R) : Prop :=
  forall a b, a ∈ l -> b ∈ l -> conflict a b -> a = b.

Record unique_keys (t : Tables) : Prop := {
  uk_users : unique_on User_conflict (t_users t);
  uk_orgs : unique_on Org_conflict (t_orgs t);
  uk_members : unique_on OrgMember_conflict (t_members t) }.

(** A check answers without touching the state; its yes is never wrong, whatever
    fails below it; and on a backend that does not fail, over tables with unique
    keys, its no is not wrong either. *)
Definition decides `{Bcrypt} (md : mode) (check_ : forall E, H E bool) (may : Tables -> Prop) : Prop :=
  forall E s, awp md (check_ E)
    (fun o s' => s' = s /\ exists b, o = Done b /\ (b = true -> may (tables s)) /\
       (live md = true -> unique_keys (tables s) -> may (tables s) -> b = true)) s.

Class AuthorizerOk `{Bcrypt} (md : mode) `{Authorizer} : Prop := {
  read_ok uid m : decides md (fun E => CanReadModule uid m) (fun t => may_read t uid m);
  write_ok uid m : decides md (fun E => CanWriteModule uid m) (fun t => may_write t uid m);
  admin_ok uid m : decides md (fun E => CanAdminModule uid m) (fun t => may_admin t uid m);
  create_ok uid o : decides md (fun E => CanCreateModule uid o) (fun t => may_create t uid o);
  manage_ok uid o : decides md (fun E => CanManageOrgMembers uid o) (fun t => may_manage t uid o) }.

(** Checks only read, so other requests never see them. *)
Class AuthorizerReads `{Authorizer} : Prop := {
  read_reads E uid m : read_only (CanReadModule uid m : H E bool);
  write_reads E uid m : read_only (CanWriteModule uid m : H E bool);
  admin_reads E uid m : read_only (CanAdminModule uid m : H E bool);
  create_reads E uid o : read_only (CanCreateModule uid o : H E bool);
  manage_reads E uid o : read_only (CanManageOrgMembers uid o : H E bool) }.

(** ** Casbin *)

(** The embedded model.conf and policy.csv. *)
Definition modelConf : string :=
"[request_definition]
r = role, resource, action

[policy_definition]
p = role, resource, action

[policy_effect]
e = some(where (p.eft == allow))

[matchers]
m = r.role == p.role && r.resource == p.resource && r.action == p.action
".

Definition policyCSV : string :=
"p, owner, module, read
p, owner, module, write
p, owner, module, admin
p, owner, module, create
p, org_admin, module, read
p, org_admin, module, write
p, org_admin, module, admin
p, org_admin, module, create
p, org_admin, org, manage_members
p, org_member, module, read
p, org_member, module, write
".

Class Casbin := {
  Enforcer : Type;
  NewEnforcer : string -> string -> option Enforcer;
  Enforce : Enforcer -> string -> string -> string -> option bool }.

(** A policy text lists the request [(role, resource, action)]. *)
Definition newline : ascii := "010"%char.
Definition comma : ascii := ","%char.
Definition lists_rule (csv role resource action : string) : bool :=
  existsb (fun line => bool_decide ((TrimSpace <$> Split comma line) = ["p"; role; resource; action]))
    (Split newline csv).

(** Casbin's documented behaviour on this model: some matching rule, equal in
    all three fields, allows; nothing else does. *)
Class CasbinOk `{Casbin} : Prop := {
  casbin_loads : is_Some (NewEnforcer modelConf policyCSV);
  casbin_enforces csv e role resource action :
    NewEnforcer modelConf csv = Some e ->
    Enforce e role resource action = Some (lists_rule csv role resource action) }.

(** ** authz.go *)
Section Impl.
Context `{Casbin}.

Definition New : option Enforcer := NewEnforcer modelConf policyCSV.

Definition resolveModuleRole {E} (userID : string) (m : Mod) : H E string :=
  if streq userID "" then mret "public"
  else if streq (Mod_OwnerType m) OwnerTypeUser then
    r ← repo (Users_GetByID userID);
    match err r, val r with
    | None, Some u => if streq (User_Username u) (Mod_OwnerName m) then mret "owner" else mret "public"
    | None, None => Ret Panic
    | Some _, _ => mret "public"
    end
  else
    ro ← repo (Orgs_GetByName (Mod_OwnerName m));
    match err ro, val ro with
    | Some _, _ => mret "public"
    | None, None => Ret Panic
    | None, Some o =>
        rm ← repo (Orgs_GetMember (Org_ID o) userID);
        match err rm, val rm with
        | Some _, _ => mret "public"
        | None, None => Ret Panic
        | None, Some member =>
            if streq (OrgMember_Role member) OrgRoleAdmin then mret "org_admin" else mret "org_member"
        end
    end.

Definition resolveOrgRole {E} (userID orgID : string) : H E string :=
  if streq userID "" then mret "public"
  else
    rm ← repo (Orgs_GetMember orgID userID);
    match err rm, val rm with
    | Some _, _ => mret "public"
    | None, None => Ret Panic
    | None, Some member =>
        if streq (OrgMember_Role member) OrgRoleAdmin then mret "org_admin" else mret "org_member"
    end.

(** [None] is the error return. *)
Definition resolveOwnerRole {E} (userID ownerName : string) : H E (option string) :=
  if streq userID "" then mret (Some "public")
  else
    ru ← repo (Users_GetByID userID);
    let continue :=
      ro ← repo (Orgs_GetByName ownerName);
      match err ro, val ro with
      | Some e, _ => if is_not_found e then mret (Some "public") else mret None
      | None, None => Ret Panic
      | None, Some o =>
          rm ← repo (Orgs_GetMember (Org_ID o) userID);
          match err rm, val rm with
          | Some _, _ => mret (Some "public")
          | None, None => Ret Panic
          | None, Some member =>
              if streq (OrgMember_Role member) OrgRoleAdmin then mret (Some "org_admin")
              else mret (Some "org_member")
          end
      end in
    match err ru, val ru with
    | None, Some u => if streq (User_Username u) ownerName then mret (Some "owner") else continue
    | None, None => Ret Panic
    | Some _, _ => continue
    end.

Definition enforce (e : Enforcer) (role resource action : string) : bool :=
  match Enforce e role resource action with
  | None => false
  | Some ok => ok
  end.

Context (enforcer : Enforcer).

Definition authz_CanReadModule {E} (userID : string) (m : Mod) : H E bool :=
  if streq (Mod_Visibility m) VisibilityPublic then mret true
  else role ← resolveModuleRole userID m; mret (enforce enforcer role "module" "read").

Definition authz_CanWriteModule {E} (userID : string) (m : Mod) : H E bool :=
  role ← resolveModuleRole userID m; mret (enforce enforcer role "module" "write").

Definition authz_CanAdminModule {E} (userID : string) (m : Mod) : H E bool :=
  role ← resolveModuleRole userID m; mret (enforce enforcer role "module" "admin").

Definition authz_CanCreateModule {E} (userID ownerName : string) : H E bool :=
  r ← resolveOwnerRole userID ownerName;
  match r with
  | None => mret false
  | Some role => mret (enforce enforcer role "module" "create")
  end.

Definition authz_CanManageOrgMembers {E} (userID orgID : string) : H E bool :=
  role ← resolveOrgRole userID orgID; mret (enforce enforcer role "org" "manage_members").

Definition authz_Authorizer : Authorizer := {|
  CanReadModule E := authz_CanReadModule;
  CanWriteModule E := authz_CanWriteModule;
  CanAdminModule E := authz_CanAdminModule;
  CanCreateModule E := authz_CanCreateModule;
  CanManageOrgMembers E := authz_CanManageOrgMembers |}.
End Impl.

(** [PolicySummary] renders the policy for documentation. *)
Definition PolicySummary_line (line : string) : string :=
  match SplitStr line ", " with
  | [p; a; b; c] =>
      if streq p "p" then "  " +:+ a +:+ " can " +:+ c +:+ " " +:+ b +:+ String newline "" else ""
  | _ => ""
  end.

Definition PolicySummary : string :=
  let lines := Split newline (TrimSpace policyCSV) in
  foldl (fun sb line => sb +:+ PolicySummary_line line) ("Authorization Policy:" +:+ String newline "") lines.

(** ** The roles *)
Section Roles.
Context `{Bcrypt} (md : mode).

Lemma unique_get {R} conflict (l : list R) (P : R -> Prop) r :
  unique_on conflict l -> r ∈ l -> (forall r', P r' -> conflict r' r) ->
  forall r', r' ∈ l -> P r' -> r' = r.
Proof. intros Hu Hr Hc r' Hr' HP. apply Hu; auto. Qed.

(** A membership lookup, as the three resolvers use it. *)
Definition member_known (t : Tables) (orgID uid : string) (x : goret OrgMember) : Prop :=
  (exists m, err x = None /\ val x = Some m /\ m ∈ t_members t /\ is_member orgID uid m /\
     (unique_keys t -> forall m', m' ∈ t_members t -> is_member orgID uid m' -> m' = m)) \/
  (exists e, err x = Some e /\ (live md = true -> forall m, m ∈ t_members t -> ~ is_member orgID uid m)).

Lemma member_cases t orgID uid x : gets md (is_member orgID uid) (t_members t) x -> member_known t orgID uid x.
Proof.
  intros [(m & ? & ? & Hin & Hm)|(e & ? & Hn)]%gets_cases; [left|right].
  - exists m. repeat (split; [done|]). intros Hu m' Hin' [E1 E2]. destruct Hm as [E3 E4].
    apply (uk_members _ Hu); [done..|]. split; congruence.
  - exists e. split; [done|]. intros Hl. by apply Hn.
Qed.

(** An organization lookup by name. *)
Lemma org_cases t name x :
  gets md (fun o => Org_Name o = name) (t_orgs t) x ->
  (exists o, err x = None /\ val x = Some o /\ o ∈ t_orgs t /\ Org_Name o = name /\
     (unique_keys t -> forall o', o' ∈ t_orgs t -> Org_Name o' = name -> o' = o)) \/
  (exists e, err x = Some e /\ (live md = true -> e = ErrNotFound /\ forall o, o ∈ t_orgs t -> Org_Name o <> name)).
Proof.
  intros [(o & ? & ? & Hin & Hm)|(e & ? & Hn)]%gets_cases; [left|right].
  - exists o. repeat (split; [done|]). intros Hu o' Hin' E.
    apply (uk_orgs _ Hu); [done..|]. right. congruence.
  - exists e. split; [done|]. intros Hl. by destruct (Hn Hl).
Qed.

Lemma user_cases t uid x :
  gets md (fun u => User_ID u = uid) (t_users t) x ->
  (exists u, err x = None /\ val x = Some u /\ u ∈ t_users t /\ User_ID u = uid /\
     (unique_keys t -> forall u', u' ∈ t_users t -> User_ID u' = uid -> u' = u)) \/
  (exists e, err x = Some e /\ (live md = true -> forall u, u ∈ t_users t -> User_ID u <> uid)).
Proof.
  intros [(u & ? & ? & Hin & Hm)|(e & ? & Hn)]%gets_cases; [left|right].
  - exists u. repeat (split; [done|]). intros Hu u' Hin' E.
    apply (uk_users _ Hu); [done..|]. left. congruence.
  - exists e. split; [done|]. intros Hl. by apply Hn.
Qed.

(** What a resolved role means: each role vouches for its standing, and on a
    live backend with unique keys the standing forces the role. *)
Definition role_means (t : Tables) (role : string) (owner : Prop) (org : (OrgRole -> Prop) -> Prop) : Prop :=
  (role = "public" \/ (role = "owner" /\ owner) \/ (role = "org_admin" /\ org is_admin) \/
   (role = "org_member" /\ org (fun _ => True))) /\
  (live md = true -> unique_keys t ->
     (owner -> role = "owner") /\
     (~ owner -> org is_admin -> role = "org_admin") /\
     (~ owner -> org (fun _ => True) -> role = "org_admin" \/ role = "org_member")).

Definition resolved {E} (t : Tables) (owner : Prop) (org : (OrgRole -> Prop) -> Prop)
    (o : outcome E string) : Prop :=
  exists role, o = Done role /\ role_means t role owner org.

(** The tail of every resolver: the membership lookup in a known organization. *)
Lemma member_role_ok {E A} (f : string -> A) t (owner : Prop) (org : (OrgRole -> Prop) -> Prop) orgID uid s
    (Q : outcome E A -> State -> Prop) :
  t = tables s -> (live md = true -> unique_keys t -> ~ owner) ->
  (forall P, (exists m, m ∈ t_members t /\ is_member orgID uid m /\ P (OrgMember_Role m)) -> org P) ->
  (unique_keys t -> forall P, org P -> exists m, m ∈ t_members t /\ is_member orgID uid m /\ P (OrgMember_Role m)) ->
  (forall role, role_means t role owner org -> Q (Done (f role)) s) ->
  awp md (rm ← repo (Orgs_GetMember orgID uid);
          match err rm, val rm with
          | Some _, _ => mret (f "public")
          | None, None => Ret Panic
          | None, Some member =>
              if streq (OrgMember_Role member) OrgRoleAdmin then mret (f "org_admin") else mret (f "org_member")
          end : H E A) Q s.
Proof.
  intros -> Hno Hin Hout HQ. wp_read x Hx.
  destruct (member_cases _ _ _ _ Hx) as [(m & -> & -> & Hm & Hi & Hu)|(e & -> & Hn)].
  - assert (org (fun _ => True)) as Hany by (apply Hin; eauto).
    destruct (streq _ _) eqn:Er; bool_facts; apply awp_ret, HQ; split.
    + right; right; left. split; [done|]. apply Hin. by exists m.
    + intros Hl Hk. specialize (Hno Hl Hk). naive_solver.
    + right; right; right. done.
    + intros Hl Hk. specialize (Hno Hl Hk). split; [naive_solver|]. split; [|naive_solver].
      intros _ (m' & Hm' & Hi' & Ha)%(Hout Hk). rewrite (Hu Hk m' Hm' Hi') in Ha. by destruct Er.
  - apply awp_ret, HQ. split; [by left|]. intros Hl Hk. specialize (Hno Hl Hk).
    assert (forall P, ~ org P) as Hnone.
    { intros P (m' & Hm' & Hi' & _)%(Hout Hk). by apply (Hn Hl m'). }
    naive_solver.
Qed.
End Roles.

Section Resolvers.
Context `{Bcrypt} (md : mode).

Definition owns (t : Tables) (uid : string) (m : Mod) : Prop := uid <> "" /\ is_owner t uid m.
Definition orgs (t : Tables) (uid : string) (m : Mod) (P : OrgRole -> Prop) : Prop :=
  uid <> "" /\ is_org_owned m /\ in_org t uid (Mod_OwnerName m) P.

Lemma role_public t (owner : Prop) org :
  (live md = true -> unique_keys t -> ~ owner) ->
  (live md = true -> unique_keys t -> forall P, ~ org P) -> role_means md t "public" owner org.
Proof.
  intros Ho Hp. split; [by left|]. intros Hl Hu. specialize (Ho Hl Hu). specialize (Hp Hl Hu).
  naive_solver.
Qed.

Lemma resolveModuleRole_ok {E} uid m s :
  awp md (resolveModuleRole uid m : H E string)
    (fun o s' => s' = s /\ resolved md (tables s) (owns (tables s) uid m) (orgs (tables s) uid m) o) s.
Proof.
  unfold resolveModuleRole, owns, orgs. destruct (streq uid "") eqn:Eu; bool_facts.
  { apply awp_ret. split; [done|]. eexists; split; [done|]. apply role_public; naive_solver. }
  destruct (streq (Mod_OwnerType m) OwnerTypeUser) eqn:Et; bool_facts.
  - wp_read x Hx. destruct (user_cases md _ _ _ Hx) as [(u & -> & -> & Hin & Hid & Huq)|(e & -> & Hn)].
    + assert (forall P, ~ (uid <> "" /\ is_org_owned m /\ in_org (tables s) uid (Mod_OwnerName m) P)) as Hno
        by (intros P (_ & Ho & _); done).
      destruct (streq (User_Username u) (Mod_OwnerName m)) eqn:En; bool_facts; apply awp_ret.
      * split; [done|]. eexists; split; [done|]. split; [|naive_solver].
        right; left. unfold is_owner, is_user. eauto 10.
      * split; [done|]. eexists; split; [done|]. apply role_public; [|done].
        intros _ Huk (_ & _ & u' & Hu' & Hid' & Hn'). apply En. by rewrite <- (Huq Huk u' Hu' Hid').
    + apply awp_ret. split; [done|]. eexists; split; [done|]. apply role_public; [|by intros _ _ P (_ & Ho & _)].
      intros Hl _ (_ & _ & u & Hu & Hid & _). by apply (Hn Hl u).
  - assert (~ (uid <> "" /\ is_owner (tables s) uid m)) as Hno by (intros (_ & Ho & _); done).
    wp_read x Hx. destruct (org_cases md _ _ _ Hx) as [(o & -> & -> & Hin & Hnm & Huq)|(e & -> & Hn)].
    + apply (member_role_ok md (fun x => x) (tables s) (uid <> "" /\ is_owner (tables s) uid m)
               (orgs (tables s) uid m)); unfold orgs.
      * done.
      * done.
      * intros P (mm & ? & ? & ?). split; [done|]. split; [done|]. by exists o, mm.
      * intros Huk P (_ & _ & o' & mm & Ho' & Hn' & ? & ? & ?).
        rewrite (Huq Huk o' Ho' Hn') in *. eauto.
      * intros role Hr. split; [done|]. by exists role.
    + apply awp_ret. split; [done|]. eexists; split; [done|]. apply role_public; [done|].
      intros Hl _ P (_ & _ & o & mm & Ho & Hnm & _). by destruct (Hn Hl) as [_ Hn']; apply (Hn' o).
Qed.

Lemma resolveOrgRole_ok {E} uid orgID s :
  awp md (resolveOrgRole uid orgID : H E string)
    (fun o s' => s' = s /\ resolved md (tables s) False
       (fun P => uid <> "" /\ exists m, m ∈ t_members (tables s) /\ is_member orgID uid m /\ P (OrgMember_Role m)) o) s.
Proof.
  unfold resolveOrgRole. destruct (streq uid "") eqn:Eu; bool_facts.
  { apply awp_ret. split; [done|]. eexists; split; [done|]. apply role_public; naive_solver. }
  apply (member_role_ok md (fun x => x) (tables s) False
    (fun P => uid <> "" /\ exists m, m ∈ t_members (tables s) /\ is_member orgID uid m /\ P (OrgMember_Role m)));
    [done|naive_solver|naive_solver|naive_solver|].
  intros role Hr. split; [done|]. by exists role.
Qed.

Lemma resolveOwnerRole_ok {E} uid name s :
  awp md (resolveOwnerRole uid name : H E (option string))
    (fun o s' => s' = s /\
       ((o = Done None /\ live md = false) \/
        exists role, o = Done (Some role) /\
          role_means md (tables s) role (uid <> "" /\ is_user (tables s) uid name)
            (fun P => uid <> "" /\ in_org (tables s) uid name P))) s.
Proof.
  unfold resolveOwnerRole. destruct (streq uid "") eqn:Eu; bool_facts.
  { apply awp_ret. split; [done|]. right. eexists; split; [done|]. apply role_public; naive_solver. }
  wp_read x Hx. set (owner := uid <> "" /\ is_user (tables s) uid name).
  cbv zeta. match goal with |- context [?c] => match c with mbind _ (repo (Orgs_GetByName _)) => set (cont := c) end end.
  enough (Hcont : (live md = true -> unique_keys (tables s) -> ~ owner) -> awp md cont (fun o s' => s' = s /\
       ((o = Done None /\ live md = false) \/
        exists role, o = Done (Some role) /\
          role_means md (tables s) role owner (fun P => uid <> "" /\ in_org (tables s) uid name P))) s).
  { destruct (user_cases md _ _ _ Hx) as [(u & -> & -> & Hin & Hid & Huq)|(e & -> & Hn)].
    - destruct (streq (User_Username u) name) eqn:En; bool_facts.
      + apply awp_ret. split; [done|]. right. eexists; split; [done|]. unfold owner, is_user.
        split; [right; left; eauto 10|]. naive_solver.
      + apply Hcont. intros _ Huk (_ & u' & Hu' & Hid' & Hn'). apply En. by rewrite <- (Huq Huk u' Hu' Hid').
    - apply Hcont. intros Hl _ (_ & u & Hu & Hid & _). by apply (Hn Hl u). }
  intros Hno. unfold cont. clear x Hx.
  wp_read x Hx. destruct (org_cases md _ _ _ Hx) as [(o & -> & -> & Hin & Hnm & Huq)|(e & -> & Hn)].
  - apply (member_role_ok md Some (tables s) owner (fun P => uid <> "" /\ in_org (tables s) uid name P)).
    + done.
    + done.
    + intros P (mm & ? & ? & ?). split; [done|]. by exists o, mm.
    + intros Huk P (_ & o' & mm & Ho' & Hn' & ? & ? & ?). rewrite (Huq Huk o' Ho' Hn') in *. eauto.
    + intros role Hr. split; [done|]. right. eauto.
  - destruct (is_not_found e) eqn:Ee; apply awp_ret; (split; [done|]).
    + right. eexists; split; [done|]. apply role_public; [done|].
      intros Hl _ P (_ & o & mm & Ho & Hnm & _). by destruct (Hn Hl) as [_ Hn']; apply (Hn' o).
    + left. split; [done|]. destruct (live md) eqn:Hl; [|done].
      destruct (Hn eq_refl) as [-> _]. done.
Qed.
End Resolvers.

(** ** The authorizer implements the interface *)
Section AuthzOk.
Context `{Bcrypt} (md : mode) `{CasbinOk} (enforcer : Enforcer) (Hnew : New = Some enforcer).

Lemma enforce_policy role resource action :
  enforce enforcer role resource action = lists_rule policyCSV role resource action.
Proof using All. unfold enforce. by rewrite (casbin_enforces _ _ _ _ _ Hnew). Qed.

(** The policy, evaluated on the four roles. *)
Lemma policy_read : lists_rule policyCSV "public" "module" "read" = false /\
  lists_rule policyCSV "owner" "module" "read" = true /\
  lists_rule policyCSV "org_admin" "module" "read" = true /\
  lists_rule policyCSV "org_member" "module" "read" = true.
Proof. by vm_compute. Qed.

Lemma policy_write : lists_rule policyCSV "public" "module" "write" = false /\
  lists_rule policyCSV "owner" "module" "write" = true /\
  lists_rule policyCSV "org_admin" "module" "write" = true /\
  lists_rule policyCSV "org_member" "module" "write" = true.
Proof. by vm_compute. Qed.

Lemma policy_admin action : action = "admin" \/ action = "create" ->
  lists_rule policyCSV "public" "module" action = false /\
  lists_rule policyCSV "owner" "module" action = true /\
  lists_rule policyCSV "org_admin" "module" action = true /\
  lists_rule policyCSV "org_member" "module" action = false.
Proof. by intros [->| ->]; vm_compute. Qed.

Lemma policy_manage : lists_rule policyCSV "public" "org" "manage_members" = false /\
  lists_rule policyCSV "owner" "org" "manage_members" = false /\
  lists_rule policyCSV "org_admin" "org" "manage_members" = true /\
  lists_rule policyCSV "org_member" "org" "manage_members" = false.
Proof. by vm_compute. Qed.

(** From a resolved role and a policy row to a decision. *)
Lemma decide_role {E} (p : H E string) (owner : Tables -> Prop) (org : Tables -> (OrgRole -> Prop) -> Prop)
    (b : string -> bool) (may : Tables -> Prop) s :
  awp md p (fun o s' => s' = s /\ resolved md (tables s) (owner (tables s)) (org (tables s)) o) s ->
  b "public" = false ->
  (b "owner" = true -> owner (tables s) -> may (tables s)) ->
  (b "org_admin" = true -> org (tables s) is_admin -> may (tables s)) ->
  (b "org_member" = true -> org (tables s) (fun _ => True) -> may (tables s)) ->
  (may (tables s) -> (owner (tables s) /\ b "owner" = true) \/
     (~ owner (tables s) /\ org (tables s) is_admin /\ b "org_admin" = true) \/
     (~ owner (tables s) /\ org (tables s) (fun _ => True) /\ b "org_admin" = true /\ b "org_member" = true)) ->
  awp md (role ← p; mret (b role))
    (fun o s' => s' = s /\ exists b, o = Done b /\ (b = true -> may (tables s)) /\
       (live md = true -> unique_keys (tables s) -> may (tables s) -> b = true)) s.
Proof.
  intros Hp Hpub Ho Ha Hm Hmay. apply awp_bind. eapply awp_mono; [exact Hp|].
  intros o s' [-> (role & -> & Hs & Hc)]. simpl. split; [done|].
  exists (b role). split; [done|]. split.
  - intros Hb. destruct Hs as [->|[[-> ?]|[[-> ?]|[-> ?]]]]; auto. congruence.
  - intros Hl Hu HM. destruct (Hc Hl Hu) as (C1 & C2 & C3).
    destruct (Hmay HM) as [[? ?]|[(? & ? & ?)|(? & ? & ? & ?)]].
    + by rewrite C1.
    + by rewrite C2.
    + destruct C3 as [->| ->]; done.
Qed.

Lemma in_org_any t uid name P : in_org t uid name P -> in_org t uid name (fun _ => True).
Proof. intros (o & m & ? & ? & ? & ? & ?). by exists o, m. Qed.

Lemma not_owner t uid m : is_org_owned m -> ~ owns t uid m.
Proof. intros Ho (_ & Ht & _). by apply Ho. Qed.

Lemma authz_ok : @AuthorizerOk _ md (authz_Authorizer enforcer).
Proof using All.
  constructor; intros uid x E s; cbn [CanReadModule CanWriteModule CanAdminModule CanCreateModule
    CanManageOrgMembers authz_Authorizer].
  - unfold authz_CanReadModule. destruct (streq _ _) eqn:Ev; bool_facts.
    { apply awp_ret. split; [done|]. exists true. repeat split; auto. by left. }
    destruct policy_read as (P1 & P2 & P3 & P4).
    apply (decide_role _ (fun t => owns t uid x) (fun t => orgs t uid x)
      (fun role => enforce enforcer role "module" "read") (fun t => may_read t uid x));
      [apply resolveModuleRole_ok|rewrite ?enforce_policy; try done..].
    + intros _ [? ?]. right. split; auto.
    + intros _ (? & ? & ?%in_org_any). right. split; auto.
    + intros _ (? & ? & ?). right. split; auto.
    + intros [?|(? & [?|[? ?]])]; [done|left; done|].
      right; right. split; [by apply not_owner|]. done.
  - destruct policy_write as (P1 & P2 & P3 & P4).
    apply (decide_role _ (fun t => owns t uid x) (fun t => orgs t uid x)
      (fun role => enforce enforcer role "module" "write") (fun t => may_write t uid x));
      [apply resolveModuleRole_ok|rewrite ?enforce_policy; try done..].
    + intros _ [? ?]. split; auto.
    + intros _ (? & ? & ?%in_org_any). split; auto.
    + intros _ (? & ? & ?). split; auto.
    + intros (? & [?|[? ?]]); [left; done|].
      right; right. split; [by apply not_owner|]. done.
  - destruct (policy_admin "admin") as (P1 & P2 & P3 & P4); [by left|].
    apply (decide_role _ (fun t => owns t uid x) (fun t => orgs t uid x)
      (fun role => enforce enforcer role "module" "admin") (fun t => may_admin t uid x));
      [apply resolveModuleRole_ok|rewrite ?enforce_policy; try done..].
    + intros _ [? ?]. split; auto.
    + intros _ (? & ? & ?). split; auto.
    + intros (? & [?|[? ?]]); [left; done|].
      right; left. split; [by apply not_owner|]. done.
  - destruct (policy_admin "create") as (P1 & P2 & P3 & P4); [by right|].
    unfold authz_CanCreateModule. apply awp_bind. eapply awp_mono; [apply resolveOwnerRole_ok|].
    intros o s' [-> [[-> Hl]|(role & -> & Hs & Hc)]]; simpl; (split; [done|]).
    { exists false. split; [done|]. split; [done|]. congruence. }
    rewrite enforce_policy. eexists; split; [done|]. unfold may_create. split.
    + intros Hb. destruct Hs as [->|[[-> ?]|[[-> ?]|[-> ?]]]]; [congruence|naive_solver|naive_solver|congruence].
    + intros Hl Hu [Hne Hcase]. destruct (Hc Hl Hu) as (C1 & C2 & _).
      destruct Hs as [->|[[-> ?]|[[-> ?]|[-> ?]]]]; try done.
      * destruct Hcase as [?|?]; [by rewrite C1|]. 
        assert (~ (uid <> "" /\ is_user (tables s) uid x)) as Hno by (intros Ho; by specialize (C1 Ho)).
        by rewrite (C2 Hno).
      * destruct Hcase as [?|?]; [by rewrite C1|].
        assert (~ (uid <> "" /\ is_user (tables s) uid x)) as Hno by (intros Ho; by specialize (C1 Ho)).
        by rewrite (C2 Hno).
  - destruct policy_manage as (P1 & P2 & P3 & P4).
    apply (decide_role _ (fun _ => False)
      (fun t P => uid <> "" /\ exists m, m ∈ t_members t /\ is_member x uid m /\ P (OrgMember_Role m))
      (fun role => enforce enforcer role "org" "manage_members") (fun t => may_manage t uid x));
      [apply resolveOrgRole_ok|rewrite ?enforce_policy; try done..].
    intros Hmay. right; left. split; [tauto|]. by split.
Qed.

End AuthzOk.

Section AuthzReads.
Context `{Casbin} (enforcer : Enforcer).

Lemma read_only_bind {E A B} (p : H E A) (f : A -> H E B) :
  read_only p -> (forall a, read_only (f a)) -> read_only (p ≫= f).
Proof.
  intros Hp Hf. change (read_only (hbind f p)). unfold hbind.
  induction p as [[a|e|]|X e k IH]; simpl in *; try done.
  destruct Hp as [? Hk]. split; [done|]. auto.
Qed.

Lemma member_tail_reads {E A} (f : string -> A) orgID uid :
  read_only (rm ← repo (Orgs_GetMember orgID uid);
          match err rm, val rm with
          | Some _, _ => mret (f "public")
          | None, None => Ret Panic
          | None, Some member =>
              if streq (OrgMember_Role member) OrgRoleAdmin then mret (f "org_admin") else mret (f "org_member")
          end : H E A).
Proof.
  apply read_only_bind; [by split|]. intros x. destruct (err x), (val x); try done. by destruct (streq _ _).
Qed.

Lemma resolveModuleRole_reads {E} uid m : read_only (resolveModuleRole uid m : H E string).
Proof.
  unfold resolveModuleRole. destruct (streq uid ""); [done|]. destruct (streq _ _).
  - apply read_only_bind; [by split|]. intros x. destruct (err x), (val x); try done. by destruct (streq _ _).
  - apply read_only_bind; [by split|]. intros x. destruct (err x), (val x); try done.
    apply (member_tail_reads (fun x => x)).
Qed.

Lemma resolveOrgRole_reads {E} uid o : read_only (resolveOrgRole uid o : H E string).
Proof.
  unfold resolveOrgRole. destruct (streq uid ""); [done|]. apply (member_tail_reads (fun x => x)).
Qed.

Lemma resolveOwnerRole_reads {E} uid n : read_only (resolveOwnerRole uid n : H E (option string)).
Proof.
  unfold resolveOwnerRole. destruct (streq uid ""); [done|]. apply read_only_bind; [by split|]. intros x.
  cbv zeta. match goal with |- context [?c] =>
    match c with mbind _ (repo (Orgs_GetByName _)) => assert (Hc : read_only c) end end.
  { apply read_only_bind; [by split|]. intros y.
    destruct (err y) as [e|], (val y); try (by destruct (is_not_found e)); try done.
    apply (member_tail_reads Some). }
  destruct (err x), (val x); try done. by destruct (streq _ _).
Qed.

#[export] Instance authz_reads : @AuthorizerReads (authz_Authorizer enforcer).
Proof.
  constructor; intros E uid x; cbn [CanReadModule CanWriteModule CanAdminModule CanCreateModule
    CanManageOrgMembers authz_Authorizer].
  - unfold authz_CanReadModule. destruct (streq _ _); [done|].
    apply read_only_bind; [apply resolveModuleRole_reads|done].
  - apply read_only_bind; [apply resolveModuleRole_reads|done].
  - apply read_only_bind; [apply resolveModuleRole_reads|done].
  - apply read_only_bind; [apply resolveOwnerRole_reads|by intros []].
  - apply read_only_bind; [apply resolveOrgRole_reads|done].
Qed.
End AuthzReads.
