(* ===== verification/ModuleApi.v ===== *)
(** * The module services (internal/api/module: module.go, resolve.go, commit.go, label.go)

    Requests and responses are the messages of [buf.registry.module.v1], as far
    as the handlers read and fill them; a [oneof] is an inductive type whose
    last constructor is the unset value. *)
From S2P Require Import Prelude GoStd Regex Model Iface Prog Auth Authz.

(** ** Messages *)
Record RefName := mkRefName { rn_Owner : string; rn_Module : string }.

Inductive ModuleRef :=
| ModuleRef_Id (id : string)
| ModuleRef_Name (n : RefName)
| ModuleRef_None.

Inductive RefChild :=
| Child_LabelName (l : string)
| Child_Ref (r : string)
| Child_None.

Record ResourceName := mkResourceName { xn_Owner : string; xn_Module : string; xn_Child : RefChild }.

Inductive ResourceRef :=
| ResourceRef_Id (id : string)
| ResourceRef_Name (n : ResourceName)
| ResourceRef_None.

Record LabelName := mkLabelName { ln_Owner : string; ln_Module : string; ln_Label : string }.

Inductive LabelRef :=
| LabelRef_Id (id : string)
| LabelRef_Name (n : LabelName)
| LabelRef_None.

Inductive OwnerRef :=
| OwnerRef_Id (id : string)
| OwnerRef_Name (n : string)
| OwnerRef_None.

Inductive ModuleVisibility :=
| MODULE_VISIBILITY_UNSPECIFIED
| MODULE_VISIBILITY_PUBLIC
| MODULE_VISIBILITY_PRIVATE.

Record PbModule := mkPbModule {
  pm_Id : string; pm_Name : string; pm_OwnerId : string; pm_Visibility : ModuleVisibility;
  pm_CreateTime : Time; pm_UpdateTime : Time; pm_DefaultLabelName : string }.

Record PbCommit := mkPbCommit {
  pc_Id : string; pc_CreateTime : Time; pc_OwnerId : string; pc_ModuleId : string;
  pc_CreatedByUserId : string; pc_Digest : option (list Z) }.

Record PbLabel := mkPbLabel {
  pl_Id : string; pl_Name : string; pl_ModuleId : string; pl_OwnerId : string;
  pl_CommitId : string; pl_CreateTime : Time; pl_UpdateTime : Time }.

Record CreateModuleValue := mkCreateModuleValue {
  cm_OwnerRef : option OwnerRef; cm_Name : string; cm_Visibility : ModuleVisibility }.

Record LabelValue := mkLabelValue { lv_LabelRef : option LabelRef; lv_CommitId : string }.

(** Getters of generated messages: the zero value when the field is unset. *)
Definition GetLabelName (c : RefChild) : string := match c with Child_LabelName l => l | _ => "" end.
Definition GetRef (c : RefChild) : string := match c with Child_Ref r => r | _ => "" end.
Definition OwnerRef_GetName (r : OwnerRef) : string := match r with OwnerRef_Name n => n | _ => "" end.

(** ** module.go: helpers *)

(** [^[a-z0-9][a-z0-9-]{0,37}[a-z0-9]$] *)
Definition moduleNameRe : regex := name_pattern 0 37.

Definition resolveOwnerRefName (ref : option OwnerRef) : string :=
  match ref with None => "" | Some ref => OwnerRef_GetName ref end.

Definition resolveOwnerTypeFromName (caller : User) (ownerName : string) : OwnerType :=
  if streq ownerName (User_Username caller) then OwnerTypeUser else OwnerTypeOrg.

Definition userID (u : option User) : string :=
  match u with None => "" | Some u => User_ID u end.

Definition resolveOwnerIDHelper {E} (m : Mod) : H E string :=
  if streq (Mod_OwnerType m) OwnerTypeUser then
    r ← repo (Users_GetByUsername (Mod_OwnerName m));
    match err r, val r with
    | None, Some u => mret (User_ID u)
    | None, None => Ret Panic
    | Some _, _ => mret ""
    end
  else
    r ← repo (Orgs_GetByName (Mod_OwnerName m));
    match err r, val r with
    | None, Some o => mret (Org_ID o)
    | None, None => Ret Panic
    | Some _, _ => mret ""
    end.

Definition moduleToProto (m : Mod) (ownerID : string) : PbModule :=
  let vis := if streq (Mod_Visibility m) VisibilityPublic
             then MODULE_VISIBILITY_PUBLIC else MODULE_VISIBILITY_PRIVATE in
  mkPbModule (Mod_ID m) (Mod_Name m) ownerID vis (Mod_CreatedAt m) (Mod_CreatedAt m) "main".

Definition commitToProto (c : Commit) (ownerID : string) : PbCommit :=
  mkPbCommit (Commit_ID c) (Commit_CreatedAt c) ownerID (Commit_ModuleID c)
    (Commit_CreatedByUserID c) None.

Definition labelToProto (l : Label) (ownerID : string) : PbLabel :=
  mkPbLabel (Label_ID l) (Label_Name l) (Label_ModuleID l) ownerID (Label_CommitID l)
    (Label_CreatedAt l) (Label_UpdatedAt l).

Definition internal_error : ConnectError := NewError CodeInternal "internal error".
Definition module_not_found : ConnectError := NewError CodeNotFound "module not found".

(** ** resolve.go *)

(** The error half of [resolveResourceRef] is a plain Go error; its message is
    all its callers use. *)
Definition resolveResourceRef (ref : option ResourceRef) : H string (Mod * option Commit) :=
  match ref with
  | None => fail "resource ref required"
  | Some (ResourceRef_Id id) =>
      if streq id "" then fail "resource ref must have name or id"
      else fail "ID-based resource ref not yet supported"
  | Some ResourceRef_None => fail "resource ref must have name or id"
  | Some (ResourceRef_Name name) =>
      rm ← repo (Modules_Get (xn_Owner name) (xn_Module name));
      m ← need rm (fun e => if is_not_found e
                            then "module not found: " +:+ xn_Owner name +:+ "/" +:+ xn_Module name
                            else ierr_msg e);
      if negb (streq (GetLabelName (xn_Child name)) "") then
        rl ← repo (Labels_Get (Mod_ID m) (GetLabelName (xn_Child name)));
        label ← need rl (fun e => if is_not_found e
                                  then "label not found: " +:+ GetLabelName (xn_Child name)
                                  else ierr_msg e);
        rc ← repo (Commits_GetByID (Mod_ID m) (Label_CommitID label));
        check (err rc) ierr_msg;;
        mret (m, val rc)
      else if negb (streq (GetRef (xn_Child name)) "") then
        let ref := GetRef (xn_Child name) in
        rc ← repo (Commits_GetByID (Mod_ID m) ref);
        match err rc with
        | None => mret (m, val rc)
        | Some _ =>
            rl ← repo (Labels_Get (Mod_ID m) ref);
            match err rl with
            | None =>
                label ← need rl ierr_msg;
                rc ← repo (Commits_GetByID (Mod_ID m) (Label_CommitID label));
                check (err rc) ierr_msg;;
                mret (m, val rc)
            | Some _ => fail ("ref not found: " +:+ ref)
            end
        end
      else
        rl ← repo (Labels_Get (Mod_ID m) "main");
        match err rl, val rl with
        | Some e, _ => if is_not_found e then mret (m, None) else fail (ierr_msg e)
        | None, None => Ret Panic
        | None, Some label =>
            rc ← repo (Commits_GetByID (Mod_ID m) (Label_CommitID label));
            check (err rc) ierr_msg;;
            mret (m, val rc)
        end
  end.

(** [connect.NewError(connect.CodeNotFound, err)] around a failed resolution. *)
Definition not_found_of {A} (p : H string A) : H ConnectError A :=
  pbind p (fun o => Ret (match o with
                         | Done a => Done a
                         | Fail msg => Fail (NewError CodeNotFound msg)
                         | Panic => Panic
                         end)).

Section Services.
Context `{Authorizer}.

(** ** ModuleService *)
Definition GetModules_ref (caller : Ctx) (modules : list PbModule) (ref : ModuleRef)
    : H ConnectError (list PbModule) :=
  r ← (match ref with
       | ModuleRef_Name n => repo (Modules_Get (rn_Owner n) (rn_Module n))
       | ModuleRef_Id id =>
           if streq id "" then fail (NewError CodeInvalidArgument "module ref must have name or id")
           else repo (Modules_GetByID id)
       | ModuleRef_None => fail (NewError CodeInvalidArgument "module ref must have name or id")
       end);
  m ← need r (fun e => if is_not_found e then module_not_found else internal_error);
  ok ← CanReadModule (userID caller) m;
  guard_ ok module_not_found;;
  ownerID ← resolveOwnerIDHelper m;
  mret (modules ++ [moduleToProto m ownerID])%list.

Definition GetModules (ctx : Ctx) (refs : list ModuleRef) : H ConnectError (list PbModule) :=
  for_range refs [] (GetModules_ref (UserFromContext ctx)).

Definition ListModules_owner (caller : Ctx) (allModules : list PbModule) (ownerRef : OwnerRef)
    : H ConnectError (list PbModule) :=
  let ownerName := resolveOwnerRefName (Some ownerRef) in
  guard_ (negb (streq ownerName "")) (NewError CodeInvalidArgument "owner ref must have name");;
  r ← repo (Modules_List ownerName);
  mods ← need r (fun _ => internal_error);
  for_range mods allModules (fun allModules m =>
    ok ← CanReadModule (userID caller) m;
    if ok : bool then
      ownerID ← resolveOwnerIDHelper m;
      mret (allModules ++ [moduleToProto m ownerID])%list
    else mret allModules).

Definition ListModules (ctx : Ctx) (ownerRefs : list OwnerRef) : H ConnectError (list PbModule) :=
  for_range ownerRefs [] (ListModules_owner (UserFromContext ctx)).

Definition CreateModules_value (caller : User) (modules : list PbModule) (v : CreateModuleValue)
    : H ConnectError (list PbModule) :=
  let ownerName := resolveOwnerRefName (cm_OwnerRef v) in
  ok ← CanCreateModule (User_ID caller) ownerName;
  guard_ ok (NewError CodePermissionDenied ("cannot create modules under: " +:+ ownerName));;
  let ownerType := resolveOwnerTypeFromName caller ownerName in
  guard_ (MatchString moduleNameRe (cm_Name v))
    (NewError CodeInvalidArgument "module name must be 2-39 chars, lowercase alphanumeric and hyphens");;
  let vis := match cm_Visibility v with
             | MODULE_VISIBILITY_PUBLIC => VisibilityPublic
             | _ => VisibilityPrivate
             end in
  r ← repo (Modules_Get ownerName (cm_Name v));
  match err r with
  | None => fail (NewError CodeAlreadyExists ("module already exists: " +:+ ownerName +:+ "/" +:+ cm_Name v))
  | Some _ =>
      id ← perform NewUUID;
      now ← perform Now;
      let m := mkMod id ownerName ownerType (cm_Name v) vis now in
      e ← repo (Modules_Create m);
      check e (fun _ => internal_error);;
      ownerID ← resolveOwnerIDHelper m;
      mret (modules ++ [moduleToProto m ownerID])%list
  end.

Definition CreateModules (ctx : Ctx) (values : list CreateModuleValue) : H ConnectError (list PbModule) :=
  match UserFromContext ctx with
  | None => fail (NewError CodeUnauthenticated "not authenticated")
  | Some caller => for_range values [] (CreateModules_value caller)
  end.

(** ** CommitService *)
Definition GetCommits_ref (caller : Ctx) (commits : list PbCommit) (ref : ResourceRef)
    : H ConnectError (list PbCommit) :=
  mc ← not_found_of (resolveResourceRef (Some ref));
  let '(m, commit) := mc in
  ok ← CanReadModule (userID caller) m;
  guard_ ok module_not_found;;
  match commit with
  | None => fail (NewError CodeNotFound "no commits found")
  | Some commit =>
      ownerID ← resolveOwnerIDHelper m;
      mret (commits ++ [commitToProto commit ownerID])%list
  end.

Definition GetCommits (ctx : Ctx) (refs : list ResourceRef) : H ConnectError (list PbCommit) :=
  for_range refs [] (GetCommits_ref (UserFromContext ctx)).

Definition ListCommits (ctx : Ctx) (ref : option ResourceRef) : H ConnectError (list PbCommit) :=
  let caller := UserFromContext ctx in
  mc ← not_found_of (resolveResourceRef ref);
  let m := mc.1 in
  ok ← CanReadModule (userID caller) m;
  guard_ ok module_not_found;;
  r ← repo (Commits_ListByModule (Mod_ID m));
  dbCommits ← need r (fun _ => internal_error);
  ownerID ← resolveOwnerIDHelper m;
  mret ((fun c => commitToProto c ownerID) <$> dbCommits).

(** ** LabelService *)
Definition GetLabels_ref (caller : Ctx) (labels : list PbLabel) (ref : LabelRef)
    : H ConnectError (list PbLabel) :=
  match ref with
  | LabelRef_Name n =>
      r ← repo (Modules_Get (ln_Owner n) (ln_Module n));
      m ← need r (fun _ => module_not_found);
      ok ← CanReadModule (userID caller) m;
      guard_ ok module_not_found;;
      rl ← repo (Labels_Get (Mod_ID m) (ln_Label n));
      l ← need rl (fun e => if is_not_found e
                            then NewError CodeNotFound ("label not found: " +:+ ln_Label n)
                            else internal_error);
      ownerID ← resolveOwnerIDHelper m;
      mret (labels ++ [labelToProto l ownerID])%list
  | _ => fail (NewError CodeInvalidArgument "label ref must have name")
  end.

Definition GetLabels (ctx : Ctx) (refs : list LabelRef) : H ConnectError (list PbLabel) :=
  for_range refs [] (GetLabels_ref (UserFromContext ctx)).

Definition ListLabels (ctx : Ctx) (ref : option ResourceRef) : H ConnectError (list PbLabel) :=
  let caller := UserFromContext ctx in
  mc ← not_found_of (resolveResourceRef ref);
  let m := mc.1 in
  ok ← CanReadModule (userID caller) m;
  guard_ ok module_not_found;;
  r ← repo (Labels_List (Mod_ID m));
  dbLabels ← need r (fun _ => internal_error);
  ownerID ← resolveOwnerIDHelper m;
  mret ((fun l => labelToProto l ownerID) <$> dbLabels).

Definition CreateOrUpdateLabels_value (caller : User) (labels : list PbLabel) (v : LabelValue)
    : H ConnectError (list PbLabel) :=
  match lv_LabelRef v with
  | Some (LabelRef_Name n) =>
      r ← repo (Modules_Get (ln_Owner n) (ln_Module n));
      m ← need r (fun _ => module_not_found);
      ok ← CanAdminModule (User_ID caller) m;
      guard_ ok (NewError CodePermissionDenied "no admin access");;
      rc ← repo (Commits_GetByID (Mod_ID m) (lv_CommitId v));
      check (err rc) (fun _ => NewError CodeInvalidArgument "commit not found in module");;
      now ← perform Now;
      id ← perform NewUUID;
      let l := mkLabel id (Mod_ID m) (ln_Label n) (lv_CommitId v) now now in
      e ← repo (Labels_Upsert l);
      check e (fun _ => NewError CodeInternal "failed to upsert label");;
      ownerID ← resolveOwnerIDHelper m;
      mret (labels ++ [labelToProto l ownerID])%list
  | _ => fail (NewError CodeInvalidArgument "label ref with name required")
  end.

Definition CreateOrUpdateLabels (ctx : Ctx) (values : list LabelValue) : H ConnectError (list PbLabel) :=
  match UserFromContext ctx with
  | None => fail (NewError CodeUnauthenticated "not authenticated")
  | Some caller => for_range values [] (CreateOrUpdateLabels_value caller)
  end.
End Services.

(** ** Resolution *)
Section Resolve.
Context `{Bcrypt} (md : mode).

Definition has_commit (t : Tables) (moduleID commitID : string) : Prop :=
  exists c, c ∈ t_commits t /\ commit_at moduleID commitID c.
Definition has_label (t : Tables) (moduleID name : string) : Prop :=
  exists l, l ∈ t_labels t /\ label_at moduleID name l.

(** What a commit lookup turns into. *)
Definition commit_outcome (t : Tables) (m : Mod) (commitID : string) (o : outcome string (Mod * option Commit)) : Prop :=
  (exists c, c ∈ t_commits t /\ commit_at (Mod_ID m) commitID c /\ o = Done (m, Some c)) \/
  (~ has_commit t (Mod_ID m) commitID /\ o = Fail "not found").

Definition label_outcome (t : Tables) (m : Mod) (name : string) (missing : outcome string (Mod * option Commit))
    (o : outcome string (Mod * option Commit)) : Prop :=
  (exists l, l ∈ t_labels t /\ label_at (Mod_ID m) name l /\ commit_outcome t m (Label_CommitID l) o) \/
  (~ has_label t (Mod_ID m) name /\ o = missing).

(** The meaning of a reference over the stored rows: a label child selects the
    label's commit; a ref child is a commit identifier first and a label name
    second; no child is the label [main], and a module without it has no commit. *)
Definition resolves (t : Tables) (ref : option ResourceRef) (o : outcome string (Mod * option Commit)) : Prop :=
  match ref with
  | None => o = Fail "resource ref required"
  | Some ResourceRef_None => o = Fail "resource ref must have name or id"
  | Some (ResourceRef_Id id) =>
      o = Fail (if decide (id = "") then "resource ref must have name or id"
                else "ID-based resource ref not yet supported")
  | Some (ResourceRef_Name n) =>
      ((forall m, m ∈ t_modules t -> ~ owned_as (xn_Owner n) (xn_Module n) m) /\
       o = Fail ("module not found: " +:+ xn_Owner n +:+ "/" +:+ xn_Module n)) \/
      (exists m, m ∈ t_modules t /\ owned_as (xn_Owner n) (xn_Module n) m /\
       if decide (GetLabelName (xn_Child n) <> "") then
         label_outcome t m (GetLabelName (xn_Child n))
           (Fail ("label not found: " +:+ GetLabelName (xn_Child n))) o
       else if decide (GetRef (xn_Child n) <> "") then
         (exists c, c ∈ t_commits t /\ commit_at (Mod_ID m) (GetRef (xn_Child n)) c /\ o = Done (m, Some c)) \/
         (~ has_commit t (Mod_ID m) (GetRef (xn_Child n)) /\
          label_outcome t m (GetRef (xn_Child n)) (Fail ("ref not found: " +:+ GetRef (xn_Child n))) o)
       else label_outcome t m "main" (Done (m, None)) o)
  end.

Lemma no_witness {R} (P : R -> Prop) (l : list R) :
  (forall r, r ∈ l -> ~ P r) -> ~ exists r, r ∈ l /\ P r.
Proof. intros Hn (r & Hr & HP). by apply (Hn r). Qed.

(** The commit lookup that ends every successful path. *)
Lemma commit_tail (t : Tables) m commitID s (Q : outcome string (Mod * option Commit) -> State -> Prop) :
  live md = true -> t = tables s ->
  (forall o, commit_outcome t m commitID o -> Q o s) ->
  awp md (rc ← repo (Commits_GetByID (Mod_ID m) commitID);
          check (err rc) ierr_msg;; mret (m, val rc)) Q s.
Proof.
  intros Hl -> HQ. wp_read x Hx. destruct (gets_cases _ _ _ _ Hx) as [(c & -> & -> & Hc & Hat)|(e & -> & Hn)].
  - apply awp_check; [intros _|done]. apply awp_ret, HQ. left. eauto.
  - destruct (Hn Hl) as [-> Hno]. apply awp_check; [done|intros ? [= <-]].
    apply HQ. right. split; [by apply no_witness|done].
Qed.

Lemma resolve_meaning ref s :
  live md = true ->
  awp md (resolveResourceRef ref) (fun o s' => s' = s /\ resolves (tables s) ref o) s.
Proof.
  intros Hl. destruct ref as [[id|n|]|]; unfold resolveResourceRef; cbn [resolves]; [|..|done|done].
  { destruct (streq id "") eqn:E; bool_facts; simpl; split; try done; by case_decide. }
  wp_read x Hx. wp_get Hx; [|intros Hn; split; [done|]; by left|congruence].
  intros m Hm Hown.
  destruct (streq (GetLabelName (xn_Child n)) "") eqn:E1; bool_facts; cbn [negb].
  - destruct (streq (GetRef (xn_Child n)) "") eqn:E2; bool_facts; cbn [negb].
    + wp_read y Hy. destruct (gets_cases _ _ _ _ Hy) as [(l & -> & -> & Hlb & Hat)|(e & -> & Hn)].
      * apply (commit_tail (tables s)); [done..|]. intros o Ho. split; [done|]. right. exists m.
        do 2 (split; [done|]). do 2 (rewrite decide_False; [|tauto]). left. eauto.
      * destruct (Hn Hl) as [-> Hno]. split; [done|]. right. exists m.
        do 2 (split; [done|]). do 2 (rewrite decide_False; [|tauto]). right.
        split; [by apply no_witness|done].
    + wp_read y Hy. destruct (gets_cases _ _ _ _ Hy) as [(c & -> & -> & Hc & Hat)|(e & -> & Hn)].
      { split; [done|]. right. exists m. do 2 (split; [done|]). rewrite decide_False by tauto.
        rewrite decide_True by done. left. eauto. }
      destruct (Hn Hl) as [_ Hnc]. wp_read z Hz.
      destruct (gets_cases _ _ _ _ Hz) as [(l & Ez & Ev & Hlb & Hat)|(e' & -> & Hn')].
      * rewrite Ez. unfold need. rewrite Ez, Ev. apply (awp_bind md). cbn [awp after].
        apply (commit_tail (tables s)); [done..|]. intros o Ho. split; [done|]. right. exists m.
        do 2 (split; [done|]). rewrite decide_False by tauto. rewrite decide_True by done.
        right. split; [by apply no_witness|]. left. eauto.
      * destruct (Hn' Hl) as [-> Hno]. split; [done|]. right. exists m.
        do 2 (split; [done|]). rewrite decide_False by tauto. rewrite decide_True by done.
        right. split; [by apply no_witness|]. right. split; [by apply no_witness|done].
  - wp_read y Hy. wp_get Hy; [|intros Hn|congruence].
    + intros l Hlb Hat. apply (commit_tail (tables s)); [done..|]. intros o Ho. split; [done|].
      right. exists m. do 2 (split; [done|]). rewrite decide_True by done. left. eauto.
    + split; [done|]. right. exists m. do 2 (split; [done|]). rewrite decide_True by done. right.
      split; [by apply no_witness|done].
Qed.

(** C16. On a backend that does not fail, [resolveResourceRef] returns exactly what
    the reference means over the stored rows, and changes nothing. *)
Theorem resolveResourceRef_functional ref s :
  live md = true ->
  awp md (resolveResourceRef ref) (fun o s' => s' = s /\ resolves (tables s) ref o) s.
Proof. apply resolve_meaning. Qed.
End Resolve.

(** ** Soundness under faults, and reading *)
Section ResolveSound.
Context `{Bcrypt} (md : mode).

(** A resolved module is a stored module of the requested name, and its commit is one of its own. *)
Definition resolved_in (t : Tables) (ref : option ResourceRef) (m : Mod) (oc : option Commit) : Prop :=
  (exists n, ref = Some (ResourceRef_Name n) /\ owned_as (xn_Owner n) (xn_Module n) m) /\
  m ∈ t_modules t /\
  (forall c, oc = Some c -> c ∈ t_commits t /\ Commit_ModuleID c = Mod_ID m).

Lemma commit_tail_sound (m : Mod) commitID s (Q : outcome string (Mod * option Commit) -> State -> Prop) :
  (forall e, Q (Fail e) s) ->
  (forall oc, (forall c, oc = Some c -> c ∈ t_commits (tables s) /\ Commit_ModuleID c = Mod_ID m) ->
     Q (Done (m, oc)) s) ->
  awp md (rc ← repo (Commits_GetByID (Mod_ID m) commitID);
          check (err rc) ierr_msg;; mret (m, val rc)) Q s.
Proof.
  intros Hf Hd. wp_read x Hx. apply awp_check; [|auto]. intros Ex. apply awp_ret, Hd.
  destruct (gets_cases _ _ _ _ Hx) as [(c & _ & -> & Hc & [Hat _])|(e & Ee & _)]; [|congruence].
  by intros ? [= <-].
Qed.

(** On any backend, whatever fails, a resolution that succeeds is right, one that
    does not returns an error, and the state is untouched. *)
Lemma resolveResourceRef_sound ref s :
  awp md (resolveResourceRef ref)
    (fun o s' => s' = s /\ o <> Panic /\ forall m oc, o = Done (m, oc) -> resolved_in (tables s) ref m oc) s.
Proof.
  assert (forall e, s = s /\ @Fail string (Mod * option Commit) e <> Panic /\
    forall m oc, Fail e = Done (m, oc) -> resolved_in (tables s) ref m oc) as Hfail by done.
  destruct ref as [[id|n|]|]; unfold resolveResourceRef; [destruct (streq id ""); apply Hfail| |done|done].
  wp_read x Hx. wp_get Hx; [|intros _; apply Hfail|intros msg _; apply Hfail].
  intros m Hm Hown.
  assert (forall oc, (forall c, oc = Some c -> c ∈ t_commits (tables s) /\ Commit_ModuleID c = Mod_ID m) ->
    s = s /\ Done (m, oc) <> @Panic string _ /\ forall m' oc', @Done string _ (m, oc) = Done (m', oc') ->
    resolved_in (tables s) (Some (ResourceRef_Name n)) m' oc') as Hdone.
  { intros oc Hoc. split; [done|]. split; [done|]. intros m' oc' [= <- <-]. split; [eauto|done]. }
  destruct (negb (streq (GetLabelName (xn_Child n)) "")); [|destruct (negb (streq (GetRef (xn_Child n)) ""))].
  - wp_read y Hy. wp_get Hy; [|intros _; apply Hfail|intros msg _; apply Hfail].
    intros l _ _. by apply commit_tail_sound.
  - wp_read y Hy. destruct (gets_cases _ _ _ _ Hy) as [(c & -> & -> & Hc & [Hat _])|(e & -> & _)].
    { apply awp_ret, Hdone. by intros ? [= <-]. }
    wp_read z Hz. destruct (err z) eqn:Ez; [apply Hfail|].
    wp_get Hz; [|intros _; apply Hfail|intros msg _; apply Hfail].
    intros l _ _. by apply commit_tail_sound.
  - wp_read y Hy. destruct (gets_cases _ _ _ _ Hy) as [(l & -> & -> & _)|(e & -> & _)].
    + by apply commit_tail_sound.
    + destruct (is_not_found e); [by apply Hdone|apply Hfail].
Qed.

Lemma not_found_of_sound ref s :
  awp md (not_found_of (resolveResourceRef ref))
    (fun o s' => s' = s /\ o <> Panic /\
       (forall e, o = Fail e -> ce_code e = CodeNotFound) /\
       forall m oc, o = Done (m, oc) -> resolved_in (tables s) ref m oc) s.
Proof.
  unfold not_found_of. apply awp_pbind. eapply awp_mono; [apply resolveResourceRef_sound|].
  intros [[m oc]|e|] s' (-> & Hp & Hr); simpl; [|by repeat split; try done; intros ? [= <-]|done].
  split; [done|]. split; [done|]. split; [done|]. intros ? ? [= <- <-]. auto.
Qed.

(** The owner's identifier is looked up, never invented, and the lookup cannot fail the request. *)
Lemma ownerID_ok {E} m s :
  awp md (resolveOwnerIDHelper m : H E string) (fun o s' => s' = s /\ exists i, o = Done i) s.
Proof.
  unfold resolveOwnerIDHelper. destruct (streq _ _).
  - wp_read x Hx. destruct (gets_cases _ _ _ _ Hx) as [(u & -> & -> & _)|(e & -> & _)]; simpl; eauto.
  - wp_read x Hx. destruct (gets_cases _ _ _ _ Hx) as [(u & -> & -> & _)|(e & -> & _)]; simpl; eauto.
Qed.
End ResolveSound.

Lemma commit_tail_reads (m : Mod) commitID :
  read_only (rc ← repo (Commits_GetByID (Mod_ID m) commitID);
             check (err rc) ierr_msg;; mret (m, val rc) : H string (Mod * option Commit)).
Proof. apply read_only_bind; [by split|]. intros x. apply read_only_bind; [by destruct (err x)|done]. Qed.

Lemma need_reads {E A} (x : goret A) (f : ierr -> E) : read_only (need x f).
Proof. unfold need. by destruct (err x), (val x). Qed.

Lemma resolveResourceRef_reads ref : read_only (resolveResourceRef ref).
Proof.
  destruct ref as [[id|n|]|]; unfold resolveResourceRef; [by destruct (streq id "")| |done|done].
  apply read_only_bind; [by split|]. intros x. apply read_only_bind; [apply need_reads|]. intros m.
  destruct (negb _); [|destruct (negb _)].
  - apply read_only_bind; [by split|]. intros y. apply read_only_bind; [apply need_reads|].
    intros l. apply commit_tail_reads.
  - apply read_only_bind; [by split|]. intros y. destruct (err y); [|done].
    apply read_only_bind; [by split|]. intros z. destruct (err z); [done|].
    apply read_only_bind; [apply need_reads|]. intros l. apply commit_tail_reads.
  - apply read_only_bind; [by split|]. intros y.
    destruct (err y) as [e|], (val y); try (by destruct (is_not_found e)); try done.
    apply commit_tail_reads.
Qed.

Lemma not_found_of_reads {A} (p : H string A) : read_only p -> read_only (not_found_of p).
Proof.
  unfold not_found_of. induction p as [[a|e|]|X e k IH]; simpl; try done.
  intros [? Hk]. split; [done|]. auto.
Qed.

Lemma ownerID_reads {E} m : read_only (resolveOwnerIDHelper m : H E string).
Proof.
  unfold resolveOwnerIDHelper. destruct (streq _ _); (apply read_only_bind; [by split|]);
    intros x; by destruct (err x), (val x).
Qed.

#[export] Hint Resolve need_reads resolveResourceRef_reads not_found_of_reads ownerID_reads
  read_reads write_reads admin_reads create_reads manage_reads : reads.
