(* ===== verification/UploadApi.v ===== *)
(** * Content services (internal/api/module: upload.go, download.go, fds.go)

    A push validates the files, packs them in a zip archive, stores the archive
    under the module's identifier and the archive's SHA-256, records the commit
    and moves labels to it; a download resolves a reference and unpacks. *)
From S2P Require Import Prelude GoStd Sha256 Model Iface Prog Auth Authz ModuleApi.

(** ** archive/zip

    The writer's state is the entries created so far.  The byte format (with its
    compression) is the library's: [zip_encode] and [zip_open] stand for it. *)
Record ZipEntry := mkZipEntry {
  ze_Name : string;
  ze_UncompressedSize64 : Z;
  (** [None]: [Open] fails; otherwise the bytes the entry decompresses to and
      whether the stream ends cleanly (its checksum matches). *)
  ze_stream : option (string * bool) }.

Class Zip := {
  zip_encode : list (string * string) -> bytes;
  zip_open : bytes -> option (list ZipEntry) }.

Definition zip_entry (f : string * string) : ZipEntry := mkZipEntry f.1 (slen f.2) (Some (f.2, true)).

(** An archive the writer produced opens to the entries written. *)
Class ZipOk `{Zip} : Prop :=
  zip_open_encode fs : zip_open (zip_encode fs) = Some (zip_entry <$> fs).

Definition zip_writer := list (string * string).

(** [w.Create]: a name longer than a 16-bit length is refused. *)
Definition zip_Create (w : zip_writer) (name : string) : option zip_writer :=
  if 65535 <? slen name then None else Some (w ++ [(name, "")])%list.

(** [fw.Write] on the entry created last: a name ending in a slash is a directory,
    which takes no bytes. *)
Definition zip_Write (w : zip_writer) (data : string) : option zip_writer :=
  match last w with
  | None => None
  | Some (name, c) =>
      if HasSuffix name "/" && negb (streq data "") then None
      else Some (removelast w ++ [(name, c +:+ data)])%list
  end.

(** ** upload.go *)
Definition maxUploadSize : Z := 50 * 1024 * 1024.
Definition maxFileCount : Z := 10000.
Definition maxFileSize : Z := 10 * 1024 * 1024.

Record File := mkFile { File_Path : string; File_Content : bytes }.

Definition bad_path (p : string) : bool :=
  streq p "" || HasPrefix p "/" || Contains p "\" || Contains p "..".

(** The loop of [validateFiles], with the running total. *)
Fixpoint validate_loop (totalSize : Z) (files : list File) : option string :=
  match files with
  | [] => None
  | f :: files =>
      let p := File_Path f in
      if bad_path p then Some ("invalid file path: " +:+ p)
      else if maxFileSize <? slen (File_Content f) then Some ("file too large: " +:+ p)
      else
        let totalSize := int64 (totalSize + slen (File_Content f)) in
        if maxUploadSize <? totalSize then Some "total upload too large"
        else validate_loop totalSize files
  end.

Definition validateFiles (files : list File) : option string :=
  if maxFileCount <? Z.of_nat (length files) then Some "too many files"
  else validate_loop 0 files.

Fixpoint zip_loop (w : zip_writer) (files : list File) : option zip_writer :=
  match files with
  | [] => Some w
  | f :: files =>
      w ← zip_Create w (File_Path f);
      w ← zip_Write w (File_Content f);
      zip_loop w files
  end.

Definition zipFiles `{Zip} (files : list File) : option bytes := zip_encode <$> zip_loop [] files.

(** [content.ReadFrom(io.LimitReader(rc, n))]: a stream longer than the limit is
    cut without reaching its end; otherwise its end decides. *)
Definition limited_read (n : Z) (stream : string * bool) : option string :=
  let '(data, ok) := stream in
  if n <? slen data then Some (take_bytes (Z.to_nat n) data)
  else if ok : bool then Some data else None.

Fixpoint unzip_loop (totalSize : Z) (acc : list File) (entries : list ZipEntry) : string + list File :=
  match entries with
  | [] => inr acc
  | f :: entries =>
      if maxFileSize <? ze_UncompressedSize64 f then inl ("decompressed file too large: " +:+ ze_Name f)
      else
        match ze_stream f with
        | None => inl "open"
        | Some stream =>
            match limited_read (maxFileSize + 1) stream with
            | None => inl "read"
            | Some content =>
                let n := slen content in
                if maxFileSize <? n then inl ("decompressed file too large: " +:+ ze_Name f)
                else
                  let totalSize := int64 (totalSize + n) in
                  if maxUploadSize <? totalSize then inl "total decompressed size too large"
                  else unzip_loop totalSize (acc ++ [mkFile (ze_Name f) content])%list entries
            end
        end
  end.

Definition unzipFiles `{Zip} (data : bytes) : string + list File :=
  match zip_open data with
  | None => inl "zip"
  | Some entries => unzip_loop 0 [] entries
  end.

Record ScopedLabelRef := mkScopedLabelRef { sl_Name : string }.
Record UploadContent := mkUploadContent {
  uc_ModuleRef : option ModuleRef;
  uc_Files : list File;
  uc_ScopedLabelRefs : list ScopedLabelRef }.

Record DownloadContent := mkDownloadContent { dc_Commit : PbCommit; dc_Files : list File }.

(** The labels a push moves: [main] unless it names others. *)
Definition upload_labels (refs : list ScopedLabelRef) : list string :=
  match refs with
  | [] => ["main"]
  | _ => (fun ref => if streq (sl_Name ref) "" then "main" else sl_Name ref) <$> refs
  end.

Section Content.
Context `{Authorizer} `{Zip}.

Definition Upload_content (caller : User) (commits : list PbCommit) (content : UploadContent)
    : H ConnectError (list PbCommit) :=
  match uc_ModuleRef content with
  | Some (ModuleRef_Name n) =>
      let ownerName := rn_Owner n in
      let moduleName := rn_Module n in
      rm ← repo (Modules_Get ownerName moduleName);
      m ← need rm (fun _ => NewError CodeNotFound ("module not found: " +:+ ownerName +:+ "/" +:+ moduleName));
      ok ← CanWriteModule (User_ID caller) m;
      guard_ ok (NewError CodePermissionDenied "no write access");;
      check (validateFiles (uc_Files content)) (NewError CodeInvalidArgument);;
      match zipFiles (uc_Files content) with
      | None => fail (NewError CodeInternal "failed to create archive")
      | Some zipData =>
          guard_ (negb (maxUploadSize <? slen zipData)) (NewError CodeInvalidArgument "upload too large");;
          let commitID := sha256_hex zipData in
          let digestValue := Sum256 zipData in
          let storageKey := Mod_ID m +:+ "/" +:+ commitID in
          e ← perform (StorePut storageKey zipData);
          check e (fun _ => NewError CodeInternal "failed to store content");;
          now ← perform Now;
          rc ← repo (Commits_GetByID (Mod_ID m) commitID);
          now ← (match val rc with
                 | Some existing => mret (Commit_CreatedAt existing)
                 | None =>
                     let c := mkCommit commitID (Mod_ID m) storageKey "" (User_ID caller) now in
                     e ← repo (Commits_Create c);
                     check e (fun _ => NewError CodeInternal "failed to create commit");;
                     mret now
                 end);
          for_range (upload_labels (uc_ScopedLabelRefs content)) () (fun _ labelName =>
            id ← perform NewUUID;
            let l := mkLabel id (Mod_ID m) labelName commitID now now in
            e ← repo (Labels_Upsert l);
            check e (fun _ => NewError CodeInternal "failed to upsert label"));;
          ownerID ← resolveOwnerIDHelper m;
          mret (commits ++ [mkPbCommit commitID now ownerID (Mod_ID m) (User_ID caller) (Some digestValue)])%list
      end
  | _ => fail (NewError CodeInvalidArgument "module ref with name required")
  end.

Definition Upload (ctx : Ctx) (contents : list UploadContent) : H ConnectError (list PbCommit) :=
  match UserFromContext ctx with
  | None => fail (NewError CodeUnauthenticated "not authenticated")
  | Some caller => for_range contents [] (Upload_content caller)
  end.

(** ** download.go *)
Definition Download_value (caller : Ctx) (contents : list DownloadContent) (ref : option ResourceRef)
    : H ConnectError (list DownloadContent) :=
  mc ← not_found_of (resolveResourceRef ref);
  let '(m, oc) := mc in
  match oc with
  | None => fail (NewError CodeNotFound "no commits found for module")
  | Some commit =>
      ok ← CanReadModule (userID caller) m;
      guard_ ok module_not_found;;
      r ← perform (StoreGet (Commit_StorageKey commit));
      match r with
      | inl _ => fail (NewError CodeInternal "failed to retrieve content")
      | inr data =>
          match unzipFiles data with
          | inl _ => fail (NewError CodeInternal "failed to read content")
          | inr files =>
              ownerID ← resolveOwnerIDHelper m;
              mret (contents ++ [mkDownloadContent
                (mkPbCommit (Commit_ID commit) (Commit_CreatedAt commit) ownerID (Mod_ID m)
                   (Commit_CreatedByUserID commit) None) files])%list
          end
      end
  end.

Definition Download (ctx : Ctx) (values : list (option ResourceRef)) : H ConnectError (list DownloadContent) :=
  for_range values [] (Download_value (UserFromContext ctx)).

(** ** fds.go *)

(** [fileMap[path] = content]: a later file of the same path replaces an earlier one. *)
Definition file_map (files : list File) : gmap string string :=
  foldl (fun fm f => <[File_Path f := File_Content f]> fm) ∅ files.

Definition proto_files (files : list File) : list string :=
  File_Path <$> filter (fun f => HasSuffix (File_Path f) ".proto" = true) files.

Definition GetFileDescriptorSet (ctx : Ctx) (ref : option ResourceRef)
    : H ConnectError (list FileDescriptorProto * PbCommit) :=
  let caller := UserFromContext ctx in
  mc ← not_found_of (resolveResourceRef ref);
  let '(m, oc) := mc in
  ok ← CanReadModule (userID caller) m;
  guard_ ok module_not_found;;
  match oc with
  | None => fail (NewError CodeNotFound "no commits found")
  | Some commit =>
      r ← perform (StoreGet (Commit_StorageKey commit));
      match r with
      | inl _ => fail (NewError CodeInternal "failed to retrieve content")
      | inr data =>
          match unzipFiles data with
          | inl _ => fail (NewError CodeInternal "failed to read content")
          | inr files =>
              let fileMap := file_map files in
              let protoFiles := proto_files files in
              guard_ (negb (Z.of_nat (length protoFiles) =? 0)) (NewError CodeNotFound "no .proto files found");;
              guard_ (negb (500 <? Z.of_nat (length protoFiles)))
                (NewError CodeInvalidArgument "too many proto files");;
              compiled ← perform (Compile_eff (map_to_list fileMap) protoFiles);
              match compiled with
              | None => fail (NewError CodeInternal "proto compilation failed")
              | Some fds =>
                  ownerID ← resolveOwnerIDHelper m;
                  mret (fds, mkPbCommit (Commit_ID commit) (Commit_CreatedAt commit) ownerID (Mod_ID m)
                               (Commit_CreatedByUserID commit) None)
              end
          end
      end
  end.
End Content.

(** ** Validation and the archive round trip *)
Fixpoint total_size (files : list File) : Z :=
  match files with [] => 0 | f :: files => slen (File_Content f) + total_size files end.

(** A path [validateFiles] lets through: relative, and free of backslashes and of
    two dots in a row. *)
Definition safe_upload_path (p : string) : Prop :=
  p <> "" /\ (forall q, p <> "/" +:+ q) /\
  (forall a b, p <> a +:+ ("\" +:+ b)) /\ (forall a b, p <> a +:+ (".." +:+ b)).

Definition valid_upload (files : list File) : Prop :=
  Z.of_nat (length files) <= maxFileCount /\
  Forall (fun f => safe_upload_path (File_Path f) /\ slen (File_Content f) <= maxFileSize) files /\
  total_size files <= maxUploadSize.

Lemma total_size_nonneg files : 0 <= total_size files.
Proof. induction files as [|f files IH]; simpl; [lia|]. pose proof (slen_nonneg (File_Content f)). lia. Qed.

Lemma bad_path_spec p : bad_path p = false <-> safe_upload_path p.
Proof.
  unfold bad_path, safe_upload_path. rewrite !orb_false_iff, streq_false, <- !not_true_iff_false.
  rewrite HasPrefix_spec, !Contains_spec. naive_solver.
Qed.

Lemma validate_loop_spec total files :
  0 <= total <= maxUploadSize ->
  validate_loop total files = None <->
  Forall (fun f => safe_upload_path (File_Path f) /\ slen (File_Content f) <= maxFileSize) files /\
  total + total_size files <= maxUploadSize.
Proof.
  unfold maxUploadSize, maxFileSize. revert total.
  induction files as [|f files IH]; intros total Ht; cbn [validate_loop total_size].
  { split; [intros _; split; [constructor|lia]|done]. }
  rewrite Forall_cons, <- bad_path_spec. unfold maxFileSize, maxUploadSize.
  pose proof (slen_nonneg (File_Content f)). pose proof (total_size_nonneg files).
  destruct (bad_path _); [naive_solver|].
  destruct (_ <? slen _) eqn:E1; bool_facts; [split; [done|lia]|].
  rewrite int64_id by lia. destruct (_ <? total + _) eqn:E2; bool_facts; [split; [done|lia]|].
  rewrite IH by lia. split; intros; split_and!; naive_solver lia.
Qed.

Lemma validate_valid files : validateFiles files = None -> valid_upload files.
Proof.
  unfold validateFiles, valid_upload. destruct (_ <? _) eqn:E; bool_facts; [done|].
  rewrite validate_loop_spec by (unfold maxUploadSize; lia). by intros [].
Qed.

(** C37. [validateFiles] accepts exactly the uploads of at most 10000 files with safe
    paths, none over 10 MB and together at most 50 MB: the running [int] total
    never wraps around. *)
Theorem validateFiles_accepts files : validateFiles files = None <-> valid_upload files.
Proof.
  split; [apply validate_valid|]. unfold validateFiles, valid_upload. intros (? & ? & ?).
  destruct (_ <? _) eqn:E; bool_facts; [lia|]. by rewrite validate_loop_spec by (unfold maxUploadSize; lia).
Qed.

Definition file_entry (f : File) : string * string := (File_Path f, File_Content f).

Lemma zip_loop_entries w files w' :
  zip_loop w files = Some w' -> w' = (w ++ (file_entry <$> files))%list.
Proof.
  revert w; induction files as [|f files IH]; intros w; cbn [zip_loop].
  { intros [= <-]. by rewrite app_nil_r. }
  unfold zip_Create. destruct (_ <? _); [done|]. cbn [mbind option_bind].
  unfold zip_Write. rewrite last_snoc, removelast_last. destruct (_ && _); [done|].
  cbn [mbind option_bind]. intros ->%IH. by rewrite <- app_assoc.
Qed.

(** Which archives can be written: no path over 65535 bytes, and no content under
    a path that ends in a slash. *)
Lemma zip_loop_succeeds w files :
  Forall (fun f => slen (File_Path f) <= 65535 /\
    (HasSuffix (File_Path f) "/" = true -> File_Content f = "")) files ->
  is_Some (zip_loop w files).
Proof.
  intros Hf; revert w; induction Hf as [|f files [Hl Hd] _ IH]; intros w; cbn [zip_loop]; [done|].
  unfold zip_Create. destruct (_ <? _) eqn:E; bool_facts; [lia|]. cbn [mbind option_bind].
  unfold zip_Write. rewrite last_snoc, removelast_last.
  destruct (HasSuffix _ _ && _) eqn:E2; bool_facts; [|apply IH].
  match goal with H : HasSuffix _ _ = true, H' : _ <> _ |- _ => by specialize (Hd H) end.
Qed.

Lemma unzip_loop_files total acc files :
  0 <= total ->
  Forall (fun f => slen (File_Content f) <= maxFileSize) files ->
  total + total_size files <= maxUploadSize ->
  unzip_loop total acc (zip_entry <$> (file_entry <$> files)) = inr (acc ++ files)%list.
Proof.
  unfold maxUploadSize. intros Ht Hf. revert total acc Ht.
  induction Hf as [|f files Hs _ IH]; intros total acc Ht Htot; [by rewrite app_nil_r|].
  rewrite !fmap_cons. cbn [unzip_loop total_size zip_entry file_entry fst snd ze_UncompressedSize64 ze_stream ze_Name] in *.
  pose proof (slen_nonneg (File_Content f)). pose proof (total_size_nonneg files).
  destruct (maxFileSize <? slen (File_Content f)) eqn:E; bool_facts; [lia|].
  unfold limited_read. destruct (maxFileSize + 1 <? _) eqn:E2; bool_facts; [lia|]. rewrite (proj2 (Z.ltb_ge _ _) E).
  unfold maxFileSize in *. rewrite int64_id by lia.
  destruct (maxUploadSize <? _) eqn:E3; bool_facts; unfold maxUploadSize in *; [lia|].
  rewrite IH by lia. destruct f. by rewrite <- app_assoc.
Qed.

Lemma zip_opens `{ZipOk} files data :
  zipFiles files = Some data -> zip_open data = Some (zip_entry <$> (file_entry <$> files)).
Proof.
  unfold zipFiles. destruct (zip_loop [] files) as [w|] eqn:E; [|done]. intros [= <-].
  apply zip_loop_entries in E as ->. by rewrite zip_open_encode.
Qed.

Lemma unzip_valid `{ZipOk} files data : valid_upload files -> zipFiles files = Some data -> unzipFiles data = inr files.
Proof.
  intros (_ & Hf & Ht) Hzip. unfold unzipFiles. rewrite (zip_opens files) by done.
  rewrite (unzip_loop_files 0 [] files); [done|lia| |lia].
  eapply Forall_impl; [exact Hf|]. by intros ? [].
Qed.

(** What a push packs, a pull unpacks: every accepted upload the writer can
    archive is read back with the same paths, contents and order. *)
Theorem unzip_zip `{ZipOk} files data :
  validateFiles files = None -> zipFiles files = Some data -> unzipFiles data = inr files.
Proof. intros ?%validate_valid. by apply unzip_valid. Qed.

Lemma bounded_take n s : 0 <= n -> slen (take_bytes (Z.to_nat n) s) <= n.
Proof. intros. unfold slen. rewrite take_bytes_length. lia. Qed.

Lemma unzip_loop_bounded total acc entries files :
  0 <= total <= maxUploadSize -> total = total_size acc ->
  Forall (fun f => slen (File_Content f) <= maxFileSize) acc ->
  unzip_loop total acc entries = inr files ->
  total_size files <= maxUploadSize /\ Forall (fun f => slen (File_Content f) <= maxFileSize) files.
Proof.
  assert (forall a f, total_size (a ++ [f]) = total_size a + slen (File_Content f)) as Hsnoc.
  { induction a as [|g a IH]; intros f; simpl; [lia|]. rewrite IH. lia. }
  revert total acc; induction entries as [|e entries IH]; intros total acc Ht Etot Hacc; cbn [unzip_loop].
  { intros [= <-]. subst. split; [lia|done]. }
  destruct (_ <? ze_UncompressedSize64 e); [done|]. destruct (ze_stream e) as [stream|]; [|done].
  destruct (limited_read _ stream) as [content|] eqn:El; [|done].
  destruct (maxFileSize <? slen content) eqn:E1; [done|]. bool_facts.
  pose proof (slen_nonneg content). unfold maxUploadSize, maxFileSize in *.
  rewrite int64_id by lia. destruct (_ <? total + slen content) eqn:E2; [done|]. bool_facts.
  apply IH; [lia|by rewrite Hsnoc, <- Etot|].
  apply Forall_app; split; [done|]. by constructor.
Qed.

(** C38. Whatever bytes are stored, unpacking keeps within the limits: a successful
    unpack holds at most 50 MB in files of at most 10 MB, also when an entry lies
    about its size (a decompression bomb). *)
Theorem unzipFiles_bounded `{Zip} data files :
  unzipFiles data = inr files ->
  total_size files <= 50 * 1024 * 1024 /\
  Forall (fun f => slen (File_Content f) <= 10 * 1024 * 1024) files.
Proof.
  unfold unzipFiles. destruct (zip_open data); [|done].
  apply unzip_loop_bounded; [unfold maxUploadSize; lia|done|constructor].
Qed.
