(* ===== verification/OwnerApi.v ===== *)
(** * Owner services (internal/api/owner/owner.go, internal/api/authn/authn.go)

    Users and organizations over Connect: lookups by name or identifier,
    organization and user creation, and the current user. *)
From S2P Require Import Prelude GoStd Regex Model Iface Prog Auth ModuleApi.

(** [^[a-z0-9][a-z0-9-]{1,37}[a-z0-9]$] *)
Definition nameRe : regex := name_pattern 1 37.

(** ** Messages *)
Record PbUser := mkPbUser { pu_Id : string; pu_Name : string; pu_CreateTime : Time; pu_UpdateTime : Time }.
Record PbOrganization := mkPbOrganization {
  po_Id : string; po_Name : string; po_CreateTime : Time; po_UpdateTime : Time }.

Inductive PbOwner :=
| Owner_User (u : PbUser)
| Owner_Organization (o : PbOrganization).

Definition OwnerRef_GetId (r : OwnerRef) : string := match r with OwnerRef_Id i => i | _ => "" end.

Definition userToProto (u : User) : PbUser :=
  mkPbUser (User_ID u) (User_Username u) (User_CreatedAt u) (User_CreatedAt u).

Definition orgToProto (o : Org) : PbOrganization :=
  mkPbOrganization (Org_ID o) (Org_Name o) (Org_CreatedAt o) (Org_CreatedAt o).

(** ** OwnerService *)

(** One reference: a user first, an organization second, by name or by identifier. *)
Definition GetOwners_try (u : repo_op (goret User)) (o : repo_op (goret Org)) (what : string)
    (owners : list PbOwner) : H ConnectError (list PbOwner) :=
  ru ← repo u;
  match err ru, val ru with
  | None, Some u => mret (owners ++ [Owner_User (userToProto u)])%list
  | None, None => Ret Panic
  | Some e, _ =>
      guard_ (is_not_found e) internal_error;;
      ro ← repo o;
      match err ro, val ro with
      | None, Some o => mret (owners ++ [Owner_Organization (orgToProto o)])%list
      | None, None => Ret Panic
      | Some e, _ =>
          guard_ (is_not_found e) internal_error;;
          fail (NewError CodeNotFound ("owner not found: " +:+ what))
      end
  end.

Definition GetOwners_ref (owners : list PbOwner) (ref : OwnerRef) : H ConnectError (list PbOwner) :=
  let name := OwnerRef_GetName ref in
  let id := OwnerRef_GetId ref in
  if negb (streq name "") then
    GetOwners_try (Users_GetByUsername name) (Orgs_GetByName name) name owners
  else if negb (streq id "") then
    GetOwners_try (Users_GetByID id) (Orgs_GetByID id) id owners
  else fail (NewError CodeInvalidArgument "owner ref must have name or id").

Definition GetOwners (refs : list OwnerRef) : H ConnectError (list PbOwner) :=
  for_range refs [] GetOwners_ref.

(** ** OrganizationService *)
Definition GetOrganizations_ref (orgs : list PbOrganization) (ref : OwnerRef)
    : H ConnectError (list PbOrganization) :=
  r ← (if negb (streq (OwnerRef_GetName ref) "") then repo (Orgs_GetByName (OwnerRef_GetName ref))
       else if negb (streq (OwnerRef_GetId ref) "") then repo (Orgs_GetByID (OwnerRef_GetId ref))
       else fail (NewError CodeInvalidArgument "organization ref must have name or id"));
  o ← need r (fun e => if is_not_found e then NewError CodeNotFound "organization not found" else internal_error);
  mret (orgs ++ [orgToProto o])%list.

Definition GetOrganizations (refs : list OwnerRef) : H ConnectError (list PbOrganization) :=
  for_range refs [] GetOrganizations_ref.

Definition CreateOrganizations_value (u : User) (orgs : list PbOrganization) (name : string)
    : H ConnectError (list PbOrganization) :=
  guard_ (MatchString nameRe name)
    (NewError CodeInvalidArgument "org name must be 3-39 chars, lowercase alphanumeric and hyphens");;
  r ← repo (Orgs_GetByName name);
  match err r with
  | None => fail (NewError CodeAlreadyExists ("organization already exists: " +:+ name))
  | Some _ =>
      id ← perform NewUUID;
      now ← perform Now;
      let o := mkOrg id name now in
      e ← repo (Orgs_Create o);
      check e (fun _ => internal_error);;
      e ← repo (Orgs_AddMember (Org_ID o) (User_ID u) OrgRoleAdmin);
      check e (fun _ => NewError CodeInternal "failed to add admin member");;
      mret (orgs ++ [orgToProto o])%list
  end.

Definition CreateOrganizations (ctx : Ctx) (names : list string) : H ConnectError (list PbOrganization) :=
  match UserFromContext ctx with
  | None => fail (NewError CodeUnauthenticated "not authenticated")
  | Some u => for_range names [] (CreateOrganizations_value u)
  end.

(** ** UserService *)
Definition GetUsers_ref (users : list PbUser) (ref : OwnerRef) : H ConnectError (list PbUser) :=
  r ← (if negb (streq (OwnerRef_GetName ref) "") then repo (Users_GetByUsername (OwnerRef_GetName ref))
       else if negb (streq (OwnerRef_GetId ref) "") then repo (Users_GetByID (OwnerRef_GetId ref))
       else fail (NewError CodeInvalidArgument "user ref must have name or id"));
  u ← need r (fun e => if is_not_found e then NewError CodeNotFound "user not found" else internal_error);
  mret (users ++ [userToProto u])%list.

Definition GetUsers (refs : list OwnerRef) : H ConnectError (list PbUser) :=
  for_range refs [] GetUsers_ref.

Definition GetCurrentUser (ctx : Ctx) : H ConnectError PbUser :=
  match UserFromContext ctx with
  | None => fail (NewError CodeUnauthenticated "not authenticated")
  | Some u => mret (userToProto u)
  end.

Definition CreateUsers_value (users : list PbUser) (name : string) : H ConnectError (list PbUser) :=
  guard_ (MatchString nameRe name)
    (NewError CodeInvalidArgument "username must be 3-39 chars, lowercase alphanumeric and hyphens");;
  id ← perform NewUUID;
  now ← perform Now;
  let u := mkUser id name "" now in
  e ← repo (Users_Create u);
  match e with
  | Some _ =>
      r ← repo (Users_GetByUsername name);
      match err r with
      | None => fail (NewError CodeAlreadyExists ("user already exists: " +:+ name))
      | Some _ => fail internal_error
      end
  | None => mret (users ++ [userToProto u])%list
  end.

Definition CreateUsers (openReg : bool) (names : list string) : H ConnectError (list PbUser) :=
  if negb openReg then fail (NewError CodePermissionDenied "registration is closed")
  else for_range names [] CreateUsers_value.

(** ** AuthnService (buf.alpha.registry.v1alpha1) *)
Record AlphaUser := mkAlphaUser { au_Id : string; au_Username : string; au_CreateTime : Time }.

Definition AuthnService_GetCurrentUser (ctx : Ctx) : H ConnectError AlphaUser :=
  match UserFromContext ctx with
  | None => fail (NewError CodeUnauthenticated "not authenticated")
  | Some u => mret (mkAlphaUser (User_ID u) (User_Username u) (User_CreatedAt u))
  end.
