(* ===== verification/RestApi.v ===== *)
(** * REST API (internal/api/rest)

    A REST handler writes one JSON response and returns; here it returns the
    response, early ones included, so a handler is a program whose value and
    whose error are both a [Response].  A request body is given as its decoding:
    [None] when it is not valid JSON for the expected fields. *)
From S2P Require Import Prelude GoStd Sha256 Regex Model Iface Prog Auth Authz ModuleApi UploadApi OwnerApi.
From stdpp Require Import pretty.
#[local] Open Scope Z_scope.

Abbreviation JObject := (gmap string string) (only parsing).
Inductive Json :=
| JObj (o : JObject)
| JArr (l : list JObject).

Record Response := mkResponse { resp_code : Z; resp_body : Json }.

Definition obj (fields : list (string * string)) : JObject := list_to_map fields.

Definition StatusOK : Z := 200.
Definition StatusCreated : Z := 201.
Definition StatusBadRequest : Z := 400.
Definition StatusUnauthorized : Z := 401.
Definition StatusForbidden : Z := 403.
Definition StatusNotFound : Z := 404.
Definition StatusConflict : Z := 409.
Definition StatusInternalServerError : Z := 500.

Definition writeJSON (code : Z) (v : Json) : Response := mkResponse code v.
Definition writeErr (code : Z) (msg : string) : Response := writeJSON code (JObj (obj [("error", msg)])).

Abbreviation Handler := (H Response Response) (only parsing).

Definition usernameRe : regex := name_pattern 1 37.

Definition unauthenticated : Response := writeErr StatusUnauthorized "unauthenticated".
Definition invalid_json : Response := writeErr StatusBadRequest "invalid json".
Definition rest_internal : Response := writeErr StatusInternalServerError "internal error".

(** [u := auth.UserFromContext(...); if u == nil { 401 }]. *)
Definition require_user (ctx : Ctx) : H Response User :=
  match UserFromContext ctx with None => fail unauthenticated | Some u => mret u end.

(** [json.NewDecoder(r.Body).Decode(&req)] and its error branch. *)
Definition decode {T} (body : option T) : H Response T :=
  match body with None => fail invalid_json | Some req => mret req end.

(** ** auth.go *)
Record Credentials := mkCredentials { cr_Username : string; cr_Password : string }.

Definition register (openReg : bool) (body : option Credentials) : Handler :=
  guard_ openReg (writeErr StatusForbidden "registration is closed");;
  req ← decode body;
  guard_ (MatchString usernameRe (cr_Username req))
    (writeErr StatusBadRequest "username must be 3-39 chars, lowercase alphanumeric and hyphens");;
  guard_ (negb (slen (cr_Password req) <? 8))
    (writeErr StatusBadRequest "password must be at least 8 characters");;
  h ← lift (HashPassword (cr_Password req));
  match h with
  | None => fail rest_internal
  | Some hash =>
      r ← repo (Users_GetByUsername (cr_Username req));
      match err r with
      | None => fail (writeErr StatusConflict "username already exists")
      | Some _ =>
          id ← perform NewUUID;
          now ← perform Now;
          let u := mkUser id (cr_Username req) hash now in
          e ← repo (Users_Create u);
          check e (fun _ => rest_internal);;
          mret (writeJSON StatusCreated (JObj (obj [("id", User_ID u); ("username", User_Username u)])))
      end
  end.

Definition day : Time := 24 * 3600 * 1000000000.

Definition login `{Bcrypt} (body : option Credentials) : Handler :=
  req ← decode body;
  ru ← repo (Users_GetByUsername (cr_Username req));
  u ← need ru (fun _ => writeErr StatusUnauthorized "invalid credentials");
  guard_ (CheckPassword (User_PasswordHash u) (cr_Password req))
    (writeErr StatusUnauthorized "invalid credentials");;
  _ ← repo (Tokens_DeleteByUserAndNote (User_ID u) "login");
  rawToken ← perform NewUUID;
  now ← perform Now;
  let expires := now + day in
  id ← perform NewUUID;
  created ← perform Now;
  let t := mkToken id (User_ID u) (HashToken rawToken) "login" (Some expires) created in
  e ← repo (Tokens_Create t);
  check e (fun _ => rest_internal);;
  mret (writeJSON StatusOK (JObj (obj
    [("token", rawToken); ("user_id", User_ID u); ("username", User_Username u)]))).

Definition me (ctx : Ctx) : Handler :=
  u ← require_user ctx;
  mret (writeJSON StatusOK (JObj (obj [("id", User_ID u); ("username", User_Username u)]))).

Definition token_listed (now : Time) (t : Token) : bool :=
  negb (match Token_ExpiresAt t with Some e => e <? now | None => false end) &&
  negb (streq (Token_Note t) "login").

Definition listTokens (ctx : Ctx) : Handler :=
  u ← require_user ctx;
  r ← repo (Tokens_ListByUser (User_ID u));
  tokens ← need r (fun _ => rest_internal);
  now ← perform Now;
  mret (writeJSON StatusOK (JArr
    ((fun t => obj [("id", Token_ID t); ("note", Token_Note t)]) <$>
     filter (fun t => token_listed now t = true) tokens))).

Definition createToken (ctx : Ctx) (body : option string) : Handler :=
  u ← require_user ctx;
  note ← decode body;
  rawToken ← perform NewUUID;
  id ← perform NewUUID;
  now ← perform Now;
  let t := mkToken id (User_ID u) (HashToken rawToken) note None now in
  e ← repo (Tokens_Create t);
  check e (fun _ => rest_internal);;
  mret (writeJSON StatusOK (JObj (obj [("token", rawToken); ("id", Token_ID t)]))).

Definition revokeToken (ctx : Ctx) (id : string) : Handler :=
  u ← require_user ctx;
  e ← repo (Tokens_Revoke id (User_ID u));
  check e (fun _ => writeErr StatusNotFound "token not found");;
  mret (writeJSON StatusOK (JObj (obj [("status", "revoked")]))).

(** ** users.go *)
Definition getUser (username : string) : Handler :=
  r ← repo (Users_GetByUsername username);
  u ← need r (fun e => if is_not_found e then writeErr StatusNotFound "user not found" else rest_internal);
  mret (writeJSON StatusOK (JObj (obj [("id", User_ID u); ("username", User_Username u)]))).

(** ** orgs.go *)
Definition org_json (o : Org) : Json := JObj (obj [("id", Org_ID o); ("name", Org_Name o)]).
Definition org_not_found : Response := writeErr StatusNotFound "organization not found".

Definition getOrg (name : string) : Handler :=
  r ← repo (Orgs_GetByName name);
  o ← need r (fun e => if is_not_found e then org_not_found else rest_internal);
  mret (writeJSON StatusOK (org_json o)).

Definition createOrg (ctx : Ctx) (body : option string) : Handler :=
  u ← require_user ctx;
  name ← decode body;
  guard_ (MatchString usernameRe name)
    (writeErr StatusBadRequest "org name must be 3-39 chars, lowercase alphanumeric and hyphens");;
  id ← perform NewUUID;
  now ← perform Now;
  let o := mkOrg id name now in
  e ← repo (Orgs_Create o);
  match e with
  | Some _ =>
      r ← repo (Orgs_GetByName name);
      match err r with
      | None => fail (writeErr StatusConflict "organization already exists")
      | Some _ => fail rest_internal
      end
  | None =>
      e ← repo (Orgs_AddMember (Org_ID o) (User_ID u) OrgRoleAdmin);
      check e (fun _ => writeErr StatusInternalServerError "failed to add admin member");;
      mret (writeJSON StatusCreated (org_json o))
  end.

Record MemberRequest := mkMemberRequest { mr_Username : string; mr_Role : string }.

Record CreateModuleRequest := mkCreateModuleRequest { cq_Owner : string; cq_Name : string; cq_Visibility : string }.

Section Authorized.
Context `{Authorizer}.

(** The organization a membership request is about, once its caller may manage it. *)
Definition addMember (ctx : Ctx) (orgName : string) (body : option MemberRequest) : Handler :=
  caller ← require_user ctx;
  r ← repo (Orgs_GetByName orgName);
  o ← need r (fun _ => org_not_found);
  ok ← CanManageOrgMembers (User_ID caller) (Org_ID o);
  guard_ ok (writeErr StatusForbidden "must be org admin");;
  req ← decode body;
  rt ← repo (Users_GetByUsername (mr_Username req));
  target ← need rt (fun _ => writeErr StatusNotFound "user not found");
  let role := if streq (mr_Role req) OrgRoleAdmin then OrgRoleAdmin else OrgRoleMember in
  e ← repo (Orgs_AddMember (Org_ID o) (User_ID target) role);
  check e (fun _ => rest_internal);;
  mret (writeJSON StatusOK (JObj (obj [("status", "added")]))).

Definition removeMember (ctx : Ctx) (orgName username : string) : Handler :=
  caller ← require_user ctx;
  r ← repo (Orgs_GetByName orgName);
  o ← need r (fun _ => org_not_found);
  ok ← CanManageOrgMembers (User_ID caller) (Org_ID o);
  guard_ ok (writeErr StatusForbidden "must be org admin");;
  rt ← repo (Users_GetByUsername username);
  target ← need rt (fun _ => writeErr StatusNotFound "user not found");
  e ← repo (Orgs_RemoveMember (Org_ID o) (User_ID target));
  check e (fun _ => rest_internal);;
  mret (writeJSON StatusOK (JObj (obj [("status", "removed")]))).

(** ** modules.go *)
Definition rest_module_not_found : Response := writeErr StatusNotFound "module not found".

Definition moduleToJSON (m : Mod) : JObject :=
  obj [("id", Mod_ID m); ("owner", Mod_OwnerName m); ("name", Mod_Name m); ("visibility", Mod_Visibility m)].

(** The lookup and visibility check every module route starts with
    ([getModule], [checkModuleAccess] and [resolveCommitZip] share its lines). *)
Definition checkModuleAccess (ctx : Ctx) (owner repo_ : string) : H Response Mod :=
  r ← repo (Modules_Get owner repo_);
  m ← need r (fun e => if is_not_found e then rest_module_not_found else rest_internal);
  ok ← CanReadModule (userID (UserFromContext ctx)) m;
  guard_ ok rest_module_not_found;;
  mret m.

Definition getModule (ctx : Ctx) (owner repo_ : string) : Handler :=
  r ← repo (Modules_Get owner repo_);
  m ← need r (fun e => if is_not_found e then rest_module_not_found else rest_internal);
  ok ← CanReadModule (userID (UserFromContext ctx)) m;
  guard_ ok rest_module_not_found;;
  mret (writeJSON StatusOK (JObj (moduleToJSON m))).

Definition listModules (ctx : Ctx) (owner query : string) : Handler :=
  r ← (if negb (streq owner "") then repo (Modules_List owner) else repo (Modules_ListPublic query 50));
  mods ← need r (fun _ => rest_internal);
  result ← for_range mods [] (fun result m =>
    ok ← CanReadModule (userID (UserFromContext ctx)) m;
    mret (if ok : bool then result ++ [moduleToJSON m] else result)%list);
  mret (writeJSON StatusOK (JArr result)).

Definition createModule (ctx : Ctx) (body : option CreateModuleRequest) : Handler :=
  caller ← require_user ctx;
  req ← decode body;
  guard_ (MatchString usernameRe (cq_Name req))
    (writeErr StatusBadRequest "module name must be 2-39 chars, lowercase alphanumeric and hyphens");;
  ok ← CanCreateModule (User_ID caller) (cq_Owner req);
  guard_ ok (writeErr StatusForbidden "no permission to create modules under this owner");;
  let ownerType := if streq (cq_Owner req) (User_Username caller) then OwnerTypeUser else OwnerTypeOrg in
  let vis := if streq (cq_Visibility req) "public" then VisibilityPublic else VisibilityPrivate in
  r ← repo (Modules_Get (cq_Owner req) (cq_Name req));
  match err r with
  | None => fail (writeErr StatusConflict "module already exists")
  | Some _ =>
      id ← perform NewUUID;
      now ← perform Now;
      let m := mkMod id (cq_Owner req) ownerType (cq_Name req) vis now in
      e ← repo (Modules_Create m);
      check e (fun _ => rest_internal);;
      mret (writeJSON StatusCreated (JObj (moduleToJSON m)))
  end.

(** ** commits.go *)
Definition commit_json (c : Commit) : JObject :=
  obj [("id", Commit_ID c); ("module_id", Commit_ModuleID c); ("created_at", FormatTime (Commit_CreatedAt c))].

Definition listCommits (ctx : Ctx) (owner repo_ : string) : Handler :=
  m ← checkModuleAccess ctx owner repo_;
  r ← repo (Commits_ListByModule (Mod_ID m));
  commits ← need r (fun _ => rest_internal);
  mret (writeJSON StatusOK (JArr (commit_json <$> commits))).

Definition commit_error (e : ierr) : Response :=
  if is_not_found e then writeErr StatusNotFound "commit not found" else rest_internal.

Definition getCommit (ctx : Ctx) (owner repo_ commitID : string) : Handler :=
  m ← checkModuleAccess ctx owner repo_;
  r ← repo (Commits_GetByID (Mod_ID m) commitID);
  c ← need r commit_error;
  mret (writeJSON StatusOK (JObj (commit_json c))).

Definition listLabels (ctx : Ctx) (owner repo_ : string) : Handler :=
  m ← checkModuleAccess ctx owner repo_;
  r ← repo (Labels_List (Mod_ID m));
  labels ← need r (fun _ => rest_internal);
  mret (writeJSON StatusOK (JArr
    ((fun l => obj [("name", Label_Name l); ("commit_id", Label_CommitID l)]) <$> labels))).

(** ** files.go *)
Context `{Zip}.

Definition resolveCommitZip (ctx : Ctx) (owner repo_ commitID : string) : H Response bytes :=
  rm ← repo (Modules_Get owner repo_);
  m ← need rm (fun e => if is_not_found e then rest_module_not_found else rest_internal);
  ok ← CanReadModule (userID (UserFromContext ctx)) m;
  guard_ ok rest_module_not_found;;
  rc ← repo (Commits_GetByID (Mod_ID m) commitID);
  c ← need rc commit_error;
  r ← perform (StoreGet (Commit_StorageKey c));
  match r with
  | inl _ => fail (writeErr StatusInternalServerError "failed to read content")
  | inr data => mret data
  end.

Definition read_archive : Response := writeErr StatusInternalServerError "failed to read archive".

Definition listFiles (ctx : Ctx) (owner repo_ commitID : string) : Handler :=
  data ← resolveCommitZip ctx owner repo_ commitID;
  match zip_open data with
  | None => fail read_archive
  | Some entries =>
      mret (writeJSON StatusOK (JArr
        ((fun f => obj [("path", ze_Name f); ("size", pretty (Z.to_N (ze_UncompressedSize64 f)))]) <$> entries)))
  end.

Definition file_response (f : ZipEntry) : Response :=
  match ze_stream f ≫= limited_read (10 * 1024 * 1024) with
  | None => writeErr StatusInternalServerError "failed to read file"
  | Some content => writeJSON StatusOK (JObj (obj [("path", ze_Name f); ("content", Base64 content)]))
  end.

(** The first entry of that name answers. *)
Fixpoint find_file (path : string) (entries : list ZipEntry) : Response :=
  match entries with
  | [] => writeErr StatusNotFound "file not found"
  | f :: entries => if streq (ze_Name f) path then file_response f else find_file path entries
  end.

Definition getFileContent (ctx : Ctx) (owner repo_ commitID path : string) : Handler :=
  guard_ (negb (streq path "")) (writeErr StatusBadRequest "path query parameter required");;
  data ← resolveCommitZip ctx owner repo_ commitID;
  match zip_open data with
  | None => fail read_archive
  | Some entries => mret (find_file path entries)
  end.
End Authorized.
