(* ===== verification/Server.v ===== *)
(** * The server (cmd/bsr/main.go)

    Which handlers the process serves, and behind which authenticators: Connect
    services run behind the HTTP middleware and the interceptor, REST routes
    behind the middleware alone.  [Serves] is the set of programs a request can
    start; [ensureAdmin] is the only write the process makes on its own.  The
    process itself is Process. *)
From S2P Require Import Prelude GoStd Model Iface Prog Auth Authz ModuleApi UploadApi OwnerApi RestApi.

(** ** ensureAdmin *)
Definition ensureAdmin {E} (username password : string) : H E unit :=
  r ← repo (Users_GetByUsername username);
  match err r with
  | None => mret ()
  | Some _ =>
      h ← lift (HashPassword password);
      match h with
      | None => mret ()
      | Some hash =>
          now ← perform Now;
          let u := mkUser ("admin-" +:+ username) username hash now in
          _ ← repo (Users_Create u);
          mret ()
      end
  end.

Section Routes.
Context `{Bcrypt} `{Authorizer} `{Zip}.

(** A method the services embed from the generated [Unimplemented] handlers and do
    not define themselves: the interceptor runs, then a stub that answers an error. *)
Definition Unimplemented (method : string) : Ctx -> H ConnectError Empty_set :=
  fun _ => fail (NewError CodeUnimplemented (method +:+ " is not implemented")).

(** The methods of the Connect services registered on the mux, on their messages,
    with the contents the message pushes. *)
Inductive connect_call (openReg : bool) : list UploadContent -> forall R, (Ctx -> H ConnectError R) -> Prop :=
| svc_authn : connect_call openReg [] _ AuthnService_GetCurrentUser
| svc_owners refs : connect_call openReg [] _ (fun _ => GetOwners refs)
| svc_get_orgs refs : connect_call openReg [] _ (fun _ => GetOrganizations refs)
| svc_create_orgs names : connect_call openReg [] _ (fun ctx => CreateOrganizations ctx names)
| svc_get_users refs : connect_call openReg [] _ (fun _ => GetUsers refs)
| svc_current_user : connect_call openReg [] _ GetCurrentUser
| svc_create_users names : connect_call openReg [] _ (fun _ => CreateUsers openReg names)
| svc_get_modules refs : connect_call openReg [] _ (fun ctx => GetModules ctx refs)
| svc_list_modules refs : connect_call openReg [] _ (fun ctx => ListModules ctx refs)
| svc_create_modules values : connect_call openReg [] _ (fun ctx => CreateModules ctx values)
| svc_upload contents : connect_call openReg contents _ (fun ctx => Upload ctx contents)
| svc_download values : connect_call openReg [] _ (fun ctx => Download ctx values)
| svc_get_commits refs : connect_call openReg [] _ (fun ctx => GetCommits ctx refs)
| svc_list_commits ref : connect_call openReg [] _ (fun ctx => ListCommits ctx ref)
| svc_get_labels refs : connect_call openReg [] _ (fun ctx => GetLabels ctx refs)
| svc_list_labels ref : connect_call openReg [] _ (fun ctx => ListLabels ctx ref)
| svc_update_labels values : connect_call openReg [] _ (fun ctx => CreateOrUpdateLabels ctx values)
| svc_fds ref : connect_call openReg [] _ (fun ctx => GetFileDescriptorSet ctx ref)
| svc_unimplemented method : connect_call openReg [] _ (Unimplemented method).

Definition connect_handler (openReg : bool) R (h : Ctx -> H ConnectError R) : Prop :=
  exists contents, connect_call openReg contents R h.

(** The REST routes registered on the mux, with the credentials of a login. *)
Inductive rest_call (openReg : bool) : option Credentials -> (Ctx -> H Response Response) -> Prop :=
| rt_register body : rest_call openReg None (fun _ => register openReg body)
| rt_login body : rest_call openReg body (fun _ => login body)
| rt_me : rest_call openReg None me
| rt_list_tokens : rest_call openReg None listTokens
| rt_create_token body : rest_call openReg None (fun ctx => createToken ctx body)
| rt_revoke_token id : rest_call openReg None (fun ctx => revokeToken ctx id)
| rt_user name : rest_call openReg None (fun _ => getUser name)
| rt_org name : rest_call openReg None (fun _ => getOrg name)
| rt_create_org body : rest_call openReg None (fun ctx => createOrg ctx body)
| rt_add_member name body : rest_call openReg None (fun ctx => addMember ctx name body)
| rt_remove_member name user : rest_call openReg None (fun ctx => removeMember ctx name user)
| rt_module o r : rest_call openReg None (fun ctx => getModule ctx o r)
| rt_modules o q : rest_call openReg None (fun ctx => listModules ctx o q)
| rt_create_module body : rest_call openReg None (fun ctx => createModule ctx body)
| rt_commits o r : rest_call openReg None (fun ctx => listCommits ctx o r)
| rt_commit o r i : rest_call openReg None (fun ctx => getCommit ctx o r i)
| rt_labels o r : rest_call openReg None (fun ctx => listLabels ctx o r)
| rt_files o r i : rest_call openReg None (fun ctx => listFiles ctx o r i)
| rt_file o r i p : rest_call openReg None (fun ctx => getFileContent ctx o r i p).

Definition rest_handler (openReg : bool) (h : Ctx -> H Response Response) : Prop :=
  exists credentials, rest_call openReg credentials h.

(** A request that leads to no handler of the registry - the health check, the web
    client, a redirect - asks nothing of the backend but the caller's identity. *)
Definition static : Ctx -> H unit unit := fun _ => mret ().

(** A request in flight, its answer dropped. *)
Definition discard {A} (p : prog A) : prog () := pbind p (fun _ => Ret ()).

Inductive Serves (openReg : bool) : prog () -> Prop :=
| serve_connect R h authorization :
    connect_handler openReg R h -> Serves openReg (discard (connect_request authorization h))
| serve_rest h authorization :
    rest_handler openReg h -> Serves openReg (discard (Middleware authorization h background))
| serve_static authorization : Serves openReg (discard (Middleware authorization static background)).
End Routes.
