(* ===== verification/Routes.v ===== *)
(** * Routing (cmd/bsr/main.go, the [Register] methods of internal/api/rest)

    The patterns every handler is registered under, the mux the process builds
    from them, and what happens to an HTTP request: the rate limiter, the
    authentication middleware, the mux, the handler.  The web client's calls are
    shown to reach the handlers they name. *)
From S2P Require Import Prelude GoStd Paths Mux Model Iface Prog Auth Authz RateLimit ModuleApi UploadApi OwnerApi RestApi Server.

(** An HTTP request: the escaped path and the query string of its URL, the two
    things of it the middlewares read, and its body. *)
Record Request := mkRequest {
  rq_Method : string; rq_Path : string; rq_Query : string;
  rq_Authorization : string; rq_RemoteAddr : string; rq_Body : bytes }.

(** [Query().Get] and [PathValue]: the first value of that name, or nothing. *)
Fixpoint get_value (name : string) (values : list (string * string)) : string :=
  match values with
  | [] => ""
  | (n, v) :: values => if streq n name then v else get_value name values
  end.
Definition Query_Get (r : Request) (name : string) : string := get_value name (ParseQuery (rq_Query r)).
Abbreviation PathValue := (fun values name => get_value name values).

(** [json.Decoder.Decode] into the structs the handlers declare. *)
Class Json_decoder := {
  json_credentials : bytes -> option Credentials;
  json_note : bytes -> option string;
  json_org_name : bytes -> option string;
  json_member : bytes -> option MemberRequest;
  json_module : bytes -> option CreateModuleRequest }.

(** The generated Connect handlers: which declared method of a service a request
    calls, and its decoded message.  [None]: the generated code answers by itself -
    no such method, a wrong content type, a message that does not decode - without
    running the interceptor. *)
Class Connect_decoder := {
  called_method : string -> Request -> option string;
  GetCurrentUserRequest : Request -> option unit;
  GetOwnersRequest : Request -> option (list OwnerRef);
  GetOrganizationsRequest : Request -> option (list OwnerRef);
  CreateOrganizationsRequest : Request -> option (list string);
  GetUsersRequest : Request -> option (list OwnerRef);
  CreateUsersRequest : Request -> option (list string);
  GetModulesRequest : Request -> option (list ModuleRef);
  ListModulesRequest : Request -> option (list OwnerRef);
  CreateModulesRequest : Request -> option (list CreateModuleValue);
  UploadRequest : Request -> option (list UploadContent);
  DownloadRequest : Request -> option (list (option ResourceRef));
  GetCommitsRequest : Request -> option (list ResourceRef);
  ListCommitsRequest : Request -> option (option ResourceRef);
  GetLabelsRequest : Request -> option (list LabelRef);
  ListLabelsRequest : Request -> option (option ResourceRef);
  CreateOrUpdateLabelsRequest : Request -> option (list LabelValue);
  GetFileDescriptorSetRequest : Request -> option (option ResourceRef) }.

(** A Connect handler with the type of its answer. *)
Definition ConnectHandler : Type := {R : Type & Ctx -> H ConnectError R}.

Section Routes.
Context `{Bcrypt} `{Authorizer} `{Zip} `{Json_decoder} `{Connect_decoder}.

(** What a pattern leads to: a generated Connect handler, a REST handler, the
    health check, or the file server of the web client. *)
Definition RestHandler : Type := Request -> list (string * string) -> Ctx -> H Response Response.
Inductive target :=
| Rpc (service : string)
| Rest (h : RestHandler)
| Healthz
| WebUI.

Definition AuthHandler_Register (openReg : bool) : list (string * target) :=
  [("POST /api/v1/auth/register", Rest (fun r v ctx => register openReg (json_credentials (rq_Body r))));
   ("POST /api/v1/auth/login", Rest (fun r v ctx => login (json_credentials (rq_Body r))));
   ("GET /api/v1/auth/me", Rest (fun r v => me));
   ("GET /api/v1/auth/tokens", Rest (fun r v => listTokens));
   ("POST /api/v1/auth/tokens", Rest (fun r v ctx => createToken ctx (json_note (rq_Body r))));
   ("DELETE /api/v1/auth/tokens/{id}", Rest (fun r v ctx => revokeToken ctx (PathValue v "id")))].

Definition OrgHandler_Register : list (string * target) :=
  [("GET /api/v1/orgs/{name}", Rest (fun r v ctx => getOrg (PathValue v "name")));
   ("POST /api/v1/orgs", Rest (fun r v ctx => createOrg ctx (json_org_name (rq_Body r))));
   ("POST /api/v1/orgs/{name}/members", Rest (fun r v ctx => addMember ctx (PathValue v "name") (json_member (rq_Body r))));
   ("DELETE /api/v1/orgs/{name}/members/{username}",
      Rest (fun r v ctx => removeMember ctx (PathValue v "name") (PathValue v "username")))].

Definition UserHandler_Register : list (string * target) :=
  [("GET /api/v1/users/{username}", Rest (fun r v ctx => getUser (PathValue v "username")))].

Definition ModuleHandler_Register : list (string * target) :=
  [("GET /api/v1/modules/{owner}/{repo}", Rest (fun r v ctx => getModule ctx (PathValue v "owner") (PathValue v "repo")));
   ("GET /api/v1/modules", Rest (fun r v ctx => listModules ctx (Query_Get r "owner") (Query_Get r "q")));
   ("POST /api/v1/modules", Rest (fun r v ctx => createModule ctx (json_module (rq_Body r))))].

Definition CommitHandler_Register : list (string * target) :=
  [("GET /api/v1/modules/{owner}/{repo}/commits",
      Rest (fun r v ctx => listCommits ctx (PathValue v "owner") (PathValue v "repo")));
   ("GET /api/v1/modules/{owner}/{repo}/commits/{id}",
      Rest (fun r v ctx => getCommit ctx (PathValue v "owner") (PathValue v "repo") (PathValue v "id")));
   ("GET /api/v1/modules/{owner}/{repo}/labels",
      Rest (fun r v ctx => listLabels ctx (PathValue v "owner") (PathValue v "repo")))].

Definition FileHandler_Register : list (string * target) :=
  [("GET /api/v1/modules/{owner}/{repo}/commits/{id}/files",
      Rest (fun r v ctx => listFiles ctx (PathValue v "owner") (PathValue v "repo") (PathValue v "id")));
   ("GET /api/v1/modules/{owner}/{repo}/commits/{id}/file",
      Rest (fun r v ctx => getFileContent ctx (PathValue v "owner") (PathValue v "repo") (PathValue v "id") (Query_Get r "path")))].

(** A Connect service is mounted under its full name. *)
Definition connect_services : list string :=
  ["buf.alpha.registry.v1alpha1.AuthnService";
   "buf.registry.owner.v1.OwnerService"; "buf.registry.owner.v1.OrganizationService"; "buf.registry.owner.v1.UserService";
   "buf.registry.module.v1.ModuleService"; "buf.registry.module.v1.UploadService";
   "buf.registry.module.v1.DownloadService"; "buf.registry.module.v1.CommitService";
   "buf.registry.module.v1.LabelService"; "buf.registry.module.v1.FileDescriptorSetService"].

Definition connect_route (service : string) : string * target := ("/" +:+ service +:+ "/", Rpc service).

(** Everything [main] registers, in its order. *)
Definition registered (openReg : bool) : list (string * target) :=
  (connect_route <$> connect_services) ++ AuthHandler_Register openReg ++ OrgHandler_Register ++
  UserHandler_Register ++ ModuleHandler_Register ++ CommitHandler_Register ++ FileHandler_Register ++
  [("GET /healthz", Healthz); ("/", WebUI)].

(** [mux.Handle] on each; [None] is its panic on a malformed pattern. *)
Definition new_mux (openReg : bool) : option (list (pattern * target)) :=
  mapM (fun r => p ← parse_pattern r.1; Some (p, r.2)) (registered openReg).

(** One method of a service: its message, and the Go method that takes it. *)
Definition connect_method {M R} (message : Request -> option M) (h : M -> Ctx -> H ConnectError R) (r : Request)
    : option ConnectHandler :=
  m ← message r; Some (existT R (h m)).

(** The methods each service defines. *)
Definition service_methods (openReg : bool) (service : string) : list (string * (Request -> option ConnectHandler)) :=
  if streq service "buf.alpha.registry.v1alpha1.AuthnService" then
    [("GetCurrentUser", connect_method GetCurrentUserRequest (fun _ => AuthnService_GetCurrentUser))]
  else if streq service "buf.registry.owner.v1.OwnerService" then
    [("GetOwners", connect_method GetOwnersRequest (fun refs _ => GetOwners refs))]
  else if streq service "buf.registry.owner.v1.OrganizationService" then
    [("GetOrganizations", connect_method GetOrganizationsRequest (fun refs _ => GetOrganizations refs));
     ("CreateOrganizations", connect_method CreateOrganizationsRequest (fun names ctx => CreateOrganizations ctx names))]
  else if streq service "buf.registry.owner.v1.UserService" then
    [("GetUsers", connect_method GetUsersRequest (fun refs _ => GetUsers refs));
     ("GetCurrentUser", connect_method GetCurrentUserRequest (fun _ => GetCurrentUser));
     ("CreateUsers", connect_method CreateUsersRequest (fun names _ => CreateUsers openReg names))]
  else if streq service "buf.registry.module.v1.ModuleService" then
    [("GetModules", connect_method GetModulesRequest (fun refs ctx => GetModules ctx refs));
     ("ListModules", connect_method ListModulesRequest (fun refs ctx => ListModules ctx refs));
     ("CreateModules", connect_method CreateModulesRequest (fun values ctx => CreateModules ctx values))]
  else if streq service "buf.registry.module.v1.UploadService" then
    [("Upload", connect_method UploadRequest (fun contents ctx => Upload ctx contents))]
  else if streq service "buf.registry.module.v1.DownloadService" then
    [("Download", connect_method DownloadRequest (fun values ctx => Download ctx values))]
  else if streq service "buf.registry.module.v1.CommitService" then
    [("GetCommits", connect_method GetCommitsRequest (fun refs ctx => GetCommits ctx refs));
     ("ListCommits", connect_method ListCommitsRequest (fun ref ctx => ListCommits ctx ref))]
  else if streq service "buf.registry.module.v1.LabelService" then
    [("GetLabels", connect_method GetLabelsRequest (fun refs ctx => GetLabels ctx refs));
     ("ListLabels", connect_method ListLabelsRequest (fun ref ctx => ListLabels ctx ref));
     ("CreateOrUpdateLabels", connect_method CreateOrUpdateLabelsRequest (fun values ctx => CreateOrUpdateLabels ctx values))]
  else if streq service "buf.registry.module.v1.FileDescriptorSetService" then
    [("GetFileDescriptorSet", connect_method GetFileDescriptorSetRequest (fun ref ctx => GetFileDescriptorSet ctx ref))]
  else [].

Fixpoint method_named {A} (name : string) (methods : list (string * A)) : option A :=
  match methods with
  | [] => None
  | (n, a) :: methods => if streq n name then Some a else method_named name methods
  end.

(** The method of a service a request calls, behind the interceptor; a declared
    method the service does not define is the stub it embeds. *)
Definition rpc (openReg : bool) (service : string) (r : Request) : option ConnectHandler :=
  method ← called_method service r;
  match method_named method (service_methods openReg service) with
  | Some h => h r
  | None => Some (existT _ (Unimplemented (service +:+ "." +:+ method)))
  end.

(** The handler of a request, behind the authentication middleware; where it leads
    does not depend on who asks. *)
Definition httpHandler (openReg : bool) (mux : list (pattern * target)) (r : Request) : prog () :=
  match ServeMux_handler mux (rq_Method r) (rq_Path r) with
  | Found (Rest h) values => discard (Middleware (rq_Authorization r) (h r values) background)
  | Found (Rpc service) _ =>
      match rpc openReg service r with
      | Some (existT _ h) => discard (connect_request (rq_Authorization r) h)
      | None => discard (Middleware (rq_Authorization r) static background)
      end
  | _ => discard (Middleware (rq_Authorization r) static background)
  end.

(** Rate limiting comes first; 200 requests a minute and address. *)
Definition serve (openReg : bool) (mux : list (pattern * target)) (rl : rateLimiter) (r : Request)
    : option (prog ()) * rateLimiter :=
  RateLimitMiddleware None (fun r => Some (httpHandler openReg mux r)) rl (rq_RemoteAddr r) r.
Definition new_limiter : rateLimiter := newRateLimiter 200 (60 * 1000000000).
End Routes.

(** ** The mux of the process *)
Section Mux.
Context `{Bcrypt} `{Authorizer} `{Zip} `{Json_decoder} `{Connect_decoder}.

Definition route_patterns : list pattern := Eval vm_compute in omap parse_pattern (fst <$> registered false).
Definition the_mux (openReg : bool) : list (pattern * target) := zip route_patterns (snd <$> registered openReg).

Lemma parse_all {A} (l : list (string * A)) :
  mapM (fun r => p ← parse_pattern r.1; Some (p, r.2)) l =
  (fun ps => zip ps (snd <$> l)) <$> mapM parse_pattern (fst <$> l).
Proof using.
  induction l as [|[s a] l IH]; [done|]. simpl. rewrite IH. destruct (parse_pattern s); [|done]. simpl.
  by destruct (mapM parse_pattern _).
Qed.

(** Every registered pattern parses. *)
Lemma new_mux_ok openReg : new_mux openReg = Some (the_mux openReg).
Proof using.
  unfold new_mux. rewrite parse_all. unfold the_mux.
  assert (mapM parse_pattern (fst <$> registered openReg) = Some route_patterns) as -> by (by vm_compute). done.
Qed.

Lemma mux_target openReg p a : (p, a) ∈ the_mux openReg -> exists s, (s, a) ∈ registered openReg.
Proof using.
  intros Hp. apply elem_of_zip_r in Hp. apply list_elem_of_fmap in Hp as ([s b] & -> & Hb). eauto.
Qed.

(** A REST route leads to a REST handler. *)
Ltac rest_route c := apply Forall_cons; split; [intros ? [= <-]; eexists; apply c|].

Lemma registered_rest openReg s h r v :
  (s, Rest h) ∈ registered openReg -> rest_handler openReg (h r v).
Proof using.
  intros Hin. enough (Forall (fun x => forall h, x.2 = Rest h -> rest_handler openReg (h r v)) (registered openReg)) as Hall.
  { rewrite Forall_forall in Hall. by apply (Hall (s, Rest h)). }
  do 10 (apply Forall_cons; split; [done|]).
  rest_route rt_register. rest_route rt_login. rest_route rt_me. rest_route rt_list_tokens. rest_route rt_create_token.
  rest_route rt_revoke_token. rest_route rt_org. rest_route rt_create_org. rest_route rt_add_member.
  rest_route rt_remove_member. rest_route rt_user. rest_route rt_module. rest_route rt_modules.
  rest_route rt_create_module. rest_route rt_commits. rest_route rt_commit. rest_route rt_labels. rest_route rt_files.
  rest_route rt_file. by repeat (apply Forall_cons; split; [done|]).
Qed.

(** The web client's catch-all pattern leaves no path without a handler. *)
Lemma mux_total openReg method path : split_path path <> [] -> is_Some (match_ (the_mux openReg) method path).
Proof using.
  intros Hs. assert ((mkPattern "" [Multi], WebUI) ∈ the_mux openReg) as Hin.
  { apply (list_elem_of_lookup_2 _ 30). unfold the_mux. apply lookup_zip_Some. split; [reflexivity|].
    rewrite list_lookup_fmap. reflexivity. }
  by eapply match_total.
Qed.

(** No two registered patterns conflict: [main] registers them all without a
    panic, and whichever two patterns match a request, one is more specific. *)
Theorem routes_do_not_conflict openReg :
  exists mux, new_mux openReg = Some mux /\ List.ForallOrdPairs no_conflict (fst <$> mux).
Proof using.
  exists (the_mux openReg). split; [apply new_mux_ok|].
  assert (fst <$> the_mux openReg = route_patterns) as -> by (apply fst_zip; vm_compute; lia).
  by apply (pairwise_sound no_conflict_b); [apply no_conflict_b_sound|vm_compute].
Qed.

(** ** Every request *)
Section Requests.

(** A method that is called is one of a service. *)
Lemma service_methods_serve openReg service :
  Forall (fun m => forall r h, m.2 r = Some h -> connect_handler openReg (projT1 h) (projT2 h)) (service_methods openReg service).
Proof using.
  unfold service_methods, connect_method.
  repeat match goal with |- Forall _ (if ?b then _ else _) => destruct b end.
  all: repeat (apply Forall_cons; split); try apply Forall_nil_2.
  all: intros r h; cbn [snd].
  all: match goal with |- (_ ← ?x; _) = _ -> _ => destruct x as [m|]; [|done] end.
  all: intros [= <-]; eexists; constructor.
Qed.

Lemma method_named_in {A} name (ms : list (string * A)) a : method_named name ms = Some a -> exists n, (n, a) ∈ ms.
Proof using.
  induction ms as [|[n b] ms IH]; [done|]. simpl. destruct (streq n name).
  - intros [= ->]. exists n. by left.
  - intros Ha. destruct (IH Ha) as [n' ?]. exists n'. by right.
Qed.

Lemma rpc_served openReg service r h : rpc openReg service r = Some h -> connect_handler openReg (projT1 h) (projT2 h).
Proof using.
  unfold rpc. destruct (called_method service r) as [method|]; [|done]. simpl.
  destruct (method_named _ _) as [f|] eqn:E.
  - apply method_named_in in E as [n Hn]. pose proof (service_methods_serve openReg service) as Hall.
    rewrite Forall_forall in Hall. by apply (Hall _ Hn).
  - intros [= <-]. eexists. apply svc_unimplemented.
Qed.

Lemma handler_served openReg r : Serves openReg (httpHandler openReg (the_mux openReg) r).
Proof using.
  unfold httpHandler. destruct (ServeMux_handler _ _ _) as [|a v| |] eqn:E; try apply serve_static.
  apply found_in in E as [p Hp]. apply mux_target in Hp as [s Hs].
  destruct a as [service|h| |]; try apply serve_static.
  - destruct (rpc openReg service r) as [[R h]|] eqn:Er; [|apply serve_static].
    apply serve_connect, (rpc_served _ _ _ _ Er).
  - apply serve_rest. by eapply registered_rest.
Qed.

(** C7. Whatever bytes arrive as a request, the process serves it.  The patterns
    [main] registers parse and no two conflict, so building the mux does not panic;
    what runs for a request is one of the programs in [Serves] - so everything
    proved of those holds of the HTTP server; and unless the method is CONNECT the
    mux never answers 404 or 405 itself: what no API pattern matches, a wrong
    method included, is left to the file server of the web client.  Only how the
    generated Connect code reads a request is a parameter. *)
Theorem requests_are_served openReg :
  exists mux, new_mux openReg = Some mux /\ List.ForallOrdPairs no_conflict (fst <$> mux) /\
  forall r, Serves openReg (httpHandler openReg mux r) /\
    (rq_Method r <> "CONNECT" ->
     ServeMux_handler mux (rq_Method r) (rq_Path r) <> NotAllowed /\
     ServeMux_handler mux (rq_Method r) (rq_Path r) <> NoPattern).
Proof using.
  destruct (routes_do_not_conflict openReg) as (mux & Hmux & Hno). exists mux. do 2 (split; [done|]).
  rewrite new_mux_ok in Hmux. injection Hmux as <-. intros r. split; [by apply handler_served|].
  intros Hm. unfold ServeMux_handler. rewrite (proj2 (streq_false _ _) Hm). cbv zeta.
  destruct (mux_total openReg (rq_Method r) (cleanPath (rq_Path r))) as [[[p a] v] ->];
    [apply split_path_abs, cleanPath_abs|].
  destruct (_ && _); [done|]. by destruct (negb _).
Qed.
End Requests.
End Mux.

(** ** The documented endpoints

    The REST endpoints as the README lists them and the web client (web/src/lib/api.js)
    calls them, with encoded arguments. *)
Inductive call :=
| Register (body : bytes) | Login (body : bytes) | Me | ListTokens | CreateToken (body : bytes) | RevokeToken (id : string)
| GetUser (username : string) | GetOrg (name : string) | CreateOrg (body : bytes)
| AddMember (name : string) (body : bytes) | RemoveMember (name username : string)
| SearchModules (query : string) | ListModulesOf (owner : string) | GetModule (owner repo : string)
| CreateModule (body : bytes) | ListCommitsOf (owner repo : string) | GetCommit (owner repo id : string)
| ListFiles (owner repo id : string) | GetFile (owner repo id path : string) | ListLabelsOf (owner repo : string).

Abbreviation enc := encodeURIComponent.
Definition API : string := "/api/v1".

Definition call_method (c : call) : string :=
  match c with
  | Register _ | Login _ | CreateToken _ | CreateOrg _ | AddMember _ _ | CreateModule _ => "POST"
  | RevokeToken _ | RemoveMember _ _ => "DELETE"
  | _ => "GET"
  end.

Definition call_path (c : call) : string :=
  API +:+
  match c with
  | Register _ => "/auth/register" | Login _ => "/auth/login" | Me => "/auth/me"
  | ListTokens | CreateToken _ => "/auth/tokens" | RevokeToken id => "/auth/tokens/" +:+ enc id
  | GetUser u => "/users/" +:+ enc u
  | GetOrg n => "/orgs/" +:+ enc n | CreateOrg _ => "/orgs"
  | AddMember n _ => "/orgs/" +:+ (enc n +:+ "/members")
  | RemoveMember n u => "/orgs/" +:+ (enc n +:+ ("/members/" +:+ enc u))
  | SearchModules _ | ListModulesOf _ | CreateModule _ => "/modules"
  | GetModule o r => "/modules/" +:+ (enc o +:+ ("/" +:+ enc r))
  | ListCommitsOf o r => "/modules/" +:+ (enc o +:+ ("/" +:+ (enc r +:+ "/commits")))
  | GetCommit o r i => "/modules/" +:+ (enc o +:+ ("/" +:+ (enc r +:+ ("/commits/" +:+ enc i))))
  | ListFiles o r i => "/modules/" +:+ (enc o +:+ ("/" +:+ (enc r +:+ ("/commits/" +:+ (enc i +:+ "/files")))))
  | GetFile o r i _ => "/modules/" +:+ (enc o +:+ ("/" +:+ (enc r +:+ ("/commits/" +:+ (enc i +:+ "/file")))))
  | ListLabelsOf o r => "/modules/" +:+ (enc o +:+ ("/" +:+ (enc r +:+ "/labels")))
  end.

Definition call_query (c : call) : string :=
  match c with
  | SearchModules q => if streq q "" then "" else "q=" +:+ enc q
  | ListModulesOf o => "owner=" +:+ enc o
  | GetFile _ _ _ p => "path=" +:+ enc p
  | _ => ""
  end.

Definition call_body (c : call) : bytes :=
  match c with
  | Register b | Login b | CreateToken b | CreateOrg b | AddMember _ b | CreateModule b => b
  | _ => ""
  end.

(** The arguments that go into the path; a name that is empty, a dot, two dots or a
    slash does not survive there. *)
Definition call_segments (c : call) : list string :=
  match c with
  | RevokeToken x | GetUser x | GetOrg x | AddMember x _ => [x]
  | RemoveMember n u => [n; u]
  | GetModule o r | ListCommitsOf o r | ListLabelsOf o r => [o; r]
  | GetCommit o r i | ListFiles o r i | GetFile o r i _ => [o; r; i]
  | _ => []
  end.

Definition call_request (authorization remoteAddr : string) (c : call) : Request :=
  mkRequest (call_method c) (call_path c) (call_query c) authorization remoteAddr (call_body c).

Section Calls.
Context `{Bcrypt} `{Authorizer} `{Zip} `{Json_decoder} `{Connect_decoder}.

(** What each call is meant to run. *)
Definition call_handler (openReg : bool) (c : call) : Ctx -> H Response Response :=
  match c with
  | Register b => fun _ => register openReg (json_credentials b)
  | Login b => fun _ => login (json_credentials b)
  | Me => me
  | ListTokens => listTokens
  | CreateToken b => fun ctx => createToken ctx (json_note b)
  | RevokeToken id => fun ctx => revokeToken ctx id
  | GetUser u => fun _ => getUser u
  | GetOrg n => fun _ => getOrg n
  | CreateOrg b => fun ctx => createOrg ctx (json_org_name b)
  | AddMember n b => fun ctx => addMember ctx n (json_member b)
  | RemoveMember n u => fun ctx => removeMember ctx n u
  | SearchModules q => fun ctx => listModules ctx "" q
  | ListModulesOf o => fun ctx => listModules ctx o ""
  | GetModule o r => fun ctx => getModule ctx o r
  | CreateModule b => fun ctx => createModule ctx (json_module b)
  | ListCommitsOf o r => fun ctx => listCommits ctx o r
  | GetCommit o r i => fun ctx => getCommit ctx o r i
  | ListFiles o r i => fun ctx => listFiles ctx o r i
  | GetFile o r i p => fun ctx => getFileContent ctx o r i p
  | ListLabelsOf o r => fun ctx => listLabels ctx o r
  end.

(** The search, on the position of each pattern. *)
Definition numbered : list (pattern * nat) := zip route_patterns (seq 0 31).
Definition nth_target (openReg : bool) (i : nat) : target := nth i (snd <$> registered openReg) WebUI.

Lemma the_mux_numbered openReg : the_mux openReg = prod_map id (nth_target openReg) <$> numbered.
Proof using. reflexivity. Qed.

Ltac search :=
  cbn [fmap list_fmap]; rewrite ?pathUnescape_encode;
  repeat match goal with
  | |- matchPath [] _ _ = _ => apply match_leaf; reflexivity
  | |- matchPath (pathUnescape ?s :: _) _ _ = _ => let t := eval vm_compute in (pathUnescape s) in change (pathUnescape s) with t
  | |- matchPath (?s :: _) _ _ = _ => is_var s; apply match_wild; [reflexivity|match goal with Hs : segment_ok s |- _ => apply Hs end|]
  | |- _ => apply match_lit
  end.
(** Goodness of a known component is decided. *)
Definition good_b (c : string) : bool :=
  negb (streq c "" || streq c "." || streq c ".." || bool_decide (slash ∈ chars c)).
Lemma good_dec c : good_b c = true -> good c.
Proof using.
  unfold good_b. rewrite negb_true_iff, !orb_false_iff, bool_decide_eq_false. intros [[[]]]. by bool_facts.
Qed.
Ltac good_components :=
  repeat first [apply List.Forall_nil | apply Forall_cons; split];
  first [by apply encode_good | by apply good_dec].
Lemma arrives openReg authorization remoteAddr c l p i vals h :
  call_path c = canonical l -> Forall good l -> l <> [] ->
  matchPath (pathUnescape <$> l) (with_method numbered (call_method c)) [] = Some ((p, i), vals) ->
  last (pat_segs p) <> Some Multi -> nth_target openReg i = Rest h ->
  httpHandler openReg (the_mux openReg) (call_request authorization remoteAddr c) =
  discard (Middleware authorization (h (call_request authorization remoteAddr c) (zip (wild_names p) vals)) background).
Proof using.
  intros Hpath Hl Hne Hm Hlast Hi. unfold httpHandler. cbn [call_request rq_Method rq_Path rq_Authorization].
  rewrite Hpath, the_mux_numbered.
  rewrite (dispatch_canonical _ _ _ p (nth_target openReg i) vals); [by rewrite Hi|done|done|by destruct c| |done].
  by apply match_routes_map.
Qed.

(** The argument of a query arrives; a name that is not there is empty. *)
Lemma query_parsed v :
  ParseQuery ("q=" +:+ enc v) = [("q", v)] /\ ParseQuery ("owner=" +:+ enc v) = [("owner", v)] /\
  ParseQuery ("path=" +:+ enc v) = [("path", v)].
Proof using.
  split_and!; [apply (ParseQuery_encode "q")|apply (ParseQuery_encode "owner")|apply (ParseQuery_encode "path")];
    try done; apply (bool_decide_unpack _); by vm_compute.
Qed.

(** The call whose path has these components arrives. *)
Ltac arrive_at l :=
  etrans; [eapply (arrives _ _ _ _ l); [reflexivity|good_components|done|search|done|reflexivity]|];
  cbv beta; unfold Query_Get; cbn [call_request rq_Query call_handler call_query].
Ltac arrive l := etrans; [eapply (arrives _ _ _ _ l); [reflexivity|good_components|done|search|done|reflexivity]|reflexivity].

(** C22. Each call of the web client, and each endpoint the README lists, reaches the
    handler it names with the arguments it was given, in the path and in the query,
    whatever characters they contain: encoding by the client and decoding by the
    server cancel out.  Arguments that go into the path must not be empty, a dot,
    two dots or a lone slash, which name another path. *)
Theorem calls_arrive openReg mux authorization remoteAddr c :
  new_mux openReg = Some mux -> Forall segment_ok (call_segments c) ->
  httpHandler openReg mux (call_request authorization remoteAddr c) =
  discard (Middleware authorization (call_handler openReg c) background).
Proof using.
  rewrite new_mux_ok. intros [= <-] Hargs.
  destruct c; cbn [call_segments] in Hargs; decompose_Forall_hyps.
  - arrive ["api"; "v1"; "auth"; "register"].
  - arrive ["api"; "v1"; "auth"; "login"].
  - arrive ["api"; "v1"; "auth"; "me"].
  - arrive ["api"; "v1"; "auth"; "tokens"].
  - arrive ["api"; "v1"; "auth"; "tokens"].
  - arrive ["api"; "v1"; "auth"; "tokens"; enc id].
  - arrive ["api"; "v1"; "users"; enc username].
  - arrive ["api"; "v1"; "orgs"; enc name].
  - arrive ["api"; "v1"; "orgs"].
  - arrive ["api"; "v1"; "orgs"; enc name; "members"].
  - arrive ["api"; "v1"; "orgs"; enc name; "members"; enc username].
  - arrive_at ["api"; "v1"; "modules"]. destruct (streq query "") eqn:Eq.
    + apply streq_true in Eq as ->. done.
    + by rewrite (proj1 (query_parsed query)).
  - arrive_at ["api"; "v1"; "modules"]. by rewrite (proj1 (proj2 (query_parsed owner))).
  - arrive ["api"; "v1"; "modules"; enc owner; enc repo].
  - arrive ["api"; "v1"; "modules"].
  - arrive ["api"; "v1"; "modules"; enc owner; enc repo; "commits"].
  - arrive ["api"; "v1"; "modules"; enc owner; enc repo; "commits"; enc id].
  - arrive ["api"; "v1"; "modules"; enc owner; enc repo; "commits"; enc id; "files"].
  - arrive_at ["api"; "v1"; "modules"; enc owner; enc repo; "commits"; enc id; "file"].
    by rewrite (proj2 (proj2 (query_parsed path))).
  - arrive ["api"; "v1"; "modules"; enc owner; enc repo; "labels"].
Qed.
End Calls.
