(* ===== verification/Panics.v ===== *)
(** * No handler panics

    A nil pointer dereferenced in a handler is the outcome [Panic].  Whatever
    the backend answers, faults included, no served request reaches it: a
    pointer is only used after the error next to it was found nil, and every
    lookup that reports no error returns a record. *)
From S2P Require Import Prelude GoStd Model Iface Prog Auth Authz ModuleApi UploadApi OwnerApi RestApi Server.

(** An answer without an error carries its record. *)
Definition well {X} (o : repo_op X) : X -> Prop :=
  let ok A := fun x : goret A => err x = None -> is_Some (val x) in
  match o in repo_op X return X -> Prop with
  | Users_GetByUsername _ => ok _ | Users_GetByID _ => ok _ | Users_ListByOrg _ => ok _
  | Orgs_GetByName _ => ok _ | Orgs_GetByID _ => ok _ | Orgs_ListMembers _ => ok _ | Orgs_GetMember _ _ => ok _
  | Modules_Get _ _ => ok _ | Modules_GetByID _ => ok _ | Modules_List _ => ok _ | Modules_ListPublic _ _ => ok _
  | Commits_GetByID _ _ => ok _ | Commits_GetLatest _ => ok _ | Commits_ListByModule _ => ok _
  | Labels_Get _ _ => ok _ | Labels_List _ => ok _ | Tokens_GetByHash _ => ok _ | Tokens_ListByUser _ => ok _
  | _ => fun _ => True
  end.

Lemma gets_well md {R} (P : R -> Prop) l x : gets md P l x -> err x = None -> is_Some (val x).
Proof. unfold gets. intros Hx E. rewrite E in Hx. destruct Hx as (r & -> & _). eauto. Qed.

Lemma finds_well md {R} (Q : list R -> Prop) x : finds md Q x -> err x = None -> is_Some (val x).
Proof. unfold finds. intros Hx E. rewrite E in Hx. destruct Hx as (r & -> & _). eauto. Qed.

Lemma spec_well md X (o : repo_op X) t x t' : repo_spec md o t x t' -> well o x.
Proof.
  destruct o; simpl; try done; intros [_ Hx]; first [by eapply gets_well|by eapply finds_well].
Qed.

Create HintDb np.

Section NoPanic.
Context `{Bcrypt} (md : mode) `{Authorizer} `{!AuthorizerOk md} `{Zip}.

Definition no_panic {E A} (p : H E A) : Prop := forall s, awp md p (fun o _ => o <> Panic) s.

Lemma np_bind {E A B} (p : H E A) (f : A -> H E B) : no_panic p -> (forall a, no_panic (f a)) -> no_panic (p ≫= f).
Proof using. intros Hp Hf s. apply awp_bind. eapply awp_mono; [apply Hp|]. intros [a|e|] s' Ho; [apply Hf|done|done]. Qed.

Lemma np_op {E X B} (e : eff X) (f : X -> H E B) : (forall x, no_panic (f x)) -> no_panic (perform e ≫= f).
Proof using. intros Hf s. apply awp_perform. intros x s' _. apply Hf. Qed.

Lemma np_repo {E X B} (o : repo_op X) (f : X -> H E B) :
  (forall x, well o x -> no_panic (f x)) -> no_panic (repo o ≫= f).
Proof using. intros Hf s. apply awp_perform. intros x s' [Hs _]. apply Hf. by eapply spec_well. Qed.

(** A lookup in final position. *)
Lemma np_lift {E A B} (p : prog A) (f : A -> H E B) : (forall a, no_panic (f a)) -> no_panic (lift p ≫= f).
Proof using. intros Hf s. eapply awp_lift_bind; [apply awp_true|]. intros a s' _. apply Hf. Qed.

Lemma np_need {E A} (x : goret A) (f : ierr -> E) : (err x = None -> is_Some (val x)) -> no_panic (need x f).
Proof using.
  intros Hx s. unfold need. destruct (err x); [done|]. destruct Hx as [a ->]; [done|]. done.
Qed.

Lemma np_check {E A} (x : option A) (f : A -> E) : no_panic (check x f).
Proof using. intros s. by destruct x. Qed.

Lemma np_guard {E} b (e : E) : no_panic (guard_ b e).
Proof using. intros s. by destruct b. Qed.

Lemma np_for_range {E V Acc} (vs : list V) (acc : Acc) (body : Acc -> V -> H E Acc) :
  (forall acc v, no_panic (body acc v)) -> no_panic (for_range vs acc body).
Proof using.
  intros Hb. revert acc. induction vs as [|v vs IH]; intros acc; [done|]. apply (np_bind (body acc v)); auto.
Qed.

Lemma np_decides (check_ : forall E, H E bool) may E : decides md check_ may -> no_panic (check_ E).
Proof using. intros Hd s. eapply awp_mono; [apply Hd|]. by intros o s' (_ & b & -> & _). Qed.

Lemma np_ret {E A} (a : A) : no_panic (mret a : H E A).
Proof using. done. Qed.

Lemma np_fail {E A} (e : E) : no_panic (fail e : H E A).
Proof using. done. Qed.

Lemma np_fail_bind {E A B} (e : E) (f : A -> H E B) : no_panic (fail e ≫= f).
Proof using. done. Qed.

Lemma np_resolve ref : no_panic (not_found_of (resolveResourceRef ref)).
Proof using. intros s. eapply awp_mono; [apply not_found_of_sound|]. by intros o s' (_ & Hp & _). Qed.

Lemma np_ownerID {E} m : no_panic (resolveOwnerIDHelper m : H E string).
Proof using. intros s. eapply awp_mono; [apply ownerID_ok|]. by intros o s' (_ & i & ->). Qed.

Lemma np_read {E} uid m : no_panic (CanReadModule uid m : H E bool).
Proof using All. apply (np_decides _ _ E (read_ok uid m)). Qed.
Lemma np_write {E} uid m : no_panic (CanWriteModule uid m : H E bool).
Proof using All. apply (np_decides _ _ E (write_ok uid m)). Qed.
Lemma np_admin {E} uid m : no_panic (CanAdminModule uid m : H E bool).
Proof using All. apply (np_decides _ _ E (admin_ok uid m)). Qed.
Lemma np_create {E} uid o : no_panic (CanCreateModule uid o : H E bool).
Proof using All. apply (np_decides _ _ E (create_ok uid o)). Qed.
Lemma np_manage {E} uid o : no_panic (CanManageOrgMembers uid o : H E bool).
Proof using All. apply (np_decides _ _ E (manage_ok uid o)). Qed.

Hint Resolve np_check np_guard np_resolve np_ownerID np_read np_write np_admin np_create np_manage np_ret np_fail : np.

(** Follow a program's text; a lookup's answer is split before its pointer is used. *)
Ltac np_step :=
  first
    [ progress intros
    | solve [auto with np]
    | apply np_need; assumption
    | match goal with
      | |- no_panic (mbind _ (match ?x with _ => _ end)) => destruct x
      | |- no_panic (mbind _ (if ?x then _ else _)) => destruct x
      end
    | apply np_fail_bind
    | apply np_repo; [simpl; intros]
    | apply np_op
    | apply np_lift
    | apply np_bind
    | apply np_for_range
    | match goal with
      | Hx : err ?x = None -> is_Some (val ?x) |- no_panic (match err ?x with _ => _ end) =>
          let Hv := fresh "Hv" in
          destruct (err x) eqn:?; [|pose proof (Hx eq_refl) as [? Hv]; rewrite ?Hv in *]
      | |- no_panic (match ?x with _ => _ end) => destruct x
      | |- no_panic (if ?x then _ else _) => destruct x
      end ].
Ltac np_tac := repeat np_step.

Lemma np_token_expired {E} (t : Token) : no_panic (token_expired t : H E bool).
Proof using. unfold token_expired. np_tac. Qed.
Hint Resolve np_token_expired : np.

Lemma np_middleware {E Resp} authorization (next : Ctx -> H E Resp) ctx :
  (forall c, no_panic (next c)) -> no_panic (Middleware authorization next ctx).
Proof using. intros Hn. unfold Middleware. np_tac. Qed.

Lemma np_interceptor {Resp} authorization (next : Ctx -> H ConnectError Resp) ctx :
  (forall c, no_panic (next c)) -> no_panic (NewConnectInterceptor authorization next ctx).
Proof using. intros Hn. unfold NewConnectInterceptor. np_tac. Qed.

Lemma np_connect openReg R (h : Ctx -> H ConnectError R) :
  connect_handler openReg R h -> forall ctx, no_panic (h ctx).
Proof using All.
  intros Hh ctx. destruct Hh as [? Hh]; destruct Hh.
  all: unfold AuthnService_GetCurrentUser, GetOwners, GetOwners_ref, GetOwners_try, GetOrganizations,
    GetOrganizations_ref, CreateOrganizations, CreateOrganizations_value, GetUsers, GetUsers_ref,
    GetCurrentUser, CreateUsers, CreateUsers_value, GetModules, GetModules_ref, ListModules,
    ListModules_owner, CreateModules, CreateModules_value, Upload, Upload_content, Download, Download_value,
    GetCommits, GetCommits_ref, ListCommits, GetLabels, GetLabels_ref, ListLabels, CreateOrUpdateLabels,
    CreateOrUpdateLabels_value, GetFileDescriptorSet, Unimplemented.
  all: np_tac.
Qed.

Lemma np_rest openReg (h : Ctx -> H Response Response) :
  rest_handler openReg h -> forall ctx, no_panic (h ctx).
Proof using All.
  intros Hh ctx. destruct Hh as [? Hh]; destruct Hh.
  all: unfold register, login, me, listTokens, createToken, revokeToken, getUser, getOrg, createOrg,
    addMember, removeMember, getModule, listModules, createModule, listCommits, getCommit, listLabels,
    listFiles, getFileContent, resolveCommitZip, checkModuleAccess, require_user, decode.
  all: np_tac.
Qed.

(** C23. Whatever the database, the blob store and the clock answer, no request the
    server serves - Connect or REST, any header, any message - ends in a nil
    pointer panic. *)
Theorem served_requests_never_panic openReg authorization s :
  (forall R (h : Ctx -> H ConnectError R), connect_handler openReg R h ->
     awp md (connect_request authorization h) (fun o _ => o <> Panic) s) /\
  (forall h, rest_handler openReg h ->
     awp md (Middleware authorization h background) (fun o _ => o <> Panic) s).
Proof using All.
  split.
  - intros R h Hh. apply np_middleware. intros c. apply np_interceptor. by eapply np_connect.
  - intros h Hh. apply np_middleware. by eapply np_rest.
Qed.
End NoPanic.
