(* ===== verification/Config.v ===== *)
(** * Configuration and start-up (internal/config, cmd/bsr/main.go)

    [Load] reads the environment; [startup] is the part of [main] that opens the
    database (internal/db/sql and internal/db/mongo, [Connect]) and the blob store
    (internal/storage, the constructors), and gives up when it cannot.  What
    opening a connection yields is the libraries' business ([Drivers]). *)
From S2P Require Import Prelude GoStd Model Iface Gorm Storage.

Record Config := mkConfig {
  Port : string; DBDriver : string; MongoURI : string; PostgresDSN : string; StoragePath : string;
  AdminUser : string; AdminPass : string; OpenReg : bool; TLSCert : string; TLSKey : string;
  SQLitePath : string; StorageDriver : string; S3Endpoint : string; S3Region : string;
  S3Bucket : string; S3Prefix : string; S3AccessKey : string; S3SecretKey : string }.

Section Env.
(** [os.Getenv]: the empty string when the variable is not set. *)
Context (Getenv : string -> string).

Definition envOr (key fallback : string) : string :=
  let v := Getenv key in if negb (streq v "") then v else fallback.

Definition Load : Config := {|
  Port := envOr "BSR_PORT" "8080";
  DBDriver := envOr "DB_DRIVER" "sqlite";
  MongoURI := envOr "MONGO_URI" "mongodb://localhost:27017/bsr";
  PostgresDSN := Getenv "POSTGRES_DSN";
  StoragePath := envOr "STORAGE_PATH" "./data/modules";
  AdminUser := Getenv "ADMIN_USERNAME";
  AdminPass := Getenv "ADMIN_PASSWORD";
  OpenReg := streq (Getenv "OPEN_REGISTRATION") "true";
  TLSCert := Getenv "TLS_CERT";
  TLSKey := Getenv "TLS_KEY";
  SQLitePath := envOr "SQLITE_PATH" "./data/bsr.db";
  StorageDriver := envOr "STORAGE_DRIVER" "local";
  S3Endpoint := Getenv "S3_ENDPOINT";
  S3Region := envOr "S3_REGION" "us-east-1";
  S3Bucket := envOr "S3_BUCKET" "openbsr";
  S3Prefix := Getenv "S3_PREFIX";
  S3AccessKey := Getenv "S3_ACCESS_KEY";
  S3SecretKey := Getenv "S3_SECRET_KEY" |}.
End Env.

(** ** Connecting *)

(** What gorm opens: a driver with its data source name. *)
Inductive Dialector := postgres (dsn : string) | sqlite (dsn : string).

(** The S3 client's settings. *)
Record S3Options := mkS3Options {
  so_Region : string; so_AccessKey : string; so_SecretKey : string;
  so_BaseEndpoint : option string; so_UsePathStyle : bool }.

(** The libraries: each call ends with an error message or a handle. *)
Class Drivers := {
  gorm_DB : Type;
  gorm_Open : Dialector -> string + gorm_DB;
  AutoMigrate : gorm_DB -> list string -> option string;
  sql_DB : gorm_DB -> option string;
  mongo_Client : Type;
  mongo_Connect : string -> string + mongo_Client;
  Ping : mongo_Client -> option string;
  LoadDefaultConfig : string -> string -> string -> option string }.

Section Connect.
Context `{Drivers}.

(** sql.go. *)
Definition registry_tables : list string := ["User"; "Org"; "OrgMember"; "Module"; "Commit"; "Label"; "Token"].

Definition sql_Connect (driver dsn : string) : string + gorm_DB :=
  match (if streq driver "postgres" then Some (postgres dsn)
         else if streq driver "sqlite" then Some (sqlite (dsn +:+ "?_foreign_keys=on"))
         else None) with
  | None => inl ("unsupported sql driver: " +:+ driver)
  | Some dialector =>
      match gorm_Open dialector with
      | inl e => inl e
      | inr db =>
          match AutoMigrate db registry_tables with
          | Some e => inl e
          | None => match sql_DB db with Some e => inl e | None => inr db end
          end
      end
  end.

(** mongo.go. *)
Definition dbmongo_Connect (uri : string) : string + mongo_Client :=
  match mongo_Connect uri with
  | inl e => inl e
  | inr client => match Ping client with Some e => inl e | None => inr client end
  end.

(** s3.go: path-style addressing, and an endpoint of its own when one is given. *)
Definition NewS3Store (endpoint region bucket prefix accessKey secretKey : string) : string + (S3Options * S3Store) :=
  match LoadDefaultConfig region accessKey secretKey with
  | Some e => inl e
  | None => inr (mkS3Options region accessKey secretKey (if negb (streq endpoint "") then Some endpoint else None) true,
                 mkS3Store bucket prefix)
  end.

(** dbstore.go. *)
Definition NewDBStore (db : gorm_DB) : string + gorm_DB :=
  match AutoMigrate db ["Blob"] with Some e => inl e | None => inr db end.

(** ** main *)
Inductive Database := MongoDB (client : mongo_Client) | SqlDB (db : gorm_DB).
Inductive BlobStore := Local (s : LocalStore) | S3 (options : S3Options) (s : S3Store) | InDatabase (db : gorm_DB).

(** [sqlDB]: not nil for a SQL database. *)
Definition sqlDB (db : Database) : option gorm_DB := match db with MongoDB _ => None | SqlDB d => Some d end.

Record Running := mkRunning {
  run_db : Database; run_store : BlobStore; run_admin : option (string * string);
  run_openReg : bool; run_addr : string; run_tls : option (string * string) }.

(** The policy of the authorizer loads. *)
Context (authz_loads : bool).

(** An error is logged with its message before [os.Exit(1)]. *)
Definition or_exit {A B} (msg : string) (x : string + A) (f : A -> B) : string + B :=
  match x with inl _ => inl msg | inr a => inr (f a) end.

Definition open_database (cfg : Config) : string + Database :=
  if streq (DBDriver cfg) "mongo" then
    or_exit "failed to connect to mongodb" (dbmongo_Connect (MongoURI cfg)) MongoDB
  else if streq (DBDriver cfg) "sqlite" then
    or_exit "failed to open sqlite" (sql_Connect "sqlite" (SQLitePath cfg)) SqlDB
  else if streq (DBDriver cfg) "postgres" then
    or_exit "failed to connect to postgres" (sql_Connect "postgres" (PostgresDSN cfg)) SqlDB
  else inl "unsupported DB_DRIVER".

Definition open_store (cfg : Config) (db : Database) : string + BlobStore :=
  if streq (StorageDriver cfg) "local" || streq (StorageDriver cfg) "" then inr (Local (NewLocalStore (StoragePath cfg)))
  else if streq (StorageDriver cfg) "s3" then
    or_exit "failed to create S3 store"
      (NewS3Store (S3Endpoint cfg) (S3Region cfg) (S3Bucket cfg) (S3Prefix cfg) (S3AccessKey cfg) (S3SecretKey cfg))
      (fun s => S3 s.1 s.2)
  else if streq (StorageDriver cfg) "db" then
    match sqlDB db with
    | None => inl "STORAGE_DRIVER=db requires DB_DRIVER=sqlite or postgres"
    | Some d => or_exit "failed to create DB store" (NewDBStore d) InDatabase
    end
  else inl "unsupported STORAGE_DRIVER".

(** Up to [ListenAndServe]; the left values are the messages logged before [os.Exit(1)]. *)
Definition startup (cfg : Config) : string + Running :=
  match open_database cfg with
  | inl msg => inl msg
  | inr db =>
      match open_store cfg db with
      | inl msg => inl msg
      | inr store =>
          if negb authz_loads then inl "failed to create authorizer"
          else inr {|
            run_db := db;
            run_store := store;
            run_admin := if negb (streq (AdminUser cfg) "") && negb (streq (AdminPass cfg) "")
                         then Some (AdminUser cfg, AdminPass cfg) else None;
            run_openReg := OpenReg cfg;
            run_addr := ":" +:+ Port cfg;
            run_tls := if negb (streq (TLSCert cfg) "") && negb (streq (TLSKey cfg) "")
                       then Some (TLSCert cfg, TLSKey cfg) else None |}
      end
  end.

(** ** What start-up needs *)

(** The database is reachable and its tables can be migrated. *)
Definition sql_opens (dialector : Dialector) (d : gorm_DB) : Prop :=
  gorm_Open dialector = inr d /\ AutoMigrate d registry_tables = None /\ sql_DB d = None.

(** The database and the store a configuration names. *)
Definition names_database (cfg : Config) (db : Database) : Prop :=
  (DBDriver cfg = "mongo" /\ exists c, mongo_Connect (MongoURI cfg) = inr c /\ Ping c = None /\ db = MongoDB c) \/
  (DBDriver cfg = "sqlite" /\ exists d, sql_opens (sqlite (SQLitePath cfg +:+ "?_foreign_keys=on")) d /\ db = SqlDB d) \/
  (DBDriver cfg = "postgres" /\ exists d, sql_opens (postgres (PostgresDSN cfg)) d /\ db = SqlDB d).

Definition names_store (cfg : Config) (db : Database) (store : BlobStore) : Prop :=
  ((StorageDriver cfg = "local" \/ StorageDriver cfg = "") /\ store = Local (mkLocalStore (StoragePath cfg))) \/
  (StorageDriver cfg = "s3" /\ LoadDefaultConfig (S3Region cfg) (S3AccessKey cfg) (S3SecretKey cfg) = None /\
   exists e, store = S3 (mkS3Options (S3Region cfg) (S3AccessKey cfg) (S3SecretKey cfg) e true)
                        (mkS3Store (S3Bucket cfg) (S3Prefix cfg)) /\
   forall x, e = Some x <-> x = S3Endpoint cfg /\ x <> "") \/
  (StorageDriver cfg = "db" /\ exists d, db = SqlDB d /\ AutoMigrate d ["Blob"] = None /\ store = InDatabase d).

(** Exactly one branch of the two switches applies. *)
Ltac drivers :=
  repeat match goal with |- context [streq ?a ?b] => destruct (streq a b) eqn:? end; bool_facts; simpl.

Lemma dbmongo_Connect_spec uri c : dbmongo_Connect uri = inr c <-> mongo_Connect uri = inr c /\ Ping c = None.
Proof using.
  unfold dbmongo_Connect. destruct (mongo_Connect uri) as [|c']; [naive_solver|].
  destruct (Ping c') eqn:E; naive_solver congruence.
Qed.

Lemma opened dialector d :
  match gorm_Open dialector with
  | inl e => inl e
  | inr db => match AutoMigrate db registry_tables with
              | Some e => inl e
              | None => match sql_DB db with Some e => inl e | None => inr db end
              end
  end = inr d <-> sql_opens dialector d.
Proof using.
  unfold sql_opens. destruct (gorm_Open dialector) as [|d']; [naive_solver|].
  destruct (AutoMigrate d' registry_tables) eqn:E1; [naive_solver congruence|].
  destruct (sql_DB d') eqn:E2; naive_solver congruence.
Qed.

Lemma sqlite_Connect dsn d : sql_Connect "sqlite" dsn = inr d <-> sql_opens (sqlite (dsn +:+ "?_foreign_keys=on")) d.
Proof using. apply opened. Qed.

Lemma postgres_Connect dsn d : sql_Connect "postgres" dsn = inr d <-> sql_opens (postgres dsn) d.
Proof using. apply opened. Qed.

Lemma or_exit_spec {A B} msg (x : string + A) (f : A -> B) b : or_exit msg x f = inr b <-> exists a, x = inr a /\ b = f a.
Proof using. destruct x; simpl; naive_solver. Qed.

Lemma open_database_spec cfg db : open_database cfg = inr db <-> names_database cfg db.
Proof using.
  unfold open_database, names_database.
  drivers; rewrite ?or_exit_spec; try setoid_rewrite dbmongo_Connect_spec; try setoid_rewrite sqlite_Connect;
    try setoid_rewrite postgres_Connect;
    naive_solver congruence.
Qed.

Lemma open_store_spec cfg db store : open_store cfg db = inr store <-> names_store cfg db store.
Proof using.
  unfold open_store, names_store, NewLocalStore.
  destruct (streq (StorageDriver cfg) "local") eqn:E1; [bool_facts; simpl; naive_solver congruence|].
  destruct (streq (StorageDriver cfg) "") eqn:E2; [bool_facts; simpl; naive_solver congruence|].
  destruct (streq (StorageDriver cfg) "s3") eqn:E3;
    [|destruct (streq (StorageDriver cfg) "db") eqn:E4]; bool_facts; simpl; [| |naive_solver congruence].
  - rewrite or_exit_spec. unfold NewS3Store. destruct (LoadDefaultConfig _ _ _); [naive_solver congruence|].
    split.
    + intros (? & [= <-] & ->). right; left. split; [done|]. split; [done|]. eexists. split; [done|].
      intros x. destruct (streq (S3Endpoint cfg) "") eqn:E; bool_facts; naive_solver.
    + intros [[? _]|[(_ & _ & e & -> & He)|[? _]]]; [naive_solver congruence| |congruence].
      eexists. split; [reflexivity|]. simpl. do 2 f_equal. apply option_eq. intros x. rewrite He.
      destruct (streq (S3Endpoint cfg) "") eqn:E; bool_facts; naive_solver.
  - destruct db as [c|d]; simpl; [naive_solver congruence|]. rewrite or_exit_spec. unfold NewDBStore.
    destruct (AutoMigrate d ["Blob"]) eqn:E; naive_solver congruence.
Qed.

(** An option holds the pair of two settings exactly when both are set. *)
Definition when_both (a b : string) (x : option (string * string)) : Prop :=
  forall p, x = Some p <-> p = (a, b) /\ a <> "" /\ b <> "".

Lemma when_both_if a b : when_both a b (if negb (streq a "") && negb (streq b "") then Some (a, b) else None).
Proof. intros p. destruct (streq a "") eqn:E1, (streq b "") eqn:E2; simpl; bool_facts; naive_solver. Qed.

Lemma when_both_unique a b x y : when_both a b x -> when_both a b y -> x = y.
Proof. intros Hx Hy. apply option_eq. intros p. by rewrite (Hx p), (Hy p). Qed.

(** C40. The server starts, as [r], exactly when the configuration names the database
    and the blob store of [r], both can be opened and migrated, and the policy
    loads.  Database and blob store are independent, but for [STORAGE_DRIVER=db],
    which takes the SQL database's own handle; an admin account is made, and TLS
    served, when both of their settings are given. *)
Theorem startup_starts cfg r :
  startup cfg = inr r <->
  names_database cfg (run_db r) /\ names_store cfg (run_db r) (run_store r) /\
  authz_loads = true /\ run_openReg r = OpenReg cfg /\ run_addr r = ":" +:+ Port cfg /\
  when_both (AdminUser cfg) (AdminPass cfg) (run_admin r) /\ when_both (TLSCert cfg) (TLSKey cfg) (run_tls r).
Proof using.
  unfold startup. split.
  - destruct (open_database cfg) as [|db] eqn:Ed; [done|]. apply open_database_spec in Ed.
    destruct (open_store cfg db) as [|store] eqn:Es; [done|]. apply open_store_spec in Es.
    destruct authz_loads; [|done]. intros [= <-]. cbn. auto 10 using when_both_if.
  - destruct r as [db store admin openReg addr tls]. cbn. intros (Hd & Hs & -> & -> & -> & Ha & Ht).
    rewrite (proj2 (open_database_spec cfg db)) by done. rewrite (proj2 (open_store_spec cfg db store)) by done.
    simpl. do 2 f_equal; [by eapply when_both_unique; [apply when_both_if|]..].
Qed.
End Connect.

(** With no variable set, the server is a single process: SQLite and the local
    file system under [./data], port 8080, registration closed, no admin account,
    no TLS. *)
Theorem default_startup `{Drivers} d :
  sql_opens (sqlite "./data/bsr.db?_foreign_keys=on") d ->
  startup true (Load (fun _ => "")) =
  inr (mkRunning (SqlDB d) (Local (mkLocalStore "./data/modules")) None false ":8080" None).
Proof.
  intros Hd. unfold startup. rewrite (proj2 (open_database_spec _ (SqlDB d))); [reflexivity|].
  right; left. split; [done|]. by exists d.
Qed.
