(* ===== verification/Access.v ===== *)
(** * Every write and every blob read is authorized

    [allowed] says, operation by operation, what a request running as a given
    user may do to the state in front of it; [aw] says a program, run by itself,
    performs allowed operations only.  The theorem: every served request, whatever
    it asks and whatever fails, performs only operations its user is allowed at the
    moment it performs them, as long as no other request changes the permissions
    between its check and its write ([Limits.revoked_member_still_pushes]). *)
From S2P Require Import Prelude GoStd Sha256 Regex Model Iface Prog Auth Authz ModuleApi UploadApi OwnerApi RestApi Server.

Section Allowed.
Context `{Bcrypt} `{Zip}.

(** [ctx]: the user the request runs as, if any; [pushes]: the contents it pushes;
    [proved x]: the request carries the password of [x]; [old]: the organizations
    there were when the request came in. *)
Context (openReg : bool) (ctx : Ctx) (pushes : list UploadContent) (proved : User -> Prop) (old : list Org).
Abbreviation uid := (userID (UserFromContext ctx)).

Definition writable (t : Tables) (moduleID : string) : Prop :=
  exists m, m ∈ t_modules t /\ Mod_ID m = moduleID /\ may_write t uid m.

Definition administrable (t : Tables) (moduleID : string) : Prop :=
  exists m, m ∈ t_modules t /\ Mod_ID m = moduleID /\ may_admin t uid m.

(** The archive of a content the request pushes. *)
Definition pushed_archive (content : UploadContent) (zipData : bytes) : Prop :=
  content ∈ pushes /\ zipFiles (uc_Files content) = Some zipData.

Definition acts_for (t : Tables) (user : string) : Prop :=
  (exists c, ctx = Some c /\ user = User_ID c) \/ (exists x, x ∈ t_users t /\ User_ID x = user /\ proved x).

Definition allowed {X} (e : eff X) (s : State) : Prop :=
  let t := tables s in
  match e with
  | Repo (Users_Create _) => openReg = true
  | Repo (Orgs_Create _) => is_Some ctx
  | Repo (Orgs_AddMember o user _) =>
      may_manage t uid o \/ (is_Some ctx /\ user = uid /\ forall x, x ∈ old -> Org_ID x <> o)
  | Repo (Orgs_RemoveMember o _) => may_manage t uid o
  | Repo (Modules_Create m) => may_create t uid (Mod_OwnerName m)
  | Repo (Modules_SetVisibility _ _) | Repo (Modules_Delete _) | Repo Tokens_DeleteExpired => False
  | Repo (Commits_Create c) =>
      writable t (Commit_ModuleID c) /\ Commit_CreatedByUserID c = uid /\
      exists content d, pushed_archive content d /\ Commit_ID c = sha256_hex d
  | Repo (Labels_Upsert l) =>
      administrable t (Label_ModuleID l) \/
      (writable t (Label_ModuleID l) /\ exists content d, pushed_archive content d /\
         Label_CommitID l = sha256_hex d /\ Label_Name l ∈ upload_labels (uc_ScopedLabelRefs content))
  | Repo (Tokens_Create k) => acts_for t (Token_UserID k)
  | Repo (Tokens_Revoke _ user) => is_Some ctx /\ user = uid
  | Repo (Tokens_DeleteByUserAndNote user _) => acts_for t user
  | StorePut k d =>
      exists m content, writable t m /\ pushed_archive content d /\ k = m +:+ "/" +:+ sha256_hex d
  | StoreGet k => exists m c, m ∈ t_modules t /\ may_read t uid m /\ c ∈ t_commits t /\
      Commit_ModuleID c = Mod_ID m /\ k = Commit_StorageKey c
  | _ => True
  end.
End Allowed.

(** ** Programs that perform allowed operations only *)
Section Aw.
Context `{Bcrypt} (md : mode) (ok : forall X, eff X -> State -> Prop).

Fixpoint aw {A} (p : prog A) (Q : A -> State -> Prop) (s : State) : Prop :=
  match p with
  | Ret a => Q a s
  | Vis e k => ok _ e s /\ forall x s', eff_spec md e s x s' -> aw (k x) Q s'
  end.

Lemma aw_mono {A} (p : prog A) (Q Q' : A -> State -> Prop) s :
  aw p Q s -> (forall a s', Q a s' -> Q' a s') -> aw p Q' s.
Proof using.
  revert s; induction p as [a|X e k IH]; intros s Hp HQ; simpl in *; [auto|].
  destruct Hp as [Hok Hp]. split; [done|]. intros x s' He. eapply IH; eauto.
Qed.

Lemma aw_pbind {A B} (p : prog A) (f : A -> prog B) Q s :
  aw p (fun a s' => aw (f a) Q s') s -> aw (pbind p f) Q s.
Proof using.
  revert s; induction p as [a|X e k IH]; intros s Hp; simpl in *; [done|].
  destruct Hp as [Hok Hp]. split; [done|]. eauto.
Qed.

Definition aw_after {E A B} (f : A -> H E B) (Q : outcome E B -> State -> Prop) (o : outcome E A) (s : State) : Prop :=
  match o with
  | Done a => aw (f a) Q s
  | Fail e => Q (Fail e) s
  | Panic => Q Panic s
  end.

Lemma aw_bind {E A B} (p : H E A) (f : A -> H E B) Q s : aw p (aw_after f Q) s -> aw (p ≫= f) Q s.
Proof using. intros Hp. apply (aw_pbind p). eapply aw_mono; [exact Hp|]. by intros []. Qed.

Lemma aw_op {E X B} (e : eff X) (f : X -> H E B) Q s :
  ok _ e s -> (forall x s', eff_spec md e s x s' -> aw (f x) Q s') -> aw (perform e ≫= f) Q s.
Proof using. intros Ho Hf. apply aw_bind. simpl. by split. Qed.

Lemma aw_for_range {E V Acc} (J : State -> Prop) (vs : list V) (acc : Acc) (body : Acc -> V -> H E Acc) s :
  J s -> (forall v acc s, v ∈ vs -> J s -> aw (body acc v) (fun _ s' => J s') s) ->
  aw (for_range vs acc body) (fun _ s' => J s') s.
Proof using.
  intros HJ Hb. revert acc s HJ. induction vs as [|v vs IH]; intros acc s HJ; simpl; [done|].
  apply (aw_bind (body acc v)). eapply aw_mono; [apply Hb; [by left|done]|].
  intros [acc1|e|] s1 Hs1; simpl; auto. apply IH; [|done]. intros w acc2 s2 Hw. apply Hb. by right.
Qed.

(** Reading the tables is always allowed. *)
Hypothesis ok_reads : forall X (e : eff X) s, eff_reads e = true -> ok _ e s.

(** A program that only reads the tables, with what it is known to return. *)
Lemma aw_quiet {A} (p : prog A) Q s :
  read_only p -> awp md p (fun a s' => Q a s') s -> aw p (fun a s' => s' = s /\ Q a s') s.
Proof using ok_reads.
  revert s; induction p as [a|X e k IH]; intros s; simpl; [done|]. intros [He Hk] Hp. split; [by apply ok_reads|].
  intros x s' Hs. pose proof (eff_spec_read _ _ _ _ _ _ He Hs) as ->. auto.
Qed.

Lemma aw_quiet_bind {E A B} (p : H E A) (f : A -> H E B) (R : outcome E A -> Prop) Q s :
  read_only p -> awp md p (fun o _ => R o) s ->
  (forall a, R (Done a) -> aw (f a) Q s) ->
  (forall o, (forall a, o <> Done a) -> Q o s) -> aw (p ≫= f) Q s.
Proof using ok_reads.
  intros Hq Hp Hf HQ. apply aw_bind. eapply aw_mono; [by apply (aw_quiet p (fun o _ => R o))|].
  intros [a|e|] s' [-> HR]; simpl; [by apply Hf|apply HQ; by intros ? [=]..].
Qed.
End Aw.

(** ** Every handler *)

(** Follow a reading program's text. *)
Lemma reads_bind {E A B} (p : H E A) (f : A -> H E B) : read_only p -> (forall a, read_only (f a)) -> read_only (p ≫= f).
Proof. apply read_only_bind. Qed.

Lemma reads_for_range {E V Acc} (vs : list V) (acc : Acc) (body : Acc -> V -> H E Acc) :
  (forall acc v, read_only (body acc v)) -> read_only (for_range vs acc body).
Proof.
  intros Hb. revert acc. induction vs as [|v vs IH]; intros acc; simpl; [done|].
  apply (read_only_bind (body acc v)); auto.
Qed.

Lemma reads_check {E A} (x : option A) (f : A -> E) : read_only (check x f).
Proof. by destruct x. Qed.
Lemma reads_guard {E} b (e : E) : read_only (guard_ b e).
Proof. by destruct b. Qed.
Lemma reads_expired {E} (t : Token) : read_only (token_expired t : H E bool).
Proof. unfold token_expired. by destruct (Token_ExpiresAt t). Qed.
#[export] Hint Resolve reads_check reads_guard reads_expired : reads.

Ltac reads_step :=
  first
    [ done
    | progress intros
    | solve [auto with reads]
    | apply reads_bind
    | apply reads_for_range
    | match goal with
      | |- read_only (match ?x with _ => _ end) => destruct x
      | |- read_only (if ?x then _ else _) => destruct x
      end
    | by split ].
Ltac reads_tac := repeat reads_step.

Section Handlers.
Context `{Bcrypt} (md : mode) `{Authorizer} `{!AuthorizerOk md} `{!AuthorizerReads} `{Zip}.
Context (openReg : bool) (pushes : list UploadContent) (proved : User -> Prop) (old : list Org).

Definition ok_for (ctx : Ctx) X (e : eff X) (s : State) : Prop := allowed openReg ctx pushes proved old e s.

(** Running as [ctx], the program performs allowed operations only. *)
Definition authorized {A} (ctx : Ctx) (p : prog A) (s : State) : Prop := aw md (ok_for ctx) p (fun _ _ => True) s.

Lemma ok_reads ctx X (e : eff X) s : eff_reads e = true -> ok_for ctx X e s.
Proof using. destruct e as [X o| | | | | |]; try done. by destruct o. Qed.

Lemma au_reads {A} ctx (p : prog A) s : read_only p -> authorized ctx p s.
Proof using.
  intros Hp. eapply aw_mono; [apply (aw_quiet md (ok_for ctx) (ok_reads ctx) p (fun _ _ => True)); [done|]|done].
  apply awp_true.
Qed.

Lemma au_bind {E A B} ctx (p : H E A) (f : A -> H E B) (R : outcome E A -> Prop) s :
  read_only p -> awp md p (fun o _ => R o) s -> (forall a, R (Done a) -> authorized ctx (f a) s) ->
  authorized ctx (p ≫= f) s.
Proof using.
  intros Hp HR Hf. apply (aw_quiet_bind md (ok_for ctx) (ok_reads ctx) p f R); done.
Qed.

(** A reading step of which nothing need be known. *)
Lemma au_step {E A B} ctx (p : H E A) (f : A -> H E B) s :
  read_only p -> (forall a, authorized ctx (f a) s) -> authorized ctx (p ≫= f) s.
Proof using. intros Hp Hf. apply (au_bind ctx p f (fun _ => True)); [done|apply awp_true|auto]. Qed.

Lemma au_op {E X B} ctx (e : eff X) (f : X -> H E B) s :
  ok_for ctx X e s -> (forall x s', eff_spec md e s x s' -> authorized ctx (f x) s') ->
  authorized ctx (perform e ≫= f) s.
Proof using. intros He Hf. by apply aw_op. Qed.

(** A lookup whose row is then used. *)
Lemma au_get {E R B} ctx (o : repo_op (goret R)) (P : R -> Prop) (l : list R) (h : ierr -> E) (f : R -> H E B) s :
  op_reads o = true -> (forall x s', eff_spec md (Repo o) s x s' -> gets md P l x) ->
  (forall r, r ∈ l -> P r -> authorized ctx (f r) s) ->
  authorized ctx (r ← repo o; x ← need r h; f x) s.
Proof using.
  intros Ho Hs Hf. apply (au_bind ctx _ _ (fun out => forall x, out = Done x -> gets md P l x)); [by split| |].
  - simpl. intros x s' Hx y [= <-]. by apply (Hs x s').
  - intros x Hx. specialize (Hx x eq_refl).
    apply (au_bind ctx _ _ (fun out => forall r, out = Done r -> r ∈ l /\ P r)); [apply need_reads| |].
    + unfold need, gets in *. destruct (err x) as [e|]; simpl; [by intros ? [=]|].
      destruct Hx as (r & -> & Hr & HP). by intros r' [= <-].
    + intros r Hr. by apply Hf; apply Hr.
Qed.

(** A check followed by its refusal. *)
Lemma au_can {E B} ctx (check_ : forall E, H E bool) may (e : E) (f : unit -> H E B) s :
  read_only (check_ E) -> decides md check_ may -> (may (tables s) -> authorized ctx (f ()) s) ->
  authorized ctx (ok ← check_ E; u ← guard_ ok e; f u) s.
Proof using.
  intros Hr Hd Hf. apply (au_bind ctx _ _ (fun out => forall b, out = Done b -> b = true -> may (tables s))); [done| |].
  - eapply awp_mono; [apply Hd|]. intros o s' (_ & b & -> & Hb & _) b' [= <-]. apply Hb.
  - intros b Hb. destruct b; [|done]. apply (Hf (Hb true eq_refl eq_refl)).
Qed.

Lemma au_for_range {E V Acc} ctx (vs : list V) (acc : Acc) (body : Acc -> V -> H E Acc) s :
  (forall acc v s, v ∈ vs -> authorized ctx (body acc v) s) -> authorized ctx (for_range vs acc body) s.
Proof using. intros Hb. apply (aw_for_range md (ok_for ctx) (fun _ => True)); [done|]. intros v acc' s' Hv _. by apply Hb. Qed.

(** ** Content *)
Lemma au_labels (ctx : Ctx) mid cid now refs s :
  writable ctx (tables s) mid ->
  (exists content d, pushed_archive pushes content d /\ cid = sha256_hex d /\ refs = uc_ScopedLabelRefs content) ->
  aw md (ok_for ctx) (for_range (upload_labels refs) () (fun _ labelName =>
    id ← perform NewUUID;
    let l := mkLabel id mid labelName cid now now in
    e ← repo (Labels_Upsert l);
    check e (fun _ => NewError CodeInternal "failed to upsert label")))
    (fun _ s' => writable ctx (tables s') mid) s.
Proof using.
  intros Hw (content & d & Hpush & -> & ->). apply (aw_for_range md (ok_for ctx) (fun s => writable ctx (tables s) mid)); [done|].
  intros name _ s1 Hn Hw1. apply aw_op; [done|]. intros id s2 (-> & _).
  apply aw_op; [right; split; [exact Hw1|]; by exists content, d|]. intros e s3 [(l' & E & _) _].
  assert (writable ctx (tables s3) mid) as Hw3 by (by rewrite E). by destruct e.
Qed.

Lemma au_Upload ctx s : authorized ctx (Upload ctx pushes) s.
Proof using All.
  unfold Upload. destruct (UserFromContext ctx) as [caller|] eqn:Ec; [|done].
  apply au_for_range. clear s. intros commits content s Hin. unfold Upload_content.
  destruct (uc_ModuleRef content) as [[id|n|]|]; try done.
  apply (au_get ctx _ (owned_as (rn_Owner n) (rn_Module n)) (t_modules (tables s))); [done| |].
  { intros x s' [[_ Hx] _]. exact Hx. }
  intros m Hm _. apply (au_can ctx (fun E => CanWriteModule (User_ID caller) m)
    (fun t => may_write t (User_ID caller) m)); [apply write_reads|apply write_ok|]. intros Hw.
  assert (writable ctx (tables s) (Mod_ID m)) as Hwr.
  { exists m. split; [done|]. split; [done|]. by rewrite Ec. }
  apply au_step; [apply reads_check|]. intros _.
  destruct (zipFiles (uc_Files content)) as [zipData|] eqn:Ez; [|done].
  apply au_step; [apply reads_guard|]. intros _. cbv zeta.
  apply au_op; [by exists (Mod_ID m), content|]. intros e s1 [Et _].
  assert (writable ctx (tables s1) (Mod_ID m)) as Hw1 by (by rewrite Et). clear Hwr.
  apply au_step; [apply reads_check|]. intros _. apply au_op; [done|]. intros now s2 [-> _].
  apply au_op; [done|]. intros rc s3 [[Et3 _] Eb3].
  assert (writable ctx (tables s3) (Mod_ID m)) as Hw3 by (by rewrite Et3).
  apply aw_bind. eapply (aw_mono _ _ _ (fun _ s' => writable ctx (tables s') (Mod_ID m))).
  { destruct (val rc) as [existing|]; [done|]. apply aw_op.
    - split; [done|]. split; [simpl; by rewrite Ec|]. by exists content, zipData.
    - intros e' s4 [(l' & E4 & _) _]. assert (writable ctx (tables s4) (Mod_ID m)) as Hw4 by (by rewrite E4).
      by destruct e'. }
  intros [t|?|] s4 Hw4; simpl; try done.
  apply aw_bind. eapply aw_mono; [apply au_labels; [done|by exists content, zipData]|]. intros [[]|?|] s5 _; simpl; try done.
  apply au_step; [apply ownerID_reads|]. done.
Qed.

(** The blob of a commit of a module the caller may read. *)
Lemma ok_blob ctx m c s :
  m ∈ t_modules (tables s) -> may_read (tables s) (userID (UserFromContext ctx)) m ->
  c ∈ t_commits (tables s) -> Commit_ModuleID c = Mod_ID m -> ok_for ctx _ (StoreGet (Commit_StorageKey c)) s.
Proof using. intros Hm Hr Hc E. by exists m, c. Qed.

(** A resolved reference, with what its rows are. *)
Lemma au_resolve {B} ctx ref (f : Mod * option Commit -> H ConnectError B) s :
  (forall m oc, m ∈ t_modules (tables s) ->
     (forall c, oc = Some c -> c ∈ t_commits (tables s) /\ Commit_ModuleID c = Mod_ID m) ->
     authorized ctx (f (m, oc)) s) ->
  authorized ctx (mc ← not_found_of (resolveResourceRef ref); f mc) s.
Proof using.
  intros Hf. apply (au_bind ctx _ _ (fun o => forall m oc, o = Done (m, oc) -> resolved_in (tables s) ref m oc)).
  - apply not_found_of_reads, resolveResourceRef_reads.
  - eapply awp_mono; [apply not_found_of_sound|]. intros o s' (_ & _ & _ & Hr). exact Hr.
  - intros [m oc] Hr. destruct (Hr m oc eq_refl) as (_ & Hm & Hc). by apply Hf.
Qed.

Lemma au_read {E B} ctx m (e : E) (f : unit -> H E B) s :
  (may_read (tables s) (userID (UserFromContext ctx)) m -> authorized ctx (f ()) s) ->
  authorized ctx (ok ← CanReadModule (userID (UserFromContext ctx)) m; u ← guard_ ok e; f u) s.
Proof using All.
  apply (au_can ctx (fun E => CanReadModule (userID (UserFromContext ctx)) m)
    (fun t => may_read t (userID (UserFromContext ctx)) m)); [apply read_reads|apply read_ok].
Qed.

Lemma au_Download ctx values s : authorized ctx (Download ctx values) s.
Proof using All.
  unfold Download. apply au_for_range. clear s. intros contents ref s _. unfold Download_value.
  apply au_resolve. intros m oc Hm Hc. destruct oc as [c|]; [|done]. destruct (Hc c eq_refl) as [Hin Hmod].
  apply au_read. intros Hr. apply au_op; [by apply (ok_blob ctx m)|]. intros r s' [-> _].
  apply au_reads. reads_tac.
Qed.

Lemma au_GetFileDescriptorSet ctx ref s : authorized ctx (GetFileDescriptorSet ctx ref) s.
Proof using All.
  unfold GetFileDescriptorSet. apply au_resolve. intros m oc Hm Hc. apply au_read. intros Hr.
  destruct oc as [c|]; [|done]. destruct (Hc c eq_refl) as [Hin Hmod].
  apply au_op; [by apply (ok_blob ctx m)|]. intros r s' [-> _]. apply au_reads. cbv zeta. reads_tac.
Qed.

Lemma au_resolveCommitZip {B} ctx owner repo_ cid (f : bytes -> H Response B) s :
  (forall d, read_only (f d)) -> authorized ctx (resolveCommitZip ctx owner repo_ cid ≫= f) s.
Proof using All.
  intros Hf. apply aw_bind. eapply aw_mono with (Q := fun _ _ => True).
  - unfold resolveCommitZip.
    apply (au_get ctx _ (owned_as owner repo_) (t_modules (tables s))); [done| |].
    { intros x s' [[_ Hx] _]. exact Hx. }
    intros m Hm _. apply au_read. intros Hr.
    apply (au_get ctx _ (commit_at (Mod_ID m) cid) (t_commits (tables s))); [done| |].
    { intros x s' [[_ Hx] _]. exact Hx. }
    intros c Hc [Hmod _]. apply au_op; [by apply (ok_blob ctx m)|]. intros r s' _. by destruct r.
  - intros [d|e|] s' _; simpl; try done. by apply au_reads, Hf.
Qed.

(** ** Modules and labels *)
Lemma au_CreateModules ctx values s : authorized ctx (CreateModules ctx values) s.
Proof using All.
  unfold CreateModules. destruct (UserFromContext ctx) as [caller|] eqn:Ec; [|done].
  apply au_for_range. clear s. intros mods v s _. unfold CreateModules_value.
  apply (au_can ctx (fun E => CanCreateModule (User_ID caller) (resolveOwnerRefName (cm_OwnerRef v)))
    (fun t => may_create t (User_ID caller) (resolveOwnerRefName (cm_OwnerRef v))));
    [apply create_reads|apply create_ok|]. intros Hc.
  apply au_step; [apply reads_guard|]. intros _. apply au_step; [by split|]. intros r.
  destruct (err r); [|done]. apply au_op; [done|]. intros id s1 (-> & _).
  apply au_op; [done|]. intros now s2 [-> _]. apply au_op; [simpl; by rewrite Ec|].
  intros e s3 _. apply au_reads. reads_tac.
Qed.

Lemma au_user {B} ctx (f : User -> H Response B) s :
  (forall u, ctx = Some u -> authorized ctx (f u) s) -> authorized ctx (u ← require_user ctx; f u) s.
Proof using. intros Hf. destruct ctx as [u|]; [by apply (Hf u)|done]. Qed.

Lemma au_decode {T B} ctx (body : option T) (f : T -> H Response B) s :
  (forall req, body = Some req -> authorized ctx (f req) s) -> authorized ctx (req ← decode body; f req) s.
Proof using. intros Hf. destruct body as [req|]; [by apply (Hf req)|done]. Qed.

Lemma au_createModule ctx body s : authorized ctx (createModule ctx body) s.
Proof using All.
  unfold createModule. apply au_user. intros caller ->. apply au_decode. intros req _.
  apply au_step; [apply reads_guard|]. intros _.
  apply (au_can (Some caller) (fun E => CanCreateModule (User_ID caller) (cq_Owner req))
    (fun t => may_create t (User_ID caller) (cq_Owner req))); [apply create_reads|apply create_ok|]. intros Hc. cbv zeta.
  apply au_step; [by split|]. intros r. destruct (err r); [|done]. apply au_op; [done|]. intros id s1 (-> & _).
  apply au_op; [done|]. intros now s2 [-> _]. apply au_op; [done|]. intros e s3 _. apply au_reads. reads_tac.
Qed.

Lemma au_CreateOrUpdateLabels ctx values s : authorized ctx (CreateOrUpdateLabels ctx values) s.
Proof using All.
  unfold CreateOrUpdateLabels. destruct (UserFromContext ctx) as [caller|] eqn:Ec; [|done].
  apply au_for_range. clear s. intros labels v s _. unfold CreateOrUpdateLabels_value.
  destruct (lv_LabelRef v) as [[id|n|]|]; try done.
  apply (au_get ctx _ (owned_as (ln_Owner n) (ln_Module n)) (t_modules (tables s))); [done| |].
  { intros x s' [[_ Hx] _]. exact Hx. }
  intros m Hm _. apply (au_can ctx (fun E => CanAdminModule (User_ID caller) m)
    (fun t => may_admin t (User_ID caller) m)); [apply admin_reads|apply admin_ok|]. intros Ha.
  assert (administrable ctx (tables s) (Mod_ID m)) as Hw by (exists m; split; [done|]; split; [done|]; by rewrite Ec).
  apply au_step; [by split|]. intros rc. apply au_step; [apply reads_check|]. intros _.
  apply au_op; [done|]. intros now s1 [-> _]. apply au_op; [done|]. intros id s2 (-> & _).
  apply au_op; [by left|]. intros e s3 _. apply au_reads. reads_tac.
Qed.

(** ** Accounts and organizations *)
Lemma au_CreateUsers ctx names s : authorized ctx (CreateUsers openReg names) s.
Proof using.
  unfold CreateUsers. destruct (negb openReg) eqn:Eo; [done|]. apply negb_false_iff in Eo.
  apply au_for_range. clear s. intros us name s _. unfold CreateUsers_value.
  apply au_step; [apply reads_guard|]. intros _. apply au_op; [done|]. intros id s1 _.
  apply au_op; [done|]. intros now s2 _. apply au_op; [done|]. intros e s3 _. apply au_reads. reads_tac.
Qed.

Lemma au_register ctx body s : authorized ctx (register openReg body) s.
Proof using.
  unfold register. apply (au_bind ctx _ _ (fun o => o = Done () -> openReg = true));
    [apply reads_guard|by destruct openReg|]. intros [] Eo. specialize (Eo eq_refl).
  apply au_decode. intros req _. do 2 (apply au_step; [apply reads_guard|]; intros _).
  apply au_step; [by split|]. intros [hash|]; [|done]. apply au_step; [by split|]. intros r. destruct (err r); [|done].
  apply au_op; [done|]. intros id s1 _. apply au_op; [done|]. intros now s2 _. apply au_op; [done|].
  intros e s3 _. apply au_reads. reads_tac.
Qed.

(** The creator of an organization becomes its admin; nobody else is added. *)
Definition orgs_kept (s : State) : Prop := forall o, o ∈ old -> o ∈ t_orgs (tables s).

Lemma kept_create (o : Org) s e s' : orgs_kept s -> eff_spec md (Repo (Orgs_Create o)) s e s' -> orgs_kept s'.
Proof using.
  intros Hk [(l' & Et & Hc) _] x Hx. rewrite Et. simpl. destruct e as [e|]; simpl in Hc.
  - destruct Hc as [-> _]. auto.
  - destruct Hc as [(o' & _ & Hp) _]. rewrite Hp. right. auto.
Qed.

Lemma kept_member o u r s e s' : orgs_kept s -> eff_spec md (Repo (Orgs_AddMember o u r)) s e s' -> orgs_kept s'.
Proof using. intros Hk [(l' & Et & _) _] x Hx. rewrite Et. by apply Hk. Qed.

Lemma au_CreateOrganizations ctx names s : orgs_kept s -> authorized ctx (CreateOrganizations ctx names) s.
Proof using.
  intros Hk. unfold CreateOrganizations. destruct (UserFromContext ctx) as [u|] eqn:Ec; [|done].
  eapply aw_mono; [apply (aw_for_range md (ok_for ctx) orgs_kept); [done|]|done]. clear s Hk.
  intros name acc s _ Hk. unfold CreateOrganizations_value.
  destruct (MatchString nameRe name); [|done]. apply aw_bind. cbn [aw guard_ aw_after].
  apply aw_op; [done|]. intros r s1 [[Et1 _] _]. assert (orgs_kept s1) as Hk1 by (intros x; rewrite Et1; apply Hk).
  destruct (err r); [|done]. apply aw_op; [done|]. intros id s2 (-> & _ & Hfresh).
  apply aw_op; [done|]. intros now s3 [-> _]. apply aw_op; [by exists u|]. intros e s4 He.
  pose proof (kept_create _ _ _ _ Hk1 He) as Hk4. destruct e; [done|]. apply aw_bind. cbn [check aw aw_after].
  apply aw_op.
  - right. split; [by exists u|]. split; [by rewrite Ec|]. intros x Hx. by apply Hfresh, Hk1.
  - intros e s5 He5. pose proof (kept_member _ _ _ _ _ _ Hk4 He5). by destruct e.
Qed.

Lemma au_createOrg ctx body s : orgs_kept s -> authorized ctx (createOrg ctx body) s.
Proof using.
  intros Hk. unfold createOrg. apply au_user. intros u ->. apply au_decode. intros name _.
  apply au_step; [apply reads_guard|]. intros _. apply au_op; [done|]. intros id s1 (-> & _ & Hfresh).
  apply au_op; [done|]. intros now s2 [-> _]. apply au_op; [by exists u|]. intros e s3 _.
  destruct e; [apply au_reads; reads_tac|]. apply au_op.
  - right. split; [by exists u|]. split; [done|]. intros x Hx. by apply Hfresh, Hk.
  - intros e s4 _. apply au_reads. reads_tac.
Qed.

Lemma au_addMember ctx name body s : authorized ctx (addMember ctx name body) s.
Proof using All.
  unfold addMember. apply au_user. intros c ->.
  apply (au_get (Some c) _ (fun o => Org_Name o = name) (t_orgs (tables s))); [done| |].
  { intros x s' [[_ Hx] _]. exact Hx. }
  intros o _ _. apply (au_can (Some c) (fun E => CanManageOrgMembers (User_ID c) (Org_ID o))
    (fun t => may_manage t (User_ID c) (Org_ID o))); [apply manage_reads|apply manage_ok|]. intros Hm.
  apply au_decode. intros req _. apply au_step; [by split|]. intros rt. apply au_step; [apply need_reads|].
  intros target. cbv zeta. apply au_op; [by left|]. intros e s1 _. apply au_reads. reads_tac.
Qed.

Lemma au_removeMember ctx name user s : authorized ctx (removeMember ctx name user) s.
Proof using All.
  unfold removeMember. apply au_user. intros c ->.
  apply (au_get (Some c) _ (fun o => Org_Name o = name) (t_orgs (tables s))); [done| |].
  { intros x s' [[_ Hx] _]. exact Hx. }
  intros o _ _. apply (au_can (Some c) (fun E => CanManageOrgMembers (User_ID c) (Org_ID o))
    (fun t => may_manage t (User_ID c) (Org_ID o))); [apply manage_reads|apply manage_ok|]. intros Hm.
  apply au_step; [by split|]. intros rt. apply au_step; [apply need_reads|].
  intros target. apply au_op; [done|]. intros e s1 _. apply au_reads. reads_tac.
Qed.

(** ** Tokens *)
Lemma au_createToken ctx body s : authorized ctx (createToken ctx body) s.
Proof using.
  unfold createToken. apply au_user. intros u ->. apply au_decode. intros note _.
  apply au_op; [done|]. intros raw s1 _. apply au_op; [done|]. intros id s2 _. apply au_op; [done|]. intros now s3 _.
  apply au_op; [left; by exists u|]. intros e s4 _. apply au_reads. reads_tac.
Qed.

Lemma au_revokeToken ctx id s : authorized ctx (revokeToken ctx id) s.
Proof using.
  unfold revokeToken. apply au_user. intros u ->. apply au_op; [split; [by exists u|done]|].
  intros e s1 _. apply au_reads. reads_tac.
Qed.

(** A login acts for the user whose password the request carries. *)
Lemma au_login ctx body s :
  (forall c u, body = Some c -> User_Username u = cr_Username c ->
     CheckPassword (User_PasswordHash u) (cr_Password c) = true -> proved u) ->
  authorized ctx (login body) s.
Proof using.
  intros Hp. unfold login. apply au_decode. intros req Eb.
  apply (au_get ctx _ (fun u => User_Username u = cr_Username req) (t_users (tables s))); [done| |].
  { intros x s' [[_ Hx] _]. exact Hx. }
  intros u Hu Hn. destruct (CheckPassword _ _) eqn:Epw; [|done]. apply au_step; [done|]. intros _.
  assert (acts_for ctx proved (tables s) (User_ID u)) as Ha.
  { right. exists u. split; [done|]. split; [done|]. by apply (Hp req). }
  apply au_op; [exact Ha|]. intros e0 s1 [(l' & Et & _) _].
  assert (acts_for ctx proved (tables s1) (User_ID u)) as Ha1 by (by rewrite Et). clear Ha.
  apply au_op; [done|]. intros raw s2 (-> & _). apply au_op; [done|]. intros now s3 [-> _]. cbv zeta.
  apply au_op; [done|]. intros id s4 (-> & _). apply au_op; [done|]. intros created s5 [-> _].
  apply au_op; [exact Ha1|]. intros e s6 _. apply au_reads. reads_tac.
Qed.
End Handlers.

(** ** Whole requests *)
Section Requests.
Context `{Bcrypt} (md : mode).

Lemma aw_weaken {A} (ok ok' : forall X, eff X -> State -> Prop) (p : prog A) Q s :
  (forall X (e : eff X) s, ok X e s -> ok' X e s) -> aw md ok p Q s -> aw md ok' p Q s.
Proof using.
  intros Hok. revert s; induction p as [a|X e k IH]; intros s Hp; simpl in *; [done|].
  destruct Hp as [Ho Hp]. split; [by apply Hok|]. eauto.
Qed.

Context (ok : forall X, eff X -> State -> Prop).
Hypothesis ok_reads : forall X (e : eff X) s, eff_reads e = true -> ok _ e s.
Context (authorization : string) (s : State).
Abbreviation known := (identifies (since md) (tables s) authorization).

Lemma aw_token_expired {E B} (k : Token) (f : bool -> H E B) Q :
  ((forall e, Token_ExpiresAt k = Some e -> since md <= e) -> aw md ok (f false) Q s) ->
  aw md ok (f true) Q s -> aw md ok (token_expired k ≫= f) Q s.
Proof using ok_reads.
  intros Hf Ht. unfold token_expired. apply aw_bind. destruct (Token_ExpiresAt k) as [e|]; simpl.
  - split; [by apply ok_reads|]. intros now s' [-> Hnow]. simpl. destruct (e <? now) eqn:Hlt; [done|].
    apply Hf. intros e' [= <-]. bool_facts. destruct Hnow. lia.
  - by apply Hf.
Qed.

(** The token lookup both authenticators make, and the user behind the token. *)
Lemma aw_lookup {E R B} (o : repo_op (goret R)) (P : R -> Prop) (l : list R) (f : goret R -> H E B) Q :
  op_reads o = true -> (forall x s', eff_spec md (Repo o) s x s' -> s' = s /\ gets md P l x) ->
  (forall x, (forall r, err x = None -> val x = Some r -> r ∈ l /\ P r) ->
     (err x = None -> is_Some (val x)) -> aw md ok (f x) Q s) ->
  aw md ok (repo o ≫= f) Q s.
Proof using ok_reads.
  intros Ho Hs Hf. apply aw_bind. simpl. split; [by apply ok_reads|]. intros x s' [-> Hx]%Hs. simpl.
  unfold gets in Hx. apply Hf; [intros r Er Hv|intros Er]; rewrite Er in Hx; destruct Hx as (r' & Ev & ? & ?); [|eauto].
  rewrite Ev in Hv. by simplify_eq.
Qed.

Lemma spec_same {X} (o : repo_op X) x s' : op_reads o = true -> eff_spec md (Repo o) s x s' -> s' = s.
Proof using. intros Ho. by apply eff_spec_read. Qed.

Lemma aw_token {E B} hash (f : goret Token -> H E B) Q :
  (forall x, (forall k, err x = None -> val x = Some k -> k ∈ t_tokens (tables s) /\ Token_Hash k = hash) ->
     (err x = None -> is_Some (val x)) -> aw md ok (f x) Q s) ->
  aw md ok (repo (Tokens_GetByHash hash) ≫= f) Q s.
Proof using ok_reads.
  apply aw_lookup; [done|]. intros x s' Hx. split; [by eapply spec_same; [|exact Hx]|apply Hx].
Qed.

Lemma aw_account {E B} id (f : goret User -> H E B) Q :
  (forall x, (forall u, err x = None -> val x = Some u -> u ∈ t_users (tables s) /\ User_ID u = id) ->
     (err x = None -> is_Some (val x)) -> aw md ok (f x) Q s) ->
  aw md ok (repo (Users_GetByID id) ≫= f) Q s.
Proof using ok_reads.
  apply aw_lookup; [done|]. intros x s' Hx. split; [by eapply spec_same; [|exact Hx]|apply Hx].
Qed.

Abbreviation tt_ := (fun _ _ => True).

Lemma aw_middleware {E Resp} (next : Ctx -> H E Resp) :
  aw md ok (next None) tt_ s -> (forall u, known u -> aw md ok (next (Some u)) tt_ s) ->
  aw md ok (Middleware authorization next None) tt_ s.
Proof using ok_reads.
  intros Hn Hu. unfold Middleware. destruct (bearer_cases authorization) as [[_ ->]|[Hp ->]]; [done|].
  apply aw_token. intros x Hx _. destruct (err x); [done|]. destruct (val x) as [k|]; [|done].
  destruct (Hx k eq_refl eq_refl) as [Hk Hh]. apply aw_token_expired; [|done]. intros Hexp.
  apply aw_account. intros y Hy _. destruct (err y); [done|]. destruct (val y) as [u|]; [|done].
  destruct (Hy u eq_refl eq_refl) as [Hin Hid]. apply Hu. exists (ExtractBearer authorization), k. auto 10.
Qed.

Lemma aw_interceptor {Resp} (next : Ctx -> H ConnectError Resp) ctx :
  aw md ok (next ctx) tt_ s -> (forall u, known u -> aw md ok (next (Some u)) tt_ s) ->
  aw md ok (NewConnectInterceptor authorization next ctx) tt_ s.
Proof using ok_reads.
  intros Hn Hu. unfold NewConnectInterceptor. destruct (bearer_cases authorization) as [[_ E]|[Hp E]];
    unfold ExtractBearer in *; rewrite E; [done|].
  apply aw_token. intros x Hx _. apply aw_bind. unfold need. destruct (err x); [done|]. destruct (val x) as [k|]; [|done].
  destruct (Hx k eq_refl eq_refl) as [Hk Hh]. cbn [aw aw_after].
  apply aw_token_expired; [|done]. intros Hexp.
  apply aw_account. intros y Hy _. unfold need. destruct (err y); [done|]. destruct (val y) as [u|]; [|done].
  destruct (Hy u eq_refl eq_refl) as [Hin Hid]. apply aw_bind. cbn [aw aw_after].
  apply Hu. exists (TrimPrefix authorization "Bearer "), k. auto 10.
Qed.
End Requests.

Section Served.
Context `{Bcrypt} (md : mode) `{Authorizer} `{!AuthorizerOk md} `{!AuthorizerReads} `{Zip}.
Context (openReg : bool).

(** The credentials of a login request, and whose password they hold. *)
Definition knows (body : option Credentials) (x : User) : Prop :=
  exists c, body = Some c /\ User_Username x = cr_Username c /\
    CheckPassword (User_PasswordHash x) (cr_Password c) = true.

(** What a request that arrived with [authorization] when the state was [s0] may do
    now: what an anonymous caller may, or a user the header identified. *)
Definition request_allowed (pushes : list UploadContent) (proved : User -> Prop) (authorization : string) (s0 : State)
    X (e : eff X) (s : State) : Prop :=
  exists ctx : Ctx, (forall u, ctx = Some u -> identifies (since md) (tables s0) authorization u) /\
    allowed openReg ctx pushes proved (t_orgs (tables s0)) e s.

Lemma request_reads pushes proved authorization s0 X (e : eff X) s :
  eff_reads e = true -> request_allowed pushes proved authorization s0 X e s.
Proof using. intros He. exists None. split; [done|]. by apply (ok_reads openReg pushes proved (t_orgs (tables s0)) None). Qed.

Lemma request_runs {A} pushes proved authorization s0 ctx (p : prog A) s :
  (forall u, ctx = Some u -> identifies (since md) (tables s0) authorization u) ->
  authorized md openReg pushes proved (t_orgs (tables s0)) ctx p s ->
  aw md (request_allowed pushes proved authorization s0) p (fun _ _ => True) s.
Proof using. intros Hc Hp. eapply aw_weaken; [|exact Hp]. intros X e s1 He. by exists ctx. Qed.

Lemma connect_authorized pushes proved old R (h : Ctx -> H ConnectError R) ctx s :
  connect_call openReg pushes R h -> (forall o, o ∈ old -> o ∈ t_orgs (tables s)) ->
  authorized md openReg pushes proved old ctx (h ctx) s.
Proof using All.
  intros Hh Hold. destruct Hh; cbv beta;
    lazymatch goal with
    | |- authorized _ _ _ _ _ _ (CreateOrganizations _ _) _ => apply au_CreateOrganizations; exact Hold
    | |- authorized _ _ _ _ _ _ (CreateUsers _ _) _ => apply au_CreateUsers
    | |- authorized _ _ _ _ _ _ (CreateModules _ _) _ => apply au_CreateModules
    | |- authorized _ _ _ _ _ _ (Upload _ _) _ => apply au_Upload
    | |- authorized _ _ _ _ _ _ (Download _ _) _ => apply au_Download
    | |- authorized _ _ _ _ _ _ (CreateOrUpdateLabels _ _) _ => apply au_CreateOrUpdateLabels
    | |- authorized _ _ _ _ _ _ (GetFileDescriptorSet _ _) _ => apply au_GetFileDescriptorSet
    | _ => apply au_reads
    end.
  all: unfold AuthnService_GetCurrentUser, GetOwners, GetOwners_ref, GetOwners_try, GetOrganizations,
    GetOrganizations_ref, GetUsers, GetUsers_ref, GetCurrentUser, GetModules, GetModules_ref, ListModules,
    ListModules_owner, GetCommits, GetCommits_ref, ListCommits, GetLabels, GetLabels_ref, ListLabels, Unimplemented.
  all: reads_tac.
Qed.

Lemma rest_authorized body old (h : Ctx -> H Response Response) ctx s :
  rest_call openReg body h ->
  (forall o, o ∈ old -> o ∈ t_orgs (tables s)) -> authorized md openReg [] (knows body) old ctx (h ctx) s.
Proof using All.
  intros Hh Hold. destruct Hh; cbv beta;
    lazymatch goal with
    | |- authorized _ _ _ _ _ _ (login _) _ => apply au_login; intros c x -> ? ?; by exists c
    | |- authorized _ _ _ _ _ _ (createOrg _ _) _ => apply au_createOrg; exact Hold
    | |- authorized _ _ _ _ _ _ (register _ _) _ => apply au_register
    | |- authorized _ _ _ _ _ _ (createToken _ _) _ => apply au_createToken
    | |- authorized _ _ _ _ _ _ (revokeToken _ _) _ => apply au_revokeToken
    | |- authorized _ _ _ _ _ _ (addMember _ _ _) _ => apply au_addMember
    | |- authorized _ _ _ _ _ _ (removeMember _ _ _) _ => apply au_removeMember
    | |- authorized _ _ _ _ _ _ (createModule _ _) _ => apply au_createModule
    | |- authorized _ _ _ _ _ _ (listFiles _ _ _ _) _ => apply au_resolveCommitZip; reads_tac
    | |- authorized _ _ _ _ _ _ (getFileContent _ _ _ _ _) _ =>
        apply au_step; [apply reads_guard|]; intros _; apply au_resolveCommitZip; reads_tac
    | _ => apply au_reads
    end.
  all: unfold me, listTokens, getUser, getOrg, getModule, listModules, listCommits, getCommit, listLabels,
    checkModuleAccess, require_user.
  all: reads_tac.
Qed.

(** C2. Every operation a served request performs is allowed, in the state in which it
    is performed, to the user its bearer token identified when the request came
    in, or to anyone: modules are created, commits stored and labels moved only
    under the permission the policy grants there - moving a label by itself takes
    admin permission, a push takes write permission and moves only the labels it
    names, to the commit it pushed; blobs are fetched only of modules the caller
    may read; members are added by organization admins and founders; tokens are
    issued and revoked for their owner, and a login alone acts for a user by
    password.  This holds on any backend, whatever operations fail, for a request
    that runs by itself: between a check and its write other requests can take
    the permission away. *)
Theorem served_requests_are_authorized authorization s :
  (forall pushes R (h : Ctx -> H ConnectError R), connect_call openReg pushes R h ->
     aw md (request_allowed pushes (fun _ => False) authorization s)
       (connect_request authorization h) (fun _ _ => True) s) /\
  (forall body h, rest_call openReg body h ->
     aw md (request_allowed [] (knows body) authorization s)
       (Middleware authorization h background) (fun _ _ => True) s).
Proof using All.
  split.
  - intros pushes R h Hh.
    assert (forall ctx, (forall u, ctx = Some u -> identifies (since md) (tables s) authorization u) ->
      aw md (request_allowed pushes (fun _ => False) authorization s) (h ctx) (fun _ _ => True) s) as Hrun.
    { intros ctx Hc. apply (request_runs _ _ _ _ ctx); [done|]. by apply connect_authorized. }
    apply aw_middleware; [apply request_reads|..].
    + apply aw_interceptor; [apply request_reads|apply Hrun; intros ? [=]|]. intros u Hu. apply Hrun. by intros ? [= <-].
    + intros u Hu. apply aw_interceptor; [apply request_reads|apply Hrun; by intros ? [= <-]|].
      intros v Hv. apply Hrun. by intros ? [= <-].
  - intros body h Hh.
    assert (forall ctx, (forall u, ctx = Some u -> identifies (since md) (tables s) authorization u) ->
      aw md (request_allowed [] (knows body) authorization s) (h ctx) (fun _ _ => True) s) as Hrun.
    { intros ctx Hc. apply (request_runs _ _ _ _ ctx); [done|]. by apply rest_authorized. }
    apply aw_middleware; [apply request_reads|apply Hrun; intros ? [=]|]. intros u Hu. apply Hrun. by intros ? [= <-].
Qed.
End Served.
