(* ===== verification/Instances.v ===== *)
(** * Executable instances of the libraries

    A Casbin that evaluates the policy text, an archive format with its reader,
    and an S3 client over maps: each keeps the laws the development assumes of
    the real one, so the theorems that assume them apply to something that runs. *)
From S2P Require Import Prelude GoStd Model Iface Gorm Storage Authz UploadApi.
From Stdlib Require Import Ascii.

(** ** Casbin *)
#[export] Instance text_casbin : Casbin := {|
  Enforcer := string;
  NewEnforcer model csv := Some csv;
  Enforce csv role resource action := Some (lists_rule csv role resource action) |}.

#[export] Instance text_casbin_ok : CasbinOk.
Proof. split; [eexists; done|]. by intros csv e role resource action [= <-]. Qed.

(** The authorizer the server builds, over this Casbin. *)
#[export] Instance text_authorizer : Authorizer := authz_Authorizer policyCSV.

#[export] Instance text_authorizer_ok `{Bcrypt} md : AuthorizerOk md.
Proof. exact (authz_ok md policyCSV eq_refl). Qed.

(** ** An archive format: every byte preceded by a dot, every string ended by a semicolon *)
Fixpoint escape (s : string) : string :=
  match s with
  | "" => ";"
  | String c s => String "." (String c (escape s))
  end.

Fixpoint escape_all (l : list string) : string :=
  match l with [] => "" | w :: l => escape w +:+ escape_all l end.

Fixpoint unescape (word : string) (s : string) : option (list string) :=
  match s with
  | "" => if streq word "" then Some [] else None
  | String "." (String c s) => unescape (word +:+ String c "") s
  | String ";" s => ws ← unescape "" s; Some (word :: ws)
  | _ => None
  end.

Fixpoint pairs (l : list string) : option (list (string * string)) :=
  match l with
  | [] => Some []
  | a :: b :: l => ps ← pairs l; Some ((a, b) :: ps)
  | _ => None
  end.

Fixpoint unpairs (l : list (string * string)) : list string :=
  match l with [] => [] | (a, b) :: l => a :: b :: unpairs l end.

#[export] Instance text_zip : Zip := {|
  zip_encode fs := escape_all (unpairs fs);
  zip_open data := match unescape "" data with
                   | None => None
                   | Some ws => match pairs ws with
                                | None => None
                                | Some ps => Some (map zip_entry ps)
                                end
                   end |}.

Lemma unescape_escape word s rest : unescape word (escape s +:+ rest) =
  (ws ← unescape "" rest; Some ((word +:+ s) :: ws)).
Proof.
  revert word; induction s as [|c s IH]; intros word.
  - change (escape "" +:+ rest) with (String ";" rest). simpl. by rewrite string_app_nil_r.
  - change (escape (String c s) +:+ rest) with (String "." (String c (escape s +:+ rest))).
    change (unescape word (String "." (String c (escape s +:+ rest))))
      with (unescape (word +:+ String c "") (escape s +:+ rest)).
    rewrite IH. by rewrite string_app_assoc.
Qed.

Lemma unescape_all l : unescape "" (escape_all l) = Some l.
Proof.
  induction l as [|w l IH]; [done|]. change (escape_all (w :: l)) with (escape w +:+ escape_all l).
  rewrite unescape_escape, IH. done.
Qed.

Lemma pairs_unpairs l : pairs (unpairs l) = Some l.
Proof. induction l as [|[a b] l IH]; simpl; [done|]. by rewrite IH. Qed.

#[export] Instance text_zip_ok : ZipOk.
Proof. intros fs. simpl. rewrite unescape_all. simpl. by rewrite pairs_unpairs. Qed.

(** ** S3 over maps *)
#[export] Instance map_s3 : S3Client := {|
  bucket_state := gmap string (gmap string bytes);
  PutObject b k d w := (None, <[b := <[k := d]> (default ∅ (w !! b))]> w);
  GetObject b k w := (match default ∅ (w !! b) !! k with Some d => inr d | None => inl NoSuchKey end, w);
  objects w b := default ∅ (w !! b) |}.

#[export] Instance map_s3_ok live_ : S3ClientOk live_.
Proof.
  split; intros; simpl.
  - by rewrite lookup_insert_eq.
  - split; [done|]. by destruct (_ !! key) eqn:E.
Qed.
