(* ===== verification/Scenario.v ===== *)
(** * A running registry

    A small registry in the executable world - two users, an organization, three
    modules, a token - and the lemmas that turn an execution into steps of the
    request pool.  The witnesses evaluate the handlers on it. *)
From S2P Require Import Prelude GoStd Sha256 Model Iface Gorm Sql Prog World Storage Auth Authz ModuleApi UploadApi OwnerApi RestApi Server Instances.

(** ** Executions are interleavings *)

(** The first [n] operations of a program. *)
Fixpoint run_n {W} `{Env W} {A} (n : nat) (p : prog A) (w : W) : prog A * W :=
  match n, p with
  | S n, Vis e k => let '(x, w') := run_eff e w in run_n n (k x) w'
  | _, _ => (p, w)
  end.

Section Steps.
Context `{Bcrypt} (md : mode) `{Env W} `{!EnvOk md W} (Serves : prog () -> Prop).

Lemma run_n_steps n (ps1 ps2 : list (prog ())) p w :
  let '(p', w') := run_n n p w in
  rtc (pool_step md Serves) ((ps1 ++ p :: ps2)%list, view w) ((ps1 ++ p' :: ps2)%list, view w').
Proof.
  revert p w; induction n as [|n IH]; intros p w; [apply rtc_refl|].
  destruct p as [a|X e k]; [apply rtc_refl|]. simpl. pose proof (run_eff_ok X e w) as He.
  destruct (run_eff e w) as [x w']. specialize (IH (k x) w'). destruct (run_n n (k x) w') as [p' w''].
  eapply rtc_l; [by apply pool_op|exact IH].
Qed.

(** Two requests, the second started and finished between two operations of
    the first. *)
Lemma interleaved n m k p q w :
  Serves p -> Serves q ->
  let '(p1, w1) := run_n n p w in
  let '(q1, w2) := run_n m q w1 in
  let '(p2, w3) := run_n k p1 w2 in
  rtc (pool_step md Serves) ([], view w) ([q1; p2], view w3).
Proof.
  intros Hp Hq. pose proof (run_n_steps n [] [] p w) as Hs1. destruct (run_n n p w) as [p1 w1].
  pose proof (run_n_steps m [] [p1] q w1) as Hs2. destruct (run_n m q w1) as [q1 w2].
  pose proof (run_n_steps k [q1] [] p1 w2) as Hs3. destruct (run_n k p1 w2) as [p2 w3].
  eapply rtc_l; [exact (pool_spawn md Serves [] p _ Hp)|]. etrans; [exact Hs1|].
  eapply rtc_l; [exact (pool_spawn md Serves [p1] q _ Hq)|]. etrans; [exact Hs2|exact Hs3].
Qed.
End Steps.

(** ** The registry *)
Definition alice : User := mkUser "a1" "alice" "bcrypt:password" 5.
Definition bob : User := mkUser "b1" "bob" "bcrypt:hunter22" 5.
Definition acme : Org := mkOrg "0a" "acme" 6.
Definition demo : Mod := mkMod "da" "alice" OwnerTypeUser "demo" VisibilityPublic 7.
Definition secret : Mod := mkMod "db" "alice" OwnerTypeUser "secret" VisibilityPrivate 8.
Definition shared : Mod := mkMod "dc" "acme" OwnerTypeOrg "shared" VisibilityPrivate 9.

Definition registry_db : sql_mem := mkSqlMem
  [userFromModel alice; userFromModel bob]
  [orgFromModel acme]
  [mkOrgMemberRow "0a" "a1" "admin"; mkOrgMemberRow "0a" "b1" "member"]
  [moduleFromModel demo; moduleFromModel secret; moduleFromModel shared]
  [] []
  [mkTokenRow "f1" "a1" (HashToken "tok") "laptop" None 10].

Definition registry : world := mkWorld registry_db ∅ 0.
Definition registry_state : State := view registry.

Definition tok : string := "Bearer tok".
Definition hello : list File := [mkFile "acme/hello.proto" "syntax"; mkFile "README.md" "# hello"].

Definition push (owner repo_ : string) (files : list File) : UploadContent :=
  mkUploadContent (Some (ModuleRef_Name (mkRefName owner repo_))) files [].

Definition pull (owner repo_ : string) : option ResourceRef :=
  Some (ResourceRef_Name (mkResourceName owner repo_ Child_None)).

Lemma unique_on_Forall {R} (conflict : R -> R -> Prop) (l : list R) :
  Forall (fun a => Forall (fun b => conflict a b -> a = b) l) l -> unique_on conflict l.
Proof. intros Hl a b Ha Hb. rewrite Forall_forall in Hl. specialize (Hl a Ha). rewrite Forall_forall in Hl. auto. Qed.

Lemma registry_unique : unique_keys (tables registry_state).
Proof.
  split; apply unique_on_Forall; vm_compute; repeat constructor; intuition congruence.
Qed.
