(* ===== verification/Discipline.v ===== *)
(** * Invariants that interleaved requests keep

    The method behind Integrity and References.  A [discipline] is an invariant of
    the state, a preorder along which every request moves it, and for each operation
    what it [needs] of the state to respect both.  Most operations are [calm]: they
    need nothing.  A program of calm operations is safe as it stands; elsewhere
    [rg_op] asks for what the operation needs. *)
From S2P Require Import Prelude Model Iface Prog Auth Authz ModuleApi UploadApi OwnerApi RestApi Server.

Class Discipline := {
  invariant : State -> Prop;
  moves : State -> State -> Prop;
  moves_preorder :: PreOrder moves;
  needs : forall X, eff X -> State -> Prop;
  calm_eff : forall X, eff X -> bool;
  calm_needs X (e : eff X) s : calm_eff X e = true -> needs X e s;
  calm_reads X (e : eff X) : eff_reads e = true -> calm_eff X e = true }.

#[global] Arguments needs {_ _} _ _.
#[global] Arguments calm_eff {_ _} _.

(** On backends of this mode the operations keep the invariant. *)
Class Kept `{Bcrypt} (md : mode) `{Discipline} : Prop :=
  eff_keeps X (e : eff X) s x s' :
    invariant s -> needs e s -> eff_spec md e s x s' -> moves s s' /\ invariant s'.

(** ** Calm programs *)
Section Calm.
Context `{Discipline}.

Fixpoint calm {A} (p : prog A) : Prop :=
  match p with
  | Ret _ => True
  | Vis e k => calm_eff e = true /\ (forall x, calm (k x))
  end.

Lemma calm_pbind {A B} (p : prog A) (f : A -> prog B) : calm p -> (forall a, calm (f a)) -> calm (pbind p f).
Proof.
  intros Hp Hf. induction p as [a|X e k IH]; simpl in *; [done|]. destruct Hp as [? Hk]. split; [done|]. auto.
Qed.

Lemma calm_bind {E A B} (p : H E A) (f : A -> H E B) : calm p -> (forall a, calm (f a)) -> calm (p ≫= f).
Proof. intros Hp Hf. apply (calm_pbind p); [done|]. by intros [a|e|]; simpl. Qed.

Lemma calm_for_range {E V Acc} (vs : list V) (acc : Acc) (body : Acc -> V -> H E Acc) :
  (forall acc v, calm (body acc v)) -> calm (for_range vs acc body).
Proof.
  intros Hb. revert acc. induction vs as [|v vs IH]; intros acc; simpl; [done|].
  apply (calm_bind (body acc v)); auto.
Qed.

Lemma calm_read_only {A} (p : prog A) : read_only p -> calm p.
Proof.
  induction p as [a|X e k IH]; simpl; [done|]. intros [He Hk]. split; [by apply calm_reads|auto].
Qed.

Lemma calm_need {E A} (x : goret A) (f : ierr -> E) : calm (need x f).
Proof. unfold need. by destruct (err x), (val x). Qed.

Lemma calm_check {E A} (x : option A) (f : A -> E) : calm (check x f).
Proof. by destruct x. Qed.

Lemma calm_guard {E} b (e : E) : calm (guard_ b e).
Proof. by destruct b. Qed.

Lemma calm_lift {E A} (p : prog A) : calm p -> calm (lift p : H E A).
Proof. intros Hp. by apply calm_pbind. Qed.

End Calm.

Create HintDb calm.
#[export] Hint Resolve calm_need calm_check calm_guard calm_read_only calm_lift : calm.

(** Follow a program's text: binds, loops, branches, then a known calm piece. *)
Ltac calm_step :=
  first
    [ done
    | progress intros
    | apply calm_bind
    | apply calm_for_range
    | apply calm_read_only; solve [eauto with reads]
    | solve [auto with calm]
    | match goal with
      | |- calm (match ?x with _ => _ end) => destruct x
      | |- calm (if ?x then _ else _) => destruct x
      | |- calm (let '_ := ?x in _) => destruct x
      end
    | by split ].
Ltac calm_tac := repeat calm_step.

Lemma calm_token_expired `{Discipline} {E} (t : Token) : calm (token_expired t : H E bool).
Proof. apply calm_read_only. unfold token_expired. by destruct (Token_ExpiresAt t). Qed.
#[export] Hint Resolve calm_token_expired : calm.

(** ** Requests in the presence of others *)
Section Rely.
Context `{Bcrypt} {md : mode} `{!Discipline, !Kept md}.
Abbreviation rg := (rgwp md invariant moves).

Lemma rg_op {E X B} (e : eff X) (f : X -> H E B) Q s :
  (forall s1, moves s s1 -> invariant s1 -> needs e s1) ->
  (forall x s1 s2, moves s s1 -> invariant s1 -> eff_spec md e s1 x s2 -> moves s1 s2 ->
     rg (f x) Q s2) ->
  rg (perform e ≫= f) Q s.
Proof.
  intros Hn Hf. apply rgwp_bind. simpl. intros s1 Hs Hi x s2 He.
  destruct (eff_keeps _ _ _ _ _ Hi (Hn _ Hs Hi) He) as [Hg Hi2].
  split; [by split|]. eauto.
Qed.

(** A calm program, between other requests, only lets the state grow. *)
Lemma rg_calm {A} (p : prog A) Q s :
  calm p -> (forall a s', moves s s' -> Q a s') -> rg p Q s.
Proof.
  revert s; induction p as [a|X e k IH]; intros s; simpl.
  { intros _ HQ. by apply HQ. }
  intros [He Hk] HQ s1 Hs Hi x s2 Hx.
  destruct (eff_keeps _ _ _ _ _ Hi (calm_needs _ _ _ He) Hx) as [Hg Hi2]. split; [by split|].
  apply IH; [done|]. intros a s' Hs'. apply HQ. by repeat (etrans; [eassumption|]).
Qed.

Lemma rg_calm_bind {E A B} (p : H E A) (f : A -> H E B) Q s :
  calm p -> (forall a s', moves s s' -> rg (f a) Q s') ->
  (forall o s', (forall a, o <> Done a) -> moves s s' -> Q o s') -> rg (p ≫= f) Q s.
Proof.
  intros Hp Hf HQ. apply rgwp_bind. apply rg_calm; [done|]. intros [a|e|] s' Hs; simpl; [auto|by apply HQ..].
Qed.

(** A fact that no request undoes survives a calm program. *)
Lemma rg_pass {E A B} (J : State -> Prop) (p : H E A) (f : A -> H E B) s :
  (forall s s', moves s s' -> J s -> J s') -> J s -> calm p ->
  (forall a s', J s' -> rg (f a) (fun _ _ => True) s') -> rg (p ≫= f) (fun _ _ => True) s.
Proof. intros Hst HJ Hp Hf. apply rg_calm_bind; [done| |done]. eauto. Qed.

(** A lookup whose error returns early: what is found is stored. *)
Lemma rg_get {E R B} (J : State -> Prop) (o : repo_op (goret R)) (P : R -> Prop) (l : Tables -> list R)
    (h : ierr -> E) (f : R -> H E B) s :
  (forall s s', moves s s' -> J s -> J s') -> J s -> op_reads o = true ->
  (forall t x t', repo_spec md o t x t' -> t' = t /\ gets md P (l t) x) ->
  (forall r s', r ∈ l (tables s') -> P r -> J s' -> rg (f r) (fun _ _ => True) s') ->
  rg (x ← repo o; r ← need x h; f r) (fun _ _ => True) s.
Proof.
  intros Hst HJ Hr Ho Hf. apply rg_op; [intros; by apply calm_needs, calm_reads|].
  intros x s1 s2 Hs1 _ [Hs Hb] Hs2. apply Ho in Hs as [Et Hx]. rewrite <- Et in Hx.
  assert (J s2) as HJ2 by eauto. unfold need.
  destruct (gets_cases _ _ _ _ Hx) as [(r & -> & -> & Hin & HP)|(e & -> & _)].
  - apply rgwp_bind. cbn [rgwp rg_after]. by apply Hf.
  - done.
Qed.

(** Whatever a program does, it moves the state along. *)
Lemma rg_moves {A} (p : prog A) s : rg p (fun _ _ => True) s -> rg p (fun _ s' => moves s s') s.
Proof.
  revert s; induction p as [a|X e k IH]; intros s Hp; simpl in *; [reflexivity|].
  intros s1 Hs Hi x s2 He. destruct (Hp s1 Hs Hi x s2 He) as [[Hm Hi2] Hk]. split; [done|].
  eapply rgwp_mono; [by apply IH|]. intros a s' Hs'. simpl in Hs'. by repeat (etrans; [eassumption|]).
Qed.

Lemma rg_for_range {E V Acc} (J : State -> Prop) (vs : list V) (acc : Acc) (body : Acc -> V -> H E Acc) s :
  (forall s s', moves s s' -> J s -> J s') -> J s ->
  (forall acc v s, J s -> rg (body acc v) (fun _ _ => True) s) ->
  rg (for_range vs acc body) (fun _ _ => True) s.
Proof.
  intros Hst HJ Hb. eapply rgwp_mono; [apply (rgwp_for_range md invariant moves J); [done|]|done].
  intros v a s1 HJ1. eapply rgwp_mono; [by apply rg_moves, Hb|]. intros ? s' Hs'. by apply (Hst s1).
Qed.

(** ** The authenticators *)

(** The user was stored when it was read, and requests have run since. *)
Definition met (ctx : Ctx) (s : State) : Prop :=
  match ctx with
  | Some u => exists s0, u ∈ t_users (tables s0) /\ moves s0 s
  | None => True
  end.

Lemma met_moves ctx s s' : met ctx s -> moves s s' -> met ctx s'.
Proof. destruct ctx as [u|]; [|done]. intros (s0 & Hu & Hs) Hm. exists s0. split; [done|]. by etrans. Qed.

Lemma rg_token_user {E B} (t : Token) (f : goret User -> H E B) s :
  (forall r s', (forall u, err r = None -> val r = Some u -> met (Some u) s') -> moves s s' -> rg (f r) (fun _ _ => True) s') ->
  rg (r ← repo (Users_GetByID (Token_UserID t)); f r) (fun _ _ => True) s.
Proof.
  intros Hf. apply rg_op; [intros; by apply calm_needs, calm_reads|].
  intros r s1 s2 Hs1 _ [[Et Hr] _] Hm. apply Hf; [|by etrans].
  intros u Ee Ev. unfold gets in Hr. rewrite Ee in Hr. destruct Hr as (u' & Ev' & Hu & _).
  assert (u' = u) as -> by congruence. by exists s1.
Qed.

Lemma rg_middleware {E Resp} authorization (next : Ctx -> H E Resp) ctx s :
  (forall c s', met c s' -> rg (next c) (fun _ _ => True) s') -> met ctx s ->
  rg (Middleware authorization next ctx) (fun _ _ => True) s.
Proof.
  intros Hn Hctx. unfold Middleware. destruct (_ || _); [by apply Hn|].
  apply rg_calm_bind; [by split; [apply calm_reads|]| |done]. intros x s1 Hs1.
  pose proof (met_moves _ _ _ Hctx Hs1) as Hc1.
  destruct (err x); [by apply Hn|]. destruct (val x) as [t|]; [|done].
  apply rg_calm_bind; [apply calm_token_expired| |done]. intros expired s2 Hs2.
  pose proof (met_moves _ _ _ Hc1 Hs2) as Hc2. destruct expired; [by apply Hn|].
  apply rg_token_user. intros r s3 Hr Hs3. pose proof (met_moves _ _ _ Hc2 Hs3) as Hc3.
  destruct (err r); [by apply Hn|]. destruct (val r) as [u|]; [|done]. apply Hn. by apply Hr.
Qed.

Lemma rg_interceptor {Resp} authorization (next : Ctx -> H ConnectError Resp) ctx s :
  (forall c s', met c s' -> rg (next c) (fun _ _ => True) s') -> met ctx s ->
  rg (NewConnectInterceptor authorization next ctx) (fun _ _ => True) s.
Proof.
  intros Hn Hctx. unfold NewConnectInterceptor. destruct (_ || _); [by apply Hn|].
  apply rg_calm_bind; [by split; [apply calm_reads|]| |done]. intros x s1 Hs1.
  apply rg_calm_bind; [apply calm_need| |done]. intros t s2 Hs2.
  apply rg_calm_bind; [apply calm_token_expired| |done]. intros expired s3 Hs3. destruct expired; [done|].
  apply rg_token_user. intros r s4 Hr Hs4. unfold need.
  destruct (err r) eqn:Ee; [done|]. destruct (val r) as [u|] eqn:Ev; [|done].
  apply rgwp_bind. cbn [rgwp rg_after]. apply Hn. by apply Hr.
Qed.

Lemma rg_safe_calm {A} (p : prog A) s : calm p -> rg p (fun _ _ => True) s.
Proof. intros Hp. by apply rg_calm. Qed.

Lemma rg_discard {A} (p : prog A) s : rg p (fun _ _ => True) s -> rg (discard p) (fun _ _ => True) s.
Proof. intros Hp. apply rgwp_pbind. eapply rgwp_mono; [apply Hp|]. done. Qed.
End Rely.

