(* ===== verification/Integrity.v ===== *)
(** * Data integrity under concurrent requests

    What the stored rows and blobs promise each other, and the proof that no
    interleaving of the server's requests breaks it, whatever operations fail.
    The backend must be [strict] (the SQL one); the blob store's writes must be
    atomic. *)
From S2P Require Import Prelude GoStd Sha256 Model Iface Prog Auth Authz ModuleApi UploadApi OwnerApi RestApi Server Discipline.
From Stdlib Require Import Ascii.

(** Module identifiers are fit for a storage key; every label points at a commit
    of its module; every commit names the blob of its key, and that blob exists;
    and every blob under a module's prefix is the one its name digests. *)
Record integrity (s : State) : Prop := {
  in_modules m : m ∈ t_modules (tables s) -> is_id (Mod_ID m);
  in_labels l : l ∈ t_labels (tables s) -> has_commit (tables s) (Label_ModuleID l) (Label_CommitID l);
  in_commits c : c ∈ t_commits (tables s) ->
    is_id (Commit_ModuleID c) /\ Commit_StorageKey c = key_of (Commit_ModuleID c) (Commit_ID c) /\
    is_Some (blobs s !! Commit_StorageKey c);
  in_blobs a b data : is_id a -> blobs s !! key_of a b = Some data -> sha256_hex data = b }.

(** Commits and blobs are never taken away. *)
Definition grows (s s' : State) : Prop :=
  (forall a b, has_commit (tables s) a b -> has_commit (tables s') a b) /\
  (forall k, is_Some (blobs s !! k) -> is_Some (blobs s' !! k)).

#[export] Instance grows_preorder : PreOrder grows.
Proof. split; [by split|]. intros s1 s2 s3 [A1 B1] [A2 B2]. split; auto. Qed.

(** ** Keys *)
Lemma sha256_is_id d : is_id (sha256_hex d).
Proof.
  split.
  - intros E. pose proof (sha256_hex_length d) as Hl. by rewrite E in Hl.
  - eapply Forall_impl; [apply sha256_hex_digits|]. intros c Hc. unfold is_id_char. by rewrite Hc.
Qed.

Lemma key_of_valid a d : is_id a -> valid_key (key_of a (sha256_hex d)).
Proof. intros Ha. exists a, (sha256_hex d). split; [done|]. split; [apply sha256_is_id|done]. Qed.

(** ** What an operation needs to keep the promises *)
Definition integrity_needs {X} (e : eff X) (s : State) : Prop :=
  match e with
  | Repo (Labels_Upsert l) => has_commit (tables s) (Label_ModuleID l) (Label_CommitID l)
  | Repo (Commits_Create c) =>
      is_id (Commit_ModuleID c) /\ Commit_StorageKey c = key_of (Commit_ModuleID c) (Commit_ID c) /\
      is_Some (blobs s !! Commit_StorageKey c)
  | Repo (Modules_Create m) => is_id (Mod_ID m)
  | StorePut k d => exists a, is_id a /\ k = key_of a (sha256_hex d)
  | _ => True
  end.

Lemma needs_grows {X} (e : eff X) s s' : grows s s' -> integrity_needs e s -> integrity_needs e s'.
Proof.
  intros [Hc Hb] Hn. destruct e as [X o| | | | | |]; try done. destruct o; simpl in *; try done; auto.
  destruct Hn as (? & ? & ?). auto.
Qed.

(** Tables that differ only outside the modules, commits and labels. *)
Lemma integrity_same s s' :
  t_modules (tables s') = t_modules (tables s) -> t_commits (tables s') = t_commits (tables s) ->
  t_labels (tables s') = t_labels (tables s) -> blobs s' = blobs s ->
  integrity s -> integrity s' /\ grows s s'.
Proof.
  intros Em Ec El Eb [I1 I2 I3 I4]. unfold grows, has_commit in *. rewrite Ec, Eb. split; [|auto].
  split; unfold has_commit; rewrite ?Em, ?Ec, ?El, ?Eb; auto.
Qed.

Lemma integrity_modules s l' :
  (forall m, m ∈ l' -> exists m0, m0 ∈ t_modules (tables s) /\ Mod_ID m = Mod_ID m0) ->
  integrity s -> integrity (mkState (set_modules l' (tables s)) (blobs s)) /\
  grows s (mkState (set_modules l' (tables s)) (blobs s)).
Proof.
  intros Hm [I1 I2 I3 I4]. split; [|by split]. split; simpl; auto.
  intros m (m0 & Hin & ->)%Hm. auto.
Qed.

Lemma repo_keeps md X (o : repo_op X) s x t' :
  integrity s -> integrity_needs (Repo o) s -> repo_spec md o (tables s) x t' ->
  integrity (mkState t' (blobs s)) /\ grows s (mkState t' (blobs s)).
Proof.
  intros Hi Hn Hs.
  destruct o; simpl in Hs; destruct Hs as (l' & Hs);
    try (destruct Hs as (-> & Hs)); try (subst t'; by apply integrity_same);
    try (by apply integrity_same); try (destruct Hs as (? & -> & Hs); by apply integrity_same).
  - destruct x as [e|]; simpl in Hs; [destruct Hs as [-> _]; by apply integrity_same|].
    destruct Hs as [(m' & (t & vis & _ & _ & ->) & Hp) _].
    destruct Hi as [I1 I2 I3 I4]. split; [|by split]. split; simpl; auto.
    intros m0. rewrite Hp, elem_of_cons. intros [->|?]; [exact Hn|auto].
  - destruct x as [e|]; simpl in Hs; [destruct Hs as [-> _]; by apply integrity_same|].
    destruct Hs as (ms2 & Hp & Hf & _). apply integrity_modules; [|done].
    intros m. rewrite Hp. intros (i & Hi2)%list_elem_of_lookup.
    destruct (Forall2_lookup_r _ _ _ _ _ Hf Hi2) as (m0 & Hm0 & [->|[_ ->]]);
      exists m0; (split; [by eapply list_elem_of_lookup_2|done]).
  - destruct x as [e|]; simpl in Hs; [destruct Hs as [-> _]; by apply integrity_same|].
    destruct Hs as (gone & Hp & _). apply integrity_modules; [|done].
    intros m Hm. exists m. split; [|done]. rewrite Hp. set_solver.
  - destruct x as [e|]; simpl in Hs; [destruct Hs as [-> _]; by apply integrity_same|].
    destruct Hs as [(c' & (t & _ & ->) & Hp) _].
    destruct Hi as [I1 I2 I3 I4]. destruct Hn as (N1 & N2 & N3).
    assert (forall a b, has_commit (tables s) a b -> has_commit (set_commits l' (tables s)) a b) as Hmono.
    { intros a b (c0 & ? & ?). exists c0. simpl. split; [|done]. rewrite Hp. set_solver. }
    split; [|by split]. split; simpl; auto.
    intros c0. rewrite Hp, elem_of_cons. intros [->|?]; auto.
  - destruct x as [e|]; simpl in Hs; [destruct Hs as [-> _]; by apply integrity_same|].
    destruct Hs as (Hnew & _). destruct Hi as [I1 I2 I3 I4]. split; [|by split]. split; simpl; auto.
    intros l0 [?|[Ek Ec]]%Hnew; [by apply I2|].
    unfold Label_key in Ek. injection Ek as Ek _. rewrite Ek, Ec. exact Hn.
Qed.

Lemma integrity_eff `{Bcrypt} md X (e : eff X) s x s' :
  integrity s -> integrity_needs e s -> eff_spec md e s x s' -> grows s s' /\ integrity s'.
Proof.
  intros Hi Hn He. destruct e as [X o|k d|k| | |pw|fs ns]; simpl in He.
  - destruct He as [Hs Hb].
    assert (s' = mkState (tables s') (blobs s)) as -> by (by apply state_eq).
    by destruct (repo_keeps _ _ _ _ _ _ Hi Hn Hs).
  - destruct Hn as (a & Ha & ->). destruct He as [Et He]. specialize (He (key_of_valid a d Ha)).
    destruct x as [e|].
    { destruct He as [Eb _]. assert (s' = s) as -> by (by apply state_eq). done. }
    destruct Hi as [I1 I2 I3 I4].
    assert (forall k, is_Some (blobs s !! k) -> is_Some (blobs s' !! k)) as Hb.
    { intros k Hk. rewrite He. destruct (decide (key_of a (sha256_hex d) = k)) as [<-|Hne];
        [rewrite lookup_insert_eq; eauto|by rewrite lookup_insert_ne]. }
    split; [split; [by rewrite Et|done]|]. split; rewrite ?Et; auto.
    + intros c Hc. destruct (I3 c Hc) as (? & ? & ?). auto.
    + intros a' b data Ha' Hd. rewrite He in Hd. apply lookup_insert_Some in Hd as [[E <-]|[_ Hd]]; [|eauto].
      by apply key_of_inj in E as [_ ->].
  - by destruct He as [-> _].
  - by destruct He as [-> _].
  - by destruct He as [-> _].
  - by destruct He as [-> _].
  - by subst.
Qed.

(** ** The discipline

    Only labels, commits, modules and blobs need care. *)
Definition integrity_calm {X} (e : eff X) : bool :=
  match e with
  | Repo (Labels_Upsert _) | Repo (Commits_Create _) | Repo (Modules_Create _) | StorePut _ _ => false
  | _ => true
  end.

#[local, refine] Instance integrity_discipline : Discipline := {|
  invariant := integrity; moves := grows;
  needs X := integrity_needs; calm_eff X := integrity_calm |}.
Proof.
  - intros X e s He. destruct e as [X o| | | | | |]; try done. by destruct o.
  - intros X e He. destruct e as [X o| | | | | |]; try done. by destruct o.
Defined.

#[local] Instance integrity_kept `{Bcrypt} md : Kept md.
Proof. intros X e s x s'. apply integrity_eff. Qed.

(** ** Every served request *)
Section Requests.
Context `{Bcrypt} (md : mode) `{AuthorizerReads} `{Zip}.
Abbreviation rg := (rgwp md invariant moves).
Abbreviation safe p := (forall s, rg p (fun _ _ => True) s).

Lemma safe_calm {A} (p : prog A) : calm p -> safe p.
Proof using All. intros Hp s. by apply rg_safe_calm. Qed.

Lemma safe_for_range {E V Acc} (vs : list V) (acc : Acc) (body : Acc -> V -> H E Acc) :
  (forall acc v, safe (body acc v)) -> safe (for_range vs acc body).
Proof using All. intros Hb s. apply (rgwp_for_range md invariant moves (fun _ => True)); auto. Qed.

Lemma safe_create_module {E B} (mk : string -> Time -> Mod) (f : option ierr -> Mod -> H E B) :
  (forall id now, Mod_ID (mk id now) = id) -> (forall e m, calm (f e m)) ->
  safe (id ← perform NewUUID; now ← perform Now;
        e ← repo (Modules_Create (mk id now)); f e (mk id now) : H E B).
Proof using All.
  intros Hid Hf s. apply rg_op; [done|]. intros id s1 s2 _ _ (_ & Hw & _) _.
  apply rg_op; [done|]. intros now s3 s4 _ _ _ _.
  apply rg_op; [simpl; by rewrite Hid|]. intros e s5 s6 _ _ _ _. by apply safe_calm.
Qed.

Lemma safe_CreateModules ctx values : safe (CreateModules ctx values).
Proof using All.
  unfold CreateModules. destruct (UserFromContext ctx) as [caller|]; [|done].
  apply safe_for_range. intros mods v s. unfold CreateModules_value.
  apply rg_calm_bind; [apply calm_read_only, create_reads| |done]. intros ok s1 _.
  apply rg_calm_bind; [apply calm_guard| |done]. intros _ s2 _.
  apply rg_calm_bind; [apply calm_guard| |done]. intros _ s3 _.
  apply rg_calm_bind; [by split| |done]. intros r s4 _. destruct (err r); [|done].
  apply (safe_create_module (fun id now => mkMod id _ _ _ _ now)
    (fun e m => check e (fun _ => internal_error);; ownerID ← resolveOwnerIDHelper m;
       mret (mods ++ [moduleToProto m ownerID])%list)); [done|].
  intros e m. calm_tac.
Qed.

Lemma safe_createModule ctx body : safe (createModule ctx body).
Proof using All.
  intros s. unfold createModule.
  apply rg_calm_bind; [by unfold require_user; destruct (UserFromContext ctx)| |done]. intros caller s0 _.
  apply rg_calm_bind; [by destruct body| |done]. intros req s1 _.
  apply rg_calm_bind; [apply calm_guard| |done]. intros _ s2 _.
  apply rg_calm_bind; [apply calm_read_only, create_reads| |done]. intros ok s3 _.
  apply rg_calm_bind; [apply calm_guard| |done]. intros _ s4 _.
  apply rg_calm_bind; [by split| |done]. intros r s5 _. destruct (err r); [|done].
  apply (safe_create_module (fun id now => mkMod id _ _ _ _ now)
    (fun e m => check e (fun _ => rest_internal);; mret (writeJSON StatusCreated (JObj (moduleToJSON m)))));
    [done|]. intros e m. calm_tac.
Qed.

Lemma safe_CreateOrUpdateLabels ctx values :
  safe (CreateOrUpdateLabels ctx values).
Proof using All.
  unfold CreateOrUpdateLabels. destruct (UserFromContext ctx) as [caller|]; [|done].
  apply safe_for_range. intros labels v s. unfold CreateOrUpdateLabels_value.
  destruct (lv_LabelRef v) as [[id|n|]|]; try done.
  apply rg_calm_bind; [by split| |done]. intros r s1 _.
  apply rg_calm_bind; [apply calm_need| |done]. intros m s2 _.
  apply rg_calm_bind; [apply calm_read_only, admin_reads| |done]. intros ok s3 _.
  apply rg_calm_bind; [apply calm_guard| |done]. intros _ s4 _.
  apply rg_op; [done|]. intros rc s5 s6 _ _ [[Et Hrc] _] _. rewrite <- Et in Hrc.
  destruct (gets_cases _ _ _ _ Hrc) as [(c & -> & _ & Hin & Hat)|(e & -> & _)]; [|done].
  assert (has_commit (tables s6) (Mod_ID m) (lv_CommitId v)) as Hc by (by exists c).
  cbn [check]. apply rgwp_bind. cbn [rgwp rg_after].
  apply rg_op; [done|]. intros now s7 s8 [Hg _] _ [-> _] _.
  apply rg_op; [done|]. intros id s9 s10 [Hg2 _] _ (-> & _) _.
  apply rg_op; [intros s11 [Hg3 _] _; simpl; auto|]. intros e s12 s13 _ _ _ _.
  apply safe_calm. calm_tac.
Qed.

(** The labels of a push are written only after its commit is stored. *)
Lemma safe_upload_labels m c now refs s :
  has_commit (tables s) m c ->
  rg (for_range (upload_labels refs) () (fun _ labelName =>
        id ← perform NewUUID;
        let l := mkLabel id m labelName c now now in
        e ← repo (Labels_Upsert l);
        check e (fun _ => NewError CodeInternal "failed to upsert label"))) (fun _ _ => True) s.
Proof using All.
  intros Hc. eapply rgwp_mono; [apply (rgwp_for_range md invariant moves (fun s => has_commit (tables s) m c))|done];
    [done|]. clear s Hc. intros name _ s Hc.
  apply rg_op; [done|]. intros id s1 s2 [Hg _] _ (-> & _) _.
  apply rg_op; [intros s3 [Hg3 _] _; simpl; auto|]. intros e s3 s4 [Hg3 _] _ _ [Hg4 _].
  destruct e; simpl; auto.
Qed.

Context (Hstrict : strict md = true).

(** The commit row is written only after its blob, and found or written before
    anything points at it. *)
Lemma safe_commit_row {B} (cid mid uid key : string) (now : Time) (f : Time -> H ConnectError B) Q s :
  is_id mid -> key = key_of mid cid -> is_Some (blobs s !! key) ->
  (forall t s', has_commit (tables s') mid cid -> rg (f t) Q s') ->
  (forall o s', (forall a, o <> Done a) -> Q o s') ->
  rg (rc ← repo (Commits_GetByID mid cid);
      t ← (match val rc with
           | Some existing => mret (Commit_CreatedAt existing)
           | None =>
               let c := mkCommit cid mid key "" uid now in
               e ← repo (Commits_Create c);
               check e (fun _ => NewError CodeInternal "failed to create commit");;
               mret now
           end);
      f t) Q s.
Proof using All.
  intros Hid Hk Hb Hf HQ. apply rg_op; [done|]. intros rc s1 s2 [_ Hg1] _ [[Et Hrc] _] [_ Hg2].
  destruct (val rc) as [existing|] eqn:Ev.
  - apply rgwp_bind. cbn [rgwp rg_after]. apply Hf.
    unfold gets in Hrc. destruct (err rc) as [[|msg]|]; rewrite ?Et.
    + destruct Hrc; congruence.
    + destruct Hrc as [_ Hn]. specialize (Hn Hstrict). congruence.
    + destruct Hrc as (r & _ & Hr & Hat). by exists r.
  - apply rgwp_bind. apply rg_op.
    { intros s3 [_ Hg3] _. simpl. split_and!; auto. }
    intros e s3 s4 _ _ [(l' & Et4 & He) _] _. destruct e as [e|]; simpl.
    + by apply HQ.
    + destruct He as [(c' & (t' & _ & ->) & Hp) _].
      apply Hf. rewrite Et4. eexists. split; [simpl; rewrite Hp; by left|by split].
Qed.

Lemma safe_Upload ctx contents : safe (Upload ctx contents).
Proof using All.
  unfold Upload. destruct (UserFromContext ctx) as [caller|]; [|done].
  apply safe_for_range. intros commits content s. unfold Upload_content.
  destruct (uc_ModuleRef content) as [[id|n|]|]; try done.
  apply rg_op; [done|]. intros rm s1 s2 _ Hi [[_ Hrm] _] _.
  destruct (gets_cases _ _ _ _ Hrm) as [(m & Ee & Ev & Hm & _)|(e & Ee & _)]; unfold need; rewrite Ee; [|done].
  rewrite Ev. pose proof (in_modules _ Hi m Hm) as Hid. apply rgwp_bind. cbn [rgwp rg_after].
  apply rg_calm_bind; [apply calm_read_only, write_reads| |done]. intros ok s3 _.
  apply rg_calm_bind; [apply calm_guard| |done]. intros _ s4 _.
  apply rg_calm_bind; [apply calm_check| |done]. intros _ s5 _.
  destruct (zipFiles (uc_Files content)) as [zipData|]; [|done].
  apply rg_calm_bind; [apply calm_guard| |done]. intros _ s6 _. cbv zeta.
  apply rg_op; [intros s7 _ _; by exists (Mod_ID m)|]. intros e s7 s8 _ _ He _.
  destruct e as [e|]; [done|].
  assert (is_Some (blobs s8 !! key_of (Mod_ID m) (sha256_hex zipData))) as Hb.
  { destruct He as [_ He]. rewrite (He (key_of_valid _ _ Hid)). rewrite lookup_insert_eq. eauto. }
  apply rgwp_bind. cbn [check rgwp rg_after].
  apply rg_op; [done|]. intros now s9 s10 [_ Hg] _ [-> _] _.
  apply safe_commit_row; [done|done|by apply Hg| |done]. intros t s11 Hc.
  apply rgwp_bind. eapply rgwp_mono; [by apply safe_upload_labels|]. intros [[]|?|] s12 _; try done.
  apply safe_calm. calm_tac.
Qed.

Lemma safe_connect openReg R (h : Ctx -> H ConnectError R) :
  connect_handler openReg R h -> forall ctx, safe (h ctx).
Proof using All.
  intros Hh ctx. destruct Hh as [? Hh]; destruct Hh; try apply safe_CreateModules; try apply safe_Upload;
    try apply safe_CreateOrUpdateLabels; apply safe_calm.
  all: unfold AuthnService_GetCurrentUser, GetOwners, GetOwners_ref, GetOwners_try, GetOrganizations,
    GetOrganizations_ref, CreateOrganizations, CreateOrganizations_value, GetUsers, GetUsers_ref,
    GetCurrentUser, CreateUsers, CreateUsers_value, GetModules, GetModules_ref, ListModules,
    ListModules_owner, Download, Download_value, GetCommits, GetCommits_ref, ListCommits, GetLabels,
    GetLabels_ref, ListLabels, GetFileDescriptorSet, Unimplemented.
  all: calm_tac.
Qed.

Lemma safe_rest openReg (h : Ctx -> H Response Response) :
  rest_handler openReg h -> forall ctx, safe (h ctx).
Proof using All.
  intros Hh ctx. destruct Hh as [? Hh]; destruct Hh; try apply safe_createModule; apply safe_calm.
  all: unfold register, login, me, listTokens, createToken, revokeToken, getUser, getOrg, createOrg,
    addMember, removeMember, getModule, listModules, listCommits, getCommit, listLabels, listFiles,
    getFileContent, resolveCommitZip, checkModuleAccess, require_user, decode, HashPassword, call.
  all: calm_tac.
Qed.

Lemma served_safe openReg p : Serves openReg p -> safe p.
Proof using All.
  intros [R h authorization Hh|h authorization Hh|authorization] s; apply rg_discard.
  - apply rg_middleware; [|done]. intros c s1 Hc. apply rg_interceptor; [|done]. intros c' s2 _. by eapply safe_connect.
  - apply rg_middleware; [|done]. intros c s1 _. by eapply safe_rest.
  - by apply rg_middleware.
Qed.

(** C1. However the requests of any number of clients interleave, operation by
    operation, and whichever operations fail - over a SQL backend and a blob store
    whose writes are atomic - the stored data stays sound: a label never points at a missing commit, a commit always has its blob, a
    blob is always the one its name digests, and no commit or blob is lost. *)
Theorem interleaving_keeps_integrity openReg s ps s' :
  integrity s -> rtc (pool_step md (Serves openReg)) ([], s) (ps, s') -> integrity s' /\ grows s s'.
Proof using All.
  intros Hi Hsteps.
  destruct (pool_safe md integrity grows (Serves openReg) (fun p s Hp => served_safe openReg p Hp s)
    _ _ _ _ Hsteps Hi (Forall_nil_2 _)). by split.
Qed.
End Requests.
