(* ===== verification/References.v ===== *)
(** * Referential integrity under concurrent requests

    No table declares foreign keys; what holds the rows together is the order in
    which handlers read and write.  In every state that requests reach, on any
    backend and whatever fails, memberships are of stored organizations and users,
    tokens belong to stored users, commits and labels to stored modules. *)
From S2P Require Import Prelude GoStd Sha256 Model Iface Prog Auth Authz ModuleApi UploadApi OwnerApi RestApi Server Discipline.

Definition has_user (t : Tables) (id : string) : Prop := exists u, u ∈ t_users t /\ User_ID u = id.
Definition has_org (t : Tables) (id : string) : Prop := exists o, o ∈ t_orgs t /\ Org_ID o = id.
Definition has_module (t : Tables) (id : string) : Prop := exists m, m ∈ t_modules t /\ Mod_ID m = id.

Record references (t : Tables) : Prop := {
  rf_members m : m ∈ t_members t -> has_org t (OrgMember_OrgID m) /\ has_user t (OrgMember_UserID m);
  rf_tokens k : k ∈ t_tokens t -> has_user t (Token_UserID k);
  rf_commits c : c ∈ t_commits t -> has_module t (Commit_ModuleID c);
  rf_labels l : l ∈ t_labels t -> has_module t (Label_ModuleID l) }.

(** Users, organizations and modules stay. *)
Record stays (t t' : Tables) : Prop := {
  st_users id : has_user t id -> has_user t' id;
  st_orgs id : has_org t id -> has_org t' id;
  st_modules id : has_module t id -> has_module t' id }.

#[export] Instance stays_preorder : PreOrder stays.
Proof. split; [by split|]. intros t1 t2 t3 [A1 B1 C1] [A2 B2 C2]. split; auto. Qed.

Definition references_needs {X} (e : eff X) (t : Tables) : Prop :=
  match e with
  | Repo (Orgs_AddMember o u _) => has_org t o /\ has_user t u
  | Repo (Tokens_Create k) => has_user t (Token_UserID k)
  | Repo (Commits_Create c) => has_module t (Commit_ModuleID c)
  | Repo (Labels_Upsert l) => has_module t (Label_ModuleID l)
  | Repo (Modules_Delete _) => False
  | _ => True
  end.

(** ** Rows that come and go *)
Section Rows.
Context {R : Type} (md : mode).

Lemma created_rows (stored conflict : R -> R -> Prop) (P : R -> Prop) r l l' e :
  creates md stored conflict r l l' e -> (forall r', stored r r' -> P r') ->
  (forall x, x ∈ l -> P x) -> forall x, x ∈ l' -> P x.
Proof using.
  intros Hc Hr Hl x. destruct e; [destruct Hc as [-> _]; auto|].
  destruct Hc as [(r' & Hst & Hp) _]. rewrite Hp, elem_of_cons. intros [->|?]; auto.
Qed.

Lemma created_keeps (stored conflict : R -> R -> Prop) (P : R -> Prop) r l l' e :
  creates md stored conflict r l l' e -> (exists x, x ∈ l /\ P x) -> exists x, x ∈ l' /\ P x.
Proof using.
  intros Hc (x & Hx & HP). exists x. split; [|done]. destruct e; [by destruct Hc as [-> _]|].
  destruct Hc as [(r' & _ & Hp) _]. rewrite Hp. by right.
Qed.

Lemma deleted_rows all (P Q : R -> Prop) l l' e :
  deletes md all Q l l' e -> (forall x, x ∈ l -> P x) -> forall x, x ∈ l' -> P x.
Proof using.
  intros Hd Hl x Hx. destruct e; [destruct Hd as [-> _]; auto|]. destruct Hd as (gone & Hp & _).
  apply Hl. rewrite Hp. set_solver.
Qed.

Lemma revoked_rows (P Q : R -> Prop) l l' e :
  revokes md Q l l' e -> (forall x, x ∈ l -> P x) -> forall x, x ∈ l' -> P x.
Proof using.
  intros Hd Hl x Hx. apply Hl. destruct e as [[|]|]; [destruct Hd as [Hp _]; by rewrite <- Hp|by destruct Hd as [<- _]|].
  destruct Hd as (gone & _ & Hp & _). rewrite Hp. set_solver.
Qed.
End Rows.

Lemma visibility_keeps md id vis ms ms' e i :
  sets_visibility md id vis ms ms' e -> (exists m, m ∈ ms /\ Mod_ID m = i) -> exists m, m ∈ ms' /\ Mod_ID m = i.
Proof.
  intros Hs (m & Hm & Hi). destruct e as [e|]; [destruct Hs as [-> _]; eauto|].
  destruct Hs as (ms2 & Hp & Hf & _). apply list_elem_of_lookup in Hm as [k Hk].
  destruct (Forall2_lookup_l _ _ _ _ _ Hf Hk) as (m2 & Hk2 & Hm2). exists m2. rewrite Hp.
  split; [by eapply list_elem_of_lookup_2|]. destruct Hm2 as [->|[_ ->]]; done.
Qed.

(** ** Every operation that is given what it needs *)
Lemma references_move t t' : stays t t' ->
  t_members t' = t_members t -> t_tokens t' = t_tokens t -> t_commits t' = t_commits t -> t_labels t' = t_labels t ->
  references t -> stays t t' /\ references t'.
Proof.
  intros [S1 S2 S3] Em Ek Ec El [R1 R2 R3 R4]. split; [by split|].
  split; rewrite ?Em, ?Ek, ?Ec, ?El; auto. intros m Hm. destruct (R1 m Hm). auto.
Qed.

Lemma references_repo md X (o : repo_op X) t x t' :
  references t -> references_needs (Repo o) t -> repo_spec md o t x t' -> stays t t' /\ references t'.
Proof.
  intros Hr Hn Hs.
  destruct o; simpl in Hs; try (destruct Hs as [-> _]; by split); destruct Hs as (l' & Hs);
    [..|destruct Hs as (now & Hs)|]; destruct Hs as [-> Hs]; simpl in Hn; try done.
  all: try (by apply references_move;
    [split; simpl; try done; intros i; first [by eapply created_keeps|by eapply visibility_keeps]|..]).
  all: split; [by split|]; destruct Hr as [R1 R2 R3 R4]; split; simpl; try done.
  all: try (by eapply deleted_rows); try (by eapply revoked_rows).
  all: try (eapply created_rows; [exact Hs| |done]).
  - by intros ? ->.
  - by intros c' (? & _ & ->).
  - intros l0 Hl0. destruct x as [e|]; [destruct Hs as [-> _]; exact (R4 l0 Hl0)|].
    destruct Hs as (Hnew & _). apply Hnew in Hl0 as [?|[[= -> _] _]]; [by apply R4|done].
  - by intros k' (? & ? & _ & _ & _ & ->).
Qed.

#[local, refine] Instance references_discipline : Discipline := {|
  invariant s := references (tables s); moves s s' := stays (tables s) (tables s');
  needs X e s := references_needs e (tables s);
  calm_eff X e :=
    match e with
    | Repo (Orgs_AddMember _ _ _) | Repo (Tokens_Create _) | Repo (Commits_Create _) | Repo (Labels_Upsert _)
    | Repo (Modules_Delete _) => false
    | _ => true
    end |}.
Proof.
  - split; [by intros s|]. intros s1 s2 s3 H1 H2. by etrans.
  - intros X e s He. destruct e as [X o| | | | | |]; try done. by destruct o.
  - intros X e He. destruct e as [X o| | | | | |]; try done. by destruct o.
Defined.

#[local] Instance references_kept `{Bcrypt} md : Kept md.
Proof.
  intros X e s x s' Hi Hn He. cbn in *. destruct e as [X o|k d|k| | |pw|fs ns]; simpl in He.
  - destruct He as [He _]. by eapply references_repo.
  - destruct He as [-> _]. by split.
  - by destruct He as [-> _].
  - by destruct He as [-> _].
  - by destruct He as [-> _].
  - by destruct He as [-> _].
  - by subst.
Qed.

(** ** Every served request *)
Section Requests.
Context `{Bcrypt} (md : mode) `{AuthorizerReads} `{Zip}.
Abbreviation rg p := (rgwp md invariant moves p (fun _ _ => True)).

Lemma met_user u s : met (Some u) s -> has_user (tables s) (User_ID u).
Proof using. intros (s0 & Hu & Hs). apply (st_users _ _ Hs). by exists u. Qed.

Lemma user_stays id s s' : moves s s' -> has_user (tables s) id -> has_user (tables s') id.
Proof using. intros Hs. apply (st_users _ _ Hs). Qed.
Lemma org_stays id s s' : moves s s' -> has_org (tables s) id -> has_org (tables s') id.
Proof using. intros Hs. apply (st_orgs _ _ Hs). Qed.
Lemma module_stays id s s' : moves s s' -> has_module (tables s) id -> has_module (tables s') id.
Proof using. intros Hs. apply (st_modules _ _ Hs). Qed.

(** [keeping J] starts a proof that carries [J] along; [pass] lets one calm piece
    of the program run. *)
Ltac keeping J :=
  assert (forall s s', moves s s' -> J s -> J s')
    by (intros ? ? Hmv HJ; unfold J in *; destruct_and?; split_and?; eauto using user_stays, org_stays, module_stays);
  match goal with |- rgwp _ _ _ _ _ ?s => assert (J s) by done end.
Ltac pass := eapply rg_pass; [eassumption|eassumption|solve [calm_tac]|].

Lemma rf_new_token {E B} (k : Token) (f : option ierr -> H E B) s :
  has_user (tables s) (Token_UserID k) -> (forall e, calm (f e)) ->
  rg (e ← repo (Tokens_Create k); f e) s.
Proof using All.
  intros Hu Hf. apply rg_op; [intros s1 Hs _; by apply (st_users _ _ Hs)|].
  intros e s1 s2 _ _ _ _. by apply rg_safe_calm.
Qed.

Lemma rf_createToken ctx body s : met ctx s -> rg (createToken ctx body) s.
Proof using All.
  intros Hm. unfold createToken, require_user, decode. destruct ctx as [u|]; [|done]. apply met_user in Hm.
  apply rgwp_bind. cbn [UserFromContext rgwp rg_after mret].
  pose (J s := has_user (tables s) (User_ID u)). keeping J.
  pass. intros note s1 J1. pass. intros raw s2 J2. pass. intros id s3 J3. pass. intros now s4 J4.
  cbv zeta. apply rf_new_token; [done|]. intros e. calm_tac.
Qed.

Lemma rf_login body s : rg (login body) s.
Proof using All.
  unfold login, decode. apply rg_calm_bind; [calm_tac| |done]. intros req s1 _.
  apply (rg_get (fun _ => True) _ (fun u => User_Username u = cr_Username req) t_users); [done..|].
  intros u s2 Hu _ _. assert (has_user (tables s2) (User_ID u)) as Hhu by (by exists u).
  pose (J s := has_user (tables s) (User_ID u)). keeping J.
  pass. intros _ s3 J3. pass. intros _ s4 J4. pass. intros raw s5 J5. pass. intros now s6 J6. cbv zeta.
  pass. intros id s7 J7. pass. intros created s8 J8. apply rf_new_token; [done|]. intros e. calm_tac.
Qed.

Lemma rf_member {E B} o u r (f : option ierr -> H E B) s :
  has_org (tables s) o -> has_user (tables s) u -> (forall e, calm (f e)) ->
  rg (e ← repo (Orgs_AddMember o u r); f e) s.
Proof using All.
  intros Ho Hu Hf. apply rg_op; [intros s1 [S1 S2 _] _; split; auto|].
  intros e s1 s2 _ _ _ _. by apply rg_safe_calm.
Qed.

(** An organization is stored before its first member is. *)
Lemma rf_new_org {E B} o (f : option ierr -> H E B) uid s :
  has_user (tables s) uid ->
  (forall e s', (e = None -> has_org (tables s') (Org_ID o)) -> has_user (tables s') uid -> rg (f e) s') ->
  rg (e ← repo (Orgs_Create o); f e) s.
Proof using All.
  intros Hu Hf. apply rg_op; [done|]. intros e s1 s2 Hs1 _ [(l' & Et & Hc) _] Hs2. apply Hf.
  - intros ->. destruct Hc as [(o' & (t & _ & ->) & Hp) _]. rewrite Et. eexists. split; [simpl; rewrite Hp; by left|done].
  - apply (st_users _ _ Hs2), (st_users _ _ Hs1), Hu.
Qed.

Lemma rf_createOrg ctx body s : met ctx s -> rg (createOrg ctx body) s.
Proof using All.
  intros Hm. unfold createOrg, require_user, decode. destruct ctx as [u|]; [|done]. apply met_user in Hm.
  apply rgwp_bind. cbn [UserFromContext rgwp rg_after mret].
  pose (J s := has_user (tables s) (User_ID u)). keeping J.
  pass. intros name s1 J1. pass. intros _ s2 J2. pass. intros id s3 J3. pass. intros now s4 J4. cbv zeta.
  apply (rf_new_org _ _ (User_ID u)); [done|]. intros e s5 He J5. destruct e as [e|].
  - apply rg_safe_calm. calm_tac.
  - apply rf_member; [by apply He|done|]. intros e. calm_tac.
Qed.

Lemma rf_CreateOrganizations ctx names s : met ctx s -> rg (CreateOrganizations ctx names) s.
Proof using All.
  intros Hm. unfold CreateOrganizations. destruct ctx as [u|]; [|done]. apply met_user in Hm. cbn [UserFromContext].
  pose (J s := has_user (tables s) (User_ID u)). keeping J. eapply rg_for_range; [eassumption|eassumption|].
  clear dependent s. intros orgs name s HJ. unfold CreateOrganizations_value.
  pass. intros _ s1 J1. pass. intros r s2 J2. destruct (err r); [|done].
  pass. intros id s3 J3. pass. intros now s4 J4. cbv zeta.
  apply (rf_new_org _ _ (User_ID u)); [done|]. intros e s5 He J5. destruct e as [e|]; [done|].
  cbn [check]. apply rgwp_bind. cbn [rgwp rg_after]. apply rf_member; [by apply He|done|]. intros e. calm_tac.
Qed.

Lemma rf_addMember ctx name body s : rg (addMember ctx name body) s.
Proof using All.
  unfold addMember, require_user, decode. apply rg_calm_bind; [calm_tac| |done]. intros caller s1 _.
  apply (rg_get (fun _ => True) _ (fun o => Org_Name o = name) t_orgs); [done..|].
  intros o s2 Ho _ _. assert (has_org (tables s2) (Org_ID o)) as Hho by (by exists o).
  pose (J s := has_org (tables s) (Org_ID o)). keeping J.
  pass. intros ok s3 J3. pass. intros _ s4 J4. pass. intros req s5 J5.
  apply (rg_get J _ (fun u => User_Username u = mr_Username req) t_users); [done..|].
  intros u s6 Hu _ J6. apply rf_member; [done|by exists u|]. intros e. calm_tac.
Qed.

Lemma rf_label {E B} (l : Label) (f : option ierr -> H E B) s :
  has_module (tables s) (Label_ModuleID l) ->
  (forall e s', has_module (tables s') (Label_ModuleID l) -> rg (f e) s') ->
  rg (e ← repo (Labels_Upsert l); f e) s.
Proof using All.
  intros Hl Hf. apply rg_op; [intros s1 Hs _; by apply (st_modules _ _ Hs)|].
  intros e s1 s2 Hs1 _ _ Hs2. apply Hf. apply (st_modules _ _ Hs2), (st_modules _ _ Hs1), Hl.
Qed.

Lemma rf_CreateOrUpdateLabels ctx values s : rg (CreateOrUpdateLabels ctx values) s.
Proof using All.
  unfold CreateOrUpdateLabels. destruct (UserFromContext ctx) as [caller|]; [|done].
  apply (rg_for_range (fun _ => True)); [done..|]. clear s. intros labels v s _. unfold CreateOrUpdateLabels_value.
  destruct (lv_LabelRef v) as [[id|n|]|]; try done.
  apply (rg_get (fun _ => True) _ (owned_as (ln_Owner n) (ln_Module n)) t_modules); [done..|].
  intros m s1 Hm _ _. assert (has_module (tables s1) (Mod_ID m)) as Hhm by (by exists m).
  pose (J s := has_module (tables s) (Mod_ID m)). keeping J.
  pass. intros ok s2 J2. pass. intros _ s3 J3. pass. intros rc s4 J4. pass. intros _ s5 J5.
  pass. intros now s6 J6. pass. intros id s7 J7. cbv zeta. apply rf_label; [done|].
  intros e s8 _. apply rg_safe_calm. calm_tac.
Qed.

Lemma rf_Upload ctx contents s : rg (Upload ctx contents) s.
Proof using All.
  unfold Upload. destruct (UserFromContext ctx) as [caller|]; [|done].
  apply (rg_for_range (fun _ => True)); [done..|]. clear s. intros commits content s _. unfold Upload_content.
  destruct (uc_ModuleRef content) as [[id|n|]|]; try done.
  apply (rg_get (fun _ => True) _ (owned_as (rn_Owner n) (rn_Module n)) t_modules); [done..|].
  intros m s1 Hm _ _. assert (has_module (tables s1) (Mod_ID m)) as Hhm by (by exists m).
  pose (J s := has_module (tables s) (Mod_ID m)). keeping J.
  pass. intros ok s2 J2. pass. intros _ s3 J3. pass. intros _ s4 J4.
  destruct (zipFiles (uc_Files content)) as [zipData|]; [|done].
  pass. intros _ s5 J5. cbv zeta. pass. intros e s6 J6. pass. intros _ s7 J7. pass. intros now s8 J8.
  pass. intros rc s9 J9.
  apply rgwp_bind. apply (rgwp_mono md invariant moves _ (fun _ s' => J s')).
  - destruct (val rc) as [existing|]; [done|].
    apply rg_op; [intros s10 Hs _; by apply (st_modules _ _ Hs)|]. intros e10 s10 s11 Hs1 _ _ Hs2.
    assert (J s11) by (apply (st_modules _ _ Hs2), (st_modules _ _ Hs1), J9). by destruct e10.
  - intros [at_| |] s10 J10; [|done..]. cbn [rg_after]. apply rgwp_bind.
    eapply rgwp_mono; [apply (rg_for_range J); [done|done|]|].
    + intros _ l s11 J11. pass. intros id s12 J12. cbv zeta. apply rf_label; [done|].
      intros e13 s13 _. apply rg_safe_calm. calm_tac.
    + intros [[]| |] s11 _; [|done..]. cbn [rg_after]. apply rg_safe_calm. calm_tac.
Qed.

(** ** All of them *)
Lemma rf_connect openReg R (h : Ctx -> H ConnectError R) :
  connect_handler openReg R h -> forall ctx s, met ctx s -> rg (h ctx) s.
Proof using All.
  intros Hh ctx s Hm. destruct Hh as [? Hh]; destruct Hh; cbv beta;
    lazymatch goal with
    | |- context [Upload _ _] => apply rf_Upload
    | |- context [CreateOrUpdateLabels _ _] => apply rf_CreateOrUpdateLabels
    | |- context [CreateOrganizations _ _] => by apply rf_CreateOrganizations
    | _ => apply rg_safe_calm
    end.
  all: unfold AuthnService_GetCurrentUser, GetOwners, GetOwners_ref, GetOwners_try, GetOrganizations,
    GetOrganizations_ref, GetUsers, GetUsers_ref,
    GetCurrentUser, CreateUsers, CreateUsers_value, GetModules, GetModules_ref, ListModules,
    ListModules_owner, CreateModules, CreateModules_value, Download, Download_value, GetCommits, GetCommits_ref,
    ListCommits, GetLabels, GetLabels_ref, ListLabels, GetFileDescriptorSet, Unimplemented.
  all: calm_tac.
Qed.

Lemma rf_rest openReg (h : Ctx -> H Response Response) :
  rest_handler openReg h -> forall ctx s, met ctx s -> rg (h ctx) s.
Proof using All.
  intros Hh ctx s Hm. destruct Hh as [? Hh]; destruct Hh; cbv beta;
    lazymatch goal with
    | |- context [login _] => apply rf_login
    | |- context [createToken _ _] => by apply rf_createToken
    | |- context [createOrg _ _] => by apply rf_createOrg
    | |- context [addMember _ _ _] => apply rf_addMember
    | _ => apply rg_safe_calm
    end.
  all: unfold register, me, listTokens, revokeToken, getUser, getOrg,
    removeMember, getModule, listModules, createModule, listCommits, getCommit, listLabels, listFiles,
    getFileContent, resolveCommitZip, checkModuleAccess, require_user, decode, HashPassword, call.
  all: calm_tac.
Qed.

Lemma rf_served openReg p s : Serves openReg p -> rg p s.
Proof using All.
  intros [R h authorization Hh|h authorization Hh|authorization]; apply rg_discard.
  - apply rg_middleware; [|done]. intros c s1 Hc. apply rg_interceptor; [|done]. by eapply rf_connect.
  - apply rg_middleware; [|done]. by eapply rf_rest.
  - by apply rg_middleware.
Qed.

(** C3. Whatever requests interleave and whatever operations fail, on any backend:
    every membership is of a stored organization and a stored user, every token
    belongs to a stored user, and every commit and label to a stored module; and
    users, organizations and modules, once stored, stay. *)
Theorem interleaving_keeps_references openReg s ps s' :
  references (tables s) -> rtc (pool_step md (Serves openReg)) ([], s) (ps, s') ->
  references (tables s') /\ stays (tables s) (tables s').
Proof using All.
  intros Hi Hsteps.
  destruct (pool_safe md invariant moves (Serves openReg) (fun p s Hp => rf_served openReg p s Hp)
    _ _ _ _ Hsteps Hi (Forall_nil_2 _)). by split.
Qed.
End Requests.
