(* ===== verification/Keys.v ===== *)
(** * Unique keys under concurrent requests

    The unique keys the SQL schema declares hold in every state the server
    reaches, however its requests interleave and whatever fails: what the
    functional theorems assume of the tables is an invariant. *)
From S2P Require Import Prelude Model Iface Prog Auth Authz.

(** No two rows share a unique key. *)
Record keys_unique (t : Tables) : Prop := {
  ku_owners : unique_keys t;
  ku_modules : unique_on Mod_conflict (t_modules t);
  ku_commits : unique_on Commit_conflict (t_commits t);
  ku_labels : unique_on (fun a b => Label_key a = Label_key b) (t_labels t);
  ku_tokens : unique_on Token_conflict (t_tokens t) }.

Lemma keys_unique_empty : keys_unique empty_tables.
Proof. repeat split; intros a b Ha; by apply elem_of_nil in Ha. Qed.

Section Tables.
Context {R : Type} (conflict : R -> R -> Prop).

Lemma unique_sub (l l' : list R) : unique_on conflict l -> l' ⊆ l -> unique_on conflict l'.
Proof using. intros Hu Hl a b Ha Hb. apply Hu; auto. Qed.

Lemma unique_creates md (stored : R -> R -> Prop) r l l' e :
  strict md = true -> Symmetric conflict ->
  (forall r r' r0, stored r r' -> conflict r' r0 -> conflict r r0) ->
  creates md stored conflict r l l' e -> unique_on conflict l -> unique_on conflict l'.
Proof using.
  intros Hs Hsym Hst Hc Hu. destruct e as [e|]; [by destruct Hc as [-> _]|].
  destruct Hc as [(r' & Hr & Hp) Hno]. specialize (Hno Hs).
  intros a b. rewrite Hp, !elem_of_cons. intros [->|Ha] [->|Hb] Hab; [done| | |by apply Hu].
  - destruct (Hno b Hb). by eapply Hst.
  - destruct (Hno a Ha). eapply Hst; [done|]. by symmetry.
Qed.

Lemma unique_deletes md all (P : R -> Prop) l l' e :
  deletes md all P l l' e -> unique_on conflict l -> unique_on conflict l'.
Proof using.
  intros Hd. destruct e; [by destruct Hd as [-> _]|]. destruct Hd as (gone & Hp & _).
  intros Hu. eapply unique_sub; [exact Hu|]. intros x Hx. rewrite Hp. set_solver.
Qed.

Lemma unique_revokes md (P : R -> Prop) l l' e :
  revokes md P l l' e -> unique_on conflict l -> unique_on conflict l'.
Proof using.
  intros Hd Hu. eapply unique_sub; [exact Hu|]. intros x Hx.
  destruct e as [[|]|]; [destruct Hd as [Hp _]; by rewrite <- Hp|by destruct Hd as [<- _]|].
  destruct Hd as (gone & _ & Hp & _). rewrite Hp. set_solver.
Qed.

(** An update of rows in place that leaves their keys. *)
Lemma unique_update (f : R -> R) l l' :
  (forall a b, conflict (f a) (f b) -> conflict a b) -> l' ≡ₚ f <$> l ->
  unique_on conflict l -> unique_on conflict l'.
Proof using.
  intros Hf Hp Hu a b. rewrite Hp. intros (a0 & -> & Ha)%list_elem_of_fmap (b0 & -> & Hb)%list_elem_of_fmap Hab.
  f_equal. by apply Hu; [..|apply Hf].
Qed.
End Tables.

(** A conflict is symmetric, and looks at fields that are stored as they are given. *)
Ltac conflicts :=
  first [ intros ? ?; unfold User_conflict, Org_conflict, OrgMember_conflict, Mod_conflict, Commit_conflict, Token_conflict;
          clear; naive_solver
        | intros ? ? ?;
          first [intros (? & ? & ? & ? & ? & ->)|intros (? & ? & ? & ? & ->)|intros (? & ? & ->)|intros ->]; exact (fun Hc => Hc)].

Section Operations.
Context (md : mode) (Hstrict : strict md = true).

Lemma unique_upserts l ls ls' e :
  upserts md l ls ls' e -> unique_on (fun a b => Label_key a = Label_key b) ls ->
  unique_on (fun a b => Label_key a = Label_key b) ls'.
Proof using Hstrict.
  intros Hu Hl. destruct e as [e|]; [by destruct Hu as [-> _]|].
  destruct Hu as (_ & _ & _ & Hs). destruct (Hs Hstrict) as (l1 & (t & u & _ & _ & ->) & Hp). clear Hs.
  case_decide as Hd.
  - eapply unique_update; [|exact Hp|exact Hl]. intros a b. cbv beta.
    destruct (decide (Label_key a = _)), (decide (Label_key b = _)); exact (fun Hc => Hc).
  - intros a b. rewrite Hp, !elem_of_cons. intros [->|Ha] [->|Hb] Hab; [done| | |by apply Hl];
      destruct Hd; apply Exists_exists; eauto.
Qed.

Lemma unique_visibility id vis ms ms' e :
  sets_visibility md id vis ms ms' e -> unique_on Mod_conflict ms -> unique_on Mod_conflict ms'.
Proof using Hstrict.
  intros Hs Hu. destruct e as [e|]; [by destruct Hs as [-> _]|].
  destruct Hs as (ms2 & Hp & _ & Hs). rewrite (Hs Hstrict) in Hp.
  eapply unique_update; [|exact Hp|exact Hu]. intros a b. cbv beta.
  destruct (decide (Mod_ID a = _)), (decide (Mod_ID b = _)); exact (fun Hc => Hc).
Qed.

(** Every operation keeps the keys. *)
Lemma repo_keys X (o : repo_op X) t x t' : repo_spec md o t x t' -> keys_unique t -> keys_unique t'.
Proof using Hstrict.
  intros Hs [[U1 U2 U3] U4 U5 U6 U7]. destruct o; simpl in Hs; try (destruct Hs as [-> _]; by split);
    destruct Hs as (l' & Hs); [..|destruct Hs as (now & Hs)|]; destruct Hs as [-> Hs]; split; try split; simpl; try done.
  all: try (by eapply unique_deletes); try (by eapply unique_revokes); try (by eapply unique_upserts);
    try (by eapply unique_visibility).
  all: eapply unique_creates; [exact Hstrict| | |exact Hs|done]; conflicts.
Qed.

Lemma eff_keys `{Bcrypt} X (e : eff X) s x s' :
  eff_spec md e s x s' -> keys_unique (tables s) -> keys_unique (tables s').
Proof using Hstrict.
  destruct e as [X o|k d|k| | |pw|fs ns]; simpl; intros Hs Hu.
  - destruct Hs as [Hs _]. by eapply repo_keys.
  - by destruct Hs as [-> _].
  - by destruct Hs as [-> _].
  - by destruct Hs as [-> _].
  - by destruct Hs as [-> _].
  - by destruct Hs as [-> _].
  - by subst.
Qed.

(** On a strict backend the unique keys of every table hold in every state that
    requests reach, whatever programs they run, however they interleave and
    whatever fails; two requests that race for a name cannot both get it. *)
Theorem interleaving_keeps_keys `{Bcrypt} (served : prog () -> Prop) ps s ps' s' :
  keys_unique (tables s) -> rtc (pool_step md served) (ps, s) (ps', s') -> keys_unique (tables s').
Proof using Hstrict.
  intros Hu Hsteps. remember (ps, s) as c eqn:E. remember (ps', s') as c' eqn:E'.
  revert ps s E Hu. induction Hsteps as [c|c c1 c2 Hstep _ IH]; intros ps s -> Hu.
  - by injection E' as _ <-.
  - destruct c1 as [ps1 s1]. eapply (IH E'); [done|].
    remember (ps, s) as c eqn:E. remember (ps1, s1) as c1 eqn:E1. destruct Hstep as [? ? X e k x ? ? He|]; simplify_eq; [|done].
    by eapply eff_keys.
Qed.
End Operations.
