(* ===== verification/Owners.v ===== *)
(** * What the REST writes do, branch by branch

    Creating modules and organizations, adding and removing members, and the
    admin account made at start-up, on a strict backend that does not fail: each
    refusal with its status and an untouched state, and exactly what a success
    stores. *)
From S2P Require Import Prelude GoStd Regex Model Iface Prog Auth Authz ModuleApi UploadApi OwnerApi RestApi Server.

Section Owners.
Context `{Bcrypt} (md : mode) (Hstrict : strict md = true) (Hlive : live md = true).
Implicit Types (s : State) (Q : outcome Response Response -> State -> Prop).

Lemma username_check n : MatchString usernameRe n = true <-> is_name 3 39 n.
Proof using. apply name_pattern_spec. lia. Qed.

Lemma username_refused n : MatchString usernameRe n = false <-> ~ is_name 3 39 n.
Proof using. by rewrite <- username_check, not_true_iff_false. Qed.

(** ** Modules *)
Section Modules.
Context `{Authorizer} `{!AuthorizerOk md}.

Definition created_module (caller : User) (req : CreateModuleRequest) (m : Mod) : Prop :=
  owned_as (cq_Owner req) (cq_Name req) m /\
  Mod_OwnerType m = (if streq (cq_Owner req) (User_Username caller) then OwnerTypeUser else OwnerTypeOrg) /\
  Mod_Visibility m = (if streq (cq_Visibility req) "public" then VisibilityPublic else VisibilityPrivate).

(** The answers of [createModule] and the state each leaves. *)
Inductive createModule_spec (caller : User) (req : CreateModuleRequest) s : outcome Response Response -> State -> Prop :=
| cm_bad_name :
    ~ is_name 3 39 (cq_Name req) ->
    createModule_spec caller req s (Fail (writeErr StatusBadRequest
      "module name must be 2-39 chars, lowercase alphanumeric and hyphens")) s
| cm_forbidden :
    is_name 3 39 (cq_Name req) -> ~ may_create (tables s) (User_ID caller) (cq_Owner req) ->
    createModule_spec caller req s (Fail (writeErr StatusForbidden "no permission to create modules under this owner")) s
| cm_conflict m :
    is_name 3 39 (cq_Name req) -> may_create (tables s) (User_ID caller) (cq_Owner req) ->
    m ∈ t_modules (tables s) -> owned_as (cq_Owner req) (cq_Name req) m ->
    createModule_spec caller req s (Fail (writeErr StatusConflict "module already exists")) s
| cm_created m0 m s' :
    is_name 3 39 (cq_Name req) -> may_create (tables s) (User_ID caller) (cq_Owner req) ->
    (forall m, m ∈ t_modules (tables s) -> ~ owned_as (cq_Owner req) (cq_Name req) m) ->
    created_module caller req m0 -> stored_Mod md m0 m ->
    t_modules (tables s') ≡ₚ m :: t_modules (tables s) ->
    tables s' = set_modules (t_modules (tables s')) (tables s) -> blobs s' = blobs s ->
    createModule_spec caller req s (Done (writeJSON StatusCreated (JObj (moduleToJSON m0)))) s'.

(** C25. Creating a module, on a SQL backend that does not fail: 400 for a name that is
    not 3 to 39 lowercase letters, digits and inner hyphens; 403 for a caller who neither is the owner nor an
    admin of the owning organization; 409 when the name is taken; and 201
    otherwise, with one new module, private unless [public] was asked for.  A
    refusal changes nothing. *)
Theorem createModule_functional caller req s :
  unique_keys (tables s) ->
  awp md (createModule (Some caller) (Some req)) (createModule_spec caller req s) s.
Proof using All.
  intros Huk. unfold createModule, require_user, decode.
  apply awp_bind. cbn [UserFromContext awp after mret]. apply awp_bind. cbn [awp after mret].
  apply awp_guard; [intros Hn%username_check|intros Hn%username_refused; by constructor].
  apply awp_bind. eapply awp_mono; [apply create_ok|]. intros o s1 [-> (ok & -> & Hyes & Hno)]. cbn [after].
  specialize (Hno Hlive Huk). apply awp_guard; [intros ->; specialize (Hyes eq_refl)|intros ->].
  2:{ apply cm_forbidden; [done|]. intros Hc. by specialize (Hno Hc). }
  cbv zeta. wp_read x Hx. destruct (gets_cases _ _ _ _ Hx) as [(m & -> & _ & Hm & Ho)|(e & -> & Hnone)].
  { by apply (cm_conflict _ _ _ m). }
  destruct (Hnone Hlive) as [-> Hnone']. clear Hnone.
  apply awp_perform. intros id s2 (-> & _ & Hid & _). apply awp_perform. intros now s3 [-> _].
  apply awp_write. intros e t' (l' & -> & Hcr). destruct e as [e|].
  { exfalso. destruct Hcr as [_ Hc]. destruct (Hc Hlive) as (_ & m & Hm & [Ei|[E1 E2]]).
    - destruct Hid as (_ & _ & Hid & _). by destruct (Hid m Hm).
    - apply (Hnone' m Hm). by split. }
  apply awp_check; [intros _|done]. destruct Hcr as [(m & Hst & Hp) _]. apply (awp_ret md).
  by eapply (cm_created _ _ _ _ m).
Qed.
End Modules.

(** ** Organizations *)

(** Every membership is of a stored organization. *)
Definition members_placed (t : Tables) : Prop :=
  forall m, m ∈ t_members t -> exists o, o ∈ t_orgs t /\ Org_ID o = OrgMember_OrgID m.

Inductive createOrg_spec (u : User) (name : string) s : outcome Response Response -> State -> Prop :=
| co_bad_name :
    ~ is_name 3 39 name ->
    createOrg_spec u name s (Fail (writeErr StatusBadRequest
      "org name must be 3-39 chars, lowercase alphanumeric and hyphens")) s
| co_conflict o :
    is_name 3 39 name -> o ∈ t_orgs (tables s) -> Org_Name o = name ->
    createOrg_spec u name s (Fail (writeErr StatusConflict "organization already exists")) s
| co_created o s' :
    is_name 3 39 name -> (forall o, o ∈ t_orgs (tables s) -> Org_Name o <> name) -> Org_Name o = name ->
    t_orgs (tables s') ≡ₚ o :: t_orgs (tables s) ->
    t_members (tables s') ≡ₚ mkOrgMember (Org_ID o) (User_ID u) OrgRoleAdmin :: t_members (tables s) ->
    (User_ID u <> "" -> may_manage (tables s') (User_ID u) (Org_ID o)) ->
    createOrg_spec u name s (Done (writeJSON StatusCreated (org_json o))) s'.

(** C26. On a SQL backend that does not fail (MongoDB would store a taken name again),
    creating an organization: 400 for a malformed name, 409 when the name is taken, and 201 otherwise, with the organization stored and its creator, and
    nobody else, added to it, as an admin who may manage its members. *)
Theorem createOrg_functional u name s :
  members_placed (tables s) -> awp md (createOrg (Some u) (Some name)) (createOrg_spec u name s) s.
Proof using Hstrict Hlive.
  intros Hpl. unfold createOrg, require_user, decode.
  apply awp_bind. cbn [UserFromContext awp after mret]. apply awp_bind. cbn [awp after mret].
  apply awp_guard; [intros Hn%username_check|intros Hn%username_refused; by constructor].
  apply awp_perform. intros id s2 (-> & _ & Hid & _). apply awp_perform. intros now s3 [-> _]. cbv zeta.
  apply awp_write. intros e t' (l' & -> & Hcr). destruct e as [e|].
  - destruct Hcr as [-> Hc]. destruct (Hc Hlive) as (_ & o0 & Ho0 & [Ei|En]).
    { destruct Hid as (_ & Hid & _). by destruct (Hid o0 Ho0). }
    simpl in En. assert (mkState (set_orgs (t_orgs (tables s)) (tables s)) (blobs s) = s) as Es
      by (destruct s as [[] ?]; done). rewrite Es.
    wp_read x Hx. destruct (gets_cases _ _ _ _ Hx) as [(o1 & -> & _)|(e1 & -> & Hnone)].
    { by apply (co_conflict _ _ _ o0). }
    destruct (Hnone Hlive) as [_ Hn']. by destruct (Hn' o0 Ho0).
  - destruct Hcr as [(o & (t & _ & ->) & Hp) Hno]. specialize (Hno Hstrict).
    apply awp_write. intros e t' (ms & -> & Hm). simpl in Hm. destruct e as [e|].
    { exfalso. destruct Hm as [_ Hm]. destruct (Hm Hlive) as (_ & m & Hin & E1 & E2). simpl in E1.
      destruct (Hpl m Hin) as (o0 & Ho0 & E). destruct Hid as (_ & Hid & _). apply (Hid o0 Ho0). congruence. }
    apply awp_check; [intros _|done]. apply (awp_ret md).
    destruct Hm as [(m' & -> & Hpm) _]. simpl in *. apply (co_created _ _ _ (mkOrg id name t)); try done.
    + intros o0 Ho0 E. apply (Hno o0 Ho0). by right.
    + intros Hne. split; [done|]. simpl. eexists. split; [rewrite Hpm; by left|]. done.
Qed.

(** ** Members *)
Section Members.
Context `{Authorizer} `{!AuthorizerOk md}.

(** What stops a membership request about [orgName] and [username]: no such
    organization, a caller who is not one of its admins, or no such user. *)
Inductive membership_refused (caller : User) (orgName username : string) s : outcome Response Response -> Prop :=
| mr_no_org :
    (forall g, g ∈ t_orgs (tables s) -> Org_Name g <> orgName) ->
    membership_refused caller orgName username s (Fail org_not_found)
| mr_forbidden g :
    g ∈ t_orgs (tables s) -> Org_Name g = orgName -> ~ may_manage (tables s) (User_ID caller) (Org_ID g) ->
    membership_refused caller orgName username s (Fail (writeErr StatusForbidden "must be org admin"))
| mr_no_user :
    (forall u, u ∈ t_users (tables s) -> User_Username u <> username) ->
    membership_refused caller orgName username s (Fail (writeErr StatusNotFound "user not found")).

(** The organization and the user of a request that is not refused. *)
Definition membership_of (caller : User) (orgName username : string) s (g : Org) (u : User) : Prop :=
  g ∈ t_orgs (tables s) /\ Org_Name g = orgName /\ may_manage (tables s) (User_ID caller) (Org_ID g) /\
  u ∈ t_users (tables s) /\ User_Username u = username.

Lemma managed caller orgName username (f : Org -> H Response Response) s Q :
  unique_keys (tables s) ->
  (forall o, membership_refused caller orgName username s o -> Q o s) ->
  (forall g, g ∈ t_orgs (tables s) -> Org_Name g = orgName -> may_manage (tables s) (User_ID caller) (Org_ID g) ->
     awp md (f g) Q s) ->
  awp md (r ← repo (Orgs_GetByName orgName); o ← need r (fun _ => org_not_found);
          ok ← CanManageOrgMembers (User_ID caller) (Org_ID o);
          _ ← guard_ ok (writeErr StatusForbidden "must be org admin"); f o) Q s.
Proof using Hlive AuthorizerOk0.
  intros Huk HR Hf. wp_read x Hx. wp_get Hx; [|intros Hn; apply HR; by constructor|intros ? ?; congruence].
  intros g Hg En. apply awp_bind. eapply awp_mono; [apply manage_ok|]. intros o s1 [-> (ok & -> & Hyes & Hno)].
  cbn [after]. specialize (Hno Hlive Huk). apply awp_guard; [intros ->; by apply Hf; auto|intros ->].
  apply HR, (mr_forbidden _ _ _ _ g); [done..|]. intros Hm. by specialize (Hno Hm).
Qed.

Inductive addMember_spec (caller : User) (orgName : string) (req : MemberRequest) s
    : outcome Response Response -> State -> Prop :=
| am_refused o : membership_refused caller orgName (mr_Username req) s o -> addMember_spec caller orgName req s o s
| am_member g u m s' :
    membership_of caller orgName (mr_Username req) s g u ->
    m ∈ t_members (tables s) -> is_member (Org_ID g) (User_ID u) m -> tables s' = tables s ->
    addMember_spec caller orgName req s (Fail rest_internal) s'
| am_added g u s' :
    membership_of caller orgName (mr_Username req) s g u ->
    (forall m, m ∈ t_members (tables s) -> ~ is_member (Org_ID g) (User_ID u) m) ->
    t_members (tables s') ≡ₚ
      mkOrgMember (Org_ID g) (User_ID u) (if streq (mr_Role req) OrgRoleAdmin then OrgRoleAdmin else OrgRoleMember)
        :: t_members (tables s) ->
    addMember_spec caller orgName req s (Done (writeJSON StatusOK (JObj (obj [("status", "added")])))) s'.

(** Adding a member: 404 or 403 when the organization or the caller's right to
    manage it is missing, 404 when the user is; 500 when that user is a member
    already; and 200 otherwise with one new membership, of the role asked for if
    that is [admin] and a plain member if not. *)
Theorem addMember_functional caller orgName req s :
  unique_keys (tables s) ->
  awp md (addMember (Some caller) orgName (Some req)) (addMember_spec caller orgName req s) s.
Proof using All.
  intros Huk. unfold addMember, require_user. apply awp_bind. cbn [UserFromContext awp after mret].
  apply (managed caller orgName (mr_Username req)); [done|by constructor|]. intros g Hg En Hm.
  unfold decode. apply awp_bind. cbn [awp after mret].
  wp_read x Hx. wp_get Hx; [|by intros Hn; do 2 constructor|intros ? ?; congruence].
  intros u Hu Eu. assert (membership_of caller orgName (mr_Username req) s g u) as Hmem by done.
  cbv zeta. apply awp_write. intros e t' (l' & -> & Hcr). destruct e as [e|].
  - apply awp_check; [done|]. intros e0 _. destruct Hcr as [-> Hc].
    destruct (Hc Hlive) as (_ & m & Hmm & E1 & E2). apply (am_member _ _ _ _ g u m); [done..|by destruct (tables s)].
  - apply awp_check; [intros _|done]. apply (awp_ret md). destruct Hcr as [(m' & -> & Hp) Hno].
    apply (am_added _ _ _ _ g u); [done| |done]. intros m Hmm [E1 E2]. by apply (Hno Hstrict m Hmm).
Qed.

Inductive removeMember_spec (caller : User) (orgName username : string) s
    : outcome Response Response -> State -> Prop :=
| rm_refused o : membership_refused caller orgName username s o -> removeMember_spec caller orgName username s o s
| rm_removed g u s' :
    membership_of caller orgName username s g u ->
    (forall m, m ∈ t_members (tables s') <-> m ∈ t_members (tables s) /\ ~ is_member (Org_ID g) (User_ID u) m) ->
    removeMember_spec caller orgName username s (Done (writeJSON StatusOK (JObj (obj [("status", "removed")])))) s'.

(** Removing a member: refused like an addition, and otherwise 200, after which
    the user is no member of the organization and every other membership stands. *)
Theorem removeMember_functional caller orgName username s :
  unique_keys (tables s) ->
  awp md (removeMember (Some caller) orgName username) (removeMember_spec caller orgName username s) s.
Proof using All.
  intros Huk. unfold removeMember, require_user. apply awp_bind. cbn [UserFromContext awp after mret].
  apply (managed caller orgName username); [done|by constructor|]. intros g Hg En Hm.
  wp_read x Hx. wp_get Hx; [|by intros Hn; do 2 constructor|intros ? ?; congruence].
  intros u Hu Eu. apply awp_write. intros e t' (l' & -> & Hd). destruct e as [e|]; [destruct Hd; congruence|].
  apply awp_check; [intros _|done]. apply (awp_ret md). apply (rm_removed _ _ _ _ g u); [done|].
  destruct Hd as (gone & Hp & Hg2 & Hno). specialize (Hno Hstrict). rewrite Forall_forall in Hg2.
  intros m. simpl. rewrite Hp, elem_of_app. split; [intros Hin; split; [by right|by apply Hno]|].
  intros [[Hin|Hin] Hn]; [by destruct (Hn (Hg2 m Hin))|done].
Qed.

(** C29. Changing the members of an organization, on a SQL backend that does not fail
    (MongoDB stores an existing member twice and removes one of the two).  Either
    request is refused with 404 or 403 when the organization or the caller's right to manage it is missing, and
    with 404 when the user is.  Otherwise an addition answers 500 when that user is
    a member already and 200 with one new membership - an [admin]'s if that is what
    was asked for, a plain member's if not - and a removal answers 200, after which
    the user is no member and every other membership stands. *)
Theorem memberships_functional caller orgName s :
  unique_keys (tables s) ->
  (forall req, awp md (addMember (Some caller) orgName (Some req)) (addMember_spec caller orgName req s) s) /\
  (forall username, awp md (removeMember (Some caller) orgName username) (removeMember_spec caller orgName username s) s).
Proof using All.
  intros Huk. split; intros; [by apply addMember_functional|by apply removeMember_functional].
Qed.
End Members.
End Owners.

(** ** The admin account of start-up *)
Section Admin.
Context `{Bcrypt} (md : mode) (Hlive : live md = true).

(** What start-up does about the account of [name]. *)
Inductive ensureAdmin_spec {E} (name pw : string) s : outcome E unit -> State -> Prop :=
| ea_exists u :
    u ∈ t_users (tables s) -> User_Username u = name -> ensureAdmin_spec name pw s (Done ()) s
| ea_long_password :
    (forall u, u ∈ t_users (tables s) -> User_Username u <> name) -> max_password < slen pw ->
    ensureAdmin_spec name pw s (Done ()) s
| ea_identifier_taken u :
    (forall u, u ∈ t_users (tables s) -> User_Username u <> name) -> slen pw <= max_password -> strict md = true ->
    u ∈ t_users (tables s) -> User_ID u = "admin-" +:+ name -> ensureAdmin_spec name pw s (Done ()) s
| ea_created u s' :
    (forall u, u ∈ t_users (tables s) -> User_Username u <> name) -> slen pw <= max_password ->
    (strict md = true -> forall u, u ∈ t_users (tables s) -> User_ID u <> "admin-" +:+ name) ->
    User_Username u = name -> User_ID u = "admin-" +:+ name -> CheckPassword (User_PasswordHash u) pw = true ->
    t_users (tables s') ≡ₚ u :: t_users (tables s) ->
    tables s' = set_users (t_users (tables s')) (tables s) -> blobs s' = blobs s ->
    ensureAdmin_spec name pw s (Done ()) s'.

(** C30. On a backend that does not fail, start-up ends with an account of the
    configured name: an account that has the name is left alone; otherwise one is
    added, of that name and whose password is the configured one.  Only a password
    of more than 72 bytes, which bcrypt refuses, and - over SQL - an account of
    another name that has the identifier [admin-<name>] prevent that; nothing is
    changed then, and start-up goes on. *)
Theorem ensureAdmin_functional {E} name pw s :
  awp md (ensureAdmin (E := E) name pw) (ensureAdmin_spec name pw s) s.
Proof using Hlive.
  unfold ensureAdmin. wp_read x Hx. destruct (gets_cases _ _ _ _ Hx) as [(u & -> & _ & Hu & En)|(e & -> & Hn)].
  { apply (awp_ret md). by apply (ea_exists _ _ _ u). }
  destruct (Hn Hlive) as [_ Hnone].
  eapply (awp_lift_bind md _ (fun h s' => s' = s /\ match h with
    | Some x => slen pw <= max_password /\ CompareHashAndPassword x pw = true
    | None => max_password < slen pw end)).
  { simpl. intros [h|] s' [-> Hh]; (split; [done|auto]). }
  intros h s' [-> Hh]. destruct h as [hash|]; [|apply (awp_ret md); by apply ea_long_password].
  destruct Hh as [Hlen Hh]. apply awp_perform. intros now s1 [-> _]. cbv zeta. apply awp_write. intros e1 t' (us & -> & Hcr).
  apply (awp_ret md). destruct e1 as [e1|].
  - destruct Hcr as [-> Hc]. destruct (Hc Hlive) as (Hst & u & Hu & [Ei|En]); [|by destruct (Hnone u Hu)].
    replace (mkState _ _) with s by (by destruct s as [[] ?]). by apply (ea_identifier_taken _ _ _ u).
  - destruct Hcr as [(u & (t & _ & ->) & Hp) Hno]. eapply ea_created; [done|done| |..|exact Hp| |]; try done.
    intros Hst u Hu Ei. apply (Hno Hst u Hu). by left.
Qed.
End Admin.

(** ** Names *)

(** C31. The three name patterns accept exactly the strings of lowercase letters, digits
    and hyphens that neither begin nor end with a hyphen, of 2 to 39 bytes for a
    module created over Connect and of 3 to 39 bytes for users, organizations and
    modules created over REST. *)
Theorem name_patterns_accept n :
  (MatchString moduleNameRe n = true <-> is_name 2 39 n) /\
  (MatchString nameRe n = true <-> is_name 3 39 n) /\
  (MatchString usernameRe n = true <-> is_name 3 39 n).
Proof. split_and!; apply name_pattern_spec; lia. Qed.
