(* ===== verification/Session.v ===== *)
(** * Accounts, logins and tokens

    The life of a credential on a strict backend that does not fail: a
    registration makes an account its password opens, a login turns the password
    into a bearer token that runs requests as that account, and a revocation ends
    a token of the caller's and no other. *)
From S2P Require Import Prelude GoStd Sha256 Regex Model Iface Prog Auth Authz ModuleApi UploadApi OwnerApi RestApi.

Section Session.
Context `{Bcrypt} (md : mode) (Hstrict : strict md = true) (Hlive : live md = true).

Definition bearer (raw : string) : string := "Bearer " +:+ raw.

Lemma bearer_presents raw : raw <> "" -> presents (bearer raw) raw.
Proof using. by split. Qed.

(** The same surroundings, with a clock that shows no time after [t]. *)
Definition by_time (t : Time) : mode := mkMode (strict md) (live md) (since md) (Some t) (draws md).

(** In state [s], a Connect request with token [raw] that runs by the time [t] runs
    as [u]. *)
Definition signs_in (s : State) (raw : string) (u : User) (t : Time) : Prop :=
  forall Resp (handler : Ctx -> H ConnectError Resp) Q,
    awp (by_time t) (handler (Some u)) Q s -> awp (by_time t) (connect_request (bearer raw) handler) Q s.

(** In state [s], every Connect request with token [raw] is refused. *)
Definition refused (s : State) (raw : string) : Prop :=
  forall Resp (handler : Ctx -> H ConnectError Resp),
    awp md (connect_request (bearer raw) handler)
      (fun o s' => s' = s /\ o = Fail (NewError CodeUnauthenticated "invalid token")) s.

Lemma stored_signs_in s raw k u t :
  raw <> "" -> k ∈ t_tokens (tables s) -> Token_Hash k = HashToken raw ->
  (forall k', k' ∈ t_tokens (tables s) -> Token_Hash k' = HashToken raw -> k' = k) ->
  (forall e, Token_ExpiresAt k = Some e -> t <= e) ->
  unique_keys (tables s) -> u ∈ t_users (tables s) -> User_ID u = Token_UserID k -> signs_in s raw u t.
Proof using Hlive.
  intros Hr Hk Hh Hku Hexp Huk Hu Hid Resp handler Q Hn.
  assert (forall u', u' ∈ t_users (tables s) -> User_ID u' = Token_UserID k -> u' = u) as Huu.
  { intros u' Hu' Hid'. apply (uk_users _ Huk); [done..|]. left. congruence. }
  apply (connect_request_runs (by_time t) Hlive (bearer raw) raw s k u); auto using bearer_presents.
  intros (e & now & He & [_ Ht] & Hlt). specialize (Ht t eq_refl). specialize (Hexp e He). lia.
Qed.

Lemma unknown_refused s raw :
  raw <> "" -> (forall k, k ∈ t_tokens (tables s) -> Token_Hash k <> HashToken raw) -> refused s raw.
Proof using Hlive.
  intros Hr Hn Resp handler. unfold connect_request, Middleware.
  destruct (bearer_cases (bearer raw)) as [[Hno _]|[Hp E]]; [by destruct (Hno raw (bearer_presents raw Hr))|].
  assert (ExtractBearer (bearer raw) = raw) as Eb by (apply TrimPrefix_app). rewrite E, Eb.
  assert (awp md (NewConnectInterceptor (bearer raw) handler background)
    (fun o s' => s' = s /\ o = Fail (NewError CodeUnauthenticated "invalid token")) s) as Hi.
  { unfold NewConnectInterceptor. unfold ExtractBearer in *. rewrite E, Eb. wp_read x Hx. wp_get Hx.
    - intros k Hk Hh. by destruct (Hn k Hk).
    - done.
    - intros ? ?; congruence. }
  wp_read x Hx. destruct (gets_cases _ _ _ _ Hx) as [(k & _ & _ & Hk & Hh)|(e & -> & _)]; [|done].
  by destruct (Hn k Hk).
Qed.

(** ** Login *)
Definition login_response (raw : string) (u : User) : Response :=
  writeJSON StatusOK (JObj (obj [("token", raw); ("user_id", User_ID u); ("username", User_Username u)])).

(** No token is stored under the digest of an identifier that may be drawn. *)
Definition no_collision (s : State) : Prop :=
  forall raw k, draws md raw -> k ∈ t_tokens (tables s) -> Token_Hash k <> HashToken raw.

Definition login_token (u : User) (k : Token) : Prop := Token_UserID k = User_ID u /\ Token_Note k = "login".

(** From [s] to [s'] a session of [u] was opened: [raw] signs in for 24 hours; the
    login tokens of [u] have made place for a new one, and nothing else moved. *)
Definition session_opened (s s' : State) (raw : string) (u : User) : Prop :=
  signs_in s' raw u (since md + day) /\
  (exists k0, login_token u k0 /\ Token_Hash k0 = HashToken raw /\
     forall k, k ∈ t_tokens (tables s') <-> k = k0 \/ (k ∈ t_tokens (tables s) /\ ~ login_token u k)) /\
  tables s' = set_tokens (t_tokens (tables s')) (tables s) /\ blobs s' = blobs s.

(** A login with the right password answers with a token, and opens a session. *)
Lemma login_ok u pw s :
  unique_keys (tables s) -> no_collision s -> u ∈ t_users (tables s) -> CheckPassword (User_PasswordHash u) pw = true ->
  awp md (login (Some (mkCredentials (User_Username u) pw)))
    (fun o s' => exists raw, o = Done (login_response raw u) /\ session_opened s s' raw u) s.
Proof using Hstrict Hlive.
  intros Huk Hfresh Hu Hpw. unfold login, decode. apply awp_bind. cbn [awp after].
  cbn [cr_Username cr_Password]. wp_read x Hx. wp_get Hx; [|by intros Hn; destruct (Hn u Hu)|intros ? ?; congruence].
  intros u' Hu' En. assert (u' = u) as -> by (apply (uk_users _ Huk); [done..|by right]). clear x Hx Hu' En.
  cbn [cr_Password]. rewrite Hpw. apply awp_guard; [intros _|done].
  apply awp_write. intros e t' (ts & -> & Hdel). destruct e as [e|]; [destruct Hdel; congruence|].
  destruct Hdel as (gone & Hp & Hgone & Hnone). specialize (Hnone eq_refl). rewrite Forall_forall in Hgone.
  apply awp_perform. intros raw s1 (-> & [Hr _] & _ & Hdraw). apply awp_perform. intros now s2 [-> [Hnow _]]. cbv zeta.
  apply awp_perform. intros id s3 (-> & _ & Hid & _). apply awp_perform. intros created s4 [-> _].
  assert (forall k, k ∈ ts -> k ∈ t_tokens (tables s)) as Hkept by (intros k Hk; rewrite Hp; set_solver).
  apply awp_write. intros e t' (ts' & -> & Hcr). destruct e as [e|]; (apply awp_check; [intros E|intros ? E]); try done.
  - exfalso. destruct Hcr as [_ Hc]. destruct (Hc Hlive) as (_ & k & Hk & [Ei|Eh]); simpl in Hk.
    + destruct Hid as (_ & _ & _ & _ & Ht). by destruct (Ht k Hk).
    + apply (Hfresh raw k); auto.
  - destruct Hcr as [(k & (t & ex & _ & Hex & _ & ->) & Hp') Hno]. simpl in *. specialize (Hno Hstrict).
    rewrite (Hex Hstrict) in *. set (k := mkToken id (User_ID u) (HashToken raw) "login" _ t) in *.
    exists raw. split; [done|]. split; [|split; [|done]].
    + apply (stored_signs_in _ raw k u); simpl; try done.
      * rewrite Hp'. by left.
      * intros k'. rewrite Hp', elem_of_cons. intros [->|Hk'] Eh; [done|]. exfalso. apply (Hno k' Hk'). by right.
      * intros e [= <-]. lia.
      * by destruct Huk.
    + exists k. do 2 (split; [done|]). intros k'. simpl. rewrite Hp', elem_of_cons, Hp, elem_of_app. unfold login_token.
      split; [intros [->|Hk']; [by left|right; split; [by right|by apply Hnone]]|].
      intros [->|[[Hk'|Hk'] Hn]]; [by left|by destruct (Hn (Hgone _ Hk'))|by right].
Qed.

(** A wrong user name and a wrong password get the same answer, 401, and no token
    is made or deleted; so does a lookup that fails. *)
Theorem login_needs_password name pw s :
  (forall u, u ∈ t_users (tables s) -> User_Username u = name -> CheckPassword (User_PasswordHash u) pw = false) ->
  awp md (login (Some (mkCredentials name pw)))
    (fun o s' => s' = s /\ o = Fail (writeErr StatusUnauthorized "invalid credentials")) s.
Proof using.
  intros Hno. unfold login, decode. apply awp_bind. cbn [awp after cr_Username cr_Password].
  wp_read x Hx. wp_get Hx; [|done|done]. intros u Hu En. cbn [cr_Password]. rewrite (Hno u Hu En). by apply awp_guard.
Qed.

(** C19. A login needs the password, and opens a session.  On a SQL backend that does
    not fail, and unless a token is stored under the digest of a fresh identifier,
    a login with the right password always answers with a token: for 24 hours it
    runs requests as that user, it takes the place of the tokens of earlier logins,
    and nothing else moves.  An unknown name and a wrong password get the same
    answer, 401, and leave everything alone. *)
Theorem login_functional u name pw s :
  (unique_keys (tables s) -> no_collision s -> u ∈ t_users (tables s) -> name = User_Username u ->
   CheckPassword (User_PasswordHash u) pw = true ->
   awp md (login (Some (mkCredentials name pw)))
    (fun o s' => exists raw, o = Done (login_response raw u) /\ session_opened s s' raw u) s) /\
  ((forall u, u ∈ t_users (tables s) -> User_Username u = name -> CheckPassword (User_PasswordHash u) pw = false) ->
   awp md (login (Some (mkCredentials name pw)))
    (fun o s' => s' = s /\ o = Fail (writeErr StatusUnauthorized "invalid credentials")) s).
Proof using Hstrict Hlive.
  split; [intros Huk Hc Hu -> Hpw; by apply login_ok|apply login_needs_password].
Qed.

(** ** Registration *)
Lemma unique_cons (u : User) (us us' : list User) :
  us' ≡ₚ u :: us -> unique_on User_conflict us -> (forall x, x ∈ us -> ~ User_conflict u x) ->
  unique_on User_conflict us'.
Proof using.
  intros Hp Hu Hn a b. rewrite Hp, !elem_of_cons. unfold User_conflict in *.
  intros [->|Ha] [->|Hb] Hc; [done|by destruct (Hn b)|destruct (Hn a Ha); intuition congruence|by apply Hu].
Qed.

Lemma register_ok c s (Q : outcome Response Response -> State -> Prop) :
  unique_keys (tables s) -> is_name 3 39 (cr_Username c) -> 8 <= slen (cr_Password c) ->
  (forall u, u ∈ t_users (tables s) -> User_Username u <> cr_Username c) ->
  (forall u r s', slen (cr_Password c) <= max_password -> u ∈ t_users (tables s') -> User_Username u = cr_Username c ->
     CheckPassword (User_PasswordHash u) (cr_Password c) = true -> unique_keys (tables s') ->
     t_tokens (tables s') = t_tokens (tables s) -> resp_code r = StatusCreated -> Q (Done r) s') ->
  (max_password < slen (cr_Password c) -> Q (Fail rest_internal) s) ->
  awp md (register true (Some c)) Q s.
Proof using Hstrict Hlive.
  intros Huk Hname Hpw Hnew HQ HF. unfold register. apply awp_guard; [intros _|done].
  unfold decode. apply awp_bind. cbn [awp after].
  apply awp_guard; [intros _|intros E; exfalso].
  2:{ assert (MatchString usernameRe (cr_Username c) = true) as E2; [|congruence]. by apply name_pattern_spec; [lia|]. }
  apply awp_guard; [intros _|intros E; bool_facts; lia].
  eapply (awp_lift_bind md _ (fun h s' => s' = s /\ match h with
    | Some x => slen (cr_Password c) <= max_password /\ CompareHashAndPassword x (cr_Password c) = true
    | None => max_password < slen (cr_Password c) end)).
  { simpl. intros [h|] s' [-> Hh]; (split; [done|auto]). }
  intros h s' [-> Hh]. destruct h as [hash|]; [|by apply HF]. destruct Hh as [Hlen Hh].
  wp_read x Hx. destruct (gets_cases _ _ _ _ Hx) as [(u & -> & _ & Hu & En)|(e & -> & _)]; [by destruct (Hnew u)|].
  apply awp_perform. intros id s1 (-> & _ & Hid & _). apply awp_perform. intros now s2 [-> _]. cbv zeta.
  apply awp_write. intros e1 t' (us & -> & Hcr). destruct e1 as [e1|].
  { exfalso. destruct Hcr as [_ Hc]. destruct (Hc Hlive) as (_ & u & Hu & [Ei|En]).
    - by destruct Hid as [Hid _]; destruct (Hid u Hu).
    - by destruct (Hnew u Hu). }
  apply awp_check; [intros _|done]. destruct Hcr as [(u & (t & _ & ->) & Hp) Hno]. specialize (Hno Hstrict). simpl in *.
  eapply (awp_ret md), HQ; simpl; try done.
  - rewrite Hp. by left.
  - done.
  - done.
  - destruct Huk as [U1 U2 U3]. split; [|done..]. by eapply unique_cons.
Qed.

(** C20. On a SQL backend that does not fail, when registration is open, for a
    well-formed name nobody has: with a password of 8 to 72 bytes the new account
    can always log in at once (unless a token digest collides), and the token it
    gets runs requests as that account for 24 hours; a password of more than 72
    bytes is answered 500, because bcrypt refuses it, and nothing is stored. *)
Theorem register_then_login c s :
  unique_keys (tables s) -> no_collision s -> is_name 3 39 (cr_Username c) -> 8 <= slen (cr_Password c) ->
  (forall u, u ∈ t_users (tables s) -> User_Username u <> cr_Username c) ->
  (slen (cr_Password c) <= 72 ->
   awp md (_ ← register true (Some c); login (Some c))
    (fun o s' => exists u raw, u ∈ t_users (tables s') /\ User_Username u = cr_Username c /\
         o = Done (login_response raw u) /\ signs_in s' raw u (since md + day)) s) /\
  (72 < slen (cr_Password c) ->
   awp md (register true (Some c)) (fun o s' => o = Fail rest_internal /\ s' = s) s).
Proof using Hstrict Hlive.
  intros Huk Hfresh Hname Hpw Hnew. split; intros Hlen.
  - apply awp_bind. apply register_ok; [done..| |unfold max_password; lia].
    intros u r s' _ Hu En Hcheck Huk' Et _. cbn [after]. destruct c as [name pw]. cbn [cr_Username cr_Password] in *. subst name.
    eapply awp_mono; [apply login_ok; [done| |done|done]|].
    { unfold no_collision. by rewrite Et. }
    intros o s2 (raw & -> & Hs & _ & Et2 & _). exists u, raw. by rewrite Et2.
  - apply register_ok; [done..| |done]. intros. unfold max_password in *. lia.
Qed.

(** ** Revocation *)

(** Tokens of other users survive any revocation, and the other tokens of the caller. *)
Definition others_kept (s s' : State) (id uid : string) : Prop :=
  forall k, k ∈ t_tokens (tables s) -> Token_ID k <> id \/ Token_UserID k <> uid -> k ∈ t_tokens (tables s').

(** C21. On a SQL backend that does not fail, revoking a token of one's own answers 200,
    and from then on every Connect request with that token is refused; revoking a token that is not one's own is
    404 and changes nothing but the order of rows.  No other token is touched. *)
Theorem revocation_ends_token u id s :
  unique_on Token_conflict (t_tokens (tables s)) ->
  awp md (revokeToken (Some u) id)
    (fun o s' => others_kept s s' id (User_ID u) /\
       ((exists k, k ∈ t_tokens (tables s) /\ Token_ID k = id /\ Token_UserID k = User_ID u /\
           o = Done (writeJSON StatusOK (JObj (obj [("status", "revoked")]))) /\
           forall raw, raw <> "" -> HashToken raw = Token_Hash k -> refused s' raw) \/
        ((forall k, k ∈ t_tokens (tables s) -> ~ (Token_ID k = id /\ Token_UserID k = User_ID u)) /\
           o = Fail (writeErr StatusNotFound "token not found") /\ t_tokens (tables s') ≡ₚ t_tokens (tables s)))) s.
Proof using Hstrict Hlive.
  intros Huk. unfold revokeToken, require_user. apply awp_bind. cbn [UserFromContext awp after mret].
  apply awp_write. intros e t' (ts & -> & Hr). destruct e as [[|msg]|]; [|destruct Hr; congruence|].
  - destruct Hr as [Hp Hn]. apply awp_check; [done|]. intros e0 [= <-]. split.
    + intros k Hk _. simpl. by rewrite Hp.
    + right. split; [|done]. intros k Hk HP. by apply (Hn k).
  - destruct Hr as (gone & Hne & Hp & Hg & Hno). specialize (Hno Hstrict).
    apply awp_check; [intros _|done]. apply (awp_ret md). rewrite Forall_forall in Hg. split.
    + intros k Hk Hother. simpl. rewrite Hp in Hk. apply elem_of_app in Hk as [Hk|Hk]; [|done].
      destruct (Hg k Hk). naive_solver.
    + left. destruct gone as [|k gone]; [done|]. destruct (Hg k) as [Hid Huid]; [by left|].
      assert (k ∈ t_tokens (tables s)) as Hk by (rewrite Hp; by left).
      exists k. do 4 (split; [done|]). intros raw Hraw Hh. apply unknown_refused; [done|]. simpl.
      intros k' Hk' Eh. apply (Hno k' Hk'). assert (k' = k) as ->; [|done].
      apply Huk; [rewrite Hp; set_solver|done|]. right. congruence.
Qed.
End Session.
