(* ===== verification/Content.v ===== *)
(** * Push and pull

    What a push does to the stored rows and blobs when the backend is strict and
    does not fail, and the round trip with a pull: the files come back as they
    were pushed, by the label the push moved and by the commit it made. *)
From stdpp Require Import pretty.
From S2P Require Import Prelude GoStd Sha256 Model Iface Prog Auth Authz ModuleApi UploadApi OwnerApi RestApi Server Integrity.

(** Every stored label of that name points at the commit, and there is one. *)
Definition labelled (s : State) (moduleID name commitID : string) : Prop :=
  has_label (tables s) moduleID name /\
  forall l, l ∈ t_labels (tables s) -> label_at moduleID name l -> Label_CommitID l = commitID.

(** The label names a push with these references moves: [main] when there are none,
    and [main] again for a reference without a name. *)
Definition names_label (refs : list ScopedLabelRef) (n : string) : Prop :=
  (refs = [] /\ n = "main") \/
  exists r, r ∈ refs /\ ((sl_Name r = "" /\ n = "main") \/ (sl_Name r <> "" /\ n = sl_Name r)).

Lemma upload_labels_spec refs n : n ∈ upload_labels refs <-> names_label refs n.
Proof.
  unfold upload_labels, names_label. destruct refs as [|r0 refs]; [set_solver|].
  rewrite list_elem_of_fmap. split.
  - intros (r & -> & Hr). right. exists r. split; [done|]. destruct (streq (sl_Name r) "") eqn:E; bool_facts; auto.
  - intros [[? _]|(r & Hr & Hn)]; [done|]. exists r. split; [|done].
    destruct (streq (sl_Name r) "") eqn:E; bool_facts; naive_solver.
Qed.

(** The labels of the module under other names, and those of other modules, are
    as they were. *)
Definition labels_kept (s s' : State) (moduleID : string) (moved : string -> Prop) : Prop :=
  forall l, ~ (Label_ModuleID l = moduleID /\ moved (Label_Name l)) ->
    (l ∈ t_labels (tables s') <-> l ∈ t_labels (tables s)).

(** The rows a push of [data] by [uid] leaves, but for the labels. *)
Record pushed (md : mode) (uid moduleID : string) (data : bytes) (s s' : State) : Prop := {
  pu_users : t_users (tables s') = t_users (tables s);
  pu_orgs : t_orgs (tables s') = t_orgs (tables s);
  pu_members : t_members (tables s') = t_members (tables s);
  pu_modules : t_modules (tables s') = t_modules (tables s);
  pu_tokens : t_tokens (tables s') = t_tokens (tables s);
  pu_blobs : blobs s' = <[key_of moduleID (sha256_hex data) := data]> (blobs s);
  pu_commits :
    (has_commit (tables s) moduleID (sha256_hex data) /\ t_commits (tables s') = t_commits (tables s)) \/
    (~ has_commit (tables s) moduleID (sha256_hex data) /\
     exists c t, t_commits (tables s') ≡ₚ c :: t_commits (tables s) /\
       stored_Commit md (mkCommit (sha256_hex data) moduleID (key_of moduleID (sha256_hex data)) "" uid t) c) }.

Section Push.
Context `{Bcrypt} (md : mode) (Hstrict : strict md = true) (Hlive : live md = true).

Lemma upserted_commit l ls ls' x : upserts md l ls ls' None -> x ∈ ls' -> Label_key x = Label_key l ->
  Label_CommitID x = Label_CommitID l.
Proof using Hstrict.
  intros (_ & _ & _ & Hs) Hx Hk. destruct (Hs Hstrict) as (l1 & (t & u & _ & _ & ->) & Hp). rewrite Hp in Hx.
  case_decide as Hd.
  - apply list_elem_of_fmap in Hx as (y & -> & Hy). case_decide; [done|]. congruence.
  - apply elem_of_cons in Hx as [->|Hx]; [done|]. destruct Hd. apply Exists_exists. eauto.
Qed.

Lemma upserted_other l ls ls' x : upserts md l ls ls' None -> x ∈ ls' -> Label_key x <> Label_key l -> x ∈ ls.
Proof using. intros (Hn & _) Hx Hk. destruct (Hn x Hx) as [?|[? _]]; done. Qed.

Lemma key_at moduleID name l : label_at moduleID name l <-> Label_key l = (moduleID, name).
Proof using. unfold label_at, Label_key. naive_solver. Qed.

(** One label moved: the others stay where they are. *)
Lemma labelled_upsert (l : Label) s s' mid name cid :
  upserts md l (t_labels (tables s)) (t_labels (tables s')) None ->
  (labelled s mid name cid /\ (Label_key l = (mid, name) -> Label_CommitID l = cid)) \/
  (Label_key l = (mid, name) /\ Label_CommitID l = cid) ->
  labelled s' mid name cid.
Proof using Hstrict.
  intros Hu Hl. destruct (decide (Label_key l = (mid, name))) as [E|E].
  - assert (Label_CommitID l = cid) as <- by naive_solver. split.
    + destruct Hu as (_ & (x & Hx & Hk & _) & _). exists x. rewrite key_at. by rewrite Hk.
    + intros x Hx Hat%key_at. apply (upserted_commit _ _ _ _ Hu Hx). congruence.
  - destruct Hl as [[[(x & Hx & Hat) Hall] _]|[? _]]; [|done]. split.
    + exists x. split; [|done]. destruct Hu as (_ & _ & Hk & _). apply Hk; [done|]. apply key_at in Hat. congruence.
    + intros y Hy Hyat. apply Hall; [|done]. eapply (upserted_other _ _ _ _ Hu Hy).
      apply key_at in Hyat. congruence.
Qed.

(** The label loop of a push. *)
Lemma labels_ok mid cid now names uid data (s0 s : State) (Q : outcome ConnectError unit -> State -> Prop) :
  pushed md uid mid data s0 s ->
  (forall s', pushed md uid mid data s0 s' -> (forall n, n ∈ names -> labelled s' mid n cid) ->
     labels_kept s s' mid (fun n => n ∈ names) -> Q (Done ()) s') ->
  awp md (for_range names () (fun _ labelName =>
    id ← perform NewUUID;
    let l := mkLabel id mid labelName cid now now in
    e ← repo (Labels_Upsert l);
    check e (fun _ => NewError CodeInternal "failed to upsert label"))) Q s.
Proof using Hstrict Hlive.
  intros Hp HQ.
  apply (awp_for_range md (fun vs _ s' => pushed md uid mid data s0 s' /\
    labels_kept s s' mid (fun n => n ∈ names) /\
    exists done_, names = (done_ ++ vs)%list /\ forall n, n ∈ done_ -> labelled s' mid n cid)).
  - split; [done|]. split; [by intros l _|]. exists []. split; [done|]. by intros n ?%elem_of_nil.
  - intros v vs [] s1 (Hp1 & Hk1 & dn & -> & Hdn). apply awp_perform. intros id s2 (-> & _ & Hid & _).
    apply awp_write. intros e t' (l' & -> & Hu). destruct e as [e|].
    { exfalso. destruct Hu as (_ & Hc). destruct (Hc Hlive) as (_ & x & Hx & Ei). destruct Hid as (_ & _ & _ & Hl & _).
      by apply (Hl x). }
    assert (forall n, n ∈ dn \/ n = v -> labelled (mkState (set_labels l' (tables s1)) (blobs s1)) mid n cid) as Hl.
    { intros n Hn. eapply (labelled_upsert (mkLabel id mid v cid now now) s1); [exact Hu|].
      destruct (decide (n = v)) as [->|Hne]; [by right|]. left. split; [|by intros [= ->]].
      apply Hdn. naive_solver. }
    simpl. split; [by destruct Hp1|]. split.
    { intros l Hl0. rewrite <- (Hk1 l Hl0). assert (Label_key l <> (mid, v)) as Hne.
      { unfold Label_key. intros [= E1 E2]. apply Hl0. split; [done|]. set_solver. }
      split; intros Hin; [exact (upserted_other _ _ _ _ Hu Hin Hne)|].
      destruct Hu as (_ & _ & Hk & _). exact (Hk l Hin Hne). }
    exists (dn ++ [v])%list. split; [by rewrite <- app_assoc|].
    intros n Hn. apply Hl. set_solver.
  - intros [] s1 (Hp1 & Hk1 & dn & E & Hdn). rewrite app_nil_r in E. subst. by apply HQ.
Qed.
End Push.

(** ** The round trip *)
Section RoundTrip.
Context `{Bcrypt} (md : mode) (Hstrict : strict md = true) (Hlive : live md = true).
Context `{Authorizer} `{!AuthorizerOk md} `{Zip}.

(** A registry that holds module [m], which [caller] may write to, and files a
    push accepts. *)
Context (s : State) (m : Mod) (caller : User) (files : list File) (data : bytes).
Context (Huk : unique_keys (tables s)) (Hum : unique_on Mod_conflict (t_modules (tables s)))
  (Hint : integrity s) (Hm : m ∈ t_modules (tables s)) (Hw : may_write (tables s) (User_ID caller) m)
  (Hvalid : validateFiles files = None) (Hzip : zipFiles files = Some data) (Hsize : slen data <= maxUploadSize).
Abbreviation cid := (sha256_hex data).
Abbreviation key := (key_of (Mod_ID m) (sha256_hex data)).
Abbreviation pushed_s := (pushed md (User_ID caller) (Mod_ID m) data s).

Definition push_content (refs : list ScopedLabelRef) : UploadContent :=
  mkUploadContent (Some (ModuleRef_Name (mkRefName (Mod_OwnerName m) (Mod_Name m)))) files refs.

Lemma the_module t m' : t = t_modules (tables s) -> m' ∈ t -> owned_as (Mod_OwnerName m) (Mod_Name m) m' -> m' = m.
Proof using Hum Hm. intros -> Hm' [? ?]. apply Hum; [done..|]. by right. Qed.

Lemma no_module t : t = t_modules (tables s) -> (forall m', m' ∈ t -> ~ owned_as (Mod_OwnerName m) (Mod_Name m) m') -> False.
Proof using Hm. intros -> Hn. by apply (Hn m). Qed.

(** The answer of a push: the commit's identifier is the digest of the archive,
    and a commit that was there already keeps its creation time. *)
Definition push_answer (c : PbCommit) : Prop :=
  pc_Id c = cid /\ pc_ModuleId c = Mod_ID m /\ pc_CreatedByUserId c = User_ID caller /\
  pc_Digest c = Some (Sum256 data) /\
  (has_commit (tables s) (Mod_ID m) cid ->
   exists c0, c0 ∈ t_commits (tables s) /\ commit_at (Mod_ID m) cid c0 /\ pc_CreateTime c = Commit_CreatedAt c0).

Lemma push_ok refs acc (Q : outcome ConnectError (list PbCommit) -> State -> Prop) :
  (forall c s', push_answer c -> pushed_s s' ->
     (forall n, names_label refs n -> labelled s' (Mod_ID m) n cid) ->
     labels_kept s s' (Mod_ID m) (names_label refs) -> Q (Done (acc ++ [c])%list) s') ->
  awp md (Upload_content caller acc (push_content refs)) Q s.
Proof using All.
  intros HQ. unfold Upload_content. cbn [uc_ModuleRef push_content rn_Owner rn_Module uc_Files uc_ScopedLabelRefs].
  wp_read x Hx. wp_get Hx; [|by intros ?%no_module|intros ? ?; congruence].
  intros m' Hm' Ho. rewrite (the_module _ m' eq_refl Hm' Ho). clear m' Hm' Ho Hx x.
  apply awp_bind. eapply awp_mono; [apply write_ok|]. intros o s1 [-> (ok & -> & _ & Hc)]. cbn [after].
  rewrite (Hc Hlive Huk Hw). apply awp_guard; [intros _|done].
  rewrite Hvalid. apply awp_check; [intros _|done]. rewrite Hzip.
  apply awp_guard; [intros _|intros E; bool_facts; lia]. cbv zeta.
  apply awp_perform. intros r s1 (Et & Hput).
  assert (valid_key key) as Hv by (apply key_of_valid; by apply Hint). specialize (Hput Hv).
  destruct r as [e|]; [destruct Hput; congruence|]. apply awp_check; [intros _|done].
  apply awp_perform. intros now s2 [-> _]. apply awp_read; [done|]. intros rc [_ Hrc]. rewrite Et in Hrc.
  apply awp_bind.
  apply awp_mono with (Q := fun o s3 => exists at_, o = Done at_ /\ pushed_s s3 /\
    t_labels (tables s3) = t_labels (tables s) /\
    (has_commit (tables s) (Mod_ID m) cid ->
     exists c0, c0 ∈ t_commits (tables s) /\ commit_at (Mod_ID m) cid c0 /\ at_ = Commit_CreatedAt c0)).
  - destruct (gets_cases _ _ _ _ Hrc) as [(c0 & _ & -> & Hc0 & Hat)|(e & Ee & Hno)].
    + apply awp_ret. exists (Commit_CreatedAt c0). split; [done|].
      split; [|by rewrite Et; eauto]. split; rewrite ?Et; try done. left. split; [by exists c0|done].
    + destruct (Hno Hlive) as [-> Hn]. unfold gets in Hrc. rewrite Ee in Hrc. destruct Hrc as [-> _].
      apply awp_write. intros e t' (l' & -> & Hcr). destruct e as [e|].
      { exfalso. destruct Hcr as [_ Hc']. destruct (Hc' Hlive) as (_ & c0 & Hc0 & E1 & E2). rewrite Et in Hc0.
        apply (Hn c0 Hc0). by split. }
      apply awp_check; [intros _|done]. destruct Hcr as [(c & Hst & Hp) _]. rewrite Et in Hp.
      apply awp_ret. exists now. split; [done|].
      split; [|split; [by simpl; rewrite Et|by intros (c1 & Hc1 & ?); destruct (Hn c1 Hc1)]].
      split; simpl; rewrite ?Et; try done. right. split; [by apply no_witness|]. eauto.
  - intros o s3 (at_ & -> & Hp & El & Hold). cbn [after]. apply awp_bind.
    eapply (labels_ok md Hstrict Hlive); [exact Hp|]. intros s4 Hp4 Hl4 Hk4. cbn [after].
    apply awp_bind. eapply awp_mono; [apply ownerID_ok|]. intros o s5 [-> (i & ->)]. cbn [after].
    apply awp_ret, HQ; [by repeat split|done| |].
    + intros n Hn%upload_labels_spec. auto.
    + intros l Hl. rewrite <- El. apply Hk4. by rewrite upload_labels_spec.
Qed.

Lemma pushed_unique s' : pushed_s s' -> unique_keys (tables s').
Proof using Huk.
  intros Hp. destruct Huk. split; by rewrite ?(pu_users _ _ _ _ _ _ Hp), ?(pu_orgs _ _ _ _ _ _ Hp), ?(pu_members _ _ _ _ _ _ Hp).
Qed.

Lemma pushed_read s' uid : pushed_s s' -> may_read (tables s) uid m -> may_read (tables s') uid m.
Proof using.
  intros Hp. unfold may_read, may_write, is_owner, is_user, in_org.
  by rewrite (pu_users _ _ _ _ _ _ Hp), (pu_orgs _ _ _ _ _ _ Hp), (pu_members _ _ _ _ _ _ Hp).
Qed.

Lemma pushed_commit s' c : pushed_s s' -> c ∈ t_commits (tables s') -> commit_at (Mod_ID m) cid c ->
  Commit_StorageKey c = key /\ Commit_ID c = cid.
Proof using Hint.
  intros Hp Hc [E1 E2]. split; [|done].
  assert (c ∈ t_commits (tables s) -> Commit_StorageKey c = key) as Hold.
  { intros Hin. destruct (in_commits _ Hint c Hin) as (_ & -> & _). by rewrite E1, E2. }
  destruct (pu_commits _ _ _ _ _ _ Hp) as [[_ E]|(_ & c' & t & Ep & (t' & _ & ->))]; [rewrite E in Hc; auto|].
  rewrite Ep, elem_of_cons in Hc. destruct Hc as [->|?]; auto.
Qed.

Lemma pushed_has s' : pushed_s s' -> has_commit (tables s') (Mod_ID m) cid.
Proof using.
  intros Hp. unfold has_commit. destruct (pu_commits _ _ _ _ _ _ Hp) as [[Hh E]|(_ & c' & t & Ep & (t' & _ & ->))].
  - by rewrite E.
  - eexists. rewrite Ep. split; [by left|]. done.
Qed.

(** A reference that a push with labels [refs] makes good. *)
Definition pushed_child (refs : list ScopedLabelRef) (child : RefChild) : Prop :=
  match child with
  | Child_None => names_label refs "main"
  | Child_LabelName l => (l = "" /\ names_label refs "main") \/ (l <> "" /\ names_label refs l)
  | Child_Ref r => (r = "" /\ names_label refs "main") \/ r = cid
  end.

(** It resolves to the pushed commit. *)
Lemma pull_resolves refs child s' :
  pushed_s s' -> (forall n, names_label refs n -> labelled s' (Mod_ID m) n cid) -> pushed_child refs child ->
  awp md (resolveResourceRef (Some (ResourceRef_Name (mkResourceName (Mod_OwnerName m) (Mod_Name m) child))))
    (fun o s2 => s2 = s' /\ exists c, o = Done (m, Some c) /\ c ∈ t_commits (tables s') /\ commit_at (Mod_ID m) cid c) s'.
Proof using Hlive Hum Hm.
  intros Hp Hl Hchild. eapply awp_mono; [by apply resolve_meaning|]. intros o s2 [-> Hr]. split; [done|].
  assert (forall n missing, names_label refs n -> label_outcome (tables s') m n missing o ->
    exists c, o = Done (m, Some c) /\ c ∈ t_commits (tables s') /\ commit_at (Mod_ID m) cid c) as Hlab.
  { intros n missing Hn [(l & Hlin & Hat & Ho)|[Hno _]]; [|by destruct (Hl n Hn)].
    destruct (Hl n Hn) as [_ Hall]. rewrite (Hall l Hlin Hat) in Ho.
    destruct Ho as [(c & ? & ? & ->)|[Hnc _]]; [eauto|]. destruct Hnc. by apply pushed_has. }
  cbn [resolves] in Hr. destruct Hr as [[Hn _]|(m' & Hm' & Ho & Hr)].
  { exfalso. eapply no_module; [apply (pu_modules _ _ _ _ _ _ Hp)|exact Hn]. }
  cbn [xn_Owner xn_Module xn_Child] in *.
  rewrite (the_module _ m' (pu_modules _ _ _ _ _ _ Hp) Hm' Ho) in *.
  destruct child as [l|r|]; cbn [GetLabelName GetRef pushed_child] in *.
  - destruct Hchild as [[-> Hn]|[Hne Hn]]; [simpl in Hr|rewrite decide_True in Hr by done]; by eapply Hlab.
  - simpl in Hr. destruct Hchild as [[-> Hn]| ->]; [simpl in Hr; by eapply Hlab|].
    case_decide as Hd.
    + destruct Hr as [(c & ? & ? & ->)|[Hno _]]; [eauto|]. destruct Hno. by apply pushed_has.
    + exfalso. pose proof (sha256_hex_length data) as Hlen. by rewrite Hd in Hlen.
  - simpl in Hr. by eapply Hlab.
Qed.

Lemma pull_ok `{!ZipOk} refs child reader s' (Q : outcome ConnectError (list DownloadContent) -> State -> Prop) :
  pushed_s s' -> (forall n, names_label refs n -> labelled s' (Mod_ID m) n cid) -> pushed_child refs child ->
  may_read (tables s) (userID reader) m ->
  (forall d, pc_Id (dc_Commit d) = cid -> pc_ModuleId (dc_Commit d) = Mod_ID m -> dc_Files d = files -> Q (Done [d]) s') ->
  awp md (Download reader [Some (ResourceRef_Name (mkResourceName (Mod_OwnerName m) (Mod_Name m) child))]) Q s'.
Proof using All.
  intros Hp Hl Hchild Hr HQ. unfold Download. cbn [for_range]. apply awp_hbind.
  unfold Download_value. apply awp_bind. unfold not_found_of at 1. apply awp_pbind.
  eapply awp_mono; [by apply (pull_resolves refs)|]. intros o s2 [-> (c & -> & Hc & Hat)]. cbn [awp after].
  apply awp_bind. eapply awp_mono; [apply read_ok|]. intros o s3 [-> (ok & -> & _ & Hok)]. cbn [after].
  rewrite (Hok Hlive (pushed_unique _ Hp) (pushed_read _ _ Hp Hr)). apply awp_guard; [intros _|done].
  destruct (pushed_commit _ _ Hp Hc Hat) as [Ek Ei]. rewrite Ek.
  apply awp_perform. intros r s4 [-> Hget]. 
  assert (valid_key key) as Hv by (apply key_of_valid; by apply Hint). specialize (Hget Hv).
  assert (blobs s' !! key = Some data) as Hb by (rewrite (pu_blobs _ _ _ _ _ _ Hp); by rewrite lookup_insert_eq).
  destruct r as [e|d]; [destruct e; congruence|]. assert (d = data) as -> by congruence.
  rewrite (unzip_valid files data) by (try done; by apply validate_valid).
  apply awp_bind. eapply awp_mono; [apply ownerID_ok|]. intros o s5 [-> (i & ->)]. cbn [awp after for_range].
  apply awp_ret. simpl. by apply HQ.
Qed.

(** C4. What was pushed is what a pull returns: on a strict backend that does not
    fail, a push by a user with write access of files it accepts always succeeds,
    and a pull right after it - by anyone who may read the module, of the module's
    default label, of a label the push moved or of the commit itself - returns
    those files, same paths, contents and order, under the commit whose
    identifier is the SHA-256 of their archive. *)
Theorem push_then_pull `{!ZipOk} refs child reader :
  pushed_child refs child -> may_read (tables s) (userID reader) m ->
  awp md (cs ← Upload (Some caller) [push_content refs];
          ds ← Download reader [Some (ResourceRef_Name (mkResourceName (Mod_OwnerName m) (Mod_Name m) child))];
          mret (cs, ds))
    (fun o _ => exists c d, o = Done ([c], [d]) /\ push_answer c
       /\ pc_Id (dc_Commit d) = cid /\ pc_ModuleId (dc_Commit d) = Mod_ID m /\ dc_Files d = files) s.
Proof using All.
  intros Hchild Hr. apply awp_bind. unfold Upload. cbn [UserFromContext for_range]. apply awp_hbind.
  apply push_ok. intros c s' Hc Hp Hl Hk. cbn [after awp for_range app].
  apply awp_bind. eapply pull_ok; [done..|]. intros d ? ? ?. cbn [after]. apply awp_ret. by exists c, d.
Qed.

(** C14. What a push changes, exactly, on a SQL backend that does not fail: the archive is stored under the module's
    identifier and its own digest; the commit is added unless it is there; the
    labels named, [main] by default, point at it, and no other label moves; users, organizations, members,
    modules and tokens are as they were. *)
Theorem push_functional refs :
  awp md (Upload (Some caller) [push_content refs])
    (fun o s' => exists c, o = Done [c] /\ push_answer c /\ pushed_s s' /\
       (forall n, names_label refs n -> labelled s' (Mod_ID m) n cid) /\
       labels_kept s s' (Mod_ID m) (names_label refs)) s.
Proof using All.
  unfold Upload. cbn [UserFromContext for_range]. apply awp_hbind.
  apply push_ok. intros c s' Hc Hp Hl Hk. cbn [after awp for_range app]. by exists c.
Qed.

(** ** Reading single files over REST *)

(** The first file of that path, as the REST API shows it. *)
Definition shown_file (path : string) : Response :=
  match head (filter (fun f => File_Path f = path) files) with
  | Some f => writeJSON StatusOK (JObj (obj [("path", path); ("content", Base64 (File_Content f))]))
  | None => writeErr StatusNotFound "file not found"
  end.

Definition shown_listing : Response :=
  writeJSON StatusOK (JArr ((fun f => obj [("path", File_Path f); ("size", pretty (Z.to_N (slen (File_Content f))))]) <$> files)).

Lemma find_shown path : find_file path (zip_entry <$> (file_entry <$> files)) = shown_file path.
Proof using Hvalid.
  destruct (validate_valid _ Hvalid) as (_ & Hf & _). unfold shown_file. clear - Hf.
  induction Hf as [|f l [_ Hs] _ IH]; [done|]. rewrite !fmap_cons. cbn [find_file zip_entry file_entry ze_Name fst].
  rewrite filter_cons. destruct (streq (File_Path f) path) eqn:E; bool_facts.
  - rewrite decide_True by done. simpl. unfold file_response. cbn [zip_entry file_entry ze_stream ze_Name fst snd mbind option_bind].
    unfold limited_read. unfold maxFileSize in Hs. destruct (_ <? _) eqn:E2; bool_facts; [lia|]. by rewrite E.
  - rewrite decide_False by done. exact IH.
Qed.

Lemma commit_zip_ok reader s' :
  pushed_s s' -> may_read (tables s) (userID reader) m ->
  awp md (resolveCommitZip reader (Mod_OwnerName m) (Mod_Name m) cid) (fun o s2 => s2 = s' /\ o = Done data) s'.
Proof using All.
  intros Hp Hr. unfold resolveCommitZip. wp_read x Hx. wp_get Hx.
  2: { intros Hn. exfalso. eapply no_module; [apply (pu_modules _ _ _ _ _ _ Hp)|exact Hn]. }
  2: { intros ? ?. congruence. }
  intros m' Hm' Ho. rewrite (the_module _ m' (pu_modules _ _ _ _ _ _ Hp) Hm' Ho). clear m' Hm' Ho Hx x.
  apply awp_bind. eapply awp_mono; [apply read_ok|]. intros o s3 [-> (ok & -> & _ & Hok)]. cbn [after].
  rewrite (Hok Hlive (pushed_unique _ Hp) (pushed_read _ _ Hp Hr)). apply awp_guard; [intros _|done].
  wp_read y Hy. wp_get Hy.
  2: { intros Hn. exfalso. destruct (pushed_has _ Hp) as (c & Hc & Hat). by apply (Hn c). }
  2: { intros ? ?. congruence. }
  intros c Hc Hat. destruct (pushed_commit _ _ Hp Hc Hat) as [Ek Ei]. rewrite Ek.
  apply awp_perform. intros r s4 [-> Hget].
  assert (valid_key key) as Hv by (apply key_of_valid; by apply Hint). specialize (Hget Hv).
  assert (blobs s' !! key = Some data) as Hb by (rewrite (pu_blobs _ _ _ _ _ _ Hp); by rewrite lookup_insert_eq).
  destruct r as [e|d]; [destruct e; congruence|]. apply awp_ret. split; [done|]. congruence.
Qed.

(** C15. After a push, on a SQL backend that does not fail, anyone who may read the module sees it over REST: the file listing
    of the commit shows the pushed paths and sizes in order, and each path serves
    the pushed bytes, base64-encoded - of two files of the same path, the first;
    any other path is 404. *)
Theorem push_then_browse `{!ZipOk} refs reader path :
  may_read (tables s) (userID reader) m -> path <> "" ->
  awp md (pbind (Upload (Some caller) [push_content refs]) (fun _ =>
            listFiles reader (Mod_OwnerName m) (Mod_Name m) cid)) (fun o _ => o = Done shown_listing) s /\
  awp md (pbind (Upload (Some caller) [push_content refs]) (fun _ =>
            getFileContent reader (Mod_OwnerName m) (Mod_Name m) cid path)) (fun o _ => o = Done (shown_file path)) s.
Proof using All.
  intros Hr Hpath. assert (forall (k : H Response Response) Q,
    (forall s', pushed_s s' -> awp md k Q s') ->
    awp md (pbind (Upload (Some caller) [push_content refs]) (fun _ => k)) Q s) as Hafter.
  { intros k Q Hk. apply awp_pbind. unfold Upload. cbn [UserFromContext for_range]. apply awp_hbind.
    apply push_ok. intros c s' _ Hp _ _. cbn [after awp for_range app]. by apply Hk. }
  split; apply Hafter; intros s' Hp.
  - unfold listFiles. apply awp_bind. eapply awp_mono; [by apply commit_zip_ok|]. intros o s2 [-> ->]. cbn [after].
    rewrite (zip_opens files) by done. apply awp_ret. unfold shown_listing. rewrite <- !list_fmap_compose. done.
  - unfold getFileContent. apply awp_guard; [intros _|by rewrite (proj2 (streq_false _ _) Hpath)].
    apply awp_bind. eapply awp_mono; [by apply commit_zip_ok|]. intros o s2 [-> ->]. cbn [after].
    rewrite (zip_opens files) by done. apply awp_ret. by rewrite find_shown.
Qed.
End RoundTrip.
