(* ===== verification/Privacy.v ===== *)
(** * Private modules cannot be told from missing ones

    Over REST, every module route answers a caller who may not read the module
    exactly as it answers when there is no such module; and no listing, over
    REST or Connect, shows a module its caller may not read. *)
From S2P Require Import Prelude GoStd Model Iface Prog Auth Authz ModuleApi UploadApi OwnerApi RestApi.

Section Hiding.
Context `{Bcrypt} (md : mode) `{Authorizer} `{!AuthorizerOk md} `{Zip}.
Context (ctx : Ctx).
Abbreviation uid := (userID (UserFromContext ctx)).

(** Nothing the caller may read has this name. *)
Definition hidden (t : Tables) (owner repo_ : string) : Prop :=
  forall m, m ∈ t_modules t -> owned_as owner repo_ m -> ~ may_read t uid m.

(** The one answer for a hidden module; a failing backend may turn it into 500. *)
Definition answers_hidden {A} (o : outcome Response A) : Prop :=
  o = Fail rest_module_not_found \/ (live md = false /\ o = Fail rest_internal).

Definition hides {A} (p : H Response A) (s : State) : Prop :=
  awp md p (fun o s' => s' = s /\ answers_hidden o) s.

Lemma hides_bind {A B} (p : H Response A) (f : A -> H Response B) s : hides p s -> hides (p ≫= f) s.
Proof using. intros Hp. apply awp_bind. eapply awp_mono; [exact Hp|]. by intros o s' [-> [->|[? ->]]]; split; auto; [left|right]. Qed.

(** The lookup and the check that open every route. *)
Lemma lookup_hides {A} owner repo_ (f : Mod -> unit -> H Response A) s :
  hidden (tables s) owner repo_ ->
  hides (r ← repo (Modules_Get owner repo_);
         m ← need r (fun e => if is_not_found e then rest_module_not_found else rest_internal);
         ok ← CanReadModule uid m; u ← guard_ ok rest_module_not_found; f m u) s.
Proof using All.
  intros Hh. unfold hides. wp_read x Hx. wp_get Hx.
  - intros m Hm Ho. apply awp_bind. eapply awp_mono; [apply read_ok|]. intros o s' [-> (ok & -> & Hok & _)].
    cbn [after]. apply awp_guard; [|by split; [|left]]. intros ->. by destruct (Hh m Hm Ho (Hok eq_refl)).
  - intros _. split; [done|]. by left.
  - intros msg Hl. split; [done|]. by right.
Qed.

(** C17. A module the caller may not read and a module that does not exist get the
    same answer, 404 [module not found], on every module, commit, label and file
    route, and the request leaves the state as it was: REST does not disclose
    which private modules exist. *)
Theorem rest_hides_private_modules owner repo_ commitID path s :
  hidden (tables s) owner repo_ ->
  hides (getModule ctx owner repo_) s /\
  hides (listCommits ctx owner repo_) s /\ hides (getCommit ctx owner repo_ commitID) s /\
  hides (listLabels ctx owner repo_) s /\
  hides (listFiles ctx owner repo_ commitID) s /\
  (path <> "" -> hides (getFileContent ctx owner repo_ commitID path) s).
Proof using All.
  intros Hh.
  assert (hides (resolveCommitZip ctx owner repo_ commitID) s) as Hzip.
  { unfold resolveCommitZip. simple apply lookup_hides. exact Hh. }
  assert (hides (checkModuleAccess ctx owner repo_) s) as Hmod.
  { unfold checkModuleAccess. simple apply lookup_hides. exact Hh. }
  split_and!; [unfold getModule; simple apply lookup_hides; exact Hh|by apply hides_bind..|].
  intros Hp. unfold getFileContent. rewrite (proj2 (streq_false _ _) Hp). apply awp_guard; [intros _|done].
  by apply hides_bind.
Qed.
End Hiding.

(** ** Listings *)
Section Readable.
Context (md : mode) (ctx : Ctx).
Abbreviation uid := (userID (UserFromContext ctx)).

(** [sel] are modules of [mods] the caller may read; all of them, when the backend
    does not fail and the tables have unique keys. *)
Definition readable_of (s : State) (mods sel : list Mod) : Prop :=
  (forall m, m ∈ sel -> m ∈ mods /\ may_read (tables s) uid m) /\
  (live md = true -> unique_keys (tables s) -> forall m, m ∈ mods -> may_read (tables s) uid m -> m ∈ sel).

Lemma readable_nil s : readable_of s [] [].
Proof. split; intros; set_solver. Qed.

Lemma readable_snoc s mods sel m (ok : bool) : readable_of s mods sel ->
  (ok = true -> may_read (tables s) uid m) ->
  (live md = true -> unique_keys (tables s) -> may_read (tables s) uid m -> ok = true) ->
  readable_of s (mods ++ [m]) (if ok then sel ++ [m] else sel)%list.
Proof.
  intros [Hs Hc] Hok Hno. split.
  - intros x Hx. destruct ok; [|destruct (Hs x Hx); set_solver].
    apply elem_of_app in Hx as [Hx|Hx%list_elem_of_singleton]; [destruct (Hs x Hx); set_solver|].
    subst. split; [set_solver|auto].
  - intros Hl Hu x Hx Hr. apply elem_of_app in Hx as [Hx|Hx%list_elem_of_singleton].
    + specialize (Hc Hl Hu x Hx Hr). destruct ok; set_solver.
    + subst. rewrite (Hno Hl Hu Hr). set_solver.
Qed.

End Readable.

Section FilterLoop.
Context `{Bcrypt} (md : mode) (ctx : Ctx).
Abbreviation uid := (userID (UserFromContext ctx)).
Abbreviation readable_of := (readable_of md ctx).

(** A loop that checks each module and adds what it shows of a readable one. *)
Lemma filter_loop {E X} (shows : Mod -> X -> Prop) (mods : list Mod) (acc : list X)
    (body : list X -> Mod -> H E (list X)) s (Q : outcome E (list X) -> State -> Prop) :
  (forall acc m, awp md (body acc m) (fun o s' => s' = s /\ exists (ok : bool) x,
     o = Done (if ok then acc ++ [x] else acc)%list /\ (ok = true -> shows m x /\ may_read (tables s) uid m) /\
     (live md = true -> unique_keys (tables s) -> may_read (tables s) uid m -> ok = true)) s) ->
  (forall sel xs, readable_of s mods sel -> Forall2 shows sel xs -> Q (Done (acc ++ xs)%list) s) ->
  awp md (for_range mods acc body) Q s.
Proof.
  intros Hb HQ. apply (awp_for_range md (fun vs a s' => s' = s /\ exists dn sel xs,
    mods = (dn ++ vs)%list /\ a = (acc ++ xs)%list /\ readable_of s dn sel /\ Forall2 shows sel xs)).
  - split; [done|]. exists [], [], []. rewrite app_nil_r. do 2 (split; [done|]). split; [apply readable_nil|constructor].
  - intros m vs a s1 (-> & dn & sel & xs & -> & -> & Hr & Hf). eapply awp_mono; [apply Hb|].
    intros o s2 [-> (ok & x & -> & Hok & Hno)]. split; [done|].
    exists (dn ++ [m])%list, (if ok then sel ++ [m] else sel)%list, (if ok then xs ++ [x] else xs)%list.
    split; [by rewrite <- app_assoc|]. split; [destruct ok; [by rewrite app_assoc|done]|].
    split; [apply readable_snoc; [exact Hr|intros E1; by apply Hok|exact Hno]|]. destruct ok; [|done]. apply Forall2_app; [done|].
    constructor; [by apply Hok|constructor].
  - intros a s1 (-> & dn & sel & xs & Ed & -> & Hr & Hf). rewrite app_nil_r in Ed. subst. by eapply HQ.
Qed.
End FilterLoop.

Section Listings.
Context `{Bcrypt} (md : mode) `{Authorizer} `{!AuthorizerOk md}.
Context (ctx : Ctx).
Abbreviation uid := (userID (UserFromContext ctx)).
Abbreviation readable_of := (readable_of md ctx).

Definition shows_proto (m : Mod) (p : PbModule) : Prop := exists ownerID, p = moduleToProto m ownerID.
Definition shows_json (m : Mod) (j : gmap string string) : Prop := j = moduleToJSON m.

(** An owner's listing: the stored modules under that name the caller may read. *)
Definition lists_owner (s : State) (owner : string) (sel : list Mod) : Prop :=
  exists mods, mods ≡ₚ filter (fun m => Mod_OwnerName m = owner) (t_modules (tables s)) /\ readable_of s mods sel.

Lemma rest_loop (mods : list Mod) s (Q : outcome Response (list (gmap string string)) -> State -> Prop) :
  (forall sel, readable_of s mods sel -> Q (Done (moduleToJSON <$> sel)) s) ->
  awp md (for_range mods [] (fun result m =>
    ok ← CanReadModule uid m;
    mret (if ok : bool then result ++ [moduleToJSON m] else result)%list)) Q s.
Proof using All.
  intros HQ. apply (filter_loop md ctx shows_json).
  - intros acc m. apply awp_bind. eapply awp_mono; [apply read_ok|]. intros o s' [-> (ok & -> & Hok & Hno)].
    cbn [after]. apply awp_ret. split; [done|]. exists ok, (moduleToJSON m). split; [done|]. split; [|done].
    intros E. split; [done|auto].
  - intros sel xs Hr Hf. assert (xs = moduleToJSON <$> sel) as -> by (unfold shows_json in Hf; clear -Hf; by induction Hf as [|? ? ? ? -> _ ->]). by apply HQ.
Qed.

Definition owner_needed : ConnectError := NewError CodeInvalidArgument "owner ref must have name".

Lemma owner_loop acc owner s (Q : outcome ConnectError (list PbModule) -> State -> Prop) :
  (owner = "" -> Q (Fail owner_needed) s) ->
  (owner <> "" -> live md = false -> Q (Fail internal_error) s) ->
  (forall sel xs, owner <> "" -> lists_owner s owner sel -> Forall2 shows_proto sel xs -> Q (Done (acc ++ xs)%list) s) ->
  awp md (ListModules_owner (UserFromContext ctx) acc (OwnerRef_Name owner)) Q s.
Proof using All.
  intros HE HF HQ. unfold ListModules_owner. cbn [resolveOwnerRefName OwnerRef_GetName].
  apply awp_guard; [intros E|intros E]; bool_facts; [|by apply HE].
  wp_read x Hx. apply (awp_need_list _ _ _ _ _ _ _ Hx); [|intros e Hl; by apply HF].
  intros mods Hmods. apply (filter_loop md ctx shows_proto).
  - intros acc' m. apply awp_bind. eapply awp_mono; [apply read_ok|]. intros o s' [-> (ok & -> & Hok & Hno)].
    cbn [after]. destruct ok.
    + apply awp_bind. eapply awp_mono; [apply ownerID_ok|]. intros o s' [-> (i & ->)]. cbn [after].
      apply awp_ret. split; [done|]. exists true, (moduleToProto m i). split; [done|]. split; [|done].
      intros _. split; [by exists i|auto].
    + apply awp_ret. split; [done|]. exists false, (moduleToProto m ""). done.
  - intros sel xs Hr Hf. apply (HQ sel xs); [done|by exists mods|done].
Qed.

End Listings.
