(* ===== verification/Limits.v ===== *)
(** * What the code does not guarantee

    Runs of the registry that show where a stronger theorem would be false:
    each is an execution of the handlers as they are written. *)
From S2P Require Import Prelude GoStd Sha256 Model Iface Gorm Sql Prog World Storage Auth Authz ModuleApi UploadApi OwnerApi RestApi Server Instances Scenario.
From S2P Require Mongo MongoWorld.

(** ** A decoding failure on MongoDB *)
Definition mongo_registry : MongoWorld.mworld :=
  MongoWorld.mkMworld (MongoWorld.mkMongoMem [alice] [] [] [demo] [] [] []) ∅ 0.

#[local] Instance failing_registry : Env MongoWorld.mworld := MongoWorld.mworld_env true.

(** When the read of a commit fails to decode, the MongoDB store returns a non-nil
    record next to the error; [Upload] takes it for an existing commit, answers
    with success, and leaves the label on a commit that was never stored. *)
Theorem mongo_push_without_commit :
  let '(o, w) := run (Upload (Some alice) [push "alice" "demo" hello]) mongo_registry in
  (exists c, o = Done [c]) /\ t_commits (tables (view w)) = [] /\
  exists l, t_labels (tables (view w)) = [l] /\ Label_Name l = "main".
Proof. vm_compute. eauto 10. Qed.

(** ** Errors that come before the access check *)
Definition ref_to (owner repo_ child : string) : ResourceRef :=
  ResourceRef_Name (mkResourceName owner repo_ (Child_Ref child)).

(** Over Connect, an anonymous caller tells a private module from a missing one:
    a reference is resolved before the access check, and the resolution's error
    says which part of it was missing. *)
Theorem connect_discloses_private_modules :
  (run (GetCommits None [ref_to "alice" "secret" "x"]) registry).1 = Fail (NewError CodeNotFound "ref not found: x") /\
  (run (GetCommits None [ref_to "alice" "nothing" "x"]) registry).1 =
    Fail (NewError CodeNotFound "module not found: alice/nothing").
Proof. vm_compute. done. Qed.

(** ** One namespace for two kinds of owners *)

(** Users and organizations are not unique together: bob may found an organization
    of alice's name, and then create modules under her name. *)
Theorem organization_takes_user_namespace :
  let '(o, w) := run (_ ← createOrg (Some bob) (Some "alice");
                      createModule (Some bob) (Some (mkCreateModuleRequest "alice" "evil" "public"))) registry in
  resp_code <$> (match o with Done r => Some r | _ => None end) = Some StatusCreated /\
  exists m, m ∈ t_modules (tables (view w)) /\ owned_as "alice" "evil" m.
Proof.
  vm_compute. split; [done|]. eexists. split; [by left|]. done.
Qed.

(** ** The note that logins use *)

(** A token its owner named [login] is not listed, and the next login deletes it. *)
Theorem token_named_login_is_lost :
  let '(o, w) := run (_ ← createToken (Some alice) (Some "login"); listTokens (Some alice)) registry in
  resp_body <$> (match o with Done r => Some r | _ => None end) =
    Some (JArr [obj [("id", "f1"); ("note", "laptop")]]) /\
  let '(_, w') := run (login (Some (mkCredentials "alice" "password"))) w in
  (length (t_tokens (tables (view w))), length (t_tokens (tables (view w')))) = (2, 2)%nat.
Proof. vm_compute. done. Qed.

(** ** Two pushes of the same content *)

(** Of two pushes of the same new content that run together, one looks for the
    commit before the other stores it and then fails on the unique key, although
    the commit it was to make is there. *)
Theorem concurrent_push_fails :
  let push_demo := Upload (Some alice) [push "alice" "demo" hello] in
  let '(p1, w1) := run_n 5 push_demo registry in
  let '(_, w2) := run push_demo w1 in
  let '(o, w3) := run p1 w2 in
  o = Fail (NewError CodeInternal "failed to create commit") /\ length (t_commits (tables (view w3))) = 1%nat.
Proof. vm_compute. done. Qed.

(** ** Two files of one path *)
Definition twice : list File := [mkFile "a.proto" "first"; mkFile "a.proto" "second"].

(** A push of two files of one path is accepted; the descriptor set is compiled from
    the second, and the file view serves the first. *)
Theorem duplicate_paths_disagree :
  let '(o, w) := run (Upload (Some alice) [push "alice" "demo" twice]) registry in
  match o with
  | Done [c] =>
      file_map twice !! "a.proto" = Some "second" /\
      (run (getFileContent None "alice" "demo" (pc_Id c) "a.proto") w).1 =
        Done (writeJSON StatusOK (JObj (obj [("path", "a.proto"); ("content", Base64 "first")])))
  | _ => False
  end.
Proof. vm_compute. done. Qed.

(** ** The answer of a label move *)

(** Moving a label that exists answers with an identifier no row has: the stored row
    keeps its own. *)
Theorem label_answer_names_no_row :
  let '(o, w) := run (cs ← Upload (Some alice) [push "alice" "demo" hello];
    CreateOrUpdateLabels (Some alice)
      ((fun c => mkLabelValue (Some (LabelRef_Name (mkLabelName "alice" "demo" "main"))) (pc_Id c)) <$> cs)) registry in
  exists a l, o = Done [a] /\ t_labels (tables (view w)) = [l] /\ Label_Name l = pl_Name a /\ Label_ID l <> pl_Id a.
Proof. vm_compute. eexists _, _. done. Qed.

(** ** A permission taken away in between *)

(** A push checks its permission once: a member removed from the organization after
    that check still pushes, although by then bob may not write the module. *)
Theorem revoked_member_still_pushes :
  let push_shared := Upload (Some bob) [push "acme" "shared" hello] in
  let '(p1, w1) := run_n 3 push_shared registry in
  let '(r, w2) := run (removeMember (Some alice) "acme" "bob") w1 in
  let '(o, w3) := run p1 w2 in
  (exists c, o = Done [c]) /\ length (t_commits (tables (view w3))) = 1%nat /\
  t_members (tables (view w2)) = [mkOrgMember "0a" "a1" "admin"] /\ w_blobs w2 = ∅.
Proof. vm_compute. eauto 10. Qed.
