(* ===== verification/Work.v ===== *)
(** * How much a request asks of the backend

    A handler's loops run over its message and over rows it has read, so the number
    of operations it performs is bounded by the message and by the rows a listing
    returns.  [within] states such a bound of a program, [connect_work] and
    [rest_work] give it for every handler, and the pool of requests in flight
    inherits it: it stops, with every request answered, whatever the schedule. *)
From S2P Require Import Prelude GoStd Model Iface Prog Auth Authz ModuleApi UploadApi OwnerApi RestApi Server.
#[local] Open Scope nat_scope.

(** ** Bounds on programs *)
Section Within.
Context (rows : nat).

(** An answer of a database that holds at most [rows] modules. *)
Definition op_plausible {X} (o : repo_op X) : X -> Prop :=
  match o in repo_op X return X -> Prop with
  | Modules_List _ => fun x => err x = None -> length (default [] (val x)) <= rows
  | Modules_ListPublic _ n => fun x => err x = None -> n <> 0 -> length (default [] (val x)) <= n
  | _ => fun _ => True
  end.

Definition plausible {X} (e : eff X) : X -> Prop :=
  match e in eff X return X -> Prop with Repo o => op_plausible o | _ => fun _ => True end.

(** At most [n] operations on every path the answers can take. *)
Fixpoint within {A} (n : nat) (p : prog A) {struct p} : Prop :=
  match p with
  | Ret _ => True
  | Vis e k => match n with 0 => False | S n => forall x, plausible e x -> within n (k x) end
  end.

Lemma within_mono {A} n m (p : prog A) : n <= m -> within n p -> within m p.
Proof.
  revert n m; induction p as [a|X e k IH]; intros n m Hle; [done|].
  destruct n as [|n]; simpl; [done|]. destruct m as [|m]; [lia|]. intros Hk x Hx.
  apply (IH x n); [lia|auto].
Qed.

Lemma within_pbind {A B} n m (p : prog A) (f : A -> prog B) :
  within n p -> (forall a, within m (f a)) -> within (n + m) (pbind p f).
Proof.
  intros Hp Hf. revert n Hp; induction p as [a|X e k IH]; intros n Hp.
  - apply (within_mono m); [lia|apply Hf].
  - destruct n as [|n]; [done|]. intros x Hx. apply IH, Hp, Hx.
Qed.

Lemma wk_bind {E A B} a n (p : H E A) (f : A -> H E B) :
  within a p -> a <= n -> (forall x, within (n - a) (f x)) -> within n (p ≫= f).
Proof.
  intros Hp Hle Hf. replace n with (a + (n - a)) by lia.
  apply within_pbind; [done|]. by intros [x|e|].
Qed.

Lemma wk_op {E X B} n (e : eff X) (f : X -> H E B) :
  (forall x, plausible e x -> within n (f x)) -> within (S n) (perform e ≫= f).
Proof. intros Hf x Hx. by apply Hf. Qed.

Lemma wk_need {E A} (x : goret A) (f : ierr -> E) : within 0 (need x f).
Proof. unfold need. by destruct (err x), (val x). Qed.

Lemma wk_ret {E A} (a : A) : within 0 (mret a : H E A).
Proof. done. Qed.

Lemma wk_check {E A} (x : option A) (f : A -> E) : within 0 (check x f).
Proof. by destruct x. Qed.

Lemma wk_guard {E} b (e : E) : within 0 (guard_ b e).
Proof. by destruct b. Qed.

(** A loop costs what its rounds cost together. *)
Lemma wk_for_range_sum {E V Acc} (c : V -> nat) (vs : list V) (acc : Acc) (body : Acc -> V -> H E Acc) :
  (forall acc v, within (c v) (body acc v)) -> within (sum_list_with c vs) (for_range vs acc body).
Proof.
  intros Hb. revert acc. induction vs as [|v vs IH]; intros acc; [done|].
  apply (within_pbind (c v)); [apply Hb|]. intros [a|e|]; [apply IH|done|done].
Qed.

Lemma sum_const {V} (c : nat) (vs : list V) : sum_list_with (fun _ => c) vs = length vs * c.
Proof. induction vs; simpl; lia. Qed.

Lemma wk_for_range {E V Acc} c n (vs : list V) (acc : Acc) (body : Acc -> V -> H E Acc) :
  (forall acc v, within c (body acc v)) -> length vs * c <= n -> within n (for_range vs acc body).
Proof.
  intros Hb Hn. apply (within_mono (length vs * c)); [done|]. rewrite <- sum_const.
  by apply wk_for_range_sum.
Qed.

Lemma wk_not_found_of {A} n (p : H string A) : within n p -> within n (not_found_of p).
Proof.
  intros Hp. unfold not_found_of. replace n with (n + 0) by lia. by apply within_pbind.
Qed.

Lemma wk_discard {A} n (p : prog A) : within n p -> within n (discard p).
Proof. intros Hp. unfold discard. replace n with (n + 0) by lia. by apply within_pbind. Qed.

(** After a listing: the rows it returned. *)
Lemma wk_need_list {E A B} n r (x : goret (list A)) (h : ierr -> E) (f : list A -> H E B) :
  (err x = None -> length (default [] (val x)) <= r) ->
  (forall l, length l <= r -> within n (f l)) -> within n (need x h ≫= f).
Proof.
  intros Hx Hf. unfold need. destruct (err x) as [e|]; [done|]. destruct (val x) as [l|]; [|done].
  apply Hf. by apply Hx.
Qed.
End Within.

(** ** The authorizer's share *)
Class AuthorizerWork `{Authorizer} : Prop := {
  read_work E rows uid m : within rows 2 (CanReadModule uid m : H E bool);
  write_work E rows uid m : within rows 2 (CanWriteModule uid m : H E bool);
  admin_work E rows uid m : within rows 2 (CanAdminModule uid m : H E bool);
  create_work E rows uid o : within rows 3 (CanCreateModule uid o : H E bool);
  manage_work E rows uid o : within rows 1 (CanManageOrgMembers uid o : H E bool) }.

Create HintDb work.
#[export] Hint Resolve wk_need wk_ret wk_check wk_guard wk_not_found_of
  read_work write_work admin_work create_work manage_work : work.

(** Follow a program's text: an operation takes one off the bound, a known piece
    its own share. *)
Ltac wk_step :=
  cbn [Nat.sub Nat.add];
  first
    [ exact I
    | progress intros
    | eapply wk_bind; [solve [simple eapply wk_ret|eauto 3 with work]|lia|]
    | apply wk_op
    | match goal with
      | |- within _ _ (mbind _ (match ?x with _ => _ end)) => destruct x
      | |- within _ _ (mbind _ (if ?x then _ else _)) => destruct x
      end
    | match goal with
      | |- within _ _ (match ?x with _ => _ end) => destruct x
      | |- within _ _ (if ?x then _ else _) => destruct x
      | |- within _ _ (let '_ := ?x in _) => destruct x
      end
    | solve [eapply within_mono; [|solve [eauto 3 with work]]; lia] ].
Ltac wk_tac := repeat wk_step.

(** ** Shared pieces *)
Lemma resolve_work rows ref : within rows 4 (resolveResourceRef ref).
Proof. unfold resolveResourceRef. wk_tac. Qed.

Lemma ownerID_work {E} rows m : within rows 1 (resolveOwnerIDHelper m : H E string).
Proof. unfold resolveOwnerIDHelper. wk_tac. Qed.

Lemma token_expired_work {E} rows t : within rows 1 (token_expired t : H E bool).
Proof. unfold token_expired. wk_tac. Qed.

#[export] Hint Resolve resolve_work ownerID_work token_expired_work : work.

Lemma middleware_work {E Resp} rows n authorization (next : Ctx -> H E Resp) ctx :
  (forall c, within rows n (next c)) -> within rows (3 + n) (Middleware authorization next ctx).
Proof.
  intros Hn. assert (forall k c, within rows (k + n) (next c)) as Hk
    by (intros; eapply within_mono; [|apply Hn]; lia).
  unfold Middleware. destruct (_ || _); [apply (Hk 3)|]. apply wk_op. intros x _.
  destruct (err x); [apply (Hk 2)|]. destruct (val x); [|done].
  eapply (wk_bind _ 1); [apply token_expired_work|lia|]. intros []; [apply (Hk 1)|].
  apply wk_op. intros y _. destruct (err y); [apply (Hk 0)|]. destruct (val y); [apply (Hk 0)|done].
Qed.

Lemma interceptor_work {Resp} rows n authorization (next : Ctx -> H ConnectError Resp) ctx :
  (forall c, within rows n (next c)) -> within rows (3 + n) (NewConnectInterceptor authorization next ctx).
Proof.
  intros Hn. assert (forall k c, within rows (k + n) (next c)) as Hk
    by (intros; eapply within_mono; [|apply Hn]; lia).
  unfold NewConnectInterceptor. destruct (_ || _); [apply (Hk 3)|]. apply wk_op. intros x _.
  eapply (wk_bind _ 0); [apply wk_need|lia|]. intros t.
  eapply (wk_bind _ 1); [apply token_expired_work|lia|]. intros []; [done|].
  apply wk_op. intros y _. eapply (wk_bind _ 0); [apply wk_need|lia|]. intros u.
  eapply within_mono; [|apply Hn]; lia.
Qed.

(** ** Every handler's share *)
Section Handlers.
Context `{Bcrypt} `{Authorizer} `{!AuthorizerWork} `{Zip}.

Definition content_work (c : UploadContent) : nat := 8 + 2 * length (upload_labels (uc_ScopedLabelRefs c)).

(** Operations of a Connect handler, from the size of its message; only a listing
    of modules also depends on the rows it finds. *)
Inductive connect_work (rows : nat) (openReg : bool) : forall R, (Ctx -> H ConnectError R) -> nat -> Prop :=
| cw_authn : connect_work rows openReg _ AuthnService_GetCurrentUser 0
| cw_owners refs : connect_work rows openReg _ (fun _ => GetOwners refs) (length refs * 2)
| cw_get_orgs refs : connect_work rows openReg _ (fun _ => GetOrganizations refs) (length refs * 1)
| cw_create_orgs names : connect_work rows openReg _ (fun ctx => CreateOrganizations ctx names) (length names * 5)
| cw_get_users refs : connect_work rows openReg _ (fun _ => GetUsers refs) (length refs * 1)
| cw_current_user : connect_work rows openReg _ GetCurrentUser 0
| cw_create_users names : connect_work rows openReg _ (fun _ => CreateUsers openReg names) (length names * 4)
| cw_get_modules refs : connect_work rows openReg _ (fun ctx => GetModules ctx refs) (length refs * 4)
| cw_list_modules refs : connect_work rows openReg _ (fun ctx => ListModules ctx refs) (length refs * (1 + rows * 3))
| cw_create_modules values : connect_work rows openReg _ (fun ctx => CreateModules ctx values) (length values * 8)
| cw_upload contents :
    connect_work rows openReg _ (fun ctx => Upload ctx contents) (sum_list_with content_work contents)
| cw_download values : connect_work rows openReg _ (fun ctx => Download ctx values) (length values * 8)
| cw_get_commits refs : connect_work rows openReg _ (fun ctx => GetCommits ctx refs) (length refs * 7)
| cw_list_commits ref : connect_work rows openReg _ (fun ctx => ListCommits ctx ref) 8
| cw_get_labels refs : connect_work rows openReg _ (fun ctx => GetLabels ctx refs) (length refs * 5)
| cw_list_labels ref : connect_work rows openReg _ (fun ctx => ListLabels ctx ref) 8
| cw_update_labels values : connect_work rows openReg _ (fun ctx => CreateOrUpdateLabels ctx values) (length values * 8)
| cw_fds ref : connect_work rows openReg _ (fun ctx => GetFileDescriptorSet ctx ref) 9
| cw_unimplemented method : connect_work rows openReg _ (Unimplemented method) 0.

Inductive rest_work (rows : nat) (openReg : bool) : (Ctx -> H Response Response) -> nat -> Prop :=
| rw_register body : rest_work rows openReg (fun _ => register openReg body) 5
| rw_login body : rest_work rows openReg (fun _ => login body) 7
| rw_me : rest_work rows openReg me 0
| rw_list_tokens : rest_work rows openReg listTokens 2
| rw_create_token body : rest_work rows openReg (fun ctx => createToken ctx body) 4
| rw_revoke_token id : rest_work rows openReg (fun ctx => revokeToken ctx id) 1
| rw_user name : rest_work rows openReg (fun _ => getUser name) 1
| rw_org name : rest_work rows openReg (fun _ => getOrg name) 1
| rw_create_org body : rest_work rows openReg (fun ctx => createOrg ctx body) 4
| rw_add_member name body : rest_work rows openReg (fun ctx => addMember ctx name body) 4
| rw_remove_member name user : rest_work rows openReg (fun ctx => removeMember ctx name user) 4
| rw_module o r : rest_work rows openReg (fun ctx => getModule ctx o r) 3
| rw_modules o q : rest_work rows openReg (fun ctx => listModules ctx o q) (1 + Nat.max rows 50 * 2)
| rw_create_module body : rest_work rows openReg (fun ctx => createModule ctx body) 7
| rw_commits o r : rest_work rows openReg (fun ctx => listCommits ctx o r) 4
| rw_commit o r i : rest_work rows openReg (fun ctx => getCommit ctx o r i) 4
| rw_labels o r : rest_work rows openReg (fun ctx => listLabels ctx o r) 4
| rw_files o r i : rest_work rows openReg (fun ctx => listFiles ctx o r i) 5
| rw_file o r i p : rest_work rows openReg (fun ctx => getFileContent ctx o r i p) 5.

(** A loop of constant cost. *)
Ltac wk_loop c := apply (wk_for_range _ c); [intros|lia].

Lemma list_modules_work rows refs ctx : within rows (length refs * (1 + rows * 3)) (ListModules ctx refs).
Proof.
  wk_loop (1 + rows * 3). unfold ListModules_owner. eapply (wk_bind _ 0); [apply wk_guard|lia|]. intros _.
  replace (1 + rows * 3 - 0) with (S (rows * 3)) by lia. apply wk_op. intros x Hx.
  apply (wk_need_list _ _ rows); [exact Hx|]. intros l Hl.
  apply (wk_for_range _ 3); [|lia]. intros. wk_tac.
Qed.

Lemma listModules_work rows o q ctx : within rows (1 + Nat.max rows 50 * 2) (listModules ctx o q).
Proof.
  unfold listModules.
  assert (forall x : goret (list Mod), (err x = None -> length (default [] (val x)) <= Nat.max rows 50) ->
    within rows (Nat.max rows 50 * 2) (mods ← need x (fun _ => rest_internal);
      result ← for_range mods [] (fun result m =>
        ok ← CanReadModule (userID (UserFromContext ctx)) m;
        mret (if ok : bool then result ++ [moduleToJSON m] else result)%list);
      mret (writeJSON StatusOK (JArr result)) : H Response Response)) as Hk.
  { intros x Hx. eapply wk_need_list; [exact Hx|]. intros l Hl.
    eapply (wk_bind _ (length l * 2)); [|lia|by intros].
    apply (wk_for_range _ 2); [|lia]. intros. wk_tac. }
  destruct (negb _); apply (wk_op _ (Nat.max rows 50 * 2)); intros x Hx; apply Hk; simpl in Hx.
  - intros Ex. specialize (Hx Ex). lia.
  - intros Ex. specialize (Hx Ex). lia.
Qed.

Lemma upload_work rows contents ctx : within rows (sum_list_with content_work contents) (Upload ctx contents).
Proof.
  unfold Upload. destruct (UserFromContext ctx) as [u|]; [|done]. apply wk_for_range_sum. intros acc c.
  unfold Upload_content, content_work. destruct (uc_ModuleRef c) as [[]|]; try done.
  set (labels := upload_labels _). generalize labels. clear labels. intros labels.
  repeat lazymatch goal with
    | |- within _ _ (mbind _ (match val _ with _ => _ end)) =>
        eapply (wk_bind _ 1); [destruct (val _); wk_tac|lia|intros]
    | |- within _ _ (mbind _ (mbind _ (for_range _ _ _))) => idtac
    | |- _ => wk_step
    end.
  all: eapply (wk_bind _ (length labels * 2)); [wk_loop 2; wk_tac|lia|]; intros _.
  all: eapply (wk_bind _ 1); [apply ownerID_work|lia|by intros].
Qed.

(** The table's bounds hold. *)
Lemma connect_within rows openReg R h n ctx : connect_work rows openReg R h n -> within rows n (h ctx).
Proof.
  intros Hw. destruct Hw; try apply list_modules_work; try apply upload_work.
  all: unfold AuthnService_GetCurrentUser, GetOwners, GetOrganizations, CreateOrganizations, GetUsers, GetCurrentUser,
    CreateUsers, GetModules, CreateModules, Download, GetCommits, ListCommits, GetLabels, ListLabels,
    CreateOrUpdateLabels, GetFileDescriptorSet, Unimplemented.
  all: try match goal with |- within _ _ (match UserFromContext _ with _ => _ end) =>
    destruct (UserFromContext ctx) as [u|]; [|done] end.
  all: try match goal with |- within _ _ (if negb ?b then _ else _) => destruct (negb b); [done|] end.
  all: try match goal with |- within _ (length _ * ?c) _ => wk_loop c end.
  all: unfold GetOwners_ref, GetOwners_try, GetOrganizations_ref, CreateOrganizations_value, GetUsers_ref,
    CreateUsers_value, GetModules_ref, CreateModules_value, Download_value, GetCommits_ref, GetLabels_ref,
    CreateOrUpdateLabels_value.
  all: wk_tac.
Qed.

Lemma access_work rows ctx o r : within rows 3 (checkModuleAccess ctx o r).
Proof. unfold checkModuleAccess. wk_tac. Qed.

Lemma commit_zip_work rows ctx o r i : within rows 5 (resolveCommitZip ctx o r i).
Proof. unfold resolveCommitZip. wk_tac. Qed.

Hint Resolve access_work commit_zip_work : work.

Lemma rest_within rows openReg h n ctx : rest_work rows openReg h n -> within rows n (h ctx).
Proof.
  intros Hw. destruct Hw; try apply listModules_work.
  all: unfold register, login, me, listTokens, createToken, revokeToken, getUser, getOrg, createOrg,
    addMember, removeMember, getModule, createModule, listCommits, getCommit, listLabels,
    listFiles, getFileContent, require_user, decode.
  all: wk_tac.
Qed.
End Handlers.

(** ** The authorizer of internal/authz *)
Lemma moduleRole_work {E} rows uid m : within rows 2 (resolveModuleRole uid m : H E string).
Proof. unfold resolveModuleRole. wk_tac. Qed.

Lemma orgRole_work {E} rows uid o : within rows 1 (resolveOrgRole uid o : H E string).
Proof. unfold resolveOrgRole. wk_tac. Qed.

Lemma ownerRole_work {E} rows uid o : within rows 3 (resolveOwnerRole uid o : H E (option string)).
Proof. unfold resolveOwnerRole. cbv zeta. wk_tac. Qed.

#[local] Hint Resolve moduleRole_work orgRole_work ownerRole_work : work.

#[export] Instance authz_work `{Casbin} enforcer : @AuthorizerWork (authz_Authorizer enforcer).
Proof.
  split; intros; cbn [CanReadModule CanWriteModule CanAdminModule CanCreateModule CanManageOrgMembers authz_Authorizer].
  all: unfold authz_CanReadModule, authz_CanWriteModule, authz_CanAdminModule, authz_CanCreateModule,
    authz_CanManageOrgMembers.
  all: wk_tac.
Qed.

(** ** Requests in flight *)
Abbreviation pool := (list (prog ()) * State)%type (only parsing).

Section Flight.
Context `{Bcrypt} (md : mode) `{Authorizer} `{!AuthorizerWork} `{Zip} (rows : nat) (openReg : bool).

(** A request on its way, with the number of operations it may still perform. *)
Inductive in_flight : prog () -> nat -> Prop :=
| fl_connect R h n authorization :
    connect_work rows openReg R h n -> in_flight (discard (connect_request authorization h)) (6 + n)
| fl_rest h n authorization :
    rest_work rows openReg h n -> in_flight (discard (Middleware authorization h background)) (3 + n)
| fl_static authorization : in_flight (discard (Middleware authorization static background)) 3.

Lemma served_in_flight p : Serves openReg p -> exists n, in_flight p n.
Proof using Type.
  intros [R h a Hh|h a Hh|a]; [| |eexists; apply fl_static].
  - enough (exists n, connect_work rows openReg R h n) as [n Hn] by (eexists; by apply fl_connect).
    destruct Hh as [? Hh]; destruct Hh; eexists;
      [constructor 1|constructor 2|constructor 3|constructor 4|constructor 5|constructor 6|constructor
      7|constructor 8|constructor 9|constructor 10|constructor 11|constructor 12|constructor
      13|constructor 14|constructor 15|constructor 16|constructor 17|constructor 18|constructor 19].
  - enough (exists n, rest_work rows openReg h n) as [n Hn] by (eexists; by apply fl_rest).
    destruct Hh as [? Hh]; destruct Hh; eexists;
      [constructor 1|constructor 2|constructor 3|constructor 4|constructor 5|constructor 6|constructor
      7|constructor 8|constructor 9|constructor 10|constructor 11|constructor 12|constructor
      13|constructor 14|constructor 15|constructor 16|constructor 17|constructor 18|constructor 19].
Qed.

Lemma in_flight_within p n : in_flight p n -> within rows n p.
Proof using All.
  intros [R h m a Hh|h m a Hh|a].
  - apply wk_discard, (middleware_work _ (3 + m)). intros c. apply interceptor_work. intros c'.
    by eapply connect_within.
  - apply wk_discard, middleware_work. intros c. by eapply rest_within.
  - by apply wk_discard, (middleware_work _ 0).
Qed.

(** One operation of one request, on a database of at most [rows] modules; no
    request arrives. *)
Definition quiet_step (c c' : pool) : Prop :=
  pool_step md (fun _ => False) c c' /\ length (t_modules (tables c.2)) <= rows.

Definition answered (p : prog ()) : Prop := exists a, p = Ret a.

Lemma spec_plausible X (e : eff X) s x s' :
  length (t_modules (tables s)) <= rows -> eff_spec md e s x s' -> plausible rows e x.
Proof using Type.
  intros Hr. destruct e; try done. destruct o; try done; intros [[_ Hx] _]; simpl.
  - intros Ex. unfold finds in Hx. rewrite Ex in Hx. destruct Hx as (rs & -> & Hp). simpl. rewrite Hp.
    etrans; [apply length_filter|done].
  - intros Ex Hlim. unfold finds in Hx. rewrite Ex in Hx. destruct Hx as (rs & -> & sel & _ & _ & _ & Hrs). simpl.
    destruct Hrs as [->|(_ & -> & _)]; [rewrite length_take; lia|done].
Qed.

(** Each step takes one off the budget of the request that moves. *)
Lemma quiet_step_budget ps s ps' s' ns :
  quiet_step (ps, s) (ps', s') -> Forall2 (fun p n => within rows n p) ps ns ->
  exists ns', Forall2 (fun p n => within rows n p) ps' ns' /\ S (sum_list ns') <= sum_list ns.
Proof using Type.
  intros [Hstep Hr] Hall. inversion Hstep as [ps1 ps2 X e k x t t' He E E'|]; simplify_eq; [|done].
  apply Forall2_app_inv_l in Hall as (ns1 & ns2 & Hns1 & Hns2 & ->).
  apply Forall2_cons_inv_l in Hns2 as (n & ns3 & Hn & Hns3 & ->).
  destruct n as [|n]; [done|]. exists (ns1 ++ n :: ns3). split.
  - apply Forall2_app; [done|]. constructor; [|done]. apply Hn. by eapply spec_plausible.
  - rewrite !sum_list_with_app. simpl. lia.
Qed.

(** A run of the pool with the traffic that arrives meanwhile: the operations
    performed, and the budgets of the requests that came. *)
Inductive traffic : nat -> nat -> pool -> pool -> Prop :=
| tr_end c : traffic 0 0 c c
| tr_op c c1 c2 k b : quiet_step c c1 -> traffic k b c1 c2 -> traffic (S k) b c c2
| tr_arrive p n ps s c k b : in_flight p n -> traffic k b (p :: ps, s) c -> traffic k (n + b) (ps, s) c.

Lemma traffic_budget k b c c' :
  traffic k b c c' -> forall ns, Forall2 (fun p n => within rows n p) c.1 ns -> k <= sum_list ns + b.
Proof using All.
  induction 1 as [c|[ps s] [ps' s'] c' k b Hs _ IH|p n ps s c k b Hp _ IH]; intros ns Hns; [lia| |].
  - destruct (quiet_step_budget _ _ _ _ _ Hs Hns) as (ns' & Hns' & Hle). specialize (IH ns' Hns'). lia.
  - assert (Forall2 (fun p n => within rows n p) (p :: ps) (n :: ns)) as Hns'
      by (constructor; [by apply in_flight_within|done]).
    specialize (IH _ Hns'). simpl in IH. lia.
Qed.

Lemma unanswered_steps `{Env W} `{!EnvOk md W} ps w :
  ~ Forall answered ps -> exists c, pool_step md (fun _ => False) (ps, view w) c.
Proof using Type.
  intros Hn. induction ps as [|[a|X e k] ps IH].
  - by destruct Hn.
  - destruct IH as [[ps' s'] Hs]; [intros Hps; apply Hn; constructor; [by eexists|done]|].
    inversion Hs as [ps1 ps2 X e k x t t' He E E'|]; simplify_eq; [|done].
    eexists. by apply (pool_op _ _ (Ret a :: ps1)).
  - pose proof (run_eff_ok X e w) as He. destruct (run_eff e w) as [x w'].
    eexists. by apply (pool_op _ _ []).
Qed.

#[local] Instance answered_dec p : Decision (answered p).
Proof using Type. destruct p; [left; by eexists|right; by intros [a ?]]. Defined.

(** C6. Requests finish.  Every request the server serves has a budget - 6 or 3
    operations to authenticate, and the handler's own share, linear in its message
    and, for the listings of modules, in the rows of the module table.  Whatever
    the schedule, the traffic and the failures, the requests that arrived have
    performed no more operations than their budgets add up to; and where no
    request can take a step, every one of them has been answered. *)
Theorem requests_finish `{Env W} `{!EnvOk md W} s k b ps' s' :
  (forall p, Serves openReg p -> exists n, in_flight p n) /\
  (traffic k b ([], s) (ps', s') ->
   k <= b /\
   (forall w, view w = s' -> (forall c, ~ pool_step md (fun _ => False) (ps', s') c) -> Forall answered ps')).
Proof using All.
  split; [apply served_in_flight|]. intros Hrun. split.
  - by apply (traffic_budget _ _ _ _ Hrun []).
  - intros w <- Hstuck. destruct (decide (Forall answered ps')) as [|Hn]; [done|].
    destruct (unanswered_steps ps' w Hn) as [c Hc]. by destruct (Hstuck c).
Qed.
End Flight.
