(* ===== verification/Answers.v ===== *)
(** * What the REST endpoints answer

    A contract gives, for each call, the status of success with the fields of its
    JSON body and the statuses of refusal, whose body is an object with the one
    field [error].  Every handler keeps its contract, whatever the backend answers;
    the web client (web/src) reads no other field. *)
From S2P Require Import Prelude GoStd Model Iface Prog Auth Authz ModuleApi UploadApi RestApi Server Routes Panics.

Inductive shape :=
| Object (fields : list string)
| ListOf (fields : list string).

Record contract := mkContract { ct_code : Z; ct_shape : shape; ct_refusals : list Z }.

Definition has_fields (fields : list string) (o : gmap string string) : Prop := dom o = list_to_set fields.

Definition fits (sh : shape) (j : Json) : Prop :=
  match sh, j with
  | Object fs, JObj o => has_fields fs o
  | ListOf fs, JArr l => Forall (has_fields fs) l
  | _, _ => False
  end.

Definition meets (c : contract) (r : Response) : Prop :=
  (resp_code r = ct_code c /\ fits (ct_shape c) (resp_body r)) \/
  (exists code msg, code ∈ ct_refusals c /\ r = writeErr code msg).

Definition module_fields : list string := ["id"; "owner"; "name"; "visibility"].
Definition commit_fields : list string := ["id"; "module_id"; "created_at"].

Definition answer_contract (c : call) : contract :=
  match c with
  | Register _ => mkContract 201 (Object ["id"; "username"]) [400; 403; 409; 500]
  | Login _ => mkContract 200 (Object ["token"; "user_id"; "username"]) [400; 401; 500]
  | Me => mkContract 200 (Object ["id"; "username"]) [401]
  | ListTokens => mkContract 200 (ListOf ["id"; "note"]) [401; 500]
  | CreateToken _ => mkContract 200 (Object ["token"; "id"]) [400; 401; 500]
  | RevokeToken _ => mkContract 200 (Object ["status"]) [401; 404]
  | GetUser _ => mkContract 200 (Object ["id"; "username"]) [404; 500]
  | GetOrg _ => mkContract 200 (Object ["id"; "name"]) [404; 500]
  | CreateOrg _ => mkContract 201 (Object ["id"; "name"]) [400; 401; 409; 500]
  | AddMember _ _ => mkContract 200 (Object ["status"]) [400; 401; 403; 404; 500]
  | RemoveMember _ _ => mkContract 200 (Object ["status"]) [401; 403; 404; 500]
  | SearchModules _ | ListModulesOf _ => mkContract 200 (ListOf module_fields) [500]
  | GetModule _ _ => mkContract 200 (Object module_fields) [404; 500]
  | CreateModule _ => mkContract 201 (Object module_fields) [400; 401; 403; 409; 500]
  | ListCommitsOf _ _ => mkContract 200 (ListOf commit_fields) [404; 500]
  | GetCommit _ _ _ => mkContract 200 (Object commit_fields) [404; 500]
  | ListFiles _ _ _ => mkContract 200 (ListOf ["path"; "size"]) [404; 500]
  | GetFile _ _ _ _ => mkContract 200 (Object ["path"; "content"]) [400; 404; 500]
  | ListLabelsOf _ _ => mkContract 200 (ListOf ["name"; "commit_id"]) [404; 500]
  end.

(** The fields the client's stores and views use of an answer. *)
Definition client_reads (c : call) : list string :=
  match c with
  | Login _ => ["token"; "user_id"; "username"]
  | Me | GetUser _ => ["username"]
  | ListTokens => ["id"; "note"]
  | CreateToken _ => ["token"]
  | GetOrg _ | CreateOrg _ => ["name"]
  | SearchModules _ | ListModulesOf _ => ["id"; "owner"; "name"; "visibility"]
  | GetModule _ _ => ["owner"; "name"; "visibility"]
  | CreateModule _ => ["owner"; "name"]
  | ListCommitsOf _ _ => ["id"; "created_at"]
  | ListLabelsOf _ _ => ["name"; "commit_id"]
  | ListFiles _ _ _ => ["path"]
  | GetFile _ _ _ _ => ["content"]
  | _ => []
  end.

Definition shape_fields (sh : shape) : list string := match sh with Object fs | ListOf fs => fs end.

(** ** Programs that end well *)
Section Ends.
Context `{Bcrypt} (md : mode).

(** Whatever the backend does, the program's outcome satisfies [P]. *)
Definition ends {E A} (P : outcome E A -> Prop) (p : H E A) : Prop := forall s, awp md p (fun o _ => P o) s.

Lemma ends_bind {E A B} (P1 : outcome E A -> Prop) (P : outcome E B -> Prop) (p : H E A) (f : A -> H E B) :
  ends P1 p -> (forall a, P1 (Done a) -> ends P (f a)) ->
  (forall e, P1 (Fail e) -> P (Fail e)) -> (P1 Panic -> P Panic) -> ends P (p ≫= f).
Proof.
  intros Hp Hd He Hk s. eapply awp_call; [apply Hp|..]; simpl; auto. intros a s' Ha. by apply Hd.
Qed.

Lemma ends_op {E X B} (P : outcome E B -> Prop) (e : eff X) (f : X -> H E B) :
  (forall x, ends P (f x)) -> ends P (perform e ≫= f).
Proof. intros Hf s. apply awp_perform. intros x s' _. apply Hf. Qed.

Lemma ends_repo {E X B} (P : outcome E B -> Prop) (o : repo_op X) (f : X -> H E B) :
  (forall x, well o x -> ends P (f x)) -> ends P (repo o ≫= f).
Proof. intros Hf s. apply awp_perform. intros x s' [Hs _]. apply Hf. by eapply spec_well. Qed.

Lemma ends_need {E A B} (P : outcome E B -> Prop) (x : goret A) (h : ierr -> E) (f : A -> H E B) :
  (err x = None -> is_Some (val x)) -> (forall e, P (Fail (h e))) -> (forall a, ends P (f a)) -> ends P (need x h ≫= f).
Proof.
  intros Hx He Hf s. unfold need. destruct (err x) as [e|]; [apply He|].
  destruct Hx as [a ->]; [done|]. apply Hf.
Qed.

Lemma ends_check {E X B} (P : outcome E B -> Prop) (x : option X) (h : X -> E) (f : unit -> H E B) :
  (forall e, P (Fail (h e))) -> ends P (f ()) -> ends P (check x h ≫= f).
Proof. intros He Hf s. destruct x; [apply He|apply Hf]. Qed.

Lemma ends_guard {E B} (P : outcome E B -> Prop) b (e : E) (f : unit -> H E B) :
  P (Fail e) -> ends P (f ()) -> ends P (guard_ b e ≫= f).
Proof. intros He Hf s. destruct b; [apply Hf|apply He]. Qed.

Lemma ends_fail_bind {E A B} (P : outcome E B -> Prop) (e : E) (f : A -> H E B) :
  P (Fail e) -> ends P (fail e ≫= f).
Proof. by intros He s. Qed.

Lemma ends_ret_bind {E A B} (P : outcome E B -> Prop) (a : A) (f : A -> H E B) :
  ends P (f a) -> ends P (mret a ≫= f).
Proof. done. Qed.

Lemma ends_ret {E A} (P : outcome E A -> Prop) (a : A) : P (Done a) -> ends P (mret a).
Proof. by intros Ha s. Qed.

Lemma ends_fail {E A} (P : outcome E A -> Prop) (e : E) : P (Fail e) -> ends P (fail e).
Proof. by intros He s. Qed.

Lemma ends_lift {E A B} (P : outcome E B -> Prop) (p : prog A) (f : A -> H E B) :
  (forall a, ends P (f a)) -> ends P (lift p ≫= f).
Proof. intros Hf s. eapply awp_lift_bind; [apply awp_true|]. intros a s' _. apply Hf. Qed.

(** A check of the authorizer answers yes or no. *)
Lemma ends_decides {E B} (P : outcome E B -> Prop) (check_ : forall E, H E bool) may (f : bool -> H E B) :
  decides md check_ may -> (forall b, ends P (f b)) -> ends P (check_ E ≫= f).
Proof.
  intros Hd Hf s. eapply awp_call; [apply Hd|..]; simpl.
  - intros b s' _. apply Hf.
  - by intros e s' (_ & b & [=] & _).
  - by intros s' (_ & b & [=] & _).
Qed.

Lemma ends_for_range {E V Acc B} (I : Acc -> Prop) (P : outcome E B -> Prop) (vs : list V) (acc : Acc)
    (body : Acc -> V -> H E Acc) (f : Acc -> H E B) :
  I acc -> (forall acc v, I acc -> ends (fun o => match o with Done a => I a | Fail e => P (Fail e) | Panic => P Panic end) (body acc v)) ->
  (forall acc, I acc -> ends P (f acc)) -> ends P (for_range vs acc body ≫= f).
Proof.
  intros HI Hb Hf.
  apply (ends_bind (fun o => match o with Done a => I a | Fail e => P (Fail e) | Panic => P Panic end)); auto.
  revert acc HI; induction vs as [|v vs IH]; intros acc HI; [by intros s|].
  eapply ends_bind; [by apply Hb|..]; simpl; auto.
Qed.
End Ends.

(** ** Every handler keeps its contract *)
Definition kept (c : contract) (o : outcome Response Response) : Prop :=
  match o with Done r | Fail r => meets c r | Panic => False end.

Lemma refusal_met c code msg : bool_decide (code ∈ ct_refusals c) = true -> meets c (writeErr code msg).
Proof. intros Hc%bool_decide_eq_true. right. eauto. Qed.

Lemma has_obj fields (l : list (string * string)) : fields = l.*1 -> has_fields fields (obj l).
Proof. intros ->. unfold has_fields, obj. by rewrite dom_list_to_map_L. Qed.

Lemma object_met c (l : list (string * string)) :
  ct_shape c = Object (l.*1) -> meets c (writeJSON (ct_code c) (JObj (obj l))).
Proof. intros E. left. split; [done|]. rewrite E. by apply has_obj. Qed.

Lemma rows_met {R} c fields (g : R -> list (string * string)) (rows : list R) :
  ct_shape c = ListOf fields -> (forall r, fields = (g r).*1) ->
  meets c (writeJSON (ct_code c) (JArr ((fun r => obj (g r)) <$> rows))).
Proof.
  intros E Hg. left. split; [done|]. simpl. rewrite E. apply Forall_fmap, Forall_true.
  intros r. by apply has_obj.
Qed.

Section Deciding.
Context `{Bcrypt} (md : mode) `{Authorizer} `{!AuthorizerOk md}.

Lemma ends_read {B} (P : outcome Response B -> Prop) uid m (f : bool -> H Response B) :
  (forall b, ends md P (f b)) -> ends md P (CanReadModule uid m ≫= f).
Proof using All. exact (ends_decides md P (fun E => CanReadModule uid m) _ f (read_ok uid m)). Qed.
Lemma ends_create {B} (P : outcome Response B -> Prop) uid o (f : bool -> H Response B) :
  (forall b, ends md P (f b)) -> ends md P (CanCreateModule uid o ≫= f).
Proof using All. exact (ends_decides md P (fun E => CanCreateModule uid o) _ f (create_ok uid o)). Qed.
Lemma ends_manage {B} (P : outcome Response B -> Prop) uid o (f : bool -> H Response B) :
  (forall b, ends md P (f b)) -> ends md P (CanManageOrgMembers uid o ≫= f).
Proof using All. exact (ends_decides md P (fun E => CanManageOrgMembers uid o) _ f (manage_ok uid o)). Qed.

End Deciding.

(** Follow a program's text; a leaf is a refusal, an object or a list of rows. *)
Ltac leaf :=
  first
    [ solve [simple apply refusal_met; reflexivity]
    | solve [match goal with |- meets ?c _ => apply (object_met c); reflexivity end]
    | solve [match goal with |- meets ?c _ => apply (rows_met c _ _ _ eq_refl); reflexivity end]
    | match goal with |- meets _ (if ?b then _ else _) => destruct b; leaf end ].

Ltac an_step :=
  first
    [ progress intros
    | match goal with
      | |- meets _ _ => leaf
      | |- kept _ (Fail _) => cbn [kept]
      | |- kept _ (Done _) => cbn [kept]
      | |- ends _ _ (mbind _ (match ?x with _ => _ end)) => destruct x
      | |- ends _ _ (mbind _ (if ?x then _ else _)) => destruct x
      | |- ends _ _ (mbind _ (need _ _)) => apply ends_need; [assumption|..]
      | |- ends _ _ (mbind _ (check _ _)) => apply ends_check
      | |- ends _ _ (mbind _ (guard_ _ _)) => apply ends_guard
      | |- ends _ _ (mbind _ (fail _)) => apply ends_fail_bind
      | |- ends _ _ (mbind _ (mret _)) => apply ends_ret_bind
      | |- ends _ _ (mbind _ (lift _)) => apply ends_lift
      | |- ends _ _ (mbind _ (CanReadModule _ _)) => refine (ends_read _ _ _ _ _ _)
      | |- ends _ _ (mbind _ (CanCreateModule _ _)) => refine (ends_create _ _ _ _ _ _)
      | |- ends _ _ (mbind _ (CanManageOrgMembers _ _)) => refine (ends_manage _ _ _ _ _ _)
      | |- ends _ _ (mbind _ (repo _)) => apply ends_repo; [intros ? ?]
      | |- ends _ _ (mbind _ (perform _)) => apply ends_op
      | |- ends _ _ (mret _) => apply ends_ret
      | |- ends _ _ (fail _) => apply ends_fail
      | |- ends _ _ (match ?x with _ => _ end) => destruct x
      | |- ends _ _ (if ?x then _ else _) => destruct x
      end ].
Ltac an_tac := repeat an_step.

Section Keeping.
Context `{Bcrypt} (md : mode) `{Authorizer} `{!AuthorizerOk md} `{Zip}.

(** The access check in front of a module's routes refuses with 404 or 500. *)
Lemma ends_access c ctx o r (f : Mod -> H Response Response) :
  bool_decide (404 ∈ ct_refusals c) = true -> bool_decide (500 ∈ ct_refusals c) = true ->
  (forall m, ends md (kept c) (f m)) -> ends md (kept c) (checkModuleAccess ctx o r ≫= f).
Proof using All.
  intros H4 H5 Hf. apply (ends_bind md (fun o => match o with Done _ => True | Fail r => meets c r | Panic => False end)); auto.
  unfold checkModuleAccess. an_tac; try done.
  all: try (cbn; match goal with |- meets _ (if ?b then _ else _) => destruct b end); by apply refusal_met.
Qed.

Lemma ends_zip c ctx o r i (f : bytes -> H Response Response) :
  bool_decide (404 ∈ ct_refusals c) = true -> bool_decide (500 ∈ ct_refusals c) = true ->
  (forall d, ends md (kept c) (f d)) -> ends md (kept c) (resolveCommitZip ctx o r i ≫= f).
Proof using All.
  intros H4 H5 Hf. apply (ends_bind md (fun o => match o with Done _ => True | Fail r => meets c r | Panic => False end)); auto.
  unfold resolveCommitZip. an_tac; try done.
  all: try (cbn; unfold commit_error; match goal with |- meets _ (if ?b then _ else _) => destruct b end); by apply refusal_met.
Qed.

Lemma find_file_met c path entries :
  answer_contract (GetFile "" "" "" "") = c -> meets c (find_file path entries).
Proof using Type.
  intros <-. induction entries as [|f entries IH]; simpl find_file; [by apply refusal_met|].
  destruct (streq _ _); [|done]. unfold file_response.
  destruct (_ ≫= _); [|by apply refusal_met]. by apply (object_met (answer_contract (GetFile "" "" "" ""))).
Qed.

Lemma list_modules_kept ctx o q c :
  ct_code c = 200 -> ct_shape c = ListOf module_fields -> ct_refusals c = [500] ->
  ends md (kept c) (listModules ctx o q).
Proof using All.
  intros Ec Es Er. assert (forall msg, meets c (writeErr 500 msg)) as Hf by (intros; apply refusal_met; by rewrite Er).
  unfold listModules. destruct (negb _); (apply ends_repo; intros x Hx; apply ends_need; [done|intros; apply Hf|]; intros mods;
    apply (ends_for_range md (Forall (has_fields module_fields))); [constructor| |]).
  1, 3: intros acc m Hacc; refine (ends_read _ _ _ _ _ _); intros b; apply ends_ret; destruct b; [|done];
    apply Forall_app; split; [done|]; constructor; [by apply has_obj|constructor].
  all: intros acc Hacc; apply ends_ret; left; rewrite Ec; split; [done|]; simpl; by rewrite Es.
Qed.
End Keeping.

Section Contracts.
Context `{Bcrypt} (md : mode) `{Authorizer} `{!AuthorizerOk md} `{Zip} `{Json_decoder}.

Lemma handler_kept openReg c ctx : ends md (kept (answer_contract c)) (call_handler openReg c ctx).
Proof using All.
  destruct c; cbn [call_handler]; try (by apply list_modules_kept).
  all: unfold register, login, me, listTokens, createToken, revokeToken, getUser, getOrg, createOrg, addMember,
    removeMember, getModule, createModule, listCommits, getCommit, listLabels, listFiles, getFileContent,
    require_user, decode, commit_error, rest_internal, unauthenticated, invalid_json, org_not_found,
    rest_module_not_found, read_archive, org_json, moduleToJSON, commit_json.
  all: repeat first
    [ an_step
    | match goal with
      | |- ends _ _ (mbind _ (checkModuleAccess _ _ _)) => refine (ends_access _ _ _ _ _ _ _ _ _); [reflexivity..|]
      | |- ends _ _ (mbind _ (resolveCommitZip _ _ _ _)) => refine (ends_zip _ _ _ _ _ _ _ _ _ _); [reflexivity..|]
      | |- meets _ (find_file _ _) => by apply find_file_met
      end ].
Qed.
Lemma ends_middleware (P : outcome Response Response -> Prop) authorization (next : Ctx -> H Response Response) :
  (forall c, ends md P (next c)) -> ends md P (Middleware authorization next background).
Proof using Type. intros Hn s. apply middleware_sound; intros; apply Hn. Qed.

(** C8. Every answer of a REST handler, behind the authentication middleware, is well
    typed (the rate limiter in front of them answers 429 by itself): whatever the
    header, the arguments and the body of a call, and whatever the backend answers,
    the response has either the success status of that call with exactly its fields (in an object, or
    in each element of an array), or one of its refusal statuses with an [error]
    message; and the web client reads only fields that are there. *)
Theorem answers_are_typed openReg authorization c s :
  awp md (Middleware authorization (call_handler openReg c) background)
    (fun o _ => kept (answer_contract c) o) s /\
  client_reads c ⊆ shape_fields (ct_shape (answer_contract c)).
Proof using All.
  split; [apply ends_middleware; apply handler_kept|]. destruct c; simpl; set_solver.
Qed.
End Contracts.
