(* ===== verification/Process.v ===== *)
(** * The process (cmd/bsr/main.go, after start-up)

    [main] ensures the admin account, starts the goroutine that listens, and waits
    for an interrupt; then it shuts the server down with five seconds' grace and
    returns, which closes the database.  The process is a state machine over those
    two goroutines, the rate limiter with its ticker, the requests in flight and
    the stored data; it can also be killed at any moment, in the middle of writing a
    file included. *)
From S2P Require Import Prelude GoStd Model RateLimit Mux Iface Prog Auth Authz ModuleApi UploadApi OwnerApi RestApi Server Routes Config Discipline Integrity References Keys Work.

(** ** State *)

(** Where the goroutine that listens is; [Stopped] when it has returned. *)
Inductive listener := NotListening | Listening | Stopped.

(** Where [main] is: ensuring the admin account, at [<-quit], or in [srv.Shutdown]. *)
Inductive main_goroutine :=
| Starting (p : prog ())
| Waiting
| ShuttingDown (since : Time).

(** [main] returned, [os.Exit(1)], or a signal the process does not handle (SIGTERM
    is one: only [os.Interrupt] is notified). *)
Inductive exit_status := Returned | Status1 | Killed.

(** [pr_quit]: the channel [quit] holds a signal; it has room for one.  [pr_atomic]:
    a blob is stored whole or not at all. *)
Record process := mkProcess {
  pr_main : main_goroutine; pr_listener : listener; pr_quit : bool;
  pr_limiter : rateLimiter; pr_pool : list (prog ()); pr_state : State; pr_atomic : bool;
  pr_db_open : bool; pr_clock : Time; pr_exit : option exit_status }.

Definition with_main m p := mkProcess m (pr_listener p) (pr_quit p) (pr_limiter p) (pr_pool p) (pr_state p) (pr_atomic p) (pr_db_open p) (pr_clock p) (pr_exit p).
Definition with_listener l p := mkProcess (pr_main p) l (pr_quit p) (pr_limiter p) (pr_pool p) (pr_state p) (pr_atomic p) (pr_db_open p) (pr_clock p) (pr_exit p).
Definition with_quit q p := mkProcess (pr_main p) (pr_listener p) q (pr_limiter p) (pr_pool p) (pr_state p) (pr_atomic p) (pr_db_open p) (pr_clock p) (pr_exit p).
Definition with_limiter rl p := mkProcess (pr_main p) (pr_listener p) (pr_quit p) rl (pr_pool p) (pr_state p) (pr_atomic p) (pr_db_open p) (pr_clock p) (pr_exit p).
Definition with_pool ps p := mkProcess (pr_main p) (pr_listener p) (pr_quit p) (pr_limiter p) ps (pr_state p) (pr_atomic p) (pr_db_open p) (pr_clock p) (pr_exit p).
Definition with_state s p := mkProcess (pr_main p) (pr_listener p) (pr_quit p) (pr_limiter p) (pr_pool p) s (pr_atomic p) (pr_db_open p) (pr_clock p) (pr_exit p).
Definition with_clock t p := mkProcess (pr_main p) (pr_listener p) (pr_quit p) (pr_limiter p) (pr_pool p) (pr_state p) (pr_atomic p) (pr_db_open p) t (pr_exit p).

(** The process ends; [db_open]: whether the deferred [dbClose] was skipped. *)
Definition exits (e : exit_status) (db_open : bool) p :=
  mkProcess (pr_main p) (pr_listener p) (pr_quit p) (pr_limiter p) (pr_pool p) (pr_state p) (pr_atomic p) db_open (pr_clock p) (Some e).

(** ** Steps *)

(** [context.WithTimeout(context.Background(), 5*time.Second)]. *)
Definition shutdown_grace : Time := 5 * 1000000000.

(** What [ListenAndServe] and [ListenAndServeTLS] return. *)
Inductive serve_error := ErrServerClosed | OtherError.

(** [if err != nil && err != http.ErrServerClosed { os.Exit(1) }], in either branch;
    [os.Exit] runs no deferred call. *)
Definition listener_returns (err : option serve_error) (p : process) : process :=
  match err with
  | Some OtherError => exits Status1 true p
  | _ => with_listener Stopped p
  end.

(** net/http: after [Shutdown] the error is [ErrServerClosed], but a listener that had
    not been opened yet may still fail to open; before, it is some other error. *)
Definition may_return (p : process) (err : option serve_error) : Prop :=
  match err, pr_main p, pr_listener p with
  | Some ErrServerClosed, ShuttingDown _, (NotListening | Listening) => True
  | Some OtherError, (Waiting | ShuttingDown _), NotListening => True
  | Some OtherError, Waiting, Listening => True
  | _, _, _ => False
  end.

(** [signal.Notify] does not block: a signal for a full channel is dropped. *)
Definition deliver (p : process) : process := with_quit true p.

(** [<-quit], then [srv.Shutdown] starts. *)
Definition receive_quit (p : process) : process :=
  with_main (ShuttingDown (pr_clock p)) (with_quit false p).

(** [Shutdown] closes the listener, waits for its goroutine, and returns when no
    request is left or its context is done. *)
Definition shutdown_over (started : Time) (p : process) : Prop :=
  pr_listener p <> Listening /\ (Forall answered (pr_pool p) \/ started + shutdown_grace <= pr_clock p).

(** [main] returns: its deferred calls close the database. *)
Definition main_returns (p : process) : process := exits Returned false p.

(** Requests come over any connection that was accepted, also over those that are
    still open while [Shutdown] waits. *)
Definition connected (p : process) : Prop := (forall a, pr_main p <> Starting a) /\ pr_listener p <> NotListening.

(** [os.WriteFile] truncates the file and writes it: one that stops on the way leaves
    the first [n] bytes. *)
Definition cut_blob (key : string) (data : bytes) (n : nat) (s : State) : State :=
  mkState (tables s) (<[key := take_bytes n data]> (blobs s)).

Section Steps.
Context `{Bcrypt} (md : mode) `{Authorizer} `{Zip} `{Json_decoder} `{Connect_decoder}.
Context (openReg : bool) (mux : list (pattern * target)).

(** A request passes the rate limiter and starts its handler, or is answered 429. *)
Definition accept (r : Request) (p : process) : process :=
  let '(h, rl) := serve openReg mux (pr_limiter p) r in
  with_limiter rl (with_pool (match h with Some h => h :: pr_pool p | None => pr_pool p end) p).

Inductive event : process -> process -> Prop :=
| ev_admin p X (e : eff X) k x s :
    pr_main p = Starting (Vis e k) -> eff_spec md e (pr_state p) x s ->
    event p (with_main (Starting (k x)) (with_state s p))
| ev_started p a : pr_main p = Starting (Ret a) -> event p (with_main Waiting p)
| ev_listen p : pr_main p = Waiting -> pr_listener p = NotListening -> event p (with_listener Listening p)
| ev_listener_returns p err : may_return p err -> event p (listener_returns err p)
| ev_request p r : connected p -> event p (accept r p)
| ev_op p ps1 ps2 X (e : eff X) k x s :
    pr_pool p = (ps1 ++ Vis e k :: ps2)%list -> eff_spec md e (pr_state p) x s ->
    event p (with_pool (ps1 ++ k x :: ps2)%list (with_state s p))
| ev_cut p ps1 ps2 key data k n msg :
    pr_atomic p = false -> live md = false -> pr_pool p = (ps1 ++ Vis (StorePut key data) k :: ps2)%list ->
    event p (with_pool (ps1 ++ k (Some (SErrOther msg)) :: ps2)%list (with_state (cut_blob key data n (pr_state p)) p))
| ev_tick p : event p (with_limiter (cleanup (pr_limiter p)) p)
| ev_interrupt p : (forall a, pr_main p <> Starting a) -> event p (deliver p)
| ev_quit p : pr_main p = Waiting -> pr_quit p = true -> event p (receive_quit p)
| ev_return p t : pr_main p = ShuttingDown t -> shutdown_over t p -> event p (main_returns p)
| ev_time p t : pr_clock p <= t -> event p (with_clock t p)
| ev_killed p : event p (exits Killed true p)
| ev_killed_writing p ps1 ps2 key data k n :
    pr_atomic p = false -> pr_pool p = (ps1 ++ Vis (StorePut key data) k :: ps2)%list ->
    event p (exits Killed true (with_state (cut_blob key data n (pr_state p)) p)).

Definition proc_step (p p' : process) : Prop := pr_exit p = None /\ event p p'.

(** Database rows and S3 objects are stored whole, files are not. *)
Definition atomic_writes `{Drivers} (store : BlobStore) : bool :=
  match store with Local _ => false | _ => true end.

(** The process once start-up has opened the database and the store, as [r] says. *)
Definition boot `{Drivers} (r : Running) (s : State) (now : Time) : process :=
  mkProcess
    (Starting (discard (match run_admin r with
                        | Some (username, password) => ensureAdmin username password
                        | None => mret ()
                        end : H ConnectError unit)))
    NotListening false new_limiter [] s (atomic_writes (run_store r)) true now None.

(** [main]: the routes and the process of a configuration, or the message logged
    before [os.Exit(1)]; registering a malformed pattern would panic. *)
Definition main `{Drivers} (authz_loads : bool) (cfg : Config) (s : State) (now : Time)
    : string + (list (pattern * target) * process) :=
  match startup authz_loads cfg with
  | inl msg => inl msg
  | inr r =>
      match new_mux (run_openReg r) with
      | None => inl "panic"
      | Some mux => inr (mux, boot r s now)
      end
  end.
End Steps.

(** ** Shutdown *)
Section Shutdown.
Context `{Bcrypt} (md : mode) `{Authorizer} `{Zip} `{Json_decoder} `{Connect_decoder} `{Drivers}.
Context (openReg : bool) (mux : list (pattern * target)).
Abbreviation step := (proc_step md openReg mux).

(** The database is closed by [main]'s return and by nothing else. *)
Definition orderly (p : process) : Prop :=
  match pr_exit p with
  | Some Returned => pr_db_open p = false /\ exists t, pr_main p = ShuttingDown t /\ shutdown_over t p
  | _ => pr_db_open p = true
  end.

Lemma listener_returns_keeps err p :
  pr_main (listener_returns err p) = pr_main p /\ pr_quit (listener_returns err p) = pr_quit p /\
  pr_clock (listener_returns err p) = pr_clock p /\
  (pr_listener (listener_returns err p) = pr_listener p \/ pr_listener (listener_returns err p) = Stopped).
Proof using Type. destruct err as [[]|]; cbn; auto. Qed.

Lemma accept_keeps r p :
  pr_main (accept openReg mux r p) = pr_main p /\ pr_listener (accept openReg mux r p) = pr_listener p /\
  pr_quit (accept openReg mux r p) = pr_quit p /\ pr_exit (accept openReg mux r p) = pr_exit p /\
  pr_db_open (accept openReg mux r p) = pr_db_open p /\ pr_clock (accept openReg mux r p) = pr_clock p.
Proof using Type. unfold accept. destruct (serve _ _ _ _) as [[h|] rl]; done. Qed.

Lemma step_orderly p p' : step p p' -> orderly p -> orderly p'.
Proof using Type.
  unfold orderly. intros [Hrun Hev]. rewrite Hrun. intros Ho.
  destruct Hev as [| | |p err| p r| | | | | |p t Hm Ho'| | |]; cbn; rewrite ?Hrun; try done.
  - destruct err as [[]|]; cbn; by rewrite ?Hrun.
  - destruct (accept_keeps r p) as (_ & _ & _ & -> & -> & _). by rewrite Hrun.
  - split; [done|]. by exists t.
Qed.

(** What [main] does, or nothing, at each step; the rest of the process leaves it
    where it is. *)
Inductive main_moves : main_goroutine -> main_goroutine -> Prop :=
| mm_stays m : main_moves m m
| mm_admin p p' : main_moves (Starting p) (Starting p')
| mm_started a : main_moves (Starting (Ret a)) Waiting
| mm_quit t : main_moves Waiting (ShuttingDown t).

Lemma step_main p p' : step p p' -> main_moves (pr_main p) (pr_main p').
Proof using Type.
  intros [_ Hev]. destruct Hev as [p X e k x s Hm _|p a Hm| |p err| p r| | | | |p Hm _| | | |]; cbn;
    rewrite ?Hm; try constructor.
  - rewrite (proj1 (listener_returns_keeps err p)). constructor.
  - rewrite (proj1 (accept_keeps r p)). constructor.
Qed.

(** Once in [srv.Shutdown], always there: no event restarts [main]. *)
Lemma step_shutting p p' t : step p p' -> pr_main p = ShuttingDown t -> pr_main p' = ShuttingDown t.
Proof using Type. intros Hs Hm. apply step_main in Hs. rewrite Hm in Hs. by inversion Hs. Qed.

(** While it shuts down no listener is opened, and the one that stopped stays so. *)
Lemma step_listener p p' t l :
  step p p' -> pr_main p = ShuttingDown t -> pr_listener p' = l -> l <> Stopped -> pr_listener p = l.
Proof using Type.
  intros [_ Hev] Hm. destruct Hev as [| |p Hw|p err _| p r| | | | | | | | |]; cbn; try (by intros); try congruence.
  - destruct (listener_returns_keeps err p) as (_ & _ & _ & [->| ->]); congruence.
  - by destruct (accept_keeps r p) as (_ & -> & _).
Qed.

Lemma step_stopped p p' : step p p' -> pr_listener p = Stopped -> pr_listener p' = Stopped.
Proof using Type.
  intros [_ Hev] Hm. destruct Hev as [| |p Hw|p err _| p r| | | | | | | | |]; cbn; try done; try congruence.
  - by destruct (listener_returns_keeps err p) as (_ & _ & _ & [->| ->]).
  - by destruct (accept_keeps r p) as (_ & -> & _).
Qed.

Lemma step_clock p p' : step p p' -> pr_clock p <= pr_clock p'.
Proof using Type.
  intros [_ Hev]. destruct Hev as [| | |p err _| p r| | | | | | | | |]; cbn; try lia.
  - by rewrite (proj1 (proj2 (proj2 (listener_returns_keeps err p)))).
  - by destruct (accept_keeps r p) as (_ & _ & _ & _ & _ & ->).
Qed.

(** A signal in the channel stays there until [main] receives it. *)
Lemma step_quit p p' :
  step p p' -> pr_main p = Waiting -> pr_quit p = true ->
  (pr_main p' = Waiting /\ pr_quit p' = true) \/ exists t, pr_main p' = ShuttingDown t.
Proof using Type.
  intros [_ Hev] Hm Hq.
  destruct Hev as [| | |p err _| p r| | | | | | | | |]; cbn; try (by left); try congruence; try (by right; eexists).
  - left. by destruct (listener_returns_keeps err p) as (-> & -> & _).
  - left. by destruct (accept_keeps r p) as (-> & _ & -> & _).
Qed.

(** Without a signal [main] never gets to [srv.Shutdown]. *)
Definition undisturbed (p : process) : Prop := pr_quit p = false /\ forall t, pr_main p <> ShuttingDown t.

Lemma step_undisturbed p p' : step p p' -> p' <> deliver p -> undisturbed p -> undisturbed p'.
Proof using Type.
  unfold undisturbed. intros [_ Hev] Hd [Hq Hm].
  destruct Hev as [| | |p err _| p r| | | | | | | | |]; cbn; try done; try congruence.
  - by destruct (listener_returns_keeps err p) as (-> & -> & _).
  - by destruct (accept_keeps r p) as (-> & _ & -> & _).
Qed.

Lemma steps_ind (R : relation process) (P : process -> Prop) p p' :
  (forall p p', R p p' -> P p -> P p') -> rtc R p p' -> P p -> P p'.
Proof using Type. intros Hs. induction 1; eauto. Qed.

(** C9. Shutting down is orderly, whatever the requests, the failures and the signals
    were.  The database is closed only when [main] returns.  It returns only after an
    interrupt was delivered, and only from [Shutdown]: the server no longer listens,
    and every request it has accepted, before or during the shutdown, has been
    answered, or five seconds have passed since the shutdown began.  A shutdown is
    never taken back and opens no listener. *)
Theorem shutdown_is_orderly r s now p :
  rtc step (boot r s now) p ->
  (pr_db_open p = false <-> pr_exit p = Some Returned) /\
  (pr_exit p = Some Returned -> exists t, pr_main p = ShuttingDown t /\ pr_listener p <> Listening /\
     (Forall answered (pr_pool p) \/ t + 5000000000 <= pr_clock p)) /\
  (rtc (fun q q' => step q q' /\ q' <> deliver q) (boot r s now) p -> pr_exit p <> Some Returned) /\
  (forall t p', pr_main p = ShuttingDown t -> step p p' ->
     pr_main p' = ShuttingDown t /\ (pr_listener p' = Listening -> pr_listener p = Listening)).
Proof using Type.
  intros Hrun. assert (orderly p) as Ho by (eapply (steps_ind _ orderly); [apply step_orderly|exact Hrun|done]).
  unfold orderly in Ho. split; [|split; [|split]].
  - destruct (pr_exit p) as [[| |]|]; try (rewrite Ho; done). by destruct Ho as [-> _].
  - intros E. rewrite E in Ho. destruct Ho as (_ & t & Hm & Hl & Ht). by exists t.
  - intros Hquiet E. rewrite E in Ho. destruct Ho as (_ & t & Hm & _).
    assert (undisturbed p) as [_ Hn]; [|by destruct (Hn t)].
    eapply (steps_ind _ undisturbed); [|exact Hquiet|done]. intros q q' [Hs Hd]. by apply step_undisturbed.
  - intros t p' Hm Hs. split; [by eapply step_shutting|]. intros Hl. by apply (step_listener _ _ t _ Hs Hm Hl).
Qed.

(** ** An interrupt ends the process

    In an infinite run, or one that has ended and stays as it is, each goroutine
    that can act again and again does so, and time passes. *)
Inductive main_acts (p : process) : process -> Prop :=
| ma_quit : pr_main p = Waiting -> pr_quit p = true -> main_acts p (receive_quit p)
| ma_return t : pr_main p = ShuttingDown t -> shutdown_over t p -> main_acts p (main_returns p).

Inductive listener_acts (p : process) : process -> Prop :=
| la_returns err : may_return p err -> listener_acts p (listener_returns err p).

(** Weak fairness: from any moment on, there is one at which the goroutine acts or
    has nothing to do. *)
Definition fair (run : nat -> process) (acts : process -> process -> Prop) : Prop :=
  forall n, exists m, (n <= m)%nat /\
    (acts (run m) (run (S m)) \/ pr_exit (run m) <> None \/ forall p', ~ acts (run m) p').

Record fair_run (run : nat -> process) : Prop := {
  fr_steps n : step (run n) (run (S n)) \/ (pr_exit (run n) <> None /\ run (S n) = run n);
  fr_main : fair run main_acts;
  fr_listener : fair run listener_acts;
  fr_time n t : exists m, (n <= m)%nat /\ (pr_exit (run m) <> None \/ t <= pr_clock (run m)) }.

Section Fair.
Context (run : nat -> process) (Hfair : fair_run run).

Definition ended (n : nat) : Prop := pr_exit (run n) <> None.

(** What every step keeps, a run keeps until it ends. *)
Lemma run_keeps (P : process -> Prop) n m :
  (forall p p', step p p' -> P p -> P p') -> (n <= m)%nat -> P (run n) -> P (run m) \/ ended m.
Proof using Hfair.
  intros HP Hle Hn. induction Hle as [|m Hle [IH|IH]]; [by left| |].
  - destruct (fr_steps _ Hfair m) as [Hs|[He E]]; [left; by eapply HP|right; unfold ended; by rewrite E].
  - right. unfold ended in *. destruct (fr_steps _ Hfair m) as [[Hr _]|[_ ->]]; [congruence|done].
Qed.

Lemma end_dec n : ended n \/ pr_exit (run n) = None.
Proof using Type. unfold ended. destruct (pr_exit (run n)); [by left|by right]. Qed.

(** [main] receives the signal. *)
Lemma quit_received n :
  pr_main (run n) = Waiting -> pr_quit (run n) = true ->
  exists m, (n <= m)%nat /\ (ended m \/ exists t, pr_main (run m) = ShuttingDown t).
Proof using Hfair.
  intros Hm Hq. destruct (fr_main _ Hfair n) as (m & Hle & Hacts).
  destruct (run_keeps (fun p => (pr_main p = Waiting /\ pr_quit p = true) \/ exists t, pr_main p = ShuttingDown t) n m)
    as [[[Hm' Hq']|Hsd]|He]; [|done|by left| |by exists m; auto|by exists m; auto].
  - intros p p' Hs [[Hw Hq']|[t Ht]]; [by eapply step_quit|right]. exists t. by eapply step_shutting.
  - destruct Hacts as [Ha|[He|Hno]]; [|by exists m; auto|by destruct (Hno _ (ma_quit _ Hm' Hq'))].
    exists (S m). split; [lia|]. right. inversion Ha as [_ _ E|t Ht]; [|congruence]. by eexists.
Qed.

(** The listener stops. *)
Lemma listener_stops n t :
  pr_main (run n) = ShuttingDown t ->
  exists m, (n <= m)%nat /\ (ended m \/ (pr_main (run m) = ShuttingDown t /\ pr_listener (run m) = Stopped)).
Proof using Hfair.
  intros Hm. destruct (fr_listener _ Hfair n) as (m & Hle & Hacts).
  destruct (run_keeps (fun p => pr_main p = ShuttingDown t) n m) as [Hm'|He];
    [intros; by eapply step_shutting|done|done| |by exists m; auto].
  destruct Hacts as [Ha|[He|Hno]]; [|by exists m; auto|].
  - exists (S m). split; [lia|]. inversion Ha as [err _ E].
    destruct err as [[]|]; [by right|left; unfold ended; by rewrite <- E|by right].
  - exists m. split; [done|]. right. split; [done|]. destruct (pr_listener (run m)) eqn:El; [..|done]; exfalso;
      apply (Hno (listener_returns (Some ErrServerClosed) (run m))); constructor; unfold may_return; by rewrite Hm', El.
Qed.

(** Five seconds pass, and [main] returns. *)
Lemma shutdown_ends n t :
  pr_main (run n) = ShuttingDown t -> pr_listener (run n) = Stopped -> exists m, (n <= m)%nat /\ ended m.
Proof using Hfair.
  intros Hm Hl. destruct (fr_time _ Hfair n (t + shutdown_grace)) as (m1 & Hle1 & [He|Ht]); [by exists m1|].
  assert (forall p p', step p p' -> pr_main p = ShuttingDown t /\ pr_listener p = Stopped ->
    pr_main p' = ShuttingDown t /\ pr_listener p' = Stopped) as Hkeep.
  { intros p p' Hs [Hm' Hl']. split; [by eapply step_shutting|by eapply step_stopped]. }
  destruct (run_keeps _ n m1 Hkeep Hle1) as [[Hm1 Hl1]|He]; [done| |by exists m1].
  destruct (fr_main _ Hfair m1) as (m2 & Hle2 & Hacts).
  destruct (run_keeps (fun p => (pr_main p = ShuttingDown t /\ pr_listener p = Stopped) /\ t + shutdown_grace <= pr_clock p) m1 m2)
    as [[[Hm2 Hl2] Ht2]|He]; [|done|done| |exists m2; split; [lia|done]].
  { intros p p' Hs [Hp Hc]. split; [by eapply Hkeep|]. apply step_clock in Hs. lia. }
  destruct Hacts as [Ha|[He|Hno]]; [|exists m2; split; [lia|done]|].
  - exists (S m2). split; [lia|]. inversion Ha as [Hw _ E|t' _ _ E]; [congruence|]. unfold ended. by rewrite <- E.
  - exfalso. apply (Hno (main_returns (run m2))), (ma_return _ t); [done|]. split; [by rewrite Hl2|by right].
Qed.
End Fair.

End Shutdown.

(** ** The stored data, over the life of a deployment *)
Section Keeps.
Context `{Bcrypt} (md : mode) `{Authorizer} `{Zip} `{Json_decoder} `{Connect_decoder} `{Drivers}.

(** An invariant that every served request, and the creation of the admin account,
    keep among other requests. *)
Context (I : State -> Prop) (G : State -> State -> Prop) `{!PreOrder G}.
Abbreviation safe := (fun (s : State) (q : prog ()) => rgwp md I G q (fun _ _ => True) s).
Context (Hserved : forall openReg q s, Serves openReg q -> safe s q).
Context (Hadmin : forall username password s, safe s (discard (ensureAdmin username password : H ConnectError unit))).

(** Everything that may still touch the data. *)
Definition programs (p : process) : list (prog ()) :=
  (match pr_main p with Starting q => [q] | _ => [] end ++ pr_pool p)%list.

(** The invariant survives a blob that was cut short. *)
Definition cut_safe : Prop := forall key data n s, I s -> G s (cut_blob key data n s) /\ I (cut_blob key data n s).

Definition sound (p : process) : Prop :=
  (pr_atomic p = true \/ cut_safe) /\ I (pr_state p) /\ Forall (safe (pr_state p)) (programs p).

Lemma all_safe_move ps s s' : G s s' -> Forall (safe s) ps -> Forall (safe s') ps.
Proof using PreOrder0. intros HG Hps. eapply Forall_impl; [exact Hps|]. intros q Hq. exact (rgwp_stable md I G q s s' Hq HG). Qed.

Lemma op_safe X (e : eff X) k x s s' : I s -> safe s (Vis e k) -> eff_spec md e s x s' -> G s s' /\ I s' /\ safe s' (k x).
Proof using PreOrder0. intros Hi Hs He. destruct (Hs s (PreOrder_Reflexive s) Hi x s' He) as [[? ?] ?]. done. Qed.

(** A write that fails on the way: the handler is told, and the blob is cut. *)
Lemma cut_op key data k n msg s :
  cut_safe -> live md = false -> I s -> safe s (Vis (StorePut key data) k) ->
  let s' := cut_blob key data n s in G s s' /\ I s' /\ safe s' (k (Some (SErrOther msg))).
Proof using PreOrder0.
  intros Hcut Hl Hi Hs s'. destruct (Hcut key data n s Hi) as [HG HI].
  destruct (op_safe _ (StorePut key data) k (Some (SErrOther msg)) s s Hi Hs) as (_ & _ & Hk); [by split|].
  split; [done|]. split; [done|]. by eapply rgwp_stable.
Qed.

(** One request of the pool takes a step. *)
Lemma pool_moves qs ps1 ps2 q q' s s' :
  Forall (safe s) (qs ++ ps1 ++ q :: ps2)%list -> (safe s q -> G s s' /\ I s' /\ safe s' q') ->
  G s s' /\ I s' /\ Forall (safe s') (qs ++ ps1 ++ q' :: ps2)%list.
Proof using PreOrder0.
  rewrite !app_assoc. intros [H12 [Hq Hps]%Forall_cons]%Forall_app Hm. destruct (Hm Hq) as (HG & HI & Hk).
  do 2 (split; [done|]). apply Forall_app; split; [by eapply all_safe_move|]. constructor; [done|]. by eapply all_safe_move.
Qed.

Lemma step_sound openReg p p' :
  proc_step md openReg (the_mux openReg) p p' -> sound p ->
  sound p' /\ G (pr_state p) (pr_state p').
Proof using PreOrder0 Hserved.
  unfold sound, programs. intros [_ Hev] (Hat & Hi & Hall).
  destruct Hev as [p X e k x s Hm He|p a Hm| |p err| p r [Hm _]|p ps1 ps2 X e k x s Hp He|p ps1 ps2 key data k n msg Ha Hl Hp| |
    |p Hm| | | |p ps1 ps2 key data k n Ha Hp]; cbn; try (split; [by split_and!|reflexivity]).
  - rewrite Hm in Hall. apply Forall_app in Hall as [[Hq _]%Forall_cons Hpool].
    destruct (op_safe _ _ _ _ _ _ Hi Hq He) as (HG & HI & Hk). split; [split_and!; [done|done|]|done].
    constructor; [done|]. by eapply all_safe_move.
  - rewrite Hm in Hall. split; [|reflexivity]. split_and!; [done|done|]. by apply Forall_app in Hall as [_ ?].
  - destruct err as [[]|]; (split; [by split_and!|reflexivity]).
  - unfold accept, serve, RateLimitMiddleware. destruct (allow _ _) as [[] rl]; cbn; (split; [|reflexivity]); split_and!; try done.
    apply Forall_app in Hall as [Hmain Hpool]. apply Forall_app. split; [done|]. constructor; [|done].
    eapply Hserved, handler_served.
  - rewrite Hp in Hall. destruct (pool_moves _ _ _ _ (k x) _ s Hall) as (HG & HI & Hps); [intros Hq; by apply (op_safe X e k x _ _ Hi Hq)|].
    split; [by split_and!|done].
  - destruct Hat as [Hat|Hcut]; [congruence|]. rewrite Hp in Hall.
    destruct (pool_moves _ _ _ _ (k (Some (SErrOther msg))) _ (cut_blob key data n (pr_state p)) Hall) as (HG & HI & Hps);
      [intros Hq; by apply cut_op|].
    split; [split_and!; [by right|done|done]|done].
  - rewrite Hm in *. split; [|reflexivity]. done.
  - destruct Hat as [Hat|Hcut]; [congruence|]. destruct (Hcut key data n _ Hi) as [HG HI].
    split; [split_and!; [by right|done|by eapply all_safe_move]|done].
Qed.

Lemma run_sound openReg p p' :
  rtc (proc_step md openReg (the_mux openReg)) p p' -> sound p -> I (pr_state p') /\ G (pr_state p) (pr_state p').
Proof using PreOrder0 Hserved.
  induction 1 as [p|p p1 p' Hs _ IH]; intros Hp; [destruct Hp as (_ & ? & _); by split|].
  destruct (step_sound _ _ _ Hs Hp) as [Hp1 HG]. destruct (IH Hp1). split; [done|]. by etrans.
Qed.

Lemma boot_sound r s now : atomic_writes (run_store r) = true \/ cut_safe -> I s -> sound (boot r s now).
Proof using Hadmin.
  intros Hat Hi. split; [done|]. split; [done|]. constructor; [|constructor]. destruct (run_admin r) as [[u pw]|]; [apply Hadmin|done].
Qed.
End Keeps.

(** ** Restarts *)
Section Lives.
Context `{Bcrypt} (md : mode) `{AuthorizerReads} `{Zip} `{Json_decoder} `{Connect_decoder} `{Drivers}.

Lemma startup_openReg authz_loads cfg r : startup authz_loads cfg = inr r -> run_openReg r = OpenReg cfg.
Proof.
  unfold startup. destruct (open_database cfg); [done|]. destruct (open_store cfg _); [done|].
  destruct (negb authz_loads); [done|]. by intros [= <-].
Qed.

Lemma main_boots authz_loads cfg s now mux p :
  main authz_loads cfg s now = inr (mux, p) ->
  exists r, run_openReg r = OpenReg cfg /\ mux = the_mux (run_openReg r) /\ p = boot r s now.
Proof.
  unfold main. destruct (startup authz_loads cfg) as [|r] eqn:E; [done|]. rewrite new_mux_ok.
  intros Hi. injection Hi as <- <-. exists r. split; [by eapply startup_openReg|done].
Qed.

(** What the data of a deployment can become: a process that is [ok] when it boots
    runs, is still running or has ended in any of its ways, and another one is
    started on what it left, with any configuration for the same database and blob
    store. *)
Inductive lives (ok : process -> Prop) : State -> State -> Prop :=
| life_new s : lives ok s s
| life_now s s1 authz_loads cfg now mux p0 p :
    lives ok s s1 -> main authz_loads cfg s1 now = inr (mux, p0) -> ok p0 ->
    rtc (proc_step md (OpenReg cfg) mux) p0 p ->
    lives ok s (pr_state p).

Section Kept.
Context (I : State -> Prop) (G : State -> State -> Prop) `{!PreOrder G} (ok : process -> Prop).
Context (Hserved : forall openReg q s, Serves openReg q -> rgwp md I G q (fun _ _ => True) s).
Context (Hadmin : forall username password s,
  rgwp md I G (discard (ensureAdmin username password : H ConnectError unit)) (fun _ _ => True) s).
Context (Hcut : forall p, ok p -> pr_atomic p = true \/ cut_safe I G).

Lemma lives_kept s s' : lives ok s s' -> I s -> I s' /\ G s s'.
Proof using All.
  intros Hl Hi. induction Hl as [s|s s1 al cfg now mux p0 p Hl IH Hmain Hok Hrun]; [by split|].
  destruct (IH Hi) as [Hi1 HG1]. apply main_boots in Hmain as (r & Er & -> & ->). rewrite <- Er in Hrun.
  assert (I (pr_state p) /\ G (pr_state (boot r s1 now)) (pr_state p)) as [Hi' HG].
  { eapply (run_sound md); [exact _|exact Hserved|exact Hrun|]. eapply boot_sound; [exact Hadmin|by apply (Hcut _ Hok)|done]. }
  split; [done|]. by etrans.
Qed.
End Kept.

Lemma ensureAdmin_calm `{Discipline} {E} username password :
  (forall u, calm_eff (Repo (Users_Create u)) = true) -> calm (discard (ensureAdmin username password : H E unit)).
Proof.
  intros Hu. apply calm_pbind; [|done]. unfold ensureAdmin.
  apply calm_bind; [split; [by apply calm_reads|done]|]. intros r. destruct (err r); [|done].
  apply calm_bind; [apply calm_lift; split; [by apply calm_reads|done]|]. intros [h|]; [|done].
  apply calm_bind; [split; [by apply calm_reads|done]|]. intros now.
  apply calm_bind; [|done]. split; [apply Hu|done].
Qed.

Lemma any_keys {A} (q : prog A) s (Hstrict : strict md = true) :
  rgwp md (fun s => keys_unique (tables s)) (fun _ _ => True) q (fun _ _ => True) s.
Proof.
  revert s; induction q as [a|X e k IH]; intros s; simpl; [done|].
  intros s1 _ Hu x s2 He. split; [split; [done|by eapply eff_keys]|apply IH].
Qed.

#[local] Instance any_preorder : PreOrder (fun _ _ : State => True).
Proof. by split. Qed.

Lemma admin_integrity u pw s :
  rgwp md integrity grows (discard (ensureAdmin u pw : H ConnectError unit)) (fun _ _ => True) s.
Proof. apply (@rg_safe_calm _ md integrity_discipline (integrity_kept md)). by apply ensureAdmin_calm. Qed.

Lemma admin_references u pw s :
  rgwp md (fun s => references (tables s)) (fun s s' => stays (tables s) (tables s'))
    (discard (ensureAdmin u pw : H ConnectError unit)) (fun _ _ => True) s.
Proof. apply (@rg_safe_calm _ md references_discipline (references_kept md)). by apply ensureAdmin_calm. Qed.

(** C5. What is stored stays sound for as long as the registry is operated.  Through
    any number of processes on one strict backend - each serving any traffic with
    any failures, and ending by an interrupt, a failing listener or a kill, with
    requests cut off between two operations or in the middle of writing a blob -
    rows reference stored rows and keys are unique, and no user, organization or
    module is ever lost.  If moreover every process kept its blobs in a store whose
    writes are atomic (the database or S3; not local files, which a cut write
    leaves truncated), labels point at commits, commits have blobs, blobs match
    their names, and no commit or blob is ever lost. *)
Theorem data_outlives_processes ok s s' :
  strict md = true -> lives ok s s' ->
  (references (tables s) -> keys_unique (tables s) ->
   references (tables s') /\ keys_unique (tables s') /\ stays (tables s) (tables s')) /\
  ((forall p, ok p -> pr_atomic p = true) -> integrity s -> integrity s' /\ grows s s').
Proof.
  intros Hs Hl. split.
  - intros Hr Hk.
    destruct (lives_kept _ _ ok
      (fun o q s => rf_served md o q s) (fun u pw s => admin_references u pw s)) with (s := s) (s' := s') as [Hr' HM]; [|done|done|].
    { intros p _. right. intros key data n s0 Hr0. by split. }
    destruct (lives_kept _ _ ok
      (fun o q s _ => any_keys q s Hs) (fun u pw s => any_keys _ s Hs)) with (s := s) (s' := s') as [Hk' _]; [|done|done|done].
    intros p _. right. intros key data n s0 Hk0. by split.
  - intros Hat Hi. apply (lives_kept integrity grows ok (fun o q s Hq => served_safe md Hs o q Hq s) admin_integrity); [|done|done].
    intros p Hp. left. by apply Hat.
Qed.
End Lives.
