(* ===== verification/Batches.v ===== *)
(** * What the Connect writes do, value by value

    A Connect write takes a list of values and handles them in order: each one is
    refused or takes effect, and the first refusal ends the request with its error,
    while what the values before it stored stays.  On a strict backend that does
    not fail, [batch] says so for every write, from what one value does. *)
From S2P Require Import Prelude GoStd Regex Model Iface Prog Auth Authz ModuleApi UploadApi OwnerApi RestApi Server Keys Owners Integrity Content.

(** ** Batches *)
Section Batch.
Context {V Y : Type}.
Context (takes : V -> State -> Y -> State -> Prop) (refused : V -> State -> ConnectError -> Prop).

Inductive batch : list V -> State -> outcome ConnectError (list Y) -> State -> Prop :=
| batch_end s : batch [] s (Done []) s
| batch_refused v vs s e : refused v s e -> batch (v :: vs) s (Fail e) s
| batch_taken v vs s y s1 o s' :
    takes v s y s1 -> batch vs s1 o s' ->
    batch (v :: vs) s (match o with Done ys => Done (y :: ys) | Fail e => Fail e | Panic => Panic end) s'.

(** The answer of a batch that starts with the answers [acc]. *)
Definition prepend (acc : list Y) (o : outcome ConnectError (list Y)) : outcome ConnectError (list Y) :=
  match o with Done ys => Done (acc ++ ys)%list | _ => o end.

(** A loop whose rounds each take a value or refuse it is a batch. *)
Lemma awp_batch `{Bcrypt} md (J : State -> Prop) (body : list Y -> V -> H ConnectError (list Y)) vs acc s :
  (forall acc v s, J s -> awp md (body acc v) (fun o s' =>
     (exists e, o = Fail e /\ s' = s /\ refused v s e) \/
     (exists y, o = Done (acc ++ [y])%list /\ takes v s y s' /\ J s')) s) ->
  J s ->
  awp md (for_range vs acc body) (fun o s' => exists o', o = prepend acc o' /\ batch vs s o' s') s.
Proof.
  intros Hb. revert acc s; induction vs as [|v vs IH]; intros acc s HJ; simpl for_range.
  { exists (Done []). simpl. rewrite app_nil_r. split; [done|constructor]. }
  apply awp_hbind. eapply awp_mono; [by apply Hb|].
  intros o s1 [(e & -> & -> & He)|(y & -> & Hy & HJ1)]; cbn [after].
  { exists (Fail e). split; [done|by constructor]. }
  eapply awp_mono; [by apply IH|]. intros o s' (o' & -> & Ho).
  eexists. split; [|by eapply batch_taken]. destruct o'; simpl; [by rewrite <- app_assoc|done..].
Qed.

(** A batch that succeeds answers every value; one that fails took the values before it. *)
Lemma batch_answers vs s o s' :
  batch vs s o s' -> match o with Done ys => length ys = length vs | Fail _ => True | Panic => False end.
Proof. induction 1 as [| |v vs s y s1 o s' _ _ IH]; [done..|]. destruct o; simpl; auto. Qed.
End Batch.

Lemma batch_from_nil {V Y} takes refused vs s (o : outcome ConnectError (list Y)) s' :
  (exists o', o = prepend [] o' /\ @batch V Y takes refused vs s o' s') -> batch takes refused vs s o s'.
Proof. by intros ([] & -> & Ho). Qed.

Section Writes.
Context `{Bcrypt} (md : mode) (Hstrict : strict md = true) (Hlive : live md = true).
Implicit Types s : State.

Lemma check_of lo pat n :
  (MatchString pat n = true <-> is_name lo 39 n) -> MatchString pat n = false -> ~ is_name lo 39 n.
Proof using. intros E. by rewrite <- E, not_true_iff_false. Qed.

Lemma moduleName_check n : MatchString moduleNameRe n = true <-> is_name 2 39 n.
Proof using. apply name_pattern_spec. lia. Qed.

Lemma ownerName_check n : MatchString nameRe n = true <-> is_name 3 39 n.
Proof using. apply name_pattern_spec. lia. Qed.

(** ** CreateUsers *)
Definition user_taken (name : string) s (y : PbUser) s' : Prop :=
  exists u t, is_name 3 39 name /\ (forall u, u ∈ t_users (tables s) -> User_Username u <> name) /\
    u = mkUser (User_ID u) name "" t /\ y = mkPbUser (User_ID u) name (pu_CreateTime y) (pu_CreateTime y) /\
    t_users (tables s') ≡ₚ u :: t_users (tables s) /\
    tables s' = set_users (t_users (tables s')) (tables s) /\ blobs s' = blobs s.

Definition user_refused (name : string) s (e : ConnectError) : Prop :=
  (~ is_name 3 39 name /\ ce_code e = CodeInvalidArgument) \/
  (is_name 3 39 name /\ (exists u, u ∈ t_users (tables s) /\ User_Username u = name) /\
   e = NewError CodeAlreadyExists ("user already exists: " +:+ name)).

Lemma createUsers_value acc name s :
  awp md (CreateUsers_value acc name) (fun o s' =>
     (exists e, o = Fail e /\ s' = s /\ user_refused name s e) \/
     (exists y, o = Done (acc ++ [y])%list /\ user_taken name s y s' /\ True)) s.
Proof using Hstrict Hlive.
  unfold CreateUsers_value.
  apply awp_guard; [intros Hn%ownerName_check|intros Hn%(check_of _ _ _ (ownerName_check name))].
  2:{ left. eexists. split; [done|]. split; [done|]. by left. }
  apply awp_perform. intros id s2 (-> & _ & Hid & _). apply awp_perform. intros now s3 [-> _]. cbv zeta.
  apply awp_write. intros e t' (l' & -> & Hcr). destruct e as [e|].
  - destruct Hcr as [-> Hc]. destruct (Hc Hlive) as (_ & u0 & Hu0 & [Ei|En]).
    { destruct Hid as (Hid & _). by destruct (Hid u0 Hu0). }
    simpl in En. assert (mkState (set_users (t_users (tables s)) (tables s)) (blobs s) = s) as Es
      by (destruct s as [[] ?]; done). rewrite Es.
    wp_read x Hx. destruct (gets_cases _ _ _ _ Hx) as [(u1 & -> & _)|(e1 & -> & Hnone)].
    { left. eexists. split; [done|]. split; [done|]. right. eauto. }
    destruct (Hnone Hlive) as [_ Hn']. by destruct (Hn' u0 Hu0).
  - right. destruct Hcr as [(u & (t & _ & ->) & Hp) Hno]. specialize (Hno Hstrict).
    eexists. split; [reflexivity|]. split; [|done]. exists (mkUser id name "" t), t. split; [done|].
    split; [|by repeat split]. intros u0 Hu0 E. apply (Hno u0 Hu0). by right.
Qed.

(** ** CreateOrganizations *)
Definition org_taken (caller : User) (name : string) s (y : PbOrganization) s' : Prop :=
  exists o, is_name 3 39 name /\ (forall o, o ∈ t_orgs (tables s) -> Org_Name o <> name) /\
    Org_Name o = name /\ po_Id y = Org_ID o /\ po_Name y = name /\
    t_orgs (tables s') ≡ₚ o :: t_orgs (tables s) /\
    t_members (tables s') ≡ₚ mkOrgMember (Org_ID o) (User_ID caller) OrgRoleAdmin :: t_members (tables s) /\
    tables s' = set_members (t_members (tables s')) (set_orgs (t_orgs (tables s')) (tables s)) /\ blobs s' = blobs s.

Definition org_refused (name : string) s (e : ConnectError) : Prop :=
  (~ is_name 3 39 name /\ ce_code e = CodeInvalidArgument) \/
  (is_name 3 39 name /\ (exists o, o ∈ t_orgs (tables s) /\ Org_Name o = name) /\
   e = NewError CodeAlreadyExists ("organization already exists: " +:+ name)).

Lemma createOrganizations_value caller acc name s :
  members_placed (tables s) ->
  awp md (CreateOrganizations_value caller acc name) (fun o s' =>
     (exists e, o = Fail e /\ s' = s /\ org_refused name s e) \/
     (exists y, o = Done (acc ++ [y])%list /\ org_taken caller name s y s' /\ members_placed (tables s'))) s.
Proof using Hstrict Hlive.
  intros Hpl. unfold CreateOrganizations_value.
  apply awp_guard; [intros Hn%ownerName_check|intros Hn%(check_of _ _ _ (ownerName_check name))].
  2:{ left. eexists. split; [done|]. split; [done|]. by left. }
  wp_read x Hx. destruct (gets_cases _ _ _ _ Hx) as [(o0 & -> & _ & Ho0 & En)|(e & -> & Hnone)].
  { left. eexists. split; [done|]. split; [done|]. right. eauto. }
  destruct (Hnone Hlive) as [_ Hno]. clear Hnone Hx.
  apply awp_perform. intros id s2 (-> & _ & Hid & _). apply awp_perform. intros now s3 [-> _]. cbv zeta.
  apply awp_write. intros e1 t' (l' & -> & Hcr). destruct e1 as [e1|].
  { exfalso. destruct Hcr as [_ Hc]. destruct (Hc Hlive) as (_ & o0 & Ho0 & [Ei|En]); [|by destruct (Hno o0 Ho0)].
    destruct Hid as (_ & Hid & _). by destruct (Hid o0 Ho0). }
  apply awp_check; [intros _|done]. destruct Hcr as [(o & (t & _ & ->) & Hp) _].
  apply awp_write. intros e2 t' (ms & -> & Hm). simpl in Hm. destruct e2 as [e2|].
  { exfalso. destruct Hm as [_ Hm]. destruct (Hm Hlive) as (_ & m & Hin & E1 & E2). simpl in E1.
    destruct (Hpl m Hin) as (o0 & Ho0 & E). destruct Hid as (_ & Hid & _). apply (Hid o0 Ho0). congruence. }
  apply awp_check; [intros _|done]. apply (awp_ret md). destruct Hm as [(m' & -> & Hpm) _].
  right. eexists. split; [reflexivity|]. split; [by exists (mkOrg id name t)|].
  intros m. simpl. rewrite Hpm. intros [->|Hin]%elem_of_cons; [exists (mkOrg id name t)|].
  - split; [rewrite Hp; by left|done].
  - destruct (Hpl m Hin) as (o0 & Ho0 & E). exists o0. split; [rewrite Hp; by right|done].
Qed.

Section Authorized.
Context `{Authorizer} `{!AuthorizerOk md}.

(** A decision that is neither wrong nor missing. *)
Lemma awp_decides {B} (check_ : forall E, H E bool) (may : Tables -> Prop) (f : bool -> H ConnectError B) Q s :
  decides md check_ may -> unique_keys (tables s) ->
  (may (tables s) -> awp md (f true) Q s) -> (~ may (tables s) -> awp md (f false) Q s) ->
  awp md (check_ ConnectError ≫= f) Q s.
Proof using Hlive.
  intros Hd Huk Ht Hf. apply awp_bind. eapply awp_mono; [apply Hd|]. intros o s1 [-> (b & -> & Hyes & Hno)]. cbn [after].
  destruct b; [by apply Ht, Hyes|]. apply Hf. intros Hm. by specialize (Hno Hlive Huk Hm).
Qed.

(** ** CreateModules *)

(** The identifier reported for a module's owner. *)
Definition owner_id (t : Tables) (m : Mod) (i : string) : Prop :=
  if streq (Mod_OwnerType m) OwnerTypeUser
  then (exists u, u ∈ t_users t /\ User_Username u = Mod_OwnerName m /\ i = User_ID u) \/
       ((forall u, u ∈ t_users t -> User_Username u <> Mod_OwnerName m) /\ i = "")
  else (exists o, o ∈ t_orgs t /\ Org_Name o = Mod_OwnerName m /\ i = Org_ID o) \/
       ((forall o, o ∈ t_orgs t -> Org_Name o <> Mod_OwnerName m) /\ i = "").

Lemma ownerID_found {E} m s :
  awp md (resolveOwnerIDHelper m : H E string) (fun o s' => s' = s /\ exists i, o = Done i /\ owner_id (tables s) m i) s.
Proof using Hlive.
  unfold resolveOwnerIDHelper, owner_id. destruct (streq _ _).
  - wp_read x Hx. destruct (gets_cases _ _ _ _ Hx) as [(u & -> & -> & Hu & En)|(e & -> & Hn)].
    + split; [done|]. eexists. split; [done|]. left. eauto.
    + destruct (Hn Hlive) as [_ Hno]. split; [done|]. eexists. split; [done|]. by right.
  - wp_read x Hx. destruct (gets_cases _ _ _ _ Hx) as [(u & -> & -> & Hu & En)|(e & -> & Hn)].
    + split; [done|]. eexists. split; [done|]. left. eauto.
    + destruct (Hn Hlive) as [_ Hno]. split; [done|]. eexists. split; [done|]. by right.
Qed.

Abbreviation owner_of v := (resolveOwnerRefName (cm_OwnerRef v)).

Definition module_taken (caller : User) (v : CreateModuleValue) s (y : PbModule) s' : Prop :=
  exists m i, may_create (tables s) (User_ID caller) (owner_of v) /\ is_name 2 39 (cm_Name v) /\
    (forall m, m ∈ t_modules (tables s) -> ~ owned_as (owner_of v) (cm_Name v) m) /\
    owned_as (owner_of v) (cm_Name v) m /\ Mod_OwnerType m = resolveOwnerTypeFromName caller (owner_of v) /\
    (Mod_Visibility m = VisibilityPublic <-> cm_Visibility v = MODULE_VISIBILITY_PUBLIC) /\
    pm_Id y = Mod_ID m /\ pm_Name y = cm_Name v /\ pm_OwnerId y = i /\ owner_id (tables s') m i /\
    t_modules (tables s') ≡ₚ m :: t_modules (tables s) /\
    tables s' = set_modules (t_modules (tables s')) (tables s) /\ blobs s' = blobs s.

Definition module_refused (caller : User) (v : CreateModuleValue) s (e : ConnectError) : Prop :=
  (~ may_create (tables s) (User_ID caller) (owner_of v) /\ ce_code e = CodePermissionDenied) \/
  (may_create (tables s) (User_ID caller) (owner_of v) /\ ~ is_name 2 39 (cm_Name v) /\ ce_code e = CodeInvalidArgument) \/
  (may_create (tables s) (User_ID caller) (owner_of v) /\ is_name 2 39 (cm_Name v) /\
   (exists m, m ∈ t_modules (tables s) /\ owned_as (owner_of v) (cm_Name v) m) /\ ce_code e = CodeAlreadyExists).

Lemma createModules_value caller acc v s :
  unique_keys (tables s) ->
  awp md (CreateModules_value caller acc v) (fun o s' =>
     (exists e, o = Fail e /\ s' = s /\ module_refused caller v s e) \/
     (exists y, o = Done (acc ++ [y])%list /\ module_taken caller v s y s' /\ unique_keys (tables s'))) s.
Proof using Hstrict Hlive AuthorizerOk0.
  intros Huk. unfold CreateModules_value. cbv zeta.
  apply (awp_decides (fun E => CanCreateModule _ _) _ _ _ _ (create_ok _ _)); [done|intros Hmay|intros Hmay].
  2:{ left. eexists. split; [done|]. split; [done|]. by left. }
  apply awp_guard; [intros _|done].
  apply awp_guard; [intros Hn%moduleName_check|intros Hn%(check_of _ _ _ (moduleName_check (cm_Name v)))].
  2:{ left. eexists. split; [done|]. split; [done|]. right; by left. }
  wp_read x Hx. destruct (gets_cases _ _ _ _ Hx) as [(m & -> & _ & Hm & Ho)|(e & -> & Hnone)].
  { left. eexists. split; [done|]. split; [done|]. right; right. eauto 10. }
  destruct (Hnone Hlive) as [_ Hno]. clear Hnone Hx.
  apply awp_perform. intros id s2 (-> & _ & Hid & _). apply awp_perform. intros now s3 [-> _].
  apply awp_write. intros e1 t' (l' & -> & Hcr). destruct e1 as [e1|].
  { exfalso. destruct Hcr as [_ Hc]. destruct (Hc Hlive) as (_ & m & Hm & [Ei|[E1 E2]]).
    - destruct Hid as (_ & _ & Hid & _). by destruct (Hid m Hm).
    - apply (Hno m Hm). by split. }
  apply awp_check; [intros _|done]. destruct Hcr as [(m & (t & vis & _ & Hvis & ->) & Hp) _].
  apply awp_bind. eapply awp_mono; [apply ownerID_found|]. intros o s1 [-> (i & -> & Hi)]. apply (awp_ret md).
  right. eexists. split; [reflexivity|]. split; [|by destruct Huk].
  eexists _, i. simpl in Hvis. do 3 (split; [done|]).
  split; [|split; [|split; [|split; [|split; [|split; [|split; [|split; [exact Hp|done]]]]]]]]; try done.
  simpl. destruct Hvis as [->|[E _]]; destruct (cm_Visibility v); split; done.
Qed.

(** ** CreateOrUpdateLabels *)
Definition label_taken (caller : User) (v : LabelValue) s (y : PbLabel) s' : Prop :=
  exists n m, lv_LabelRef v = Some (LabelRef_Name n) /\ m ∈ t_modules (tables s) /\
    owned_as (ln_Owner n) (ln_Module n) m /\ may_admin (tables s) (User_ID caller) m /\
    has_commit (tables s) (Mod_ID m) (lv_CommitId v) /\
    labelled s' (Mod_ID m) (ln_Label n) (lv_CommitId v) /\
    labels_kept s s' (Mod_ID m) (fun l => l = ln_Label n) /\
    pl_Name y = ln_Label n /\ pl_ModuleId y = Mod_ID m /\ pl_CommitId y = lv_CommitId v /\
    tables s' = set_labels (t_labels (tables s')) (tables s) /\ blobs s' = blobs s.

Definition label_refused (caller : User) (v : LabelValue) s (e : ConnectError) : Prop :=
  ((forall n, lv_LabelRef v <> Some (LabelRef_Name n)) /\ ce_code e = CodeInvalidArgument) \/
  exists n, lv_LabelRef v = Some (LabelRef_Name n) /\
    (((forall m, m ∈ t_modules (tables s) -> ~ owned_as (ln_Owner n) (ln_Module n) m) /\ e = module_not_found) \/
     exists m, m ∈ t_modules (tables s) /\ owned_as (ln_Owner n) (ln_Module n) m /\
       ((~ may_admin (tables s) (User_ID caller) m /\ ce_code e = CodePermissionDenied) \/
        (~ has_commit (tables s) (Mod_ID m) (lv_CommitId v) /\ ce_code e = CodeInvalidArgument))).

Lemma createOrUpdateLabels_value caller acc v s :
  unique_keys (tables s) ->
  awp md (CreateOrUpdateLabels_value caller acc v) (fun o s' =>
     (exists e, o = Fail e /\ s' = s /\ label_refused caller v s e) \/
     (exists y, o = Done (acc ++ [y])%list /\ label_taken caller v s y s' /\ unique_keys (tables s'))) s.
Proof using Hstrict Hlive AuthorizerOk0.
  intros Huk. unfold CreateOrUpdateLabels_value.
  destruct (lv_LabelRef v) as [[i|n|]|] eqn:Ev; try (left; eexists; split; [done|]; split; [done|]; left; split; [congruence|done]).
  wp_read x Hx. wp_get Hx; [|intros Hn|intros ? ?; congruence].
  2:{ left. eexists. split; [done|]. split; [done|]. right. eauto. }
  intros m Hm Ho.
  apply (awp_decides (fun E => CanAdminModule _ _) _ _ _ _ (admin_ok _ _)); [done|intros Hmay|intros Hmay].
  2:{ left. eexists. split; [done|]. split; [done|]. right. eauto 10. }
  apply awp_guard; [intros _|done].
  wp_read y Hy. destruct (gets_cases _ _ _ _ Hy) as [(c & -> & _ & Hc & Hat)|(e & -> & Hn)].
  2:{ apply awp_check; [done|]. intros e0 _. destruct (Hn Hlive) as [_ Hno]. left. eexists. split; [done|]. split; [done|].
      right. exists n. split; [done|]. right. exists m. do 2 (split; [done|]). right. split; [|done]. by apply no_witness. }
  apply awp_check; [intros _|done].
  apply awp_perform. intros now s3 [-> _]. apply awp_perform. intros id s2 (-> & _ & Hid & _). cbv zeta.
  apply awp_write. intros e1 t' (l' & -> & Hu). destruct e1 as [e1|].
  { exfalso. destruct Hu as (_ & Hc'). destruct (Hc' Hlive) as (_ & l & Hl & Ei). destruct Hid as (_ & _ & _ & Hl' & _).
    by apply (Hl' l). }
  apply awp_check; [intros _|done]. apply awp_bind. eapply awp_mono; [apply ownerID_found|].
  intros o s1 [-> (i & -> & _)]. apply (awp_ret md). right. eexists. split; [reflexivity|]. split; [|by destruct Huk].
  exists n, m. do 4 (split; [done|]). split; [by exists c|]. split; [|split; [|done]].
  - eapply (labelled_upsert md Hstrict _ s); [exact Hu|]. by right.
  - intros l Hl. assert (Label_key l <> (Mod_ID m, ln_Label n)) as Hne by (unfold Label_key; intros [= E1 E2]; by apply Hl).
    split; intros Hin; [exact (upserted_other md _ _ _ _ Hu Hin Hne)|].
    destruct Hu as (_ & _ & Hk & _). exact (Hk l Hin Hne).
Qed.

(** C27. Creating modules and moving labels over Connect, on a SQL backend that does
    not fail.  An unauthenticated caller is
    refused; otherwise the values are handled in order up to the first one refused.
    A module is created for its owner or an admin of the owning organization, under
    a name of 2 to 39 bytes that is free; a label of an existing module is created,
    or moved, by its owner or an admin, to a commit of that module, and every other
    label stays.  Each refusal has its code and changes nothing, and the values
    before it stay as they were stored. *)
Theorem module_writes_are_batches ctx s :
  unique_keys (tables s) ->
  (forall values, awp md (CreateModules ctx values) (fun o s' =>
     match ctx with
     | None => o = Fail (NewError CodeUnauthenticated "not authenticated") /\ s' = s
     | Some caller => batch (module_taken caller) (module_refused caller) values s o s'
     end) s) /\
  (forall values, awp md (CreateOrUpdateLabels ctx values) (fun o s' =>
     match ctx with
     | None => o = Fail (NewError CodeUnauthenticated "not authenticated") /\ s' = s
     | Some caller => batch (label_taken caller) (label_refused caller) values s o s'
     end) s).
Proof using Hstrict Hlive AuthorizerOk0.
  intros Huk. split; intros values.
  - destruct ctx as [caller|]; [|done]. eapply awp_mono; [|intros o s'; apply batch_from_nil].
    apply (awp_batch _ _ md (fun s => unique_keys (tables s))); [intros; by apply createModules_value|done].
  - destruct ctx as [caller|]; [|done]. eapply awp_mono; [|intros o s'; apply batch_from_nil].
    apply (awp_batch _ _ md (fun s => unique_keys (tables s))); [intros; by apply createOrUpdateLabels_value|done].
Qed.
End Authorized.

(** C28. Creating organizations and users over Connect, value by value, on a SQL
    backend that does not fail (MongoDB would store a taken name again).  An organization
    takes a free name of 3 to 39 bytes and its creator as its only member, an
    admin; a user, while registration is open, takes a free name and gets no
    password; whichever value is refused first - a malformed name, a name taken, also
    by a value before it - ends the request and leaves what was created. *)
Theorem owner_writes_are_batches ctx openReg s :
  (members_placed (tables s) ->
   forall names, awp md (CreateOrganizations ctx names) (fun o s' =>
     match ctx with
     | None => o = Fail (NewError CodeUnauthenticated "not authenticated") /\ s' = s
     | Some caller => batch (org_taken caller) org_refused names s o s'
     end) s) /\
  (forall names, awp md (CreateUsers openReg names) (fun o s' =>
     if openReg then batch user_taken user_refused names s o s'
     else o = Fail (NewError CodePermissionDenied "registration is closed") /\ s' = s) s).
Proof using Hstrict Hlive.
  split; [intros Hpl names|intros names].
  - destruct ctx as [caller|]; [|done]. eapply awp_mono; [|intros o s'; apply batch_from_nil].
    apply (awp_batch _ _ md (fun s => members_placed (tables s))); [intros; by apply createOrganizations_value|done].
  - destruct openReg; [|done]. eapply awp_mono; [|intros o s'; apply batch_from_nil].
    apply (awp_batch _ _ md (fun _ => True)); [intros; by apply createUsers_value|done].
Qed.
End Writes.
