(* ===== verification/Witnesses.v ===== *)
(** * Witnesses

    The theorems applied to the running registry of Scenario and to the
    executable instances: every group of hypotheses holds there. *)
From S2P Require Import Prelude GoStd Sha256 Regex Model RateLimit Paths Mux Iface Gorm Sql Prog World Storage Auth Authz ModuleApi UploadApi OwnerApi RestApi Server Routes Panics Config Access Instances Scenario Integrity References Keys Owners Session Content Privacy Work Answers Process Batches.
From S2P Require Mongo MongoWorld.

(** ** Integrity *)
Definition push_request (files : list File) : prog () :=
  discard (connect_request tok (fun ctx => Upload ctx [push "alice" "demo" files])).

Lemma push_request_served files : Serves false (push_request files).
Proof. apply serve_connect. eexists. constructor. Qed.

Lemma registry_integrity : integrity registry_state.
Proof.
  split.
  - apply Forall_forall. vm_compute. repeat constructor; discriminate.
  - intros l Hl. by apply elem_of_nil in Hl.
  - intros c Hc. by apply elem_of_nil in Hc.
  - intros a b d _ Hd. change ((∅ : gmap string bytes) !! key_of a b = Some d) in Hd. by rewrite lookup_empty in Hd.
Qed.

(** Two pushes of the same files, the second run between two operations of the
    first: both end, one commit is stored and its label and blob with it. *)
Lemma interleaving_keeps_integrity_witness :
  let '(p1, w1) := run_n 8 (push_request hello) registry in
  let '(q1, w2) := run_n 100 (push_request hello) w1 in
  let '(p2, w3) := run_n 100 p1 w2 in
  (length (t_commits (sql_tables (w_db w3))), length (t_labels (sql_tables (w_db w3))), size (w_blobs w3))
    = (1, 1, 1)%nat /\
  integrity (view w3) /\ grows registry_state (view w3).
Proof.
  pose proof (interleaved (any_mode true true epoch) (Serves false) 8 100 100 (push_request hello) (push_request hello) registry
    (push_request_served hello) (push_request_served hello)) as Hsteps.
  pose proof (fun s ps s' => interleaving_keeps_integrity (any_mode true true epoch) eq_refl false s ps s') as Hi.
  destruct (run_n 8 (push_request hello) registry) as [p1 w1] eqn:E1.
  destruct (run_n 100 (push_request hello) w1) as [q1 w2] eqn:E2.
  destruct (run_n 100 p1 w2) as [p2 w3] eqn:E3.
  split; [|exact (Hi _ _ _ registry_integrity Hsteps)].
  assert (w3 = (run_n 100 (run_n 8 (push_request hello) registry).1
    (run_n 100 (push_request hello) (run_n 8 (push_request hello) registry).2).2).2) as ->.
  { rewrite E1. cbn [fst snd]. rewrite E2. cbn [fst snd]. by rewrite E3. }
  vm_compute. reflexivity.
Defined.

(** Its keys are unique. *)
Lemma registry_keys : keys_unique (tables registry_state).
Proof.
  split; [apply registry_unique|..]; apply unique_on_Forall; vm_compute; repeat constructor; intuition congruence.
Qed.

(** The references: here the second request creates an organization while the
    first logs in. *)
Lemma registry_references : references (tables registry_state).
Proof.
  split.
  - intros m Hm. repeat (apply elem_of_cons in Hm as [->|Hm]); [..|by apply elem_of_nil in Hm];
      (split; [exists acme; split; [by left|done]|]); [exists alice|exists bob]; (split; [vm_compute; set_solver|done]).
  - intros k Hk. repeat (apply elem_of_cons in Hk as [->|Hk]); [|by apply elem_of_nil in Hk].
    exists alice. split; [vm_compute; set_solver|done].
  - intros c Hc. by apply elem_of_nil in Hc.
  - intros l Hl. by apply elem_of_nil in Hl.
Qed.

Definition login_request : prog () :=
  discard (Middleware "" (fun _ => login (Some (mkCredentials "alice" "password"))) background).
Definition org_request : prog () :=
  discard (Middleware tok (fun ctx => createOrg ctx (Some "newcorp")) background).

Lemma interleaving_keeps_references_witness :
  let '(p1, w1) := run_n 3 login_request registry in
  let '(q1, w2) := run_n 100 org_request w1 in
  let '(p2, w3) := run_n 100 p1 w2 in
  (length (t_tokens (sql_tables (w_db w3))), length (t_members (sql_tables (w_db w3)))) = (2, 3)%nat /\
  references (tables (view w3)) /\ stays (tables registry_state) (tables (view w3)).
Proof.
  pose proof (interleaved (any_mode true true epoch) (Serves false) 3 100 100 login_request org_request registry
    (serve_rest false _ _ (ex_intro _ _ (rt_login _ _))) (serve_rest false _ _ (ex_intro _ _ (rt_create_org _ _)))) as Hsteps.
  pose proof (fun s ps s' => interleaving_keeps_references (any_mode true true epoch) false s ps s') as Hi.
  destruct (run_n 3 login_request registry) as [p1 w1] eqn:E1.
  destruct (run_n 100 org_request w1) as [q1 w2] eqn:E2.
  destruct (run_n 100 p1 w2) as [p2 w3] eqn:E3.
  split; [|exact (Hi _ _ _ registry_references Hsteps)].
  assert (w3 = (run_n 100 (run_n 3 login_request registry).1 (run_n 100 org_request (run_n 3 login_request registry).2).2).2) as ->.
  { rewrite E1. cbn [fst snd]. rewrite E2. cbn [fst snd]. by rewrite E3. }
  vm_compute. reflexivity.
Defined.

(** ** Routing *)

(** A decoder of bodies that hold their one value as it is. *)
#[local] Instance plain_json : Json_decoder := {|
  json_credentials b := Some (mkCredentials b "password");
  json_note := Some; json_org_name := Some;
  json_member b := Some (mkMemberRequest b "member");
  json_module b := Some (mkCreateModuleRequest "alice" b "public") |}.

(** A generated handler that knows one message: a push of the body to alice's module. *)
#[local] Instance plain_connect : Connect_decoder := {|
  called_method service r := if streq (rq_Path r) ("/" +:+ service +:+ "/Upload") then Some "Upload" else Some "DeleteModules";
  GetCurrentUserRequest _ := Some ();
  GetOwnersRequest _ := None; GetOrganizationsRequest _ := None; CreateOrganizationsRequest _ := None;
  GetUsersRequest _ := None; CreateUsersRequest _ := None; GetModulesRequest _ := None; ListModulesRequest _ := None;
  CreateModulesRequest _ := None;
  UploadRequest r := Some [push "alice" "demo" [mkFile "a.proto" (rq_Body r)]];
  DownloadRequest _ := None; GetCommitsRequest _ := None; ListCommitsRequest _ := None; GetLabelsRequest _ := None;
  ListLabelsRequest _ := None; CreateOrUpdateLabelsRequest _ := None; GetFileDescriptorSetRequest _ := None |}.

(** An upload reaches [Upload]; a method no service defines reaches its stub. *)
Definition upload_path : string := "/buf.registry.module.v1.UploadService/Upload".
Definition delete_path : string := "/buf.registry.module.v1.ModuleService/DeleteModules".

Example calls_dispatch :
  httpHandler false (the_mux false) (mkRequest "POST" upload_path "" tok "10.0.0.1:5000" "syntax") =
    discard (connect_request tok (fun ctx => Upload ctx [push "alice" "demo" [mkFile "a.proto" "syntax"]])) /\
  httpHandler false (the_mux false) (mkRequest "POST" delete_path "" tok "10.0.0.1:5000" "") =
    discard (connect_request tok (Unimplemented "buf.registry.module.v1.ModuleService.DeleteModules")).
Proof. by split. Qed.

Lemma requests_are_served_witness :
  exists mux, new_mux false = Some mux /\
  let r := mkRequest "DELETE" "/no/such/path" "" tok "10.0.0.1:5000" "" in
  Serves false (httpHandler false mux r) /\
  ServeMux_handler mux (rq_Method r) (rq_Path r) <> NotAllowed /\ ServeMux_handler mux (rq_Method r) (rq_Path r) <> NoPattern.
Proof.
  destruct (requests_are_served false) as (mux & Hmux & _ & Hr). exists mux. split; [exact Hmux|]. intros r.
  destruct (Hr r) as [Hs Hd]. split; [exact Hs|]. apply Hd. discriminate.
Defined.

Lemma calls_arrive_witness :
  httpHandler false (the_mux false) (call_request tok "10.0.0.1:5000" (GetFile "alice" "a/b" "0f" "dir/x y&z.proto")) =
  discard (Middleware tok (call_handler false (GetFile "alice" "a/b" "0f" "dir/x y&z.proto")) background).
Proof.
  apply (calls_arrive false (the_mux false)); [apply new_mux_ok|]. repeat constructor; discriminate.
Defined.

(** ** Storage *)
Lemma localstore_is_store_witness :
  @StoreOk false os (local_Store "/srv" (NewLocalStore "./data/modules")) no_cut /\
  @StoreOk true os (local_Store "/srv" (NewLocalStore "./data/modules")) (local_live "/srv" (NewLocalStore "./data/modules")) /\
  local_live "/srv" (NewLocalStore "./data/modules") (mkOs ∅ []).
Proof.
  destruct (localstore_is_store "/srv" eq_refl (NewLocalStore "./data/modules") ltac:(vm_compute; discriminate)) as [H1 H2].
  split; [exact H1|split; [exact H2|]].
  split; [reflexivity|split; intros; cbn [nodes]; rewrite lookup_empty; [intros [? [=]]..|discriminate]].
Defined.

Lemma safePath_contained_witness :
  match safePath (Some "/srv") (NewLocalStore "./data/modules") "../../../etc/passwd" with
  | inr p => exists below, p = canonical (root_path "/srv" (NewLocalStore "./data/modules") ++ below) /\ Forall good below
  | inl e => e = SErrInvalidPath
  end.
Proof. refine (safePath_contained "/srv" _ (NewLocalStore "./data/modules") "../../../etc/passwd"). reflexivity. Defined.

Lemma s3store_is_map_witness : @StoreOk true _ (s3_Store (mkS3Store "openbsr" "modules/")) (fun _ => True).
Proof. exact (s3store_is_map (mkS3Store "openbsr" "modules/") true (map_s3_ok true)). Defined.

(** The blobs table over lists. *)
#[export, refine] Instance mem_blobs : MemTables blob_table := {|
  mem := list Blob;
  mem_get R t m := match t in blob_table R return list R with blob_rows => m end;
  mem_put R t l m := match t in blob_table R return list R -> list Blob with blob_rows => fun l => l end l |}.
Proof.
  - intros R t l m. by destruct t.
  - intros R R' t t' l m Ht. destruct t, t'. by destruct Ht.
Defined.

Lemma dbstore_is_map_witness : @StoreOk true _ (db_Store 5) one_row_per_key.
Proof. exact (dbstore_is_map 5 true (mem_gorm_ok true)). Defined.

(** A user whose name is taken is not stored, and the answer says so. *)
Lemma sql_implements_repositories_witness :
  let d : @handle sql_table mem_gorm := registry_db in
  let o := Users_Create (mkUser "c1" "alice" "" 9) in
  let '(e, d') := Repos 9 o d in
  is_Some e /\ repo_spec (any_mode true true epoch) o (sql_tables d) e (sql_tables d').
Proof.
  intros d o. pose proof (@sql_implements_repositories mem_gorm true epoch None (fun _ => True) (mem_gorm_ok true) 9 _ o d) as Hs.
  revert Hs. destruct (Repos 9 o d) as [e d'] eqn:E. intros Hs. split; [|exact Hs].
  vm_compute in E. injection E as <- _. by eexists.
Defined.

Definition mongo_alice : MongoWorld.mongo_mem := MongoWorld.mkMongoMem [alice] [acme] [] [demo] [] [] [].

(** On MongoDB the same insertion succeeds. *)
Lemma mongo_implements_repositories_witness :
  let driver := MongoWorld.mem_mongo false in
  let o := Users_Create (mkUser "c1" "alice" "" 9) in
  let '(e, d') := Mongo.Repos 9 o (mongo_alice : Mongo.database) in
  e = None /\ repo_spec (any_mode false true epoch) o (Mongo.mongo_tables (mongo_alice : Mongo.database)) e (Mongo.mongo_tables d').
Proof.
  intros driver o. pose proof (@Mongo.mongo_implements_repositories driver true epoch None (fun _ => True) (MongoWorld.mem_mongo_ok false) 9 _ o mongo_alice) as Hs.
  revert Hs. destruct (Mongo.Repos 9 o _) as [e d'] eqn:E. intros Hs. split; [|exact Hs].
  vm_compute in E. by injection E as <- _.
Defined.

Lemma mongo_duplicate_member_survives_witness :
  let driver := MongoWorld.mem_mongo false in
  let '(e1, d1) := Mongo.OrgStore_AddMember "0a" "a1" "admin" (mongo_alice : Mongo.database) in
  let '(e2, d2) := Mongo.OrgStore_AddMember "0a" "a1" "member" d1 in
  let '(e3, d3) := Mongo.OrgStore_RemoveMember "0a" "a1" d2 in
  let '(x, _) := Mongo.OrgStore_GetMember "0a" "a1" d3 in
  e1 = None /\ e2 = None /\ e3 = None /\ err x = None /\ is_Some (val x).
Proof.
  intros driver.
  exact (@Mongo.mongo_duplicate_member_survives driver true (fun _ => True) (MongoWorld.mem_mongo_ok false) "0a" "a1" "admin" "member"
    mongo_alice eq_refl).
Defined.

(** ** Requests *)
Abbreviation md := (any_mode true true epoch).

Lemma tok_presents raw : presents tok raw -> raw = "tok".
Proof. unfold presents, tok. intros [E _]. symmetry. by injection E. Qed.

Lemma tok_is_alice u : identifies epoch (tables registry_state) tok u -> u = alice.
Proof.
  intros (raw & k & _ & Hk & _ & Hu & Hid & _). apply list_elem_of_singleton in Hk. subst k.
  cbn in Hid, Hu. rewrite !elem_of_cons in Hu. destruct Hu as [->|[->|Hu]]; [done|done|by apply elem_of_nil in Hu].
Qed.

(** The stored token runs requests as alice, and only as alice. *)
Lemma connect_request_authenticates_witness :
  awp md (connect_request tok (fun ctx => mret ctx))
    (fun o _ => o = Done (Some alice) \/ exists e, o = Fail e) registry_state.
Proof.
  apply (connect_request_authenticates md tok).
  - intros Hno. exfalso. by apply (Hno "tok").
  - intros u Hu. apply (awp_ret md). left. f_equal. f_equal. exact (tok_is_alice u Hu).
  - intros raw e _ _. right. by exists e.
Defined.

Lemma connect_request_complete_witness :
  awp md (connect_request tok (fun ctx => mret ctx)) (fun o _ => o = Done (Some alice)) registry_state.
Proof.
  refine (connect_request_complete md eq_refl tok "tok" registry_state
    (tokenToModel (mkTokenRow "f1" "a1" (HashToken "tok") "laptop" None 10)) alice _ _ eq_refl _ _ eq_refl _
    (fun ctx => mret ctx) _ eq_refl _).
  - by split.
  - by left.
  - intros k' Hk _. by apply list_elem_of_singleton in Hk.
  - by left.
  - intros u Hu E. simpl in Hu. rewrite !elem_of_cons in Hu. destruct Hu as [->|[->|Hu]]; [done|done|by apply elem_of_nil in Hu].
  - intros (e & now & [=] & _).
Defined.

Lemma served_requests_are_authorized_witness :
  aw md (request_allowed md false [push "alice" "demo" hello] (fun _ => False) tok registry_state)
    (connect_request tok (fun ctx => Upload ctx [push "alice" "demo" hello])) (fun _ _ => True) registry_state /\
  aw md (request_allowed md false [] (fun _ => False) tok registry_state)
    (connect_request tok (fun ctx => CreateOrUpdateLabels ctx [mkLabelValue None "00"])) (fun _ _ => True) registry_state /\
  aw md (request_allowed md false [] (knows (Some (mkCredentials "bob" "hunter22"))) tok registry_state)
    (Middleware tok (fun _ => login (Some (mkCredentials "bob" "hunter22"))) background) (fun _ _ => True) registry_state.
Proof.
  destruct (served_requests_are_authorized md false tok registry_state) as [Hc Hr].
  split; [|split]; [apply Hc; constructor..|apply Hr; constructor].
Defined.

Lemma served_requests_never_panic_witness :
  awp md (connect_request tok (fun ctx => Download ctx [pull "alice" "demo"])) (fun o _ => o <> Panic) registry_state.
Proof. apply (served_requests_never_panic md false tok registry_state). eexists. constructor. Defined.


Lemma resolveResourceRef_functional_witness :
  awp md (resolveResourceRef (pull "alice" "demo"))
    (fun o s' => s' = registry_state /\ resolves (tables registry_state) (pull "alice" "demo") o) registry_state.
Proof. apply (resolveResourceRef_functional md). reflexivity. Defined.

(** ** Content *)
Lemma registry_modules_unique : unique_on Mod_conflict (t_modules (tables registry_state)).
Proof. apply unique_on_Forall. vm_compute. repeat constructor; intuition congruence. Qed.

Definition hello_zip : bytes := zip_encode (file_entry <$> hello).

Lemma alice_writes_demo : may_write (tables registry_state) (User_ID alice) demo.
Proof. split; [done|]. left. split; [done|]. exists alice. split; [by left|done]. Qed.

Lemma unzipFiles_bounded_witness :
  unzipFiles hello_zip = inr hello /\ total_size hello <= 50 * 1024 * 1024.
Proof.
  assert (unzipFiles hello_zip = inr hello) as Hu by (by vm_compute). split; [exact Hu|].
  exact (proj1 (unzipFiles_bounded hello_zip hello Hu)).
Defined.

(** Alice pushes, and anyone pulls, from a module that holds no commit yet. *)
Lemma push_then_pull_witness :
  awp md (cs ← Upload (Some alice) [push_content demo hello []];
          ds ← Download None [pull "alice" "demo"];
          mret (cs, ds))
    (fun o _ => exists c d, o = Done ([c], [d]) /\ push_answer registry_state demo alice hello_zip c
       /\ pc_Id (dc_Commit d) = sha256_hex hello_zip /\ pc_ModuleId (dc_Commit d) = Mod_ID demo /\ dc_Files d = hello)
    registry_state.
Proof.
  apply (push_then_pull md eq_refl eq_refl registry_state demo alice hello hello_zip registry_unique
    registry_modules_unique registry_integrity); try (by vm_compute).
  - by left.
  - exact alice_writes_demo.
  - exact text_zip_ok.
  - by left.
  - by left.
Defined.

Lemma push_then_browse_witness :
  awp md (pbind (Upload (Some alice) [push_content demo hello []]) (fun _ =>
            listFiles None "alice" "demo" (sha256_hex hello_zip))) (fun o _ => o = Done (shown_listing hello)) registry_state /\
  awp md (pbind (Upload (Some alice) [push_content demo hello []]) (fun _ =>
            getFileContent None "alice" "demo" (sha256_hex hello_zip) "README.md"))
    (fun o _ => o = Done (shown_file hello "README.md")) registry_state.
Proof.
  apply (push_then_browse md eq_refl eq_refl registry_state demo alice hello hello_zip registry_unique
    registry_modules_unique registry_integrity); try (by vm_compute).
  - by left.
  - exact alice_writes_demo.
  - exact text_zip_ok.
  - by left.
Defined.

Lemma push_functional_witness :
  awp md (Upload (Some alice) [push_content demo hello []])
    (fun o s' => exists c, o = Done [c] /\ push_answer registry_state demo alice hello_zip c
       /\ pushed md (User_ID alice) (Mod_ID demo) hello_zip registry_state s'
       /\ (forall n, names_label [] n -> labelled s' (Mod_ID demo) n (sha256_hex hello_zip))
       /\ labels_kept registry_state s' (Mod_ID demo) (names_label [])) registry_state.
Proof.
  apply (push_functional md eq_refl eq_refl registry_state demo alice hello hello_zip registry_unique
    registry_modules_unique registry_integrity); try (by vm_compute).
  - by left.
  - exact alice_writes_demo.
Defined.

(** ** Accounts *)
Lemma alice_stored : alice ∈ t_users (tables registry_state).
Proof. by left. Qed.

(** A generator that draws one identifier, whose digest is not stored. *)
Definition one_id : mode := mkMode true true epoch None (fun id => id = "abad1dea").

Lemma registry_no_collision : no_collision one_id registry_state.
Proof. intros raw k -> Hk. apply list_elem_of_singleton in Hk as ->. by vm_compute. Qed.

Lemma one_id_fresh : eff_spec one_id NewUUID registry_state "abad1dea" registry_state.
Proof.
  split; [done|]. split; [|split; [|done]].
  - split; [done|]. apply (bool_decide_unpack _). by vm_compute.
  - split_and!; apply Forall_forall; vm_compute; repeat constructor; discriminate.
Qed.

Lemma login_functional_witness :
  awp one_id (login (Some (mkCredentials "alice" "password")))
    (fun o s' => exists raw, o = Done (login_response raw alice) /\ session_opened one_id registry_state s' raw alice)
    registry_state /\
  awp one_id (login (Some (mkCredentials "alice" "letmein")))
    (fun o s' => s' = registry_state /\ o = Fail (writeErr StatusUnauthorized "invalid credentials")) registry_state.
Proof.
  split.
  - exact (proj1 (login_functional one_id eq_refl eq_refl alice "alice" "password" registry_state) registry_unique
      registry_no_collision alice_stored eq_refl eq_refl).
  - apply (login_functional one_id eq_refl eq_refl alice "alice" "letmein" registry_state). intros u Hu En. cbn in Hu.
    rewrite !elem_of_cons in Hu. destruct Hu as [->|[->|Hu]]; [reflexivity|done|by apply elem_of_nil in Hu].
Defined.

Definition carol : Credentials := mkCredentials "carol" "hunter2222".

Lemma register_then_login_witness :
  awp one_id (_ ← register true (Some carol); login (Some carol))
    (fun o s' => exists u raw, u ∈ t_users (tables s') /\ User_Username u = "carol" /\
         o = Done (login_response raw u) /\ signs_in one_id s' raw u (epoch + day)) registry_state.
Proof.
  refine (proj1 (register_then_login one_id eq_refl eq_refl carol registry_state registry_unique registry_no_collision _ _ _) _).
  - apply username_check. by vm_compute.
  - vm_compute. discriminate.
  - intros u Hu. cbn in Hu. rewrite !elem_of_cons in Hu. destruct Hu as [->|[->|Hu]]; [done|done|by apply elem_of_nil in Hu].
  - vm_compute. discriminate.
Defined.

Lemma registry_tokens_unique : unique_on Token_conflict (t_tokens (tables registry_state)).
Proof. intros a b ->%list_elem_of_singleton ->%list_elem_of_singleton _. done. Qed.

Lemma revocation_ends_token_witness :
  awp md (revokeToken (Some alice) "f1")
    (fun o s' => others_kept registry_state s' "f1" "a1" /\
       ((exists k, k ∈ t_tokens (tables registry_state) /\ Token_ID k = "f1" /\ Token_UserID k = "a1" /\
           o = Done (writeJSON StatusOK (JObj (obj [("status", "revoked")]))) /\
           forall raw, raw <> "" -> HashToken raw = Token_Hash k -> refused md s' raw) \/
        ((forall k, k ∈ t_tokens (tables registry_state) -> ~ (Token_ID k = "f1" /\ Token_UserID k = "a1")) /\
           o = Fail (writeErr StatusNotFound "token not found") /\
           t_tokens (tables s') ≡ₚ t_tokens (tables registry_state)))) registry_state.
Proof. exact (revocation_ends_token md eq_refl eq_refl alice "f1" registry_state registry_tokens_unique). Defined.

(** ** Organizations and modules *)
Lemma createModule_functional_witness :
  let req := mkCreateModuleRequest "acme" "tools" "public" in
  awp md (createModule (Some alice) (Some req)) (createModule_spec md alice req registry_state) registry_state.
Proof. exact (createModule_functional md eq_refl eq_refl alice (mkCreateModuleRequest "acme" "tools" "public") registry_state registry_unique). Defined.

Lemma registry_members_placed : members_placed (tables registry_state).
Proof.
  intros m Hm. exists acme. cbn in Hm. rewrite !elem_of_cons in Hm.
  split; [by left|]. destruct Hm as [->|[->|Hm]]; [done|done|by apply elem_of_nil in Hm].
Qed.

Lemma createOrg_functional_witness :
  awp md (createOrg (Some bob) (Some "acme")) (createOrg_spec bob "acme" registry_state) registry_state.
Proof. exact (createOrg_functional md eq_refl eq_refl bob "acme" registry_state registry_members_placed). Defined.

Lemma memberships_functional_witness :
  let req := mkMemberRequest "bob" "admin" in
  awp md (addMember (Some alice) "acme" (Some req)) (addMember_spec alice "acme" req registry_state) registry_state /\
  awp md (removeMember (Some alice) "acme" "bob") (removeMember_spec alice "acme" "bob" registry_state) registry_state.
Proof.
  destruct (memberships_functional md eq_refl eq_refl alice "acme" registry_state registry_unique) as [Ha Hr].
  split; [apply Ha|apply Hr].
Defined.

Lemma ensureAdmin_functional_witness :
  awp md (ensureAdmin (E := unit) "root" "hunter2222") (ensureAdmin_spec md "root" "hunter2222" registry_state) registry_state.
Proof. exact (ensureAdmin_functional md eq_refl "root" "hunter2222" registry_state). Defined.

(** ** Privacy *)

(** Nobody signed in may read alice's private module. *)
Lemma secret_hidden : hidden None (tables registry_state) "alice" "secret".
Proof.
  intros m Hm [Eo En]. cbn in Hm. rewrite !elem_of_cons in Hm.
  destruct Hm as [->|[->|[->|Hm]]]; [done| |done|by apply elem_of_nil in Hm].
  intros [Hv|[Hne _]]; [done|by apply Hne].
Qed.

Lemma rest_hides_private_modules_witness :
  hides md (getModule None "alice" "secret") registry_state /\
  hides md (getFileContent None "alice" "secret" "00" "README.md") registry_state.
Proof.
  destruct (rest_hides_private_modules md None "alice" "secret" "00" "README.md" registry_state secret_hidden)
    as (H1 & _ & _ & _ & _ & H2).
  split; [exact H1|]. apply H2. discriminate.
Defined.


(** ** Start-up *)
#[local] Instance willing_drivers : Drivers := {|
  gorm_DB := Dialector; gorm_Open d := inr d; AutoMigrate _ _ := None; sql_DB _ := None;
  mongo_Client := string; mongo_Connect uri := inr uri; Ping _ := None; LoadDefaultConfig _ _ _ := None |}.

Lemma default_startup_witness :
  startup true (Load (fun _ => "")) =
  inr (mkRunning (SqlDB (sqlite "./data/bsr.db?_foreign_keys=on")) (Local (mkLocalStore "./data/modules")) None false ":8080" None).
Proof. apply default_startup. repeat split. Defined.

(** ** Requests in flight *)
Section Flights.
#[local] Instance json : Json_decoder := plain_json.

(** Each step of a run is taken on a database of at most [rows] modules. *)
Fixpoint small_run (rows n : nat) (p : prog ()) (w : world) : bool :=
  match n, p with
  | O, Ret _ => true
  | S n, Vis e k =>
      (length (t_modules (tables (view w))) <=? rows)%nat &&
      let '(x, w') := run_eff e w in small_run rows n (k x) w'
  | _, _ => false
  end.

Lemma small_run_traffic rows n p w :
  small_run rows n p w = true ->
  exists w', traffic md rows false n 0 ([p], view w) ([Ret ()], view w').
Proof.
  revert p w; induction n as [|n IH]; intros [[]|X e k] w; try done.
  - intros _. exists w. constructor.
  - cbn [small_run]. intros [Hr%Nat.leb_le Hs]%andb_true_iff. pose proof (run_eff_ok X e w) as He.
    destruct (run_eff e w) as [x w1]. destruct (IH _ _ Hs) as [w' Ht]. exists w'.
    eapply tr_op; [|exact Ht]. split; [by apply (pool_op _ _ [] [])|done].
Qed.

(** A push by alice's token, served alone: it stays within the 16 operations of its
    budget, and when it can go no further it has been answered. *)
Lemma requests_finish_witness :
  exists w', traffic md 3 false 13 16 ([], registry_state) ([Ret ()], view w') /\
  (13 <= 16)%nat /\ Forall answered [Ret ()].
Proof.
  destruct (small_run_traffic 3 13 (push_request hello) registry) as [w' Hw]; [by vm_compute|].
  assert (traffic md 3 false 13 16 ([], registry_state) ([Ret ()], view w')) as Ht.
  { apply (tr_arrive _ _ _ (push_request hello) 16 [] _ _ 13 0); [|exact Hw]. apply (fl_connect _ _ _ _ 10). apply cw_upload. }
  exists w'. split; [exact Ht|].
  destruct (proj2 (requests_finish md 3 false registry_state 13 16 [Ret ()] (view w')) Ht) as [Hle Hend].
  split; [exact Hle|]. apply (Hend w' eq_refl). intros c Hs. inversion Hs as [ps1 ps2 X e k x s s' He E|]; simplify_eq; [|done].
  by destruct ps1 as [|? []].
Defined.

(** ** Answers *)
Lemma answers_are_typed_witness :
  awp md (Middleware tok (call_handler false (CreateModule "tools")) background)
    (fun o _ => kept (answer_contract (CreateModule "tools")) o) registry_state.
Proof. exact (proj1 (answers_are_typed md false tok (CreateModule "tools") registry_state)). Defined.
End Flights.

(** ** The process: start, a request that hangs, an interrupt, five seconds, the end *)
Section Run.
#[local] Instance json_bodies : Json_decoder := plain_json.
#[local] Instance connect_messages : Connect_decoder := plain_connect.
Abbreviation step := (proc_step md false (the_mux false)).

Definition default_running : Running :=
  mkRunning (SqlDB (sqlite "./data/bsr.db?_foreign_keys=on")) (InDatabase (sqlite "./data/bsr.db?_foreign_keys=on")) None false ":8080" None.

Definition at_start : process := boot default_running registry_state 0.
Definition serving : process := with_listener Listening (with_main Waiting at_start).
Definition health : Request := mkRequest "GET" "/healthz" "" tok "10.0.0.1:5000" "".
Definition hanging : process := accept false (the_mux false) health serving.
Definition interrupted : process := receive_quit (deliver hanging).
Definition stopped : process := listener_returns (Some ErrServerClosed) interrupted.
Definition late : process := with_clock 5000000000 stopped.

Lemma hanging_steps : rtc step at_start hanging.
Proof.
  eapply rtc_l; [split; [reflexivity|apply (ev_started _ _ _ _ ())]; reflexivity|].
  eapply rtc_l; [split; [reflexivity|by apply ev_listen]|].
  apply rtc_once. split; [reflexivity|]. by apply ev_request.
Qed.

(** One step each: the signal, its receipt, the listener's end, five seconds, the
    return. *)
Lemma ending_steps :
  step hanging (deliver hanging) /\ step (deliver hanging) interrupted /\ step interrupted stopped /\
  step stopped late /\ step late (main_returns late).
Proof.
  assert (pr_main hanging = Waiting /\ pr_exit hanging = None /\ pr_clock hanging = 0 /\ pr_listener hanging = Listening)
    as (Em & Ee & Ec & El) by (by vm_compute).
  split_and!; (split; [exact Ee|]).
  - apply ev_interrupt. by rewrite Em.
  - by apply ev_quit.
  - apply ev_listener_returns. unfold may_return. cbn. by rewrite El.
  - apply ev_time. cbn. by rewrite Ec.
  - apply (ev_return _ _ _ _ 0); [cbn; by rewrite Ec|]. split; [done|]. right. by vm_compute.
Qed.

Lemma whole_run : rtc step at_start (main_returns late).
Proof.
  etrans; [apply hanging_steps|]. destruct ending_steps as (H1 & H2 & H3 & H4 & H5).
  eapply rtc_l; [exact H1|]. eapply rtc_l; [exact H2|]. eapply rtc_l; [exact H3|].
  eapply rtc_l; [exact H4|]. by apply rtc_once.
Qed.

(** The request that hangs is cut off by the deadline. *)
Lemma shutdown_is_orderly_witness :
  rtc step at_start (main_returns late) /\ ~ Forall answered (pr_pool (main_returns late)) /\
  pr_exit (main_returns late) = Some Returned /\
  exists t, pr_main (main_returns late) = ShuttingDown t /\ pr_listener (main_returns late) <> Listening /\
    (Forall answered (pr_pool (main_returns late)) \/ t + 5000000000 <= pr_clock (main_returns late)).
Proof.
  split; [apply whole_run|]. split; [vm_compute; intros [[a [=]] _]%Forall_cons|]. split; [reflexivity|].
  exact (proj1 (proj2 (shutdown_is_orderly md false (the_mux false) default_running registry_state 0 _ whole_run)) eq_refl).
Defined.

(** A fair run: these steps, and then nothing. *)
Definition whole (n : nat) : process :=
  match n with
  | 0 => hanging | 1 => deliver hanging | 2 => interrupted | 3 => stopped | 4 => late | _ => main_returns late
  end%nat.

Lemma whole_fair : fair_run md false (the_mux false) whole.
Proof.
  assert (forall acts, fair whole acts) as Hf.
  { intros acts n. exists (n + 5)%nat. split; [lia|]. right; left.
    replace (whole (n + 5)) with (main_returns late) by (by rewrite Nat.add_comm). done. }
  split; [|apply Hf..|].
  - destruct ending_steps as (H1 & H2 & H3 & H4 & H5). intros [|[|[|[|[|n]]]]]; [by left..|by right].
  - intros n t. exists (n + 5)%nat. split; [lia|]. left.
    replace (whole (n + 5)) with (main_returns late) by (by rewrite Nat.add_comm). done.
Qed.


(** With the blobs in the database. *)
Definition db_env (name : string) : string := if streq name "STORAGE_DRIVER" then "db" else "".

Lemma db_main s : main true (Load db_env) s 0 = inr (the_mux false, boot default_running s 0).
Proof. unfold main. change (startup true (Load db_env)) with (@inr string Running default_running). cbv iota beta. by rewrite new_mux_ok. Qed.

Lemma data_outlives_processes_witness :
  let atomic := fun p => pr_atomic p = true in
  lives md atomic registry_state (pr_state (main_returns late)) /\
  integrity (pr_state (main_returns late)) /\ references (tables (pr_state (main_returns late))) /\
  keys_unique (tables (pr_state (main_returns late))).
Proof.
  intros atomic. assert (lives md atomic registry_state (pr_state (main_returns late))) as Hl.
  { eapply (life_now _ _ registry_state registry_state true (Load db_env) 0 (the_mux false));
      [apply life_new|apply db_main|done|apply whole_run]. }
  destruct (data_outlives_processes md atomic _ _ eq_refl Hl) as [Hr Hi].
  destruct (Hr registry_references registry_keys) as (H1 & H2 & _).
  split; [exact Hl|]. split; [|split; [exact H1|exact H2]]. by apply Hi; [|exact registry_integrity].
Defined.
End Run.

(** ** Batches: the second module's name is taken by the first *)
Definition two_modules : list CreateModuleValue :=
  [mkCreateModuleValue (Some (OwnerRef_Name "alice")) "tools" MODULE_VISIBILITY_PUBLIC;
   mkCreateModuleValue (Some (OwnerRef_Name "alice")) "tools" MODULE_VISIBILITY_PRIVATE].

Lemma module_writes_are_batches_witness :
  awp md (CreateModules (Some alice) two_modules) (batch (module_taken alice) (module_refused alice) two_modules registry_state) registry_state.
Proof. exact (proj1 (module_writes_are_batches md eq_refl eq_refl (Some alice) registry_state registry_unique) two_modules). Defined.

Lemma owner_writes_are_batches_witness :
  awp md (CreateOrganizations (Some bob) ["newcorp"; "acme"])
    (batch (org_taken bob) org_refused ["newcorp"; "acme"] registry_state) registry_state.
Proof.
  exact (proj1 (owner_writes_are_batches md eq_refl eq_refl (Some bob) true registry_state) registry_members_placed ["newcorp"; "acme"]).
Defined.
